(** * Omnicart backend: offer ranking, listing classification, fallback
      synthesis and the price-drift / alert tick

    A shallow embedding of the offer service
    ([backend/src/services/recognitionService.js], second module of the file:
    [normalizeOffer], [recommendedOfferIdForStrategy],
    [refreshWebOffersForProduct], [getRankedOffers]), of the web search
    provider ([backend/src/services/offerProviders/webSearchProvider.js])
    with the part of the SerpAPI proxy it calls, of the price monitor
    ([backend/src/services/priceMonitor.js]) and of the watchlist read path
    of the server ([buildWatchlistItemsResponse]).

    Also embedded: the
    response cache and [querySerpApi] of the SerpAPI proxy with
    [normalizeSerpOfferResults], [recognizeByTextHints] of the recognition
    service with [tokenize] and [overlapScore], and the helpers of the
    server and of the shared watchlist service ([normalizeEmail],
    [dollarsToCents], [centsToDollars], [slugifyToken],
    [vendorIdForSharedDomain]).

    Conventions of the embedding.
    - JavaScript strings are [string]s (byte strings).  Case mapping and the
      whitespace class act on the ASCII range; every marker, vendor id and
      strategy name the code compares against is ASCII.  A property that
      depends on how arbitrary text is upper-cased, lower-cased or trimmed
      is stated for text in the ASCII range ([Vocabulary.asciiOnly]), where
      these functions are the ones of the code.
    - Integer-valued numbers (cents, days, timestamps) are [Z].  A
      fractional number is a rational [Q], the exact value of a finite
      double.  Where the code compares a computed fraction with a
      threshold or prints its digits (the drop percentage of the alert
      rule, the delta of the watchlist view, the overlap score of the
      recognition, [toCents] of the web search provider) every operation
      is rounded to the nearest double ([Double]); comparing two doubles
      is comparing their values.  The drift product of the price tick, the
      fallback price and the dollar conversions of the server helpers are
      computed on exact rationals: the properties stated about them are
      bounds and relations.  Infinities and NaN do not occur for the
      numbers of this program and are not modelled.
    - [null]/[undefined] are [None]; the truthiness tests of the code
      ([x || y], [!x], [x && y]) are written out on the modelled type.
    - The Prisma tables are lists of rows in storage order; a rejected
      storage call or provider call is a [Rejected] outcome and [try/catch],
      [Promise.allSettled] are written out on outcomes. *)

From Stdlib Require Import ZArith QArith Qround Qpower List String Ascii Bool.
From Stdlib Require Import Lia Lqa Floats.SpecFloat.
From Stdlib Require Import DecimalString Sorted Permutation.
Import ListNotations.

Open Scope string_scope.
Open Scope Z_scope.

Set Implicit Arguments.

(** ** JavaScript built-ins used by the services *)

Module Js.

(** [String.prototype.includes]. *)
Fixpoint includes (u needle : string) : bool :=
  if String.prefix needle u then true
  else match u with
       | EmptyString => false
       | String _ u' => includes u' needle
       end.

Definition startsWith (u p : string) : bool := String.prefix p u.

Definition isUpper (c : ascii) : bool :=
  ((65 <=? nat_of_ascii c) && (nat_of_ascii c <=? 90))%nat.

Definition isLower (c : ascii) : bool :=
  ((97 <=? nat_of_ascii c) && (nat_of_ascii c <=? 122))%nat.

Definition isDigit (c : ascii) : bool :=
  ((48 <=? nat_of_ascii c) && (nat_of_ascii c <=? 57))%nat.

Definition lowerChar (c : ascii) : ascii :=
  if isUpper c then ascii_of_nat (nat_of_ascii c + 32) else c.

Definition upperChar (c : ascii) : ascii :=
  if isLower c then ascii_of_nat (nat_of_ascii c - 32) else c.

Fixpoint mapString (f : ascii -> ascii) (s : string) : string :=
  match s with
  | EmptyString => EmptyString
  | String c s' => String (f c) (mapString f s')
  end.

Definition toLowerCase : string -> string := mapString lowerChar.
Definition toUpperCase : string -> string := mapString upperChar.

(** The regular expression class [\s], on the ASCII range:
    tab, line feed, vertical tab, form feed, carriage return, space. *)
Definition isSpace (c : ascii) : bool :=
  let n := nat_of_ascii c in
  ((9 <=? n) && (n <=? 13) || (n =? 32))%nat.

Fixpoint trimStart (s : string) : string :=
  match s with
  | EmptyString => EmptyString
  | String c s' => if isSpace c then trimStart s' else s
  end.

Fixpoint trimEnd (s : string) : string :=
  match s with
  | EmptyString => EmptyString
  | String c s' =>
      let t := trimEnd s' in
      if isSpace c && (t =? "")%string then EmptyString else String c t
  end.

Definition trim (s : string) : string := trimEnd (trimStart s).

(** [s.replace(/\s+/g, ' ')]: every maximal run of whitespace becomes one
    space. *)
Fixpoint collapseFrom (inRun : bool) (s : string) : string :=
  match s with
  | EmptyString => EmptyString
  | String c s' =>
      if isSpace c
      then (if inRun then collapseFrom true s'
            else String " " (collapseFrom true s'))
      else String c (collapseFrom false s')
  end.

Definition collapseSpaces : string -> string := collapseFrom false.

(** Truthiness of a string: only the empty string is falsy. *)
Definition truthy (s : string) : bool := negb (s =? "")%string.

(** [s || d] on strings. *)
Definition orElse (s d : string) : string := if truthy s then s else d.

(** [s || null] on strings. *)
Definition orNull (s : string) : option string :=
  if truthy s then Some s else None.

Definition hexDigit (n : nat) : ascii :=
  match String.get n "0123456789ABCDEF" with
  | Some c => c
  | None => "0"%char
  end.

(** The characters [encodeURIComponent] leaves alone:
    letters, digits and [- _ . ! ~ * ' ( )]. *)
Definition isUnreserved (c : ascii) : bool :=
  isUpper c || isLower c || isDigit c ||
  existsb (Ascii.eqb c)
    ["-"; "_"; "."; "!"; "~"; "*"; "'"; "("; ")"]%char.

(** [encodeURIComponent] on the UTF-8 bytes of the text. *)
Fixpoint encodeURIComponent (s : string) : string :=
  match s with
  | EmptyString => EmptyString
  | String c s' =>
      if isUnreserved c then String c (encodeURIComponent s')
      else
        let n := nat_of_ascii c in
        String "%" (String (hexDigit (n / 16)) (String (hexDigit (n mod 16))
          (encodeURIComponent s')))
  end.

(** A [Set] of strings, in insertion order. *)
Definition setHas (s : list string) (v : string) : bool :=
  existsb (String.eqb v) s.

Definition setAdd (s : list string) (v : string) : list string :=
  if setHas s v then s else (s ++ [v])%list.

Definition setOf (l : list string) : list string := fold_left setAdd l [].

(** [String(n)] for an integer. *)
Definition showZ (n : Z) : string := NilEmpty.string_of_int (Z.to_int n).

Fixpoint zeros (n : nat) : string :=
  match n with
  | O => EmptyString
  | S n' => String "0" (zeros n')
  end.

(** [x.toFixed(f)]: the decimal numeral with [f] fraction digits nearest to
    [x], halves away from zero. *)
Definition toFixed (f : nat) (x : Q) : string :=
  let neg := negb (Qle_bool 0 x) in
  let ax := if neg then Qopp x else x in
  let n := Qfloor (ax * inject_Z (10 ^ Z.of_nat f) + (1 # 2))%Q in
  let ds := showZ n in
  let padded := zeros (S f - String.length ds) ++ ds in
  let k := (String.length padded - f)%nat in
  let body :=
    match f with
    | O => padded
    | _ => substring 0 k padded ++ "." ++ substring k f padded
    end in
  if neg then "-" ++ body else body.

(** [Number(x.toFixed(1))]. *)
Definition roundTo1 (x : Q) : Q :=
  let neg := negb (Qle_bool 0 x) in
  let ax := if neg then Qopp x else x in
  let n := Qfloor (ax * 10 + (1 # 2))%Q in
  if neg then Qopp (n # 10) else (n # 10).

(** [String(x)] for a non-negative number with at most one fraction digit,
    given as its count of tenths. *)
Definition showTenths (tenths : Z) : string :=
  if tenths mod 10 =? 0 then showZ (tenths / 10)
  else showZ (tenths / 10) ++ "." ++ showZ (tenths mod 10).

(** [Math.max(min, Math.min(value, max))] on integers. *)
Definition clamp (value min max : Z) : Z := Z.max min (Z.min value max).

(** [Math.round]: the nearest integer, halves towards plus infinity. *)
Definition round (x : Q) : Z := Qfloor (x + (1 # 2))%Q.

(** [Array.prototype.sort(cmp)] is a stable sort; for a comparator that is
    a consistent ordering its result is the one of this insertion sort:
    an element stays before the later elements that compare equal to it. *)
Section Sort.
Variable A : Type.
Variable cmp : A -> A -> Z.

Fixpoint insert (x : A) (l : list A) : list A :=
  match l with
  | [] => [x]
  | y :: ys => if cmp x y <=? 0 then x :: l else y :: insert x ys
  end.

Fixpoint sort (l : list A) : list A :=
  match l with
  | [] => []
  | x :: xs => insert x (sort xs)
  end.
End Sort.

End Js.

(** ** Numbers (IEEE 754 binary64) *)

Module Double.

(** A number is the exact value of a finite double.  Every arithmetic
    operation of the code returns its exact result rounded to the nearest
    double, ties to the even significand: 53 significant bits, and
    multiples of [2^-1074] in the subnormal range. *)

Definition pow2 (e : Z) : Q := Qpower 2 e.

(** The exponent [e] with [2^e <= x < 2^(e+1)], for [x > 0]. *)
Definition floorLog2 (x : Q) : Z :=
  let e := Z.log2 (Qnum x) - Z.log2 (Zpos (Qden x)) in
  if Qle_bool (pow2 e) x then e else e - 1.

(** The nearest integer, ties to the even one, for [x >= 0]. *)
Definition nearestEven (x : Q) : Z :=
  let f := Qfloor x in
  match Qcompare (x - inject_Z f) (1 # 2) with
  | Lt => f
  | Gt => f + 1
  | Eq => if Z.even f then f else f + 1
  end.

Definition roundPos (x : Q) : Q :=
  let e := Z.max (floorLog2 x - 52) (-1074) in
  (inject_Z (nearestEven (x / pow2 e)) * pow2 e)%Q.

(** The double nearest to [x]. *)
Definition round (x : Q) : Q :=
  match Qcompare x 0 with
  | Eq => 0%Q
  | Gt => roundPos x
  | Lt => Qopp (roundPos (Qopp x))
  end.

(** [a + b], [a - b], [a * b], [a / b] on doubles. *)
Definition add (a b : Q) : Q := round (a + b).
Definition sub (a b : Q) : Q := round (a - b).
Definition mul (a b : Q) : Q := round (a * b).
Definition div (a b : Q) : Q := round (a / b).

(** The same operations in the Standard Library's specification of
    floating-point arithmetic, at the parameters of binary64, to check
    [round] against. *)
Definition ofSpec (x : spec_float) : option Q :=
  match x with
  | S754_zero _ => Some 0%Q
  | S754_finite s m e =>
      let v := (inject_Z (Zpos m) * pow2 e)%Q in
      Some (if s then Qopp v else v)
  | S754_infinity _ | S754_nan => None
  end.

Definition specOfZ (z : Z) : spec_float := binary_normalize 53 1024 z 0 false.

Definition specDiv (a b : Z) : spec_float :=
  SFdiv 53 1024 (specOfZ a) (specOfZ b).

(** [((a - b) / a) * 100] on integers held as doubles. *)
Definition specDropPct (a b : Z) : spec_float :=
  SFmul 53 1024
    (SFdiv 53 1024 (SFsub 53 1024 (specOfZ a) (specOfZ b)) (specOfZ a))
    (specOfZ 100).

Definition agrees (x : spec_float) (q : Q) : bool :=
  match ofSpec x with
  | Some v => Qeq_bool v q
  | None => false
  end.

(** The pairs [(a0 + a * da, b0 + b * db)] for [a, b < n]. *)
Definition lattice (n : nat) (a0 da b0 db : Z) : list (Z * Z) :=
  flat_map
    (fun a => map (fun b => (a0 + Z.of_nat a * da, b0 + Z.of_nat b * db))
                  (seq 0 n))
    (seq 0 n).

End Double.

(** ** Outcomes of asynchronous calls *)

(** A settled promise: fulfilled with a value or rejected with an error
    (the message of the thrown [Error]). *)
Inductive outcome (A : Type) : Type :=
| Fulfilled (value : A)
| Rejected (reason : string).

Arguments Fulfilled {A} value.
Arguments Rejected {A} reason.

(** ** Data model *)

(** A row of the [Offer] table. *)
Module Offer.
Record t : Type := mk {
  id : string;
  vendorId : string;
  vendorName : string;
  productId : string;
  title : string;
  priceCents : Z;
  shippingCents : Z;
  etaDays : Z;
  inStock : bool;
  productUrl : string
}.
End Offer.

Inductive ListingType : Type := EXACT | ESTIMATED.

(** The wire shape [normalizeOffer] returns ([itemCondition] is always
    [null] and is left out). *)
Module NormalizedOffer.
Record t : Type := mk {
  id : string;
  vendorId : string;
  vendorName : string;
  productId : string;
  title : string;
  priceCents : Z;
  shippingCents : Z;
  etaDays : Z;
  inStock : bool;
  productUrl : string;
  listingVerified : bool;
  listingType : ListingType
}.
End NormalizedOffer.

Module Product.
Record t : Type := mk {
  id : string;
  title : string;
  brand : string
}.
End Product.

(** A row of the [Watchlist] table. *)
Module WatchItem.
Record t : Type := mk {
  id : string;
  userId : string;
  productId : string;
  pctDropThreshold : Q;
  targetPriceCents : option Z;
  shippingImprovementOn : bool;
  preferredOfferId : option string;
  preferredVendorId : option string;
  preferredProductUrl : option string;
  lastSeenBestPriceCents : option Z;
  lastSeenBestEtaDays : option Z;
  lastNotifiedAt : option Z
}.
End WatchItem.

(** A queued alert: the row of [PendingNotification] that
    [queueNotification] writes, with the payload before [JSON.stringify]. *)
Module Payload.
Record t : Type := mk {
  watchlistId : string;
  productId : string;
  bestOfferId : string;
  priceCents : Z;
  etaDays : Z;
  dropPct : Q
}.
End Payload.

Module PendingNotification.
Record t : Type := mk {
  userId : string;
  productId : string;
  message : string;
  type : string;
  payload : Payload.t
}.
End PendingNotification.

(** ** Storage (the Prisma client)

    The schema file is not part of the sources.  What the services rely on
    is modelled here: row ids are drawn by the storage layer (never empty),
    an offer row is unique per (productId, vendorId) — the compound key
    [productId_vendorId] the upserts address — and belongs to a stored
    product.  A call that violates a constraint, or updates a row that does
    not exist, is rejected. *)

Module Store.

Record t : Type := mk {
  products : list Product.t;
  offers : list Offer.t;
  watchlist : list WatchItem.t;
  pendingNotifications : list PendingNotification.t;
  nextId : nat
}.

(** A computation against the store: its outcome and the store it leaves.
    Writes made before a rejection stay. *)
Definition M (A : Type) : Type := t -> outcome A * t.

Definition ret {A : Type} (a : A) : M A := fun st => (Fulfilled a, st).

Definition throw {A : Type} (reason : string) : M A :=
  fun st => (Rejected reason, st).

Definition bind {A B : Type} (m : M A) (k : A -> M B) : M B :=
  fun st =>
    match m st with
    | (Fulfilled a, st') => k a st'
    | (Rejected e, st') => (Rejected e, st')
    end.

(** [try { m } catch (error) { handler(error) }]. *)
Definition tryCatch {A : Type} (m : M A) (handler : string -> M A) : M A :=
  fun st =>
    match m st with
    | (Fulfilled a, st') => (Fulfilled a, st')
    | (Rejected e, st') => handler e st'
    end.

(** One entry of [Promise.allSettled]: the call settles either way. *)
Definition settle {A : Type} (m : M A) : M (outcome A) :=
  fun st => let '(r, st') := m st in (Fulfilled r, st').

(** [Promise.allSettled] over calls issued in list order. *)
Fixpoint allSettled {A : Type} (ms : list (M A)) : M (list (outcome A)) :=
  match ms with
  | [] => ret []
  | m :: rest =>
      bind (settle m) (fun r =>
      bind (allSettled rest) (fun rs => ret (r :: rs)))
  end.

(** A pure asynchronous result awaited inside a store computation. *)
Definition await {A : Type} (r : outcome A) : M A := fun st => (r, st).

(** The id the storage layer gives the [n]-th created row. *)
Definition cuid (n : nat) : string :=
  "c" ++ NilEmpty.string_of_uint (Nat.to_uint n).

Definition sameKey (productId vendorId : string) (o : Offer.t) : bool :=
  (Offer.productId o =? productId)%string &&
  (Offer.vendorId o =? vendorId)%string.

(** [prisma.product.findUnique({ where: { id } })]. *)
Definition product_findUnique (id : string) : M (option Product.t) :=
  fun st =>
    (Fulfilled (find (fun p => (Product.id p =? id)%string) (products st)), st).

(** [prisma.offer.findMany()]. *)
Definition offer_findMany : M (list Offer.t) :=
  fun st => (Fulfilled (offers st), st).

(** [prisma.offer.findMany({ where: { productId, inStock: true } })]. *)
Definition offer_findMany_inStock (productId : string) : M (list Offer.t) :=
  fun st =>
    (Fulfilled
       (filter (fun o => (Offer.productId o =? productId)%string &&
                         Offer.inStock o) (offers st)),
     st).

Definition setOffers (st : t) (os : list Offer.t) (n : nat) : t :=
  {| products := products st;
     offers := os;
     watchlist := watchlist st;
     pendingNotifications := pendingNotifications st;
     nextId := n |}.

(** [prisma.offer.create({ data })]; the [id] of [data] is ignored and
    drawn afresh. *)
Definition offer_create (data : Offer.t) : M Offer.t :=
  fun st =>
    if existsb (sameKey (Offer.productId data) (Offer.vendorId data)) (offers st)
    then (Rejected "Unique constraint failed on the fields: (productId,vendorId)", st)
    else if negb (existsb (fun p => (Product.id p =? Offer.productId data)%string)
                    (products st))
    then (Rejected "Foreign key constraint failed on the field: productId", st)
    else
      let row :=
        {| Offer.id := cuid (nextId st);
           Offer.vendorId := Offer.vendorId data;
           Offer.vendorName := Offer.vendorName data;
           Offer.productId := Offer.productId data;
           Offer.title := Offer.title data;
           Offer.priceCents := Offer.priceCents data;
           Offer.shippingCents := Offer.shippingCents data;
           Offer.etaDays := Offer.etaDays data;
           Offer.inStock := Offer.inStock data;
           Offer.productUrl := Offer.productUrl data |} in
      (Fulfilled row, setOffers st (offers st ++ [row])%list (S (nextId st))).

(** The [update] branch of an upsert: every column but the id and the key. *)
Definition overwrite (data o : Offer.t) : Offer.t :=
  {| Offer.id := Offer.id o;
     Offer.vendorId := Offer.vendorId o;
     Offer.vendorName := Offer.vendorName data;
     Offer.productId := Offer.productId o;
     Offer.title := Offer.title data;
     Offer.priceCents := Offer.priceCents data;
     Offer.shippingCents := Offer.shippingCents data;
     Offer.etaDays := Offer.etaDays data;
     Offer.inStock := Offer.inStock data;
     Offer.productUrl := Offer.productUrl data |}.

(** [prisma.offer.upsert({ where: { productId_vendorId }, update, create })]
    where [update] and [create] carry the same columns. *)
Definition offer_upsert (data : Offer.t) : M unit :=
  fun st =>
    let key := sameKey (Offer.productId data) (Offer.vendorId data) in
    if existsb key (offers st)
    then
      (Fulfilled tt,
       setOffers st
         (map (fun o => if key o then overwrite data o else o) (offers st))
         (nextId st))
    else
      match offer_create data st with
      | (Fulfilled _, st') => (Fulfilled tt, st')
      | (Rejected e, st') => (Rejected e, st')
      end.

(** The row an [offer.update] leaves: [priceCents] and [etaDays] replaced
    on the row with the given id. *)
Definition reprice (id : string) (priceCents etaDays : Z) (o : Offer.t) : Offer.t :=
  if (Offer.id o =? id)%string
  then {| Offer.id := Offer.id o;
          Offer.vendorId := Offer.vendorId o;
          Offer.vendorName := Offer.vendorName o;
          Offer.productId := Offer.productId o;
          Offer.title := Offer.title o;
          Offer.priceCents := priceCents;
          Offer.shippingCents := Offer.shippingCents o;
          Offer.etaDays := etaDays;
          Offer.inStock := Offer.inStock o;
          Offer.productUrl := Offer.productUrl o |}
  else o.

(** [prisma.offer.update({ where: { id }, data: { priceCents, etaDays } })]. *)
Definition offer_update (id : string) (priceCents etaDays : Z) : M unit :=
  fun st =>
    if existsb (fun o => (Offer.id o =? id)%string) (offers st)
    then
      (Fulfilled tt,
       setOffers st (map (reprice id priceCents etaDays) (offers st)) (nextId st))
    else (Rejected "Record to update not found", st).

(** [prisma.watchlist.findMany({ include: { product: true } })]: every row
    with the product it references ([null] when there is none). *)
Definition watchlist_findMany : M (list (WatchItem.t * option Product.t)) :=
  fun st =>
    (Fulfilled
       (map (fun w =>
               (w, find (fun p => (Product.id p =? WatchItem.productId w)%string)
                        (products st)))
            (watchlist st)),
     st).

(** The row a [watchlist.update] leaves: the last-seen baseline and the
    notified timestamp replaced on the row with the given id. *)
Definition markNotified (id : string) (now priceCents etaDays : Z)
    (w : WatchItem.t) : WatchItem.t :=
  if (WatchItem.id w =? id)%string
  then {| WatchItem.id := WatchItem.id w;
          WatchItem.userId := WatchItem.userId w;
          WatchItem.productId := WatchItem.productId w;
          WatchItem.pctDropThreshold := WatchItem.pctDropThreshold w;
          WatchItem.targetPriceCents := WatchItem.targetPriceCents w;
          WatchItem.shippingImprovementOn := WatchItem.shippingImprovementOn w;
          WatchItem.preferredOfferId := WatchItem.preferredOfferId w;
          WatchItem.preferredVendorId := WatchItem.preferredVendorId w;
          WatchItem.preferredProductUrl := WatchItem.preferredProductUrl w;
          WatchItem.lastSeenBestPriceCents := Some priceCents;
          WatchItem.lastSeenBestEtaDays := Some etaDays;
          WatchItem.lastNotifiedAt := Some now |}
  else w.

Definition setWatchlist (st : t) (ws : list WatchItem.t) : t :=
  {| products := products st;
     offers := offers st;
     watchlist := ws;
     pendingNotifications := pendingNotifications st;
     nextId := nextId st |}.

(** [prisma.watchlist.update({ where: { id }, data: { lastNotifiedAt,
    lastSeenBestPriceCents, lastSeenBestEtaDays } })]. *)
Definition watchlist_update (id : string) (now priceCents etaDays : Z) : M unit :=
  fun st =>
    if existsb (fun w => (WatchItem.id w =? id)%string) (watchlist st)
    then
      (Fulfilled tt,
       setWatchlist st (map (markNotified id now priceCents etaDays) (watchlist st)))
    else (Rejected "Record to update not found", st).

(** [prisma.pendingNotification.create({ data })]. *)
Definition pendingNotification_create (n : PendingNotification.t) : M unit :=
  fun st =>
    (Fulfilled tt,
     {| products := products st;
        offers := offers st;
        watchlist := watchlist st;
        pendingNotifications := (pendingNotifications st ++ [n])%list;
        nextId := nextId st |}).

End Store.

Notation "x <- m ;; k" := (Store.bind m (fun x => k))
  (at level 61, m at next level, right associativity).
Notation "m ;;; k" := (Store.bind m (fun _ => k))
  (at level 61, right associativity).

(** ** Configuration (config.js): the flags the offer path reads *)

Module Config.
Record t : Type := mk {
  enableWebSearchOffers : bool;
  enableSerpApiProxy : bool;
  serpApiApiKey : string
}.
End Config.

(** ** The platform's [URL] class

    [new URL(s)] and the accessors the provider uses.  The WHATWG parser is
    the runtime's, not the repository's: it is a parameter of the model. *)

Module Url.
Record Api : Type := mk {
  U : Type;
  (** [new URL(s)]; [None] when the constructor throws. *)
  parse : string -> option U;
  protocol : U -> string;
  hostname : U -> string;
  pathname : U -> string;
  (** [u.protocol = 'https:'], [u.hash = ''], [u.search = '']. *)
  setProtocolHttps : U -> U;
  clearHash : U -> U;
  clearSearch : U -> U;
  toString : U -> string
}.
End Url.

(** ** The SerpAPI proxy (brightDataProxyService) *)

(** A price field of a provider result: absent, a number or a string. *)
Inductive JsPrice : Type :=
| PriceNull
| PriceNumber (n : Q)
| PriceString (s : string).

(** One entry of what [searchOffersViaSerpApi] resolves to. *)
Module SerpResult.
Record t : Type := mk {
  title : string;
  link : string;
  snippet : string;
  price : JsPrice;
  extracted_price : JsPrice;
  delivery : string
}.
End SerpResult.

(** What the [amazon_product] payload yields before normalization: the
    title, the raw link, and the price and delivery texts dug out of it. *)
Module AmazonPayload.
Record t : Type := mk {
  title : string;
  link : string;
  priceText : string;
  extractedPrice : option Q;
  delivery : string
}.
End AmazonPayload.

Module AmazonDetail.
Record t : Type := mk {
  asin : string;
  title : string;
  link : string;
  priceText : string;
  extractedPrice : option Q;
  delivery : string
}.
End AmazonDetail.

(** The outside world of one aggregation cycle: what each outbound call
    settles to.  A network error, a timeout, a non-2xx status or a payload
    that cannot be read is a [Rejected] outcome.  Timeouts, result limits
    and the response cache only shape what the world answers and are not
    arguments of the model. *)
Module World.
Record t : Type := mk {
  (** [searchOffersViaSerpApi({ query, host, engine, ... })]. *)
  searchOffersViaSerpApi :
    string -> string -> string -> outcome (list SerpResult.t);
  (** [querySerpApi({ engine: 'amazon_product', asin, ... })]. *)
  queryAmazonProduct : string -> outcome AmazonPayload.t
}.
End World.

Module SerpApiProxy.

Definition normalizeWhitespace (value : string) : string :=
  Js.trim (Js.collapseSpaces value).

(** [/^[A-Z0-9]{10}$/.test(s)]. *)
Definition isAsinChar (c : ascii) : bool := Js.isUpper c || Js.isDigit c.

Fixpoint allChars (f : ascii -> bool) (s : string) : bool :=
  match s with
  | EmptyString => true
  | String c s' => f c && allChars f s'
  end.

Definition isValidAsin (s : string) : bool :=
  (String.length s =? 10)%nat && allChars isAsinChar s.

Definition canonicalAmazonProductUrl (asin rawLink : string) : string :=
  let cleanAsin := Js.toUpperCase (Js.trim asin) in
  if isValidAsin cleanAsin then "https://www.amazon.com/dp/" ++ cleanAsin
  else
    let link := Js.trim rawLink in
    if negb (Js.truthy link) then ""
    else if negb (Js.startsWith link "http") then ""
    else link.

(** [fetchAmazonProductViaSerpApi({ asin, ... })]; [None] is [null]. *)
Definition fetchAmazonProductViaSerpApi (w : World.t) (asin : string)
  : outcome (option AmazonDetail.t) :=
  let normalizedAsin := Js.toUpperCase (Js.trim asin) in
  if negb (isValidAsin normalizedAsin) then Fulfilled None
  else
    match World.queryAmazonProduct w normalizedAsin with
    | Rejected e => Rejected e
    | Fulfilled payload =>
        Fulfilled (Some
          {| AmazonDetail.asin := normalizedAsin;
             AmazonDetail.title := normalizeWhitespace (AmazonPayload.title payload);
             AmazonDetail.link :=
               canonicalAmazonProductUrl normalizedAsin (AmazonPayload.link payload);
             AmazonDetail.priceText := AmazonPayload.priceText payload;
             AmazonDetail.extractedPrice := AmazonPayload.extractedPrice payload;
             AmazonDetail.delivery :=
               normalizeWhitespace (AmazonPayload.delivery payload) |})
    end.

End SerpApiProxy.

(** ** The web search provider (offerProviders/webSearchProvider.js) *)

(** A candidate offer, as the adapters build it. *)
Module Candidate.
Record t : Type := mk {
  vendorId : string;
  vendorName : string;
  title : string;
  priceCents : option Z;
  shippingCents : Z;
  etaDays : Z;
  inStock : bool;
  productUrl : string;
  listingVerified : bool;
  listingType : ListingType;
  rank : nat;
  asin : string
}.
End Candidate.

Module WebSearchProvider.

Definition normalizeWhitespace (value : string) : string :=
  Js.trim (Js.collapseSpaces value).

(** Truthiness of a number: zero is falsy. *)
Definition truthyZ (n : option Z) : bool :=
  match n with
  | Some v => negb (v =? 0)
  | None => false
  end.

(** [a || b] on nullable numbers. *)
Definition orZ (a b : option Z) : option Z := if truthyZ a then a else b.

(** [n || d] for a nullable number and a number. *)
Definition orDefault (n : option Z) (d : Z) : Z :=
  match n with
  | Some v => if v =? 0 then d else v
  | None => d
  end.

Definition toCents (amount : Q) : option Z :=
  let n := Double.round amount in
  if Qle_bool n 0 then None
  else Some (Js.round (Double.mul n 100)).

Fixpoint takeDigits (s : string) : string * string :=
  match s with
  | EmptyString => (EmptyString, EmptyString)
  | String c s' =>
      if Js.isDigit c
      then let '(d, r) := takeDigits s' in (String c d, r)
      else (EmptyString, s)
  end.

Fixpoint digitsToZ (acc : Z) (s : string) : Z :=
  match s with
  | EmptyString => acc
  | String c s' => digitsToZ (10 * acc + Z.of_nat (nat_of_ascii c - 48)) s'
  end.

(** [Number(raw.match(/(\d+(?:\.\d+)?)/)[1])]: the first decimal numeral of
    the text, [None] when there is no match. *)
Fixpoint firstDecimal (s : string) : option Q :=
  match s with
  | EmptyString => None
  | String c s' =>
      if Js.isDigit c then
        let '(ip, rest) := takeDigits s in
        let frac :=
          match rest with
          | String "." r => fst (takeDigits r)
          | _ => EmptyString
          end in
        Some (Qmake (digitsToZ 0 (ip ++ frac))
                    (Z.to_pos (10 ^ Z.of_nat (String.length frac))))
      else firstDecimal s'
  end.

Fixpoint removeCommas (s : string) : string :=
  match s with
  | EmptyString => EmptyString
  | String c s' =>
      if (c =? ",")%char then removeCommas s' else String c (removeCommas s')
  end.

Definition parsePriceCents (value : JsPrice) : option Z :=
  match value with
  | PriceNull => None
  | PriceNumber n => toCents n
  | PriceString s =>
      let raw := Js.trim (removeCommas s) in
      match firstDecimal raw with
      | None => None
      | Some n => toCents n
      end
  end.

(** [m[1]] of [raw.match(/(\d+)\s*(?:day|days)/)]. *)
Fixpoint matchDays (s : string) : option string :=
  match s with
  | EmptyString => None
  | String c s' =>
      if Js.isDigit c then
        let '(ds, rest) := takeDigits s in
        if Js.startsWith (Js.trimStart rest) "day" then Some ds
        else matchDays s'
      else matchDays s'
  end.

Definition estimateEtaDaysFromText (text : string) : option Z :=
  let raw := Js.toLowerCase text in
  match matchDays raw with
  | Some ds => Some (Z.max 1 (Z.min 14 (digitsToZ 0 ds)))
  | None => None
  end.

(** [p] is a prefix of [u] up to ASCII case; the rest of [u] after it. *)
Fixpoint dropPrefixCI (p u : string) : option string :=
  match p with
  | EmptyString => Some u
  | String a p' =>
      match u with
      | EmptyString => None
      | String b u' =>
          if (Js.lowerChar a =? Js.lowerChar b)%char then dropPrefixCI p' u'
          else None
      end
  end.

Definition isAlnum (c : ascii) : bool :=
  Js.isUpper c || Js.isLower c || Js.isDigit c.

Definition isWordChar (c : ascii) : bool := isAlnum c || (c =? "_")%char.

Fixpoint takeN (n : nat) (s : string) : option (string * string) :=
  match n with
  | O => Some (EmptyString, s)
  | S n' =>
      match s with
      | EmptyString => None
      | String c s' =>
          match takeN n' s' with
          | Some (h, r) => Some (String c h, r)
          | None => None
          end
      end
  end.

(** [([A-Z0-9]{10})\b] under the [i] flag, at the start of [s]. *)
Definition asinAt (s : string) : option string :=
  match takeN 10 s with
  | Some (h, r) =>
      if SerpApiProxy.allChars isAlnum h &&
         match r with
         | EmptyString => true
         | String c _ => negb (isWordChar c)
         end
      then Some h else None
  | None => None
  end.

(** [u.match(/\/(?:dp|gp\/product)\/([A-Z0-9]{10})\b/i)], group 1. *)
Fixpoint matchAsin (u : string) : option string :=
  let here :=
    match dropPrefixCI "/dp/" u with
    | Some r => asinAt r
    | None =>
        match dropPrefixCI "/gp/product/" u with
        | Some r => asinAt r
        | None => None
        end
    end in
  match here with
  | Some a => Some a
  | None =>
      match u with
      | EmptyString => None
      | String _ u' => matchAsin u'
      end
  end.

Definition extractAmazonAsinFromUrl (url : string) : string :=
  match matchAsin url with
  | Some a => Js.toUpperCase a
  | None => ""
  end.

(** The three comparators of [pickBestOffer]. *)
Definition compareCandidates (pref : string) (a b : Candidate.t) : Z :=
  if (pref =? "FASTEST_SHIPPING")%string then
    orDefault (Some (Candidate.etaDays a)) 99
    - orDefault (Some (Candidate.etaDays b)) 99
  else if (pref =? "BEST_PRICE")%string then
    orDefault (Candidate.priceCents a) (10 ^ 12)
    - orDefault (Candidate.priceCents b) (10 ^ 12)
  else
    let at' := orDefault (Candidate.priceCents a) (10 ^ 12)
               + orDefault (Some (Candidate.shippingCents a)) 0 in
    let bt := orDefault (Candidate.priceCents b) (10 ^ 12)
              + orDefault (Some (Candidate.shippingCents b)) 0 in
    if negb (at' =? bt) then at' - bt
    else orDefault (Some (Candidate.etaDays a)) 99
         - orDefault (Some (Candidate.etaDays b)) 99.

Definition pickBestOffer (offers : list Candidate.t) (strategy : string)
  : option Candidate.t :=
  let pref := Js.toUpperCase (Js.orElse strategy "BALANCED") in
  hd_error (Js.sort (compareCandidates pref) offers).

(** [normalizeOfferBase({ ... })] together with the [rank] and [asin] its
    callers spread over the result ([asin] is empty when a caller adds none). *)
Definition normalizeOfferBase
    (vendorId vendorName title productUrl : string)
    (priceCents : option Z) (etaDays : Z) (rank : nat) (asin : string)
  : Candidate.t :=
  {| Candidate.vendorId := vendorId;
     Candidate.vendorName := vendorName;
     Candidate.title := normalizeWhitespace title;
     Candidate.priceCents := priceCents;
     Candidate.shippingCents := 0;
     Candidate.etaDays := etaDays;
     Candidate.inStock := true;
     Candidate.productUrl := Js.trim productUrl;
     Candidate.listingVerified := false;
     Candidate.listingType := ESTIMATED;
     Candidate.rank := rank;
     Candidate.asin := asin |}.

Section Adapters.
Variable api : Url.Api.
Variable cfg : Config.t.
Variable w : World.t.

(** [s.replace(/^www\./i, '')]. *)
Definition stripWww (s : string) : string :=
  match dropPrefixCI "www." s with
  | Some r => r
  | None => s
  end.

Definition hostnameFromUrl (url : string) : string :=
  match Url.parse api url with
  | Some u => stripWww (Js.toLowerCase (Url.hostname api u))
  | None => ""
  end.

Definition canonicalizeUrl (url : string) : string :=
  let raw := Js.trim url in
  if negb (Js.truthy raw) then ""
  else
    match Url.parse api raw with
    | Some u =>
        let u1 :=
          if negb (Url.protocol api u =? "https:")%string
          then Url.setProtocolHttps api u else u in
        Url.toString api (Url.clearHash api u1)
    | None => raw
    end.

(** The tail of [/https?:\/\/(?:www\.)?ebay\.com\/itm\/(\d+)/i] after the
    scheme separator: group 1. *)
Definition ebayItemAfterHost (x : string) : option string :=
  match dropPrefixCI "ebay.com/itm/" x with
  | Some y => let ds := fst (takeDigits y) in
              if Js.truthy ds then Some ds else None
  | None => None
  end.

Definition ebayAfterScheme (r : string) : option string :=
  match
    match dropPrefixCI "www." r with
    | Some x => ebayItemAfterHost x
    | None => None
    end
  with
  | Some d => Some d
  | None => ebayItemAfterHost r
  end.

Definition ebayAfterHttp (r1 : string) : option string :=
  let k := fun x =>
    match dropPrefixCI "://" x with
    | Some y => ebayAfterScheme y
    | None => None
    end in
  match
    match dropPrefixCI "s" r1 with
    | Some x => k x
    | None => None
    end
  with
  | Some d => Some d
  | None => k r1
  end.

Fixpoint matchEbayItem (u : string) : option string :=
  match
    match dropPrefixCI "http" u with
    | Some r1 => ebayAfterHttp r1
    | None => None
    end
  with
  | Some d => Some d
  | None =>
      match u with
      | EmptyString => None
      | String _ u' => matchEbayItem u'
      end
  end.

(** The shared shape of the Walmart, Target, Best Buy and Newegg branches:
    drop the query when the host and the path segment are there. *)
Definition dropQueryOn (host path raw : string) : string :=
  match Url.parse api raw with
  | Some u =>
      if Js.includes (Js.toLowerCase (Url.hostname api u)) host &&
         Js.includes (Url.pathname api u) path
      then Url.toString api (Url.clearSearch api u)
      else raw
  | None => raw
  end.

Definition canonicalizeVendorUrl (vendorId url : string) : string :=
  let raw := canonicalizeUrl url in
  if negb (Js.truthy raw) then ""
  else if (vendorId =? "web:amazon")%string then
    let asin := extractAmazonAsinFromUrl raw in
    if Js.truthy asin then "https://www.amazon.com/dp/" ++ asin else raw
  else if (vendorId =? "web:ebay")%string then
    match matchEbayItem raw with
    | Some d => "https://www.ebay.com/itm/" ++ d
    | None => raw
    end
  else if (vendorId =? "web:walmart")%string then
    dropQueryOn "walmart.com" "/ip/" raw
  else if (vendorId =? "web:target")%string then
    dropQueryOn "target.com" "/p/" raw
  else if (vendorId =? "web:bestbuy")%string then
    dropQueryOn "bestbuy.com" "/site/" raw
  else if (vendorId =? "web:newegg")%string then
    dropQueryOn "newegg.com" "/p/" raw
  else raw.

Definition isExactListingUrl (url : string) : bool :=
  let u := Js.toLowerCase url in
  if negb (Js.startsWith u "http") then false
  else if Js.includes u "/s?" || Js.includes u "/search" ||
          Js.includes u "?q=" || Js.includes u "&q=" || Js.includes u "_nkw="
  then false
  else if Js.includes u "/dp/" ||
          Js.includes u "/gp/product/" ||
          Js.includes u "/itm/" ||
          Js.includes u "walmart.com/ip/" ||
          Js.includes u "target.com/p/" ||
          Js.includes u "bestbuy.com/site/" ||
          Js.includes u "newegg.com/p/"
  then true
  else
    match Url.parse api u with
    | Some parsed => (2 <=? String.length (Url.pathname api parsed))%nat
    | None => false
    end.

(** [a || b] on price fields. *)
Definition orPrice (a b : JsPrice) : JsPrice :=
  match a with
  | PriceNull => b
  | PriceNumber n => if Qeq_bool n 0 then b else a
  | PriceString s => if Js.truthy s then a else b
  end.

(** [arr.map((r, idx) => f(r, idx)).filter(Boolean)]. *)
Fixpoint mapFilterIdx {A B : Type} (f : A -> nat -> option B) (idx : nat)
    (l : list A) : list B :=
  match l with
  | [] => []
  | r :: rest =>
      match f r idx with
      | Some c => c :: mapFilterIdx f (S idx) rest
      | None => mapFilterIdx f (S idx) rest
      end
  end.

Definition amazonCandidate (r : SerpResult.t) (idx : nat) : option Candidate.t :=
  let asin := extractAmazonAsinFromUrl (SerpResult.link r) in
  if negb (Js.truthy asin) then None
  else
    let eta :=
      orDefault
        (estimateEtaDaysFromText
           (Js.orElse (SerpResult.delivery r) (SerpResult.snippet r))) 4 in
    Some (normalizeOfferBase "web:amazon" "Amazon" (SerpResult.title r)
            (canonicalizeVendorUrl "web:amazon" (SerpResult.link r))
            (parsePriceCents
               (orPrice (SerpResult.extracted_price r) (SerpResult.price r)))
            eta idx asin).

(** The hydrated seed: the object [fetchAmazonOffer] returns from its [try]
    block, for a [detail] that may be [null]. *)
Definition hydrate (bestSeed : Candidate.t) (detail : option AmazonDetail.t)
  : Candidate.t :=
  let extracted :=
    match detail with
    | Some d => AmazonDetail.extractedPrice d
    | None => None
    end in
  let priceCents :=
    orZ (orZ (match extracted with
              | Some q => if Qle_bool q 0 then None else toCents q
              | None => None
              end)
             (match detail with
              | Some d => parsePriceCents (PriceString (AmazonDetail.priceText d))
              | None => None
              end))
        (Candidate.priceCents bestSeed) in
  let eta :=
    orDefault
      (orZ (match detail with
            | Some d => estimateEtaDaysFromText (AmazonDetail.delivery d)
            | None => None
            end)
           (Some (Candidate.etaDays bestSeed))) 4 in
  let url :=
    Js.trim
      (Js.orElse (match detail with
                  | Some d => AmazonDetail.link d
                  | None => ""
                  end)
                 (Candidate.productUrl bestSeed)) in
  let isDp := Js.truthy url && Js.includes url "/dp/" in
  {| Candidate.vendorId := Candidate.vendorId bestSeed;
     Candidate.vendorName := Candidate.vendorName bestSeed;
     Candidate.title :=
       Js.orElse (match detail with
                  | Some d => normalizeWhitespace (AmazonDetail.title d)
                  | None => ""
                  end)
                 (Candidate.title bestSeed);
     Candidate.priceCents := priceCents;
     Candidate.shippingCents := Candidate.shippingCents bestSeed;
     Candidate.etaDays := eta;
     Candidate.inStock := Candidate.inStock bestSeed;
     Candidate.productUrl :=
       canonicalizeVendorUrl "web:amazon"
         (Js.orElse url (Candidate.productUrl bestSeed));
     Candidate.listingVerified := isDp;
     Candidate.listingType :=
       if isDp then EXACT else Candidate.listingType bestSeed;
     Candidate.rank := Candidate.rank bestSeed;
     Candidate.asin := Candidate.asin bestSeed |}.

Definition fetchAmazonOffer (query strategy : string)
  : outcome (option Candidate.t) :=
  match World.searchOffersViaSerpApi w query "amazon.com" "amazon" with
  | Rejected e => Rejected e
  | Fulfilled serp =>
      let candidates := mapFilterIdx amazonCandidate 0 serp in
      match pickBestOffer candidates strategy with
      | None => Fulfilled None
      | Some bestSeed =>
          (* Hydrate price + canonical listing via ASIN (1 extra call). *)
          match SerpApiProxy.fetchAmazonProductViaSerpApi w (Candidate.asin bestSeed) with
          | Fulfilled detail => Fulfilled (Some (hydrate bestSeed detail))
          | Rejected _ => Fulfilled (Some bestSeed)
          end
      end
  end.

(** [u.endsWith(p)]. *)
Fixpoint endsWith (u p : string) : bool :=
  if (u =? p)%string then true
  else match u with
       | EmptyString => false
       | String _ u' => endsWith u' p
       end.

(** The retailer a shopping link belongs to, when it is a known one and
    the link carries its listing segment. *)
Definition retailerOf (host link : string) : option (string * string) :=
  if endsWith host "ebay.com" then
    if negb (Js.includes link "/itm/") then None else Some ("web:ebay", "eBay")
  else if endsWith host "walmart.com" then
    if negb (Js.includes link "/ip/") then None else Some ("web:walmart", "Walmart")
  else if endsWith host "target.com" then
    if negb (Js.includes link "/p/") then None else Some ("web:target", "Target")
  else if endsWith host "bestbuy.com" then
    if negb (Js.includes link "/site/") then None else Some ("web:bestbuy", "Best Buy")
  else if endsWith host "newegg.com" then
    if negb (Js.includes link "/p/") then None else Some ("web:newegg", "Newegg")
  else None.

Definition shoppingCandidate (r : SerpResult.t) (idx : nat) : option Candidate.t :=
  let link := Js.trim (SerpResult.link r) in
  if negb (isExactListingUrl link) then None
  else
    let host := hostnameFromUrl link in
    if negb (Js.truthy host) then None
    (* Skip Amazon here (handled by dedicated Amazon flow + ASIN hydration). *)
    else if Js.includes host "amazon." then None
    else
      match retailerOf host link with
      | None => None
      | Some (vendorId, vendorName) =>
          let eta :=
            orDefault
              (estimateEtaDaysFromText
                 (Js.orElse (SerpResult.delivery r) (SerpResult.snippet r))) 5 in
          Some (normalizeOfferBase vendorId vendorName (SerpResult.title r)
                  (canonicalizeVendorUrl vendorId link)
                  (parsePriceCents
                     (orPrice (SerpResult.extracted_price r) (SerpResult.price r)))
                  eta idx "")
      end.

Definition hasPrice (c : Candidate.t) : bool :=
  match Candidate.priceCents c with
  | Some p => 0 <? p
  | None => false
  end.

Definition seenHas (seen : list string) (v : string) : bool :=
  existsb (String.eqb v) seen.

(** The loop that fills the remaining slot(s) by overall best price. *)
Fixpoint fillSlots (sorted out : list Candidate.t) (seen : list string)
  : list Candidate.t :=
  match sorted with
  | [] => out
  | c :: rest =>
      if seenHas seen (Candidate.vendorId c) then fillSlots rest out seen
      else
        let out' := (out ++ [c])%list in
        if (2 <=? List.length out')%nat then out'
        else fillSlots rest out' (Candidate.vendorId c :: seen)
  end.

Definition fetchShoppingVendors (query strategy : string)
  : outcome (list Candidate.t) :=
  match World.searchOffersViaSerpApi w query "" "google_shopping" with
  | Rejected e => Rejected e
  | Fulfilled serp =>
      let candidates := filter hasPrice (mapFilterIdx shoppingCandidate 0 serp) in
      let ebay :=
        pickBestOffer
          (filter (fun c => (Candidate.vendorId c =? "web:ebay")%string) candidates)
          strategy in
      let '(out, seen) :=
        match ebay with
        | Some e => ([e], [Candidate.vendorId e])
        | None => ([], [])
        end in
      let sorted :=
        Js.sort (fun a b => orDefault (Candidate.priceCents a) (10 ^ 12)
                            - orDefault (Candidate.priceCents b) (10 ^ 12))
                candidates in
      Fulfilled (fillSlots sorted out seen)
  end.

(** The final [filter] of [fetchTopOffers]: unique, non-empty vendor ids. *)
Fixpoint uniqueVendors (seen : list string) (out : list Candidate.t)
  : list Candidate.t :=
  match out with
  | [] => []
  | o :: rest =>
      if negb (Js.truthy (Candidate.vendorId o)) then uniqueVendors seen rest
      else if seenHas seen (Candidate.vendorId o) then uniqueVendors seen rest
      else o :: uniqueVendors (Candidate.vendorId o :: seen) rest
  end.

Definition fetchTopOffers (query strategy : string) : outcome (list Candidate.t) :=
  if negb (Config.enableWebSearchOffers cfg) then Fulfilled []
  else if negb (Config.enableSerpApiProxy cfg) ||
          negb (Js.truthy (Config.serpApiApiKey cfg)) then Fulfilled []
  else
    let capped := normalizeWhitespace query in
    if negb (Js.truthy capped) then Fulfilled []
    else
      (* Promise.allSettled([fetchAmazonOffer, fetchShoppingVendors]) *)
      let amazon := fetchAmazonOffer capped strategy in
      let shopping := fetchShoppingVendors capped strategy in
      let out1 :=
        match amazon with
        | Fulfilled (Some a) => [a]
        | _ => []
        end in
      let out2 :=
        match shopping with
        | Fulfilled l => l
        | Rejected _ => []
        end in
      Fulfilled (uniqueVendors [] (out1 ++ out2)%list).

End Adapters.

End WebSearchProvider.

(** ** The offer service (recognitionService.js, second module) *)

Module OfferService.

Definition normalizeWhitespace (value : string) : string :=
  Js.trim (Js.collapseSpaces value).

Definition isLikelySearchUrl (url : string) : bool :=
  let u := Js.toLowerCase url in
  Js.includes u "/s?" ||
  Js.includes u "/search" ||
  Js.includes u "?q=" ||
  Js.includes u "&q=" ||
  Js.includes u "_nkw=".

Definition isExactListingUrl (url : string) : bool :=
  let u := Js.toLowerCase url in
  Js.includes u "/dp/" ||
  Js.includes u "/gp/product/" ||
  Js.includes u "/itm/" ||
  Js.includes u "walmart.com/ip/" ||
  Js.includes u "target.com/p/" ||
  Js.includes u "bestbuy.com/site/".

Definition normalizeOffer (dbOffer : Offer.t) : NormalizedOffer.t :=
  let productUrl := Js.trim (Offer.productUrl dbOffer) in
  let listingVerified :=
    isExactListingUrl productUrl && negb (isLikelySearchUrl productUrl) in
  let listingType :=
    if listingVerified then EXACT
    else if Js.truthy productUrl then ESTIMATED else ESTIMATED in
  {| NormalizedOffer.id := Offer.id dbOffer;
     NormalizedOffer.vendorId := Offer.vendorId dbOffer;
     NormalizedOffer.vendorName := Offer.vendorName dbOffer;
     NormalizedOffer.productId := Offer.productId dbOffer;
     NormalizedOffer.title := Offer.title dbOffer;
     NormalizedOffer.priceCents := Offer.priceCents dbOffer;
     NormalizedOffer.shippingCents := Offer.shippingCents dbOffer;
     NormalizedOffer.etaDays := Offer.etaDays dbOffer;
     NormalizedOffer.inStock := Offer.inStock dbOffer;
     NormalizedOffer.productUrl := productUrl;
     NormalizedOffer.listingVerified := listingVerified;
     NormalizedOffer.listingType := listingType |}.

(** The comparator handed to [sort] in [recommendedOfferIdForStrategy],
    for the upper-cased strategy [pref]. *)
Definition compareOffers (pref : string) (a b : NormalizedOffer.t) : Z :=
  let at' := NormalizedOffer.priceCents a + NormalizedOffer.shippingCents a in
  let bt := NormalizedOffer.priceCents b + NormalizedOffer.shippingCents b in
  if (pref =? "FASTEST_SHIPPING")%string then
    if negb (NormalizedOffer.etaDays a =? NormalizedOffer.etaDays b)
    then NormalizedOffer.etaDays a - NormalizedOffer.etaDays b
    else at' - bt
  else if (pref =? "BEST_PRICE")%string then
    if negb (at' =? bt) then at' - bt
    else NormalizedOffer.etaDays a - NormalizedOffer.etaDays b
  else
    (* BALANCED *)
    if negb (at' =? bt) then at' - bt
    else NormalizedOffer.etaDays a - NormalizedOffer.etaDays b.

Definition recommendedOfferIdForStrategy
    (offers : list NormalizedOffer.t) (strategy : string) : option string :=
  let list := filter NormalizedOffer.inStock offers in
  if (List.length list =? 0)%nat then None
  else
    let pref := Js.toUpperCase (Js.orElse strategy "BALANCED") in
    let sorted := Js.sort (compareOffers pref) list in
    match sorted with
    | [] => None
    | first :: _ => Js.orNull (NormalizedOffer.id first)
    end.

(** A row of the fixed [fallbacks] table of [refreshWebOffersForProduct]. *)
Module Fallback.
Record t : Type := mk {
  vendorId : string;
  vendorName : string;
  url : string;
  priceMult : Q;
  etaDays : Z
}.
End Fallback.

Module RankedOffers.
Record t : Type := mk {
  offers : list NormalizedOffer.t;
  recommendedOfferId : option string;
  strategy : string
}.
End RankedOffers.

Section Aggregator.
Variable api : Url.Api.
Variable cfg : Config.t.
Variable w : World.t.

(** The body of the [map] callback under [Promise.allSettled]: upsert one
    surviving web candidate. *)
Definition upsertWebOffer (product : Product.t) (productId : string)
    (o : Candidate.t) : Store.M unit :=
  if negb (Js.truthy (Candidate.vendorId o)) ||
     negb (Js.truthy (Candidate.productUrl o)) ||
     negb (WebSearchProvider.truthyZ (Candidate.priceCents o))
  then Store.ret tt
  else
    Store.offer_upsert
      {| Offer.id := "";
         Offer.vendorId := Candidate.vendorId o;
         Offer.vendorName :=
           Js.orElse (Candidate.vendorName o) (Candidate.vendorId o);
         Offer.productId := productId;
         Offer.title := Js.orElse (Candidate.title o) (Product.title product);
         Offer.priceCents :=
           match Candidate.priceCents o with Some p => p | None => 0 end;
         Offer.shippingCents := Candidate.shippingCents o;
         Offer.etaDays := Candidate.etaDays o;
         Offer.inStock := Candidate.inStock o;
         Offer.productUrl := Js.trim (Candidate.productUrl o) |}.

Definition fallbacks (q : string) : list Fallback.t :=
  [ {| Fallback.vendorId := "fallback:ebay";
       Fallback.vendorName := "eBay";
       Fallback.url := "https://www.ebay.com/sch/i.html?_nkw=" ++ q;
       Fallback.priceMult := 92 # 100;
       Fallback.etaDays := 6 |};
    {| Fallback.vendorId := "fallback:walmart";
       Fallback.vendorName := "Walmart";
       Fallback.url := "https://www.walmart.com/search?q=" ++ q;
       Fallback.priceMult := 98 # 100;
       Fallback.etaDays := 4 |};
    {| Fallback.vendorId := "fallback:target";
       Fallback.vendorName := "Target";
       Fallback.url := "https://www.target.com/s?searchTerm=" ++ q;
       Fallback.priceMult := 103 # 100;
       Fallback.etaDays := 5 |};
    {| Fallback.vendorId := "fallback:bestbuy";
       Fallback.vendorName := "Best Buy";
       Fallback.url := "https://www.bestbuy.com/site/searchpage.jsp?st=" ++ q;
       Fallback.priceMult := 105 # 100;
       Fallback.etaDays := 5 |} ].

(** The loop over the fallbacks, with the growing set of vendor ids. *)
Fixpoint createFallbacks (product : Product.t) (productId : string)
    (basePrice : Z) (fbs : list Fallback.t) (existingVendorIds : list string)
  : Store.M unit :=
  match fbs with
  | [] => Store.ret tt
  | fb :: rest =>
      if Js.setHas existingVendorIds (Fallback.vendorId fb)
      then createFallbacks product productId basePrice rest existingVendorIds
      else
        let priceCents :=
          Z.max 99 (Js.round (inject_Z basePrice * Fallback.priceMult fb)%Q) in
        _ <- Store.offer_create
               {| Offer.id := "";
                  Offer.vendorId := Fallback.vendorId fb;
                  Offer.vendorName := Fallback.vendorName fb;
                  Offer.productId := productId;
                  Offer.title := Product.title product;
                  Offer.priceCents := priceCents;
                  Offer.shippingCents := 0;
                  Offer.etaDays := Fallback.etaDays fb;
                  Offer.inStock := true;
                  Offer.productUrl := Fallback.url fb |} ;;
        let ids := Js.setAdd existingVendorIds (Fallback.vendorId fb) in
        if (3 <=? List.length ids)%nat then Store.ret tt
        else createFallbacks product productId basePrice rest ids
  end.

Definition refreshWebOffersForProduct (productId strategy : string)
  : Store.M unit :=
  found <- Store.product_findUnique productId ;;
  match found with
  | None => Store.ret tt
  | Some product =>
      let query :=
        normalizeWhitespace
          (Js.trim (Product.brand product ++ " " ++ Product.title product)) in
      if negb (Js.truthy query) then Store.ret tt
      else
        (if Config.enableWebSearchOffers cfg && Config.enableSerpApiProxy cfg &&
            Js.truthy (Config.serpApiApiKey cfg)
         then
           Store.tryCatch
             (webOffers <- Store.await
                             (WebSearchProvider.fetchTopOffers api cfg w query strategy) ;;
              _ <- Store.allSettled
                     (map (upsertWebOffer product productId) webOffers) ;;
              Store.ret tt)
             (* Never fail the whole request just because a web provider
                timed out / throttled. *)
             (fun _ => Store.ret tt)
         else Store.ret tt) ;;;
        (* Demo reliability: synthesize additional vendor options. *)
        existing <- Store.offer_findMany_inStock productId ;;
        if (3 <=? List.length existing)%nat then Store.ret tt
        else
          let existingVendorIds := Js.setOf (map Offer.vendorId existing) in
          let minPrice :=
            fold_left
              (fun m o =>
                 Z.min m (if Offer.priceCents o =? 0 then 10 ^ 12
                          else Offer.priceCents o))
              existing (10 ^ 12) in
          let basePrice := if minPrice <? 10 ^ 12 then minPrice else 1999 in
          let q := Js.encodeURIComponent query in
          createFallbacks product productId basePrice (fallbacks q)
            existingVendorIds
  end.

Definition getRankedOffers (productId userId strategy : string)
    (refreshLive : bool) : Store.M RankedOffers.t :=
  (if refreshLive
   then
     Store.tryCatch (refreshWebOffersForProduct productId strategy)
       (* Safety net: keep this to guarantee offer reads never 500. *)
       (fun _ => Store.ret tt)
   else Store.ret tt) ;;;
  offers <- Store.offer_findMany_inStock productId ;;
  let normalized := map normalizeOffer offers in
  let recommendedOfferId := recommendedOfferIdForStrategy normalized strategy in
  Store.ret {| RankedOffers.offers := normalized;
               RankedOffers.recommendedOfferId := recommendedOfferId;
               RankedOffers.strategy := strategy |}.

End Aggregator.

End OfferService.

(** ** The price monitor (priceMonitor.js) *)

Module ChangedItem.
Record t : Type := mk {
  offerId : string;
  productId : string;
  oldPriceCents : Z;
  newPriceCents : Z;
  oldEtaDays : Z;
  newEtaDays : Z
}.
End ChangedItem.

(** An entry of the [notifications] array [runPriceTick] returns. *)
Module TickNotification.
Record t : Type := mk {
  watchlistId : string;
  message : string;
  payload : Payload.t
}.
End TickNotification.

Module TickResult.
Record t : Type := mk {
  changedItems : list ChangedItem.t;
  notifications : list TickNotification.t
}.
End TickResult.

Module PriceMonitor.

Definition clamp (value min max : Z) : Z := Z.max min (Z.min value max).

Definition queueNotification (userId productId message type : string)
    (payload : Payload.t) : Store.M unit :=
  Store.pendingNotification_create
    {| PendingNotification.userId := userId;
       PendingNotification.productId := productId;
       PendingNotification.message := message;
       PendingNotification.type := type;
       PendingNotification.payload := payload |}.

(** The callback of the [reduce] in [getBestOfferForProduct]. *)
Definition better (best : option Offer.t) (next : Offer.t) : option Offer.t :=
  match best with
  | None => Some next
  | Some b =>
      let bestTotal := Offer.priceCents b + Offer.shippingCents b in
      let nextTotal := Offer.priceCents next + Offer.shippingCents next in
      if nextTotal <? bestTotal then Some next
      else if (nextTotal =? bestTotal) && (Offer.etaDays next <? Offer.etaDays b)
      then Some next
      else Some b
  end.

Definition getBestOfferForProduct (productId : string)
  : Store.M (option Offer.t) :=
  offers <- Store.offer_findMany_inStock productId ;;
  if (List.length offers =? 0)%nat then Store.ret None
  else Store.ret (fold_left better offers None).

Section Tick.
(** [random n] is the value of the [n]-th call of [Math.random()] during
    the tick; [now] is the reading of the clock ([new Date()]), taken as one
    value for the whole pass. *)
Variable random : nat -> Q.
Variable now : Z.

Definition randomPercent (min max : Q) (r : Q) : Q := (min + r * (max - min))%Q.

(** The first loop of [runPriceTick] over the offers read at its start;
    [k] counts the random draws made so far. *)
Fixpoint driftOffers (offers : list Offer.t) (k : nat)
  : Store.M (list ChangedItem.t * nat) :=
  match offers with
  | [] => Store.ret ([], k)
  | offer :: rest =>
      let drift := randomPercent (-(2 # 100)) (2 # 100) (random k) in
      let newPrice :=
        clamp (Js.round (inject_Z (Offer.priceCents offer) * (1 + drift))%Q)
              50 500000 in
      let '(etaShift, k') :=
        if Qlt_le_dec (random (S k)) (2 # 10)
        then ((if Qlt_le_dec (random (S (S k))) (1 # 2) then -1 else 1),
              S (S (S k)))
        else (0, S (S k)) in
      let newEta := clamp (Offer.etaDays offer + etaShift) 1 10 in
      _ <- Store.offer_update (Offer.id offer) newPrice newEta ;;
      r <- driftOffers rest k' ;;
      Store.ret
        ({| ChangedItem.offerId := Offer.id offer;
            ChangedItem.productId := Offer.productId offer;
            ChangedItem.oldPriceCents := Offer.priceCents offer;
            ChangedItem.newPriceCents := newPrice;
            ChangedItem.oldEtaDays := Offer.etaDays offer;
            ChangedItem.newEtaDays := newEta |} :: fst r, snd r)
  end.

Definition baselineOf (item : WatchItem.t) (bestOffer : Offer.t) : Z :=
  WebSearchProvider.orDefault (WatchItem.lastSeenBestPriceCents item)
    (Offer.priceCents bestOffer).

Definition dropPctOf (item : WatchItem.t) (bestOffer : Offer.t) : Q :=
  let baseline := baselineOf item bestOffer in
  if 0 <? baseline
  then Double.mul
         (Double.div
            (Double.sub (inject_Z baseline)
               (inject_Z (Offer.priceCents bestOffer)))
            (inject_Z baseline))
         100
  else 0%Q.

Definition targetHit (item : WatchItem.t) (bestOffer : Offer.t) : bool :=
  match WatchItem.targetPriceCents item with
  | Some t => negb (t =? 0) && (Offer.priceCents bestOffer <=? t)
  | None => false
  end.

Definition shippingImproved (item : WatchItem.t) (bestOffer : Offer.t) : bool :=
  WatchItem.shippingImprovementOn item &&
  match WatchItem.lastSeenBestEtaDays item with
  | Some e => Offer.etaDays bestOffer <? e
  | None => false
  end.

Definition shouldNotify (item : WatchItem.t) (bestOffer : Offer.t) : bool :=
  Qle_bool (WatchItem.pctDropThreshold item) (dropPctOf item bestOffer) ||
  targetHit item bestOffer || shippingImproved item bestOffer.

Definition messageOf (title : string) (bestOffer : Offer.t) (roundedDrop : Q)
  : string :=
  let priceText :=
    "$" ++ Js.toFixed 2 (Double.div (inject_Z (Offer.priceCents bestOffer)) 100) in
  let dropLabel :=
    if Qlt_le_dec 0 roundedDrop
    then "dropped " ++ Js.showTenths (Qfloor (roundedDrop * 10)%Q) ++ "%"
    else "has a new best offer" in
  "Deal found: " ++ title ++ " " ++ dropLabel ++ " to " ++ priceText
  ++ ". Ships in " ++ Js.showZ (Offer.etaDays bestOffer) ++ " days.".

(** The second loop of [runPriceTick] over the watch items read before it. *)
Fixpoint evaluateItems (items : list (WatchItem.t * option Product.t))
  : Store.M (list TickNotification.t) :=
  match items with
  | [] => Store.ret []
  | (item, product) :: rest =>
      best <- getBestOfferForProduct (WatchItem.productId item) ;;
      match best with
      | None => evaluateItems rest
      | Some bestOffer =>
          if negb (shouldNotify item bestOffer) then evaluateItems rest
          else
            match product with
            | None =>
                Store.throw "TypeError: Cannot read properties of null (reading 'title')"
            | Some p =>
                let roundedDrop := Js.roundTo1 (dropPctOf item bestOffer) in
                let message := messageOf (Product.title p) bestOffer roundedDrop in
                let payload :=
                  {| Payload.watchlistId := WatchItem.id item;
                     Payload.productId := WatchItem.productId item;
                     Payload.bestOfferId := Offer.id bestOffer;
                     Payload.priceCents := Offer.priceCents bestOffer;
                     Payload.etaDays := Offer.etaDays bestOffer;
                     Payload.dropPct := roundedDrop |} in
                _ <- queueNotification (WatchItem.userId item)
                       (WatchItem.productId item) message "DEAL_ALERT" payload ;;
                _ <- Store.watchlist_update (WatchItem.id item) now
                       (Offer.priceCents bestOffer) (Offer.etaDays bestOffer) ;;
                ns <- evaluateItems rest ;;
                Store.ret
                  ({| TickNotification.watchlistId := WatchItem.id item;
                      TickNotification.message := message;
                      TickNotification.payload := payload |} :: ns)
            end
      end
  end.

Definition runPriceTick : Store.M TickResult.t :=
  offers <- Store.offer_findMany ;;
  changed <- driftOffers offers 0 ;;
  watchItems <- Store.watchlist_findMany ;;
  notifications <- evaluateItems watchItems ;;
  Store.ret {| TickResult.changedItems := fst changed;
               TickResult.notifications := notifications |}.

End Tick.

End PriceMonitor.

(** ** The watchlist read path (server: [buildWatchlistItemsResponse]) *)

Module WatchlistEntry.
Record t : Type := mk {
  item : WatchItem.t;
  bestOffer : option NormalizedOffer.t;
  deltaPct : Q
}.
End WatchlistEntry.

Module WatchlistView.

(** [a || b] on nullable objects. *)
Definition orOffer (a b : option NormalizedOffer.t) : option NormalizedOffer.t :=
  match a with
  | Some _ => a
  | None => b
  end.

(** [key && productOffers.find(matches)] for a nullable string [key]. *)
Definition findPinned (key : option string)
    (matches : string -> NormalizedOffer.t -> bool)
    (productOffers : list NormalizedOffer.t) : option NormalizedOffer.t :=
  match key with
  | Some k => if Js.truthy k then find (matches k) productOffers else None
  | None => None
  end.

Definition preferredOffer (item : WatchItem.t)
    (productOffers : list NormalizedOffer.t) : option NormalizedOffer.t :=
  orOffer
    (findPinned (WatchItem.preferredOfferId item)
       (fun k o => (NormalizedOffer.id o =? k)%string) productOffers)
    (orOffer
       (findPinned (WatchItem.preferredVendorId item)
          (fun k o => (NormalizedOffer.vendorId o =? k)%string) productOffers)
       (findPinned (WatchItem.preferredProductUrl item)
          (fun k o => (NormalizedOffer.productUrl o =? k)%string) productOffers)).

(** The loop that fills [bestByProductId], read at one product. *)
Definition keepBest (existing : option NormalizedOffer.t)
    (normalized : NormalizedOffer.t) : option NormalizedOffer.t :=
  match existing with
  | None => Some normalized
  | Some e =>
      let existingTotal :=
        NormalizedOffer.priceCents e + NormalizedOffer.shippingCents e in
      let nextTotal :=
        NormalizedOffer.priceCents normalized
        + NormalizedOffer.shippingCents normalized in
      if (nextTotal <? existingTotal) ||
         ((nextTotal =? existingTotal) &&
          (NormalizedOffer.etaDays normalized <? NormalizedOffer.etaDays e))
      then Some normalized else Some e
  end.

Definition entryFor (offers : list Offer.t) (item : WatchItem.t)
  : WatchlistEntry.t :=
  let productOffers :=
    map OfferService.normalizeOffer
      (filter (fun o => (Offer.productId o =? WatchItem.productId item)%string)
         offers) in
  let bestOfferRaw :=
    orOffer (preferredOffer item productOffers)
      (fold_left keepBest productOffers None) in
  (* ensureActionableOffer returns its argument *)
  let bestOffer := bestOfferRaw in
  let lastSeen :=
    WebSearchProvider.orDefault (WatchItem.lastSeenBestPriceCents item)
      (match bestOffer with
       | Some b => WebSearchProvider.orDefault
                     (Some (NormalizedOffer.priceCents b)) 0
       | None => 0
       end) in
  let deltaPct :=
    match bestOffer with
    | Some b =>
        if 0 <? lastSeen
        then Js.roundTo1
               (Double.mul
                  (Double.div
                     (Double.sub (inject_Z (NormalizedOffer.priceCents b))
                        (inject_Z lastSeen))
                     (inject_Z lastSeen))
                  100)
        else 0%Q
    | None => 0%Q
    end in
  {| WatchlistEntry.item := item;
     WatchlistEntry.bestOffer := bestOffer;
     WatchlistEntry.deltaPct := deltaPct |}.

(** [buildWatchlistItemsResponse(items, userId)]; the offers read are the
    in-stock offers of the items' products. *)
Definition buildWatchlistItemsResponse (items : list WatchItem.t)
  : Store.M (list WatchlistEntry.t) :=
  fun st =>
    let productIds := Js.setOf (map WatchItem.productId items) in
    let offers :=
      filter (fun o => Js.setHas productIds (Offer.productId o) && Offer.inStock o)
        (Store.offers st) in
    (Fulfilled (map (entryFor offers) items), st).

End WatchlistView.

(** ** Vocabulary of the specification and sample data *)

Module Vocabulary.

(** The "price+shipping total" of an offer. *)
Definition total (o : NormalizedOffer.t) : Z :=
  NormalizedOffer.priceCents o + NormalizedOffer.shippingCents o.

(** "The URL contains a generic search-query marker": one of the five
    segments, as written. *)
Definition hasSearchMarker (url : string) : bool :=
  Js.includes url "/s?" ||
  Js.includes url "/search" ||
  Js.includes url "?q=" ||
  Js.includes url "&q=" ||
  Js.includes url "_nkw=".

(** Text in the ASCII range, where the case mapping and the whitespace
    class of the embedding are the ones of the code. *)
Definition asciiChar (c : ascii) : bool := (nat_of_ascii c <? 128)%nat.

Definition asciiOnly (s : string) : bool := SerpApiProxy.allChars asciiChar s.

(** A non-empty needle without whitespace that lower-casing leaves alone. *)
Definition plain (m : string) : bool :=
  Js.truthy m &&
  SerpApiProxy.allChars
    (fun c => negb (Js.isSpace c) && (Js.lowerChar c =? c)%char) m.

(** The offers [getBestOfferForProduct] reads, and the offer it returns. *)
Definition inStockOf (productId : string) (offers : list Offer.t) : list Offer.t :=
  filter (fun o => (Offer.productId o =? productId)%string && Offer.inStock o)
    offers.

Definition bestOf (offers : list Offer.t) (productId : string) : option Offer.t :=
  let l := inStockOf productId offers in
  if (List.length l =? 0)%nat then None else fold_left PriceMonitor.better l None.

(** The best offer an item is notified about, when the tick notifies it. *)
Definition fires (offers : list Offer.t) (item : WatchItem.t) : option Offer.t :=
  match bestOf offers (WatchItem.productId item) with
  | Some b => if PriceMonitor.shouldNotify item b then Some b else None
  | None => None
  end.

Definition payloadFor (item : WatchItem.t) (best : Offer.t) : Payload.t :=
  {| Payload.watchlistId := WatchItem.id item;
     Payload.productId := WatchItem.productId item;
     Payload.bestOfferId := Offer.id best;
     Payload.priceCents := Offer.priceCents best;
     Payload.etaDays := Offer.etaDays best;
     Payload.dropPct := Js.roundTo1 (PriceMonitor.dropPctOf item best) |}.

Definition notificationFor (item : WatchItem.t) (title : string) (best : Offer.t)
  : TickNotification.t :=
  {| TickNotification.watchlistId := WatchItem.id item;
     TickNotification.message :=
       PriceMonitor.messageOf title best
         (Js.roundTo1 (PriceMonitor.dropPctOf item best));
     TickNotification.payload := payloadFor item best |}.

Definition pendingFor (item : WatchItem.t) (title : string) (best : Offer.t)
  : PendingNotification.t :=
  {| PendingNotification.userId := WatchItem.userId item;
     PendingNotification.productId := WatchItem.productId item;
     PendingNotification.message :=
       PriceMonitor.messageOf title best
         (Js.roundTo1 (PriceMonitor.dropPctOf item best));
     PendingNotification.type := "DEAL_ALERT";
     PendingNotification.payload := payloadFor item best |}.

Definition titleOf (product : option Product.t) : string :=
  match product with
  | Some p => Product.title p
  | None => ""
  end.

(** What the alert loop returns, queues and leaves in the watchlist, as
    functions of the offers it reads and the items it walks. *)
Fixpoint notesOf (offers : list Offer.t)
    (items : list (WatchItem.t * option Product.t)) : list TickNotification.t :=
  match items with
  | [] => []
  | (item, product) :: rest =>
      match fires offers item with
      | Some b => notificationFor item (titleOf product) b :: notesOf offers rest
      | None => notesOf offers rest
      end
  end.

Fixpoint pendingOf (offers : list Offer.t)
    (items : list (WatchItem.t * option Product.t)) : list PendingNotification.t :=
  match items with
  | [] => []
  | (item, product) :: rest =>
      match fires offers item with
      | Some b => pendingFor item (titleOf product) b :: pendingOf offers rest
      | None => pendingOf offers rest
      end
  end.

Fixpoint watchAfter (now : Z) (offers : list Offer.t)
    (items : list (WatchItem.t * option Product.t)) (ws : list WatchItem.t)
  : list WatchItem.t :=
  match items with
  | [] => ws
  | (item, _) :: rest =>
      match fires offers item with
      | Some b =>
          watchAfter now offers rest
            (map (Store.markNotified (WatchItem.id item) now
                    (Offer.priceCents b) (Offer.etaDays b)) ws)
      | None => watchAfter now offers rest ws
      end
  end.

(** Every watch item references a stored product. *)
Definition watchIntegrity (st : Store.t) : Prop :=
  forall w, In w (Store.watchlist st) ->
    find (fun p => (Product.id p =? WatchItem.productId w)%string)
      (Store.products st) <> None.

Definition uniqueWatchIds (st : Store.t) : Prop :=
  NoDup (map WatchItem.id (Store.watchlist st)).

Definition uniqueOfferIds (st : Store.t) : Prop :=
  NoDup (map Offer.id (Store.offers st)).

(** [Math.random()] returns a number in [0, 1). *)
Definition validRandom (random : nat -> Q) : Prop :=
  forall n, (0 <= random n)%Q /\ (random n < 1)%Q.

(** The drift loop, offer by offer: the drift drawn at draw [k], the price
    and ETA written, and the index of the next unused draw. *)
Definition driftAt (random : nat -> Q) (k : nat) : Q :=
  PriceMonitor.randomPercent (-(2 # 100)) (2 # 100) (random k).

Definition newPriceAt (random : nat -> Q) (k : nat) (o : Offer.t) : Z :=
  PriceMonitor.clamp
    (Js.round (inject_Z (Offer.priceCents o) * (1 + driftAt random k))%Q)
    50 500000.

Definition etaShiftAt (random : nat -> Q) (k : nat) : Z :=
  if Qlt_le_dec (random (S k)) (2 # 10)
  then (if Qlt_le_dec (random (S (S k))) (1 # 2) then -1 else 1)
  else 0.

Definition newEtaAt (random : nat -> Q) (k : nat) (o : Offer.t) : Z :=
  PriceMonitor.clamp (Offer.etaDays o + etaShiftAt random k) 1 10.

Definition nextDraw (random : nat -> Q) (k : nat) : nat :=
  if Qlt_le_dec (random (S k)) (2 # 10) then S (S (S k)) else S (S k).

(** The offer table after the drift loop has walked [l] from draw [k]. *)
Fixpoint driftFold (random : nat -> Q) (l : list Offer.t) (k : nat)
    (os : list Offer.t) : list Offer.t :=
  match l with
  | [] => os
  | o :: rest =>
      driftFold random rest (nextDraw random k)
        (map (Store.reprice (Offer.id o) (newPriceAt random k o)
                (newEtaAt random k o)) os)
  end.

Fixpoint changedOf (random : nat -> Q) (l : list Offer.t) (k : nat)
  : list ChangedItem.t :=
  match l with
  | [] => []
  | o :: rest =>
      {| ChangedItem.offerId := Offer.id o;
         ChangedItem.productId := Offer.productId o;
         ChangedItem.oldPriceCents := Offer.priceCents o;
         ChangedItem.newPriceCents := newPriceAt random k o;
         ChangedItem.oldEtaDays := Offer.etaDays o;
         ChangedItem.newEtaDays := newEtaAt random k o |}
      :: changedOf random rest (nextDraw random k)
  end.

(** The rows of the watchlist joined with their products, as the tick
    reads them. *)
Definition watchRows (st : Store.t) : list (WatchItem.t * option Product.t) :=
  map (fun w =>
         (w, find (fun p => (Product.id p =? WatchItem.productId w)%string)
                  (Store.products st)))
      (Store.watchlist st).

(** The store and the result one tick leaves. *)
Definition offersAfterTick (random : nat -> Q) (st : Store.t) : list Offer.t :=
  driftFold random (Store.offers st) 0 (Store.offers st).

Definition storeAfterTick (random : nat -> Q) (now : Z) (st : Store.t) : Store.t :=
  {| Store.products := Store.products st;
     Store.offers := offersAfterTick random st;
     Store.watchlist :=
       watchAfter now (offersAfterTick random st) (watchRows st)
         (Store.watchlist st);
     Store.pendingNotifications :=
       (Store.pendingNotifications st
        ++ pendingOf (offersAfterTick random st) (watchRows st))%list;
     Store.nextId := Store.nextId st |}.

Definition resultOfTick (random : nat -> Q) (st : Store.t) : TickResult.t :=
  {| TickResult.changedItems := changedOf random (Store.offers st) 0;
     TickResult.notifications :=
       notesOf (offersAfterTick random st) (watchRows st) |}.

(** Where the drift loop leaves a price and an ETA. *)
Definition inRange (o : Offer.t) : Prop :=
  50 <= Offer.priceCents o <= 500000 /\ 1 <= Offer.etaDays o <= 10.

(** What the alert loop never changes on a watch item. *)
Definition sameRule (w w' : WatchItem.t) : Prop :=
  WatchItem.id w' = WatchItem.id w /\
  WatchItem.userId w' = WatchItem.userId w /\
  WatchItem.productId w' = WatchItem.productId w /\
  WatchItem.pctDropThreshold w' = WatchItem.pctDropThreshold w /\
  WatchItem.targetPriceCents w' = WatchItem.targetPriceCents w /\
  WatchItem.shippingImprovementOn w' = WatchItem.shippingImprovementOn w.

(** The canonical Amazon listing prefix, and what the model asks of the
    platform's URL parser: parsing and printing a canonical Amazon listing
    URL [https://www.amazon.com/dp/<ASIN>] gives it back. *)
Definition amazonDp : string := "https://www.amazon.com/dp/".

Definition keepsAmazonListing (api : Url.Api) : Prop :=
  forall a,
    SerpApiProxy.isValidAsin a = true ->
    WebSearchProvider.canonicalizeUrl api (amazonDp ++ a) = amazonDp ++ a.

(** A platform whose [URL] constructor rejects every input. *)
Definition noUrlApi : Url.Api :=
  {| Url.U := string;
     Url.parse := fun _ => None;
     Url.protocol := fun _ => "";
     Url.hostname := fun _ => "";
     Url.pathname := fun _ => "";
     Url.setProtocolHttps := fun u => u;
     Url.clearHash := fun u => u;
     Url.clearSearch := fun u => u;
     Url.toString := fun u => u |}.

(** The three rows fallback synthesis inserts for a product without
    offers: [n] is the next row number of the store, [q] the encoded query. *)
Definition fallbackRow (n : nat) (productId title : string)
    (vendorId vendorName url : string) (priceCents etaDays : Z) : Offer.t :=
  {| Offer.id := Store.cuid n;
     Offer.vendorId := vendorId;
     Offer.vendorName := vendorName;
     Offer.productId := productId;
     Offer.title := title;
     Offer.priceCents := priceCents;
     Offer.shippingCents := 0;
     Offer.etaDays := etaDays;
     Offer.inStock := true;
     Offer.productUrl := url |}.

Definition syntheticRows (n : nat) (productId title q : string) : list Offer.t :=
  [ fallbackRow n productId title "fallback:ebay" "eBay"
      ("https://www.ebay.com/sch/i.html?_nkw=" ++ q) 1839 6;
    fallbackRow (S n) productId title "fallback:walmart" "Walmart"
      ("https://www.walmart.com/search?q=" ++ q) 1959 4;
    fallbackRow (S (S n)) productId title "fallback:target" "Target"
      ("https://www.target.com/s?searchTerm=" ++ q) 2059 5 ].


(** Referential integrity of the offer table: every offer row belongs to a
    stored product. *)
Definition referentialIntegrity (st : Store.t) : Prop :=
  forall o, In o (Store.offers st) ->
    exists p, In p (Store.products st) /\ Product.id p = Offer.productId o.

End Vocabulary.

Module Sample.

Definition offer (id vendorId : string) (priceCents shippingCents etaDays : Z)
    (inStock : bool) (productUrl : string) : Offer.t :=
  {| Offer.id := id;
     Offer.vendorId := vendorId;
     Offer.vendorName := vendorId;
     Offer.productId := "p1";
     Offer.title := "Sony WH-1000XM5";
     Offer.priceCents := priceCents;
     Offer.shippingCents := shippingCents;
     Offer.etaDays := etaDays;
     Offer.inStock := inStock;
     Offer.productUrl := productUrl |}.

(** Three offers: the cheapest is out of stock, the other two tie on the
    total and differ in ETA. *)
Definition rankedInput : list NormalizedOffer.t :=
  map OfferService.normalizeOffer
    [ offer "o1" "web:amazon" 9000 0 2 false "https://www.amazon.com/dp/B09XS7JWHH";
      offer "o2" "web:ebay" 9500 500 6 true "https://www.ebay.com/itm/1234";
      offer "o3" "web:walmart" 10000 0 4 true "https://www.walmart.com/ip/55" ].

(** A store with one product and no offers, live search switched off, and
    providers that time out. *)
Definition product1 : Product.t :=
  {| Product.id := "p1"; Product.title := "WH-1000XM5 Headphones";
     Product.brand := "Sony" |}.

Definition emptyStore : Store.t :=
  {| Store.products := [product1];
     Store.offers := [];
     Store.watchlist := [];
     Store.pendingNotifications := [];
     Store.nextId := 0 |}.

Definition liveOff : Config.t :=
  {| Config.enableWebSearchOffers := false;
     Config.enableSerpApiProxy := true;
     Config.serpApiApiKey := "" |}.

Definition timeouts : World.t :=
  {| World.searchOffersViaSerpApi := fun _ _ _ => Rejected "SerpAPI HTTP 504";
     World.queryAmazonProduct := fun _ => Rejected "The operation was aborted" |}.

(** A watcher of [product1] who pinned the Walmart offer when it cost
    10000 cents, with a 15% threshold and a 9000-cent target; a cheaper
    eBay offer is in stock. *)
Definition watch1 : WatchItem.t :=
  {| WatchItem.id := "w1";
     WatchItem.userId := "u1";
     WatchItem.productId := "p1";
     WatchItem.pctDropThreshold := 15;
     WatchItem.targetPriceCents := Some 9000;
     WatchItem.shippingImprovementOn := false;
     WatchItem.preferredOfferId := Some "o3";
     WatchItem.preferredVendorId := Some "web:walmart";
     WatchItem.preferredProductUrl := Some "https://www.walmart.com/ip/55";
     WatchItem.lastSeenBestPriceCents := Some 10000;
     WatchItem.lastSeenBestEtaDays := Some 4;
     WatchItem.lastNotifiedAt := None |}.

(** The same watcher without a target price. *)
Definition watch2 : WatchItem.t :=
  {| WatchItem.id := "w2";
     WatchItem.userId := "u2";
     WatchItem.productId := "p1";
     WatchItem.pctDropThreshold := 15;
     WatchItem.targetPriceCents := None;
     WatchItem.shippingImprovementOn := false;
     WatchItem.preferredOfferId := Some "o3";
     WatchItem.preferredVendorId := Some "web:walmart";
     WatchItem.preferredProductUrl := Some "https://www.walmart.com/ip/55";
     WatchItem.lastSeenBestPriceCents := Some 10000;
     WatchItem.lastSeenBestEtaDays := Some 4;
     WatchItem.lastNotifiedAt := None |}.

Definition stockedOffers : list Offer.t :=
  [ offer "o3" "web:walmart" 10000 0 4 true "https://www.walmart.com/ip/55";
    offer "o2" "web:ebay" 8000 0 6 true "https://www.ebay.com/itm/1234" ].

Definition watchStore : Store.t :=
  {| Store.products := [product1];
     Store.offers := stockedOffers;
     Store.watchlist := [watch1];
     Store.pendingNotifications := [];
     Store.nextId := 0 |}.

Definition pinnedStore : Store.t :=
  {| Store.products := [product1];
     Store.offers := stockedOffers;
     Store.watchlist := [watch2];
     Store.pendingNotifications := [];
     Store.nextId := 0 |}.

(** A store in which nothing moves for the watcher: only the pinned offer
    is in stock, at the baseline price. *)
Definition walmartOffer : Offer.t :=
  offer "o3" "web:walmart" 10000 0 4 true "https://www.walmart.com/ip/55".

Definition pinnedQuiet : Store.t :=
  {| Store.products := [product1];
     Store.offers := [walmartOffer];
     Store.watchlist := [watch2];
     Store.pendingNotifications := [];
     Store.nextId := 0 |}.

(** The threshold scenario: a 15% watcher with a 10000-cent baseline and a
    single in-stock offer at the given price. *)
Definition thresholdStore (priceCents : Z) : Store.t :=
  {| Store.products := [product1];
     Store.offers :=
       [offer "o3" "web:walmart" priceCents 0 4 true "https://www.walmart.com/ip/55"];
     Store.watchlist := [watch2];
     Store.pendingNotifications := [];
     Store.nextId := 0 |}.

(** Draws that leave every price and ETA where it is: the drift is
    -0.02 + 0.5 x 0.04 = 0 and 0.5 is not below 0.2. *)
Definition noDrift : nat -> Q := fun _ => 1 # 2.

End Sample.

(** ** The response cache of the SerpAPI proxy (brightDataProxyService) *)

Module SerpCache.

Section Cache.
(** A cached payload is a parsed JSON value; [truthyP] is its truthiness. *)
Variable P : Type.
Variable truthyP : P -> bool.
(** [SERP_RESPONSE_CACHE_TTL_MS]: [Number(env || 5 * 60 * 1000)]; [None]
    when the variable does not read as a number ([NaN]). *)
Variable ttl : option Z.

Record entry : Type := mkEntry {
  payload : P;
  ts : Z
}.

(** A [Map] from strings to entries, in insertion order. *)
Definition t : Type := list (string * entry).

Definition mapHas (k : string) (m : t) : bool :=
  existsb (fun kv => (fst kv =? k)%string) m.

Definition mapGet (k : string) (m : t) : option entry :=
  match find (fun kv => (fst kv =? k)%string) m with
  | Some kv => Some (snd kv)
  | None => None
  end.

(** [m.set(k, v)]: a present key keeps its place. *)
Definition mapSet (k : string) (v : entry) (m : t) : t :=
  if mapHas k m
  then map (fun kv => if (fst kv =? k)%string then (k, v) else kv) m
  else (m ++ [(k, v)])%list.

Definition mapDelete (k : string) (m : t) : t :=
  filter (fun kv => negb (fst kv =? k)%string) m.

(** [Date.now() - Number(entry.ts || 0) > SERP_RESPONSE_CACHE_TTL_MS]. *)
Definition expired (now : Z) (e : entry) : bool :=
  match ttl with
  | Some limit => limit <? now - ts e
  | None => false
  end.

(** [getCachedSerpResponse(cacheKey)] at time [now]: the result and the
    cache it leaves. *)
Definition getCachedSerpResponse (now : Z) (cacheKey : string) (m : t)
  : option P * t :=
  if negb (Js.truthy cacheKey) then (None, m)
  else
    match mapGet cacheKey m with
    | None => (None, m)
    | Some e =>
        if expired now e then (None, mapDelete cacheKey m)
        else ((if truthyP (payload e) then Some (payload e) else None), m)
    end.

(** [setCachedSerpResponse(cacheKey, payload)] at time [now]. *)
Definition setCachedSerpResponse (now : Z) (cacheKey : string) (p : P) (m : t)
  : t :=
  if negb (Js.truthy cacheKey) || negb (truthyP p) then m
  else
    let m1 := mapSet cacheKey {| payload := p; ts := now |} m in
    if (500 <? List.length m1)%nat
    then
      match m1 with
      | (oldest, _) :: _ => if Js.truthy oldest then mapDelete oldest m1 else m1
      | [] => m1
      end
    else m1.

End Cache.

End SerpCache.

Module CacheTerms.
Import SerpCache.

(** What the cache keeps true: at most 500 entries, under distinct,
    non-empty keys. *)
Definition bounded (P : Type) (m : SerpCache.t P) : Prop :=
  (List.length m <= 500)%nat /\
  NoDup (map fst m) /\
  Forall (fun kv => fst kv <> "") m.

Definition sampleCache : SerpCache.t string :=
  [("engine=amazon|host=amazon.com|limit=8|query=sony|asin=",
    {| payload := "{}"; ts := 1000 |})].

End CacheTerms.

(** ** A query of the SerpAPI proxy (brightDataProxyService) *)

(** The settings [querySerpApi] reads. *)
Module ProxyConfig.
Record t : Type := mk {
  enableSerpApiProxy : bool;
  serpApiApiKey : string;
  serpApiBaseUrl : string;
  serpApiEngine : string;
  serpApiCountry : string;
  serpApiLanguage : string
}.
End ProxyConfig.

(** The counters of the module; an instant stands for its ISO text. *)
Module ProxyMetrics.
Record t : Type := mk {
  attempts : Z;
  successes : Z;
  failures : Z;
  lastAttemptAt : option Z;
  lastSuccessAt : option Z;
  lastFailureAt : option Z;
  lastError : option string;
  lastStatusCode : option Z;
  lastUrl : option string
}.
End ProxyMetrics.

(** The arguments of a query; an absent text argument is the empty string
    and an absent limit is 12, the default of the parameter. *)
Module QueryArgs.
Record t : Type := mk {
  query : string;
  host : string;
  limit : Z;
  engine : string;
  asin : string;
  noCache : bool
}.
End QueryArgs.

Module SerpQuery.

Section Query.
(** A parsed JSON payload and its truthiness. *)
Variable P : Type.
Variable truthyP : P -> bool.
(** [{}] and [{ search_metadata: { id: null } }]. *)
Variable emptyObject : P.
Variable blankResult : P.
(** [SERP_RESPONSE_CACHE_TTL_MS]; [None] when it is not a number. *)
Variable ttl : option Z.
(** [new URLSearchParams(entries).toString()]. *)
Variable searchParams : list (string * string) -> string.

(** What [fetch] settles to: a rejection, with the message of the error
    and its text, or a response with its status and the body [res.json()]
    reads ([None] when it cannot be parsed). *)
Inductive fetched : Type :=
| FetchFailed (message text : string)
| Response (status : Z) (body : option P).

Variable fetch : string -> fetched.
Variable cfg : ProxyConfig.t.

Record state : Type := mkState {
  cache : SerpCache.t P;
  metrics : ProxyMetrics.t
}.

Definition isEnabled : bool :=
  ProxyConfig.enableSerpApiProxy cfg && Js.truthy (ProxyConfig.serpApiApiKey cfg).

(** [positiveInteger(value, fallback, min, max)]; [None] is a value that
    is not a finite number. *)
Definition positiveInteger (value : option Q) (fallback min max : Z) : Z :=
  match value with
  | None => fallback
  | Some numeric => Z.max min (Z.min max (Js.round numeric))
  end.

(** [s.replace(/\/+$/g, '')]. *)
Fixpoint stripSlashEnd (s : string) : string :=
  match s with
  | EmptyString => EmptyString
  | String c s' =>
      let t := stripSlashEnd s' in
      if (c =? "/")%char && (t =? "")%string then EmptyString else String c t
  end.

(** [params.set(k, v)]. *)
Definition paramSet (k v : string) (params : list (string * string))
  : list (string * string) :=
  if existsb (fun kv => (fst kv =? k)%string) params
  then map (fun kv => if (fst kv =? k)%string then (k, v) else kv) params
  else (params ++ [(k, v)])%list.

Definition base : string :=
  stripSlashEnd (Js.orElse (ProxyConfig.serpApiBaseUrl cfg) "https://serpapi.com").

Definition normalizedEngine (args : QueryArgs.t) : string :=
  Js.toLowerCase
    (Js.orElse (QueryArgs.engine args)
       (Js.orElse (ProxyConfig.serpApiEngine cfg) "google")).

Definition normalizedLimit (args : QueryArgs.t) : Z :=
  positiveInteger (Some (inject_Z (QueryArgs.limit args))) 12 1 25.

Definition normalizedAsin (args : QueryArgs.t) : string :=
  Js.toUpperCase (Js.trim (QueryArgs.asin args)).

Definition safeHost (args : QueryArgs.t) : string :=
  WebSearchProvider.stripWww (QueryArgs.host args).

Definition baseParams : list (string * string) :=
  [("api_key", ProxyConfig.serpApiApiKey cfg);
   ("gl", Js.orElse (ProxyConfig.serpApiCountry cfg) "us");
   ("hl", Js.orElse (ProxyConfig.serpApiLanguage cfg) "en")].

(** What the three branches on the engine come to: an error thrown, the
    blank result returned at once, or the parameters of the request. *)
Inductive planned : Type :=
| Throw (message : string)
| Blank
| Request (params : list (string * string)).

Definition plan (args : QueryArgs.t) : planned :=
  let engine := normalizedEngine args in
  if (engine =? "amazon_product")%string then
    if negb (SerpApiProxy.isValidAsin (normalizedAsin args))
    then Throw "SerpAPI amazon_product requires a valid ASIN"
    else
      Request
        (paramSet "amazon_domain" (Js.orElse (safeHost args) "amazon.com")
           (paramSet "asin" (normalizedAsin args)
              (paramSet "engine" "amazon_product" baseParams)))
  else if (engine =? "amazon")%string then
    let scopedQuery := SerpApiProxy.normalizeWhitespace (QueryArgs.query args) in
    if negb (Js.truthy scopedQuery) then Blank
    else
      Request
        (paramSet "page" "1"
           (paramSet "amazon_domain" (Js.orElse (safeHost args) "amazon.com")
              (paramSet "k" scopedQuery
                 (paramSet "engine" "amazon" baseParams))))
  else
    let scopedQuery :=
      SerpApiProxy.normalizeWhitespace
        (if Js.truthy (QueryArgs.host args)
         then "site:" ++ QueryArgs.host args ++ " " ++ QueryArgs.query args
         else QueryArgs.query args) in
    if negb (Js.truthy scopedQuery) then Blank
    else
      Request
        (paramSet "num" (Js.showZ (normalizedLimit args))
           (paramSet "q" scopedQuery
              (paramSet "engine" (Js.orElse engine "google") baseParams))).

Definition cacheKeyOf (args : QueryArgs.t) : string :=
  if QueryArgs.noCache args then ""
  else
    "engine=" ++ normalizedEngine args ++
    "|host=" ++ safeHost args ++
    "|limit=" ++ Js.showZ (normalizedLimit args) ++
    "|query=" ++ SerpApiProxy.normalizeWhitespace (QueryArgs.query args) ++
    "|asin=" ++ normalizedAsin args.

Definition urlOf (params : list (string * string)) : string :=
  base ++ "/search.json?" ++ searchParams params.

Definition attempted (now : Z) (url : string) (m : ProxyMetrics.t)
  : ProxyMetrics.t :=
  {| ProxyMetrics.attempts := ProxyMetrics.attempts m + 1;
     ProxyMetrics.successes := ProxyMetrics.successes m;
     ProxyMetrics.failures := ProxyMetrics.failures m;
     ProxyMetrics.lastAttemptAt := Some now;
     ProxyMetrics.lastSuccessAt := ProxyMetrics.lastSuccessAt m;
     ProxyMetrics.lastFailureAt := ProxyMetrics.lastFailureAt m;
     ProxyMetrics.lastError := None;
     ProxyMetrics.lastStatusCode := None;
     ProxyMetrics.lastUrl := Some url |}.

Definition withStatus (status : Z) (m : ProxyMetrics.t) : ProxyMetrics.t :=
  {| ProxyMetrics.attempts := ProxyMetrics.attempts m;
     ProxyMetrics.successes := ProxyMetrics.successes m;
     ProxyMetrics.failures := ProxyMetrics.failures m;
     ProxyMetrics.lastAttemptAt := ProxyMetrics.lastAttemptAt m;
     ProxyMetrics.lastSuccessAt := ProxyMetrics.lastSuccessAt m;
     ProxyMetrics.lastFailureAt := ProxyMetrics.lastFailureAt m;
     ProxyMetrics.lastError := ProxyMetrics.lastError m;
     ProxyMetrics.lastStatusCode := Some status;
     ProxyMetrics.lastUrl := ProxyMetrics.lastUrl m |}.

Definition succeeded (at' : Z) (m : ProxyMetrics.t) : ProxyMetrics.t :=
  {| ProxyMetrics.attempts := ProxyMetrics.attempts m;
     ProxyMetrics.successes := ProxyMetrics.successes m + 1;
     ProxyMetrics.failures := ProxyMetrics.failures m;
     ProxyMetrics.lastAttemptAt := ProxyMetrics.lastAttemptAt m;
     ProxyMetrics.lastSuccessAt := Some at';
     ProxyMetrics.lastFailureAt := ProxyMetrics.lastFailureAt m;
     ProxyMetrics.lastError := ProxyMetrics.lastError m;
     ProxyMetrics.lastStatusCode := ProxyMetrics.lastStatusCode m;
     ProxyMetrics.lastUrl := ProxyMetrics.lastUrl m |}.

(** The [catch] block: [String(error?.message || error || ...)]. *)
Definition failed (at' : Z) (message text : string) (m : ProxyMetrics.t)
  : ProxyMetrics.t :=
  {| ProxyMetrics.attempts := ProxyMetrics.attempts m;
     ProxyMetrics.successes := ProxyMetrics.successes m;
     ProxyMetrics.failures := ProxyMetrics.failures m + 1;
     ProxyMetrics.lastAttemptAt := ProxyMetrics.lastAttemptAt m;
     ProxyMetrics.lastSuccessAt := ProxyMetrics.lastSuccessAt m;
     ProxyMetrics.lastFailureAt := Some at';
     ProxyMetrics.lastError := Some (Js.orElse message text);
     ProxyMetrics.lastStatusCode := ProxyMetrics.lastStatusCode m;
     ProxyMetrics.lastUrl := ProxyMetrics.lastUrl m |}.

(** [res.ok]. *)
Definition isOk (status : Z) : bool := (200 <=? status) && (status <=? 299).

(** The request and what follows it, from the line that counts the
    attempt; the response is read at [settledAt]. *)
Definition request (now settledAt : Z) (cacheable : bool) (cacheKey : string)
    (params : list (string * string)) (st : state) : outcome P * state :=
  let url := urlOf params in
  let m1 := attempted now url (metrics st) in
  match fetch url with
  | FetchFailed message text =>
      (Rejected message, mkState (cache st) (failed settledAt message text m1))
  | Response status body =>
      let m2 := withStatus status m1 in
      let payload := match body with Some p => p | None => emptyObject end in
      if negb (isOk status)
      then
        let message := "SerpAPI HTTP " ++ Js.showZ status in
        (Rejected message,
         mkState (cache st) (failed settledAt message ("Error: " ++ message) m2))
      else
        let c' :=
          if cacheable
          then SerpCache.setCachedSerpResponse truthyP settledAt cacheKey payload
                 (cache st)
          else cache st in
        (Fulfilled payload, mkState c' (succeeded settledAt m2))
  end.

(** [querySerpApi(args)], called at [now]. *)
Definition querySerpApi (now settledAt : Z) (args : QueryArgs.t) (st : state)
  : outcome P * state :=
  if negb isEnabled then (Rejected "SerpAPI proxy is not configured", st)
  else
    match plan args with
    | Throw message => (Rejected message, st)
    | Blank => (Fulfilled blankResult, st)
    | Request params0 =>
        let params :=
          if QueryArgs.noCache args then paramSet "no_cache" "true" params0
          else params0 in
        let cacheable := negb (QueryArgs.noCache args) in
        let cacheKey := cacheKeyOf args in
        if cacheable then
          match SerpCache.getCachedSerpResponse truthyP ttl now cacheKey (cache st) with
          | (Some cached, c') => (Fulfilled cached, mkState c' (metrics st))
          | (None, c') =>
              request now settledAt cacheable cacheKey params
                (mkState c' (metrics st))
          end
        else request now settledAt cacheable cacheKey params st
    end.

End Query.

End SerpQuery.

Module QueryTerms.
Import SerpQuery.

(** The cache of the state holds at most 500 entries. *)
Definition withinCap (P : Type) (st : state P) : Prop :=
  (List.length (cache st) <= 500)%nat.

Definition sampleConfig : ProxyConfig.t :=
  {| ProxyConfig.enableSerpApiProxy := true;
     ProxyConfig.serpApiApiKey := "key";
     ProxyConfig.serpApiBaseUrl := "https://serpapi.com/";
     ProxyConfig.serpApiEngine := "google";
     ProxyConfig.serpApiCountry := "";
     ProxyConfig.serpApiLanguage := "" |}.

Definition sampleArgs : QueryArgs.t :=
  {| QueryArgs.query := "sony  wh-1000xm5";
     QueryArgs.host := "";
     QueryArgs.limit := 12;
     QueryArgs.engine := "google_shopping";
     QueryArgs.asin := "";
     QueryArgs.noCache := false |}.

Definition noMetrics : ProxyMetrics.t :=
  {| ProxyMetrics.attempts := 0;
     ProxyMetrics.successes := 0;
     ProxyMetrics.failures := 0;
     ProxyMetrics.lastAttemptAt := None;
     ProxyMetrics.lastSuccessAt := None;
     ProxyMetrics.lastFailureAt := None;
     ProxyMetrics.lastError := None;
     ProxyMetrics.lastStatusCode := None;
     ProxyMetrics.lastUrl := None |}.

Definition freshState : state string := mkState [] noMetrics.

(** A network that answers every request with status 200 and an empty
    object, and one that is down. *)
Definition answering : string -> fetched string :=
  fun _ => Response 200 (Some "{}").

Definition down : string -> fetched string :=
  fun _ => @FetchFailed string "fetch failed" "TypeError: fetch failed".

End QueryTerms.

(** ** The results of a search (brightDataProxyService) *)

(** One entry of a SerpAPI result array, with the fields the proxy reads;
    an absent text field is the empty string. *)
Module RawSerpItem.
Record t : Type := mk {
  link : string;
  url : string;
  title : string;
  name : string;
  snippet : string;
  snippet_highlighted_words : option (list string);
  price : JsPrice;
  extracted_price : JsPrice;
  price_raw : JsPrice;
  delivery : string;
  shipping : string
}.
End RawSerpItem.

(** The payload of a search; [None] is a field that is not an array. *)
Module SerpPayload.
Record t : Type := mk {
  organic_results : option (list RawSerpItem.t);
  shopping_results : option (list RawSerpItem.t);
  inline_shopping_results : option (list RawSerpItem.t)
}.
End SerpPayload.

Module SerpResults.

Section Normalize.
(** [new URL(link).host]; [None] when the constructor throws. *)
Variable urlHost : string -> option string.

Definition arrayOf (field : option (list RawSerpItem.t)) : list RawSerpItem.t :=
  match field with
  | Some l => l
  | None => []
  end.

Definition resultsOf (payload : SerpPayload.t) : list RawSerpItem.t :=
  (arrayOf (SerpPayload.organic_results payload)
   ++ arrayOf (SerpPayload.shopping_results payload)
   ++ arrayOf (SerpPayload.inline_shopping_results payload))%list.

(** [words.join(' ')]. *)
Fixpoint join (words : list string) : string :=
  match words with
  | [] => ""
  | [w] => w
  | w :: rest => w ++ " " ++ join rest
  end.

(** [normalizeWhitespace(item?.link || item?.url)]. *)
Definition linkOf (item : RawSerpItem.t) : string :=
  SerpApiProxy.normalizeWhitespace
    (Js.orElse (RawSerpItem.link item) (RawSerpItem.url item)).

(** [parsed.host.toLowerCase().includes(hostFilter.replace(/^www\./i, '').toLowerCase())];
    [false] when [new URL(link)] throws. *)
Definition hostMatches (hostFilter link : string) : bool :=
  match urlHost link with
  | Some host =>
      Js.includes (Js.toLowerCase host)
        (Js.toLowerCase (WebSearchProvider.stripWww hostFilter))
  | None => false
  end.

(** The entry pushed for an item; [null] in a text field is the empty
    string. *)
Definition entryOf (item : RawSerpItem.t) (link : string) : SerpResult.t :=
  {| SerpResult.title :=
       SerpApiProxy.normalizeWhitespace
         (Js.orElse (RawSerpItem.title item) (RawSerpItem.name item));
     SerpResult.link := link;
     SerpResult.snippet :=
       SerpApiProxy.normalizeWhitespace
         (Js.orElse (RawSerpItem.snippet item)
            (match RawSerpItem.snippet_highlighted_words item with
             | Some words => join words
             | None => ""
             end));
     SerpResult.price :=
       WebSearchProvider.orPrice (RawSerpItem.price item)
         (WebSearchProvider.orPrice (RawSerpItem.extracted_price item)
            (WebSearchProvider.orPrice (RawSerpItem.price_raw item) PriceNull));
     SerpResult.extracted_price :=
       WebSearchProvider.orPrice (RawSerpItem.extracted_price item) PriceNull;
     SerpResult.delivery :=
       Js.orElse (RawSerpItem.delivery item) (RawSerpItem.shipping item) |}.


(** The loop over the results: [out] and [seen] as they stand. *)
Fixpoint collect (hostFilter : string) (limit : Z) (items : list RawSerpItem.t)
    (out : list SerpResult.t) (seen : list string) : list SerpResult.t :=
  match items with
  | [] => out
  | item :: rest =>
      let link := linkOf item in
      if negb (Js.truthy link) || negb (Js.startsWith link "http")
      then collect hostFilter limit rest out seen
      else if Js.truthy hostFilter && negb (hostMatches hostFilter link)
      then collect hostFilter limit rest out seen
      else if Js.setHas seen link
      then collect hostFilter limit rest out seen
      else
        let seen' := Js.setAdd seen link in
        let out' := (out ++ [entryOf item link])%list in
        if limit <=? Z.of_nat (List.length out') then out'
        else collect hostFilter limit rest out' seen'
  end.

Definition normalizeSerpOfferResults (payload : SerpPayload.t)
    (hostFilter : string) (limit : Z) : list SerpResult.t :=
  collect hostFilter limit (resultsOf payload) [] [].

(** [searchOffersViaSerpApi({ query, host, limit, engine })], over what
    [querySerpApi] settles to for the normalized query, the host, the limit
    and the engine; [defaultEngine] is [config.serpApiEngine]. *)
Definition searchOffersViaSerpApi
    (querySerpApi : string -> string -> Z -> string -> outcome SerpPayload.t)
    (defaultEngine : string) (query host : string) (limit : Z) (engine : string)
  : outcome (list SerpResult.t) :=
  let normalizedQuery := SerpApiProxy.normalizeWhitespace query in
  if negb (Js.truthy normalizedQuery) then Fulfilled []
  else
    match querySerpApi normalizedQuery host limit
            (Js.orElse engine (Js.orElse defaultEngine "google")) with
    | Rejected e => Rejected e
    | Fulfilled payload => Fulfilled (normalizeSerpOfferResults payload host limit)
    end.

End Normalize.

End SerpResults.

Module SerpFixtures.

Definition rawItem (link title : string) (price : Q) : RawSerpItem.t :=
  {| RawSerpItem.link := link;
     RawSerpItem.url := "";
     RawSerpItem.title := title;
     RawSerpItem.name := "";
     RawSerpItem.snippet := "";
     RawSerpItem.snippet_highlighted_words := None;
     RawSerpItem.price := PriceNull;
     RawSerpItem.extracted_price := PriceNumber price;
     RawSerpItem.price_raw := PriceNull;
     RawSerpItem.delivery := "";
     RawSerpItem.shipping := "" |}.

(** A payload that lists the same eBay link in two arrays. *)
Definition samplePayload : SerpPayload.t :=
  {| SerpPayload.organic_results :=
       Some [rawItem "https://www.ebay.com/itm/1234" "Sony WH-1000XM5" 95];
     SerpPayload.shopping_results :=
       Some [rawItem "  https://www.ebay.com/itm/1234 " "Sony WH-1000XM5" 95;
             rawItem "https://www.walmart.com/ip/55" "Sony WH-1000XM5" 90;
             rawItem "ftp://example.test/x" "Sony" 1];
     SerpPayload.inline_shopping_results := None |}.

End SerpFixtures.

(** ** Numbers *)

Module JsNumber.

(** [Number(x.toFixed(2))]. *)
Definition roundTo2 (x : Q) : Q :=
  let neg := negb (Qle_bool 0 x) in
  let ax := if neg then Qopp x else x in
  let n := Qfloor (ax * 100 + (1 # 2))%Q in
  if neg then Qopp (n # 100) else (n # 100).

(** [a > b] on numbers. *)
Definition gtQ (a b : Q) : bool := negb (Qle_bool a b).

End JsNumber.

(** ** Recognition by text hints (recognitionService.js) *)

(** A row of the product table, with the columns recognition reads. *)
Module CatalogProduct.
Record t : Type := mk {
  id : string;
  title : string;
  brand : string;
  upc : option string;
  imageUrl : option string
}.
End CatalogProduct.

Module Recognized.
Record t : Type := mk {
  id : string;
  title : string;
  brand : string;
  upc : option string;
  imageUrl : option string;
  confidence : Q
}.
End Recognized.

Module Recognition.
Import JsNumber.

(** [s.replace(/[^a-z0-9\s]/g, ' ')]. *)
Definition plainChar (c : ascii) : ascii :=
  if Js.isLower c || Js.isDigit c || Js.isSpace c then c else " "%char.

(** [s.split(/\s+/)]: [cur] is the piece being read, [inRun] whether the
    last character was whitespace. *)
Fixpoint splitFrom (inRun : bool) (cur : string) (s : string) : list string :=
  match s with
  | EmptyString => [cur]
  | String c s' =>
      if Js.isSpace c
      then (if inRun then splitFrom true cur s'
            else cur :: splitFrom true EmptyString s')
      else splitFrom false (cur ++ String c EmptyString) s'
  end.

Definition splitSpaces (s : string) : list string :=
  splitFrom false EmptyString s.

Definition tokenize (value : string) : list string :=
  filter (fun t => (2 <=? String.length t)%nat)
    (splitSpaces (Js.mapString plainChar (Js.toLowerCase value))).

(** The loop of [overlapScore]. *)
Definition hitsOf (tokensA setB : list string) : nat :=
  List.length (filter (Js.setHas setB) tokensA).

Definition overlapScore (tokensA tokensB : list string) : Q :=
  if (List.length tokensA =? 0)%nat || (List.length tokensB =? 0)%nat then 0%Q
  else
    let setB := Js.setOf tokensB in
    Double.div (inject_Z (Z.of_nat (hitsOf tokensA setB)))
               (inject_Z (Z.of_nat (List.length tokensA))).

(** [words.join(' ')]. *)
Fixpoint join (words : list string) : string :=
  match words with
  | [] => ""
  | [w] => w
  | w :: rest => w ++ " " ++ join rest
  end.

(** [`${p.brand} ${p.title} ${p.upc || ''}`]. *)
Definition productText (p : CatalogProduct.t) : string :=
  CatalogProduct.brand p ++ " " ++ CatalogProduct.title p ++ " " ++
  match CatalogProduct.upc p with
  | Some u => u
  | None => ""
  end.

(** The loop over the products: [best] and [bestScore] as they stand. *)
Fixpoint scan (queryTokens : list string) (products : list CatalogProduct.t)
    (best : option CatalogProduct.t) (bestScore : Q)
  : option CatalogProduct.t * Q :=
  match products with
  | [] => (best, bestScore)
  | p :: rest =>
      let score := overlapScore queryTokens (tokenize (productText p)) in
      if gtQ score bestScore then scan queryTokens rest (Some p) score
      else scan queryTokens rest best bestScore
  end.

(** [recognizeByTextHints(textHints)] over the product table as
    [findMany] returns it; [None] for hints that are not an array. *)
Definition recognizeByTextHints (textHints : option (list string))
    (products : list CatalogProduct.t) : option Recognized.t :=
  let hints :=
    match textHints with
    | Some l => firstn 25 (filter Js.truthy (map SerpApiProxy.normalizeWhitespace l))
    | None => []
    end in
  if (List.length hints =? 0)%nat then None
  else
    let queryTokens := tokenize (join hints) in
    if (List.length queryTokens =? 0)%nat then None
    else
      match scan queryTokens (firstn 80 products) None 0%Q with
      | (None, _) => None
      | (Some best, bestScore) =>
          if gtQ (Double.round (35 # 100)) bestScore then None
          else
            Some {| Recognized.id := CatalogProduct.id best;
                    Recognized.title := CatalogProduct.title best;
                    Recognized.brand := CatalogProduct.brand best;
                    Recognized.upc := CatalogProduct.upc best;
                    Recognized.imageUrl := CatalogProduct.imageUrl best;
                    Recognized.confidence := roundTo2 bestScore |}
      end.

End Recognition.

Module RecognitionTerms.
Import Recognition.

(** The tokens the hints are matched by. *)
Definition queryTokensOf (textHints : option (list string)) : list string :=
  match textHints with
  | Some l =>
      tokenize
        (join (firstn 25 (filter Js.truthy (map SerpApiProxy.normalizeWhitespace l))))
  | None => []
  end.

(** The share of the tokens a product's text holds. *)
Definition scoreWith (tokens : list string) (p : CatalogProduct.t) : Q :=
  overlapScore tokens (tokenize (productText p)).

Definition scoreOf (textHints : option (list string)) (p : CatalogProduct.t) : Q :=
  scoreWith (queryTokensOf textHints) p.

(** The literal [0.35] of the code. *)
Definition minScore : Q := Double.round (35 # 100).

(** Hints and product texts in the ASCII range. *)
Definition asciiHints (textHints : option (list string)) : Prop :=
  forall l, textHints = Some l ->
    Forall (fun h => Vocabulary.asciiOnly h = true) l.

Definition asciiProduct (p : CatalogProduct.t) : Prop :=
  Vocabulary.asciiOnly (productText p) = true.

Definition sameProduct (r : Recognized.t) (p : CatalogProduct.t) : Prop :=
  Recognized.id r = CatalogProduct.id p /\
  Recognized.title r = CatalogProduct.title p /\
  Recognized.brand r = CatalogProduct.brand p /\
  Recognized.upc r = CatalogProduct.upc p /\
  Recognized.imageUrl r = CatalogProduct.imageUrl p.

Definition headphones : CatalogProduct.t :=
  {| CatalogProduct.id := "p1";
     CatalogProduct.title := "WH-1000XM5 Headphones";
     CatalogProduct.brand := "Sony";
     CatalogProduct.upc := Some "027242923232";
     CatalogProduct.imageUrl := None |}.

Definition speaker : CatalogProduct.t :=
  {| CatalogProduct.id := "p2";
     CatalogProduct.title := "SRS-XB100 Speaker";
     CatalogProduct.brand := "Sony";
     CatalogProduct.upc := None;
     CatalogProduct.imageUrl := None |}.

End RecognitionTerms.

(** ** Helpers of the server and of the shared watchlist service
    (sharedRemoteWatchlistService.js) *)

Module ServerHelpers.

(** [normalizeEmail(value)], the same text in both files. *)
Definition normalizeEmail (value : string) : string :=
  let email := Js.toLowerCase (Js.trim value) in
  if negb (Js.truthy email) then ""
  else if negb (Js.includes email "@") then ""
  else if (254 <? String.length email)%nat then ""
  else email.

Section Numbers.
(** [Number(s)] for a non-empty string; [None] when it is not finite. *)
Variable numberOf : string -> option Q.

(** The guard the cent helpers share: [null], [undefined] and [''] are
    refused before [Number(value)] is taken, then what is not finite or
    not above zero. *)
Definition positiveNumber (value : JsPrice) : option Q :=
  let num :=
    match value with
    | PriceNull => None
    | PriceNumber n => Some n
    | PriceString s => if (s =? "")%string then None else numberOf s
    end in
  match num with
  | Some n => if Qle_bool n 0 then None else Some n
  | None => None
  end.

Definition normalizeCents (value : JsPrice) : option Z :=
  option_map Js.round (positiveNumber value).


End Numbers.


Definition isSlugChar (c : ascii) : bool := Js.isLower c || Js.isDigit c.

(** [s.replace(/[^a-z0-9]+/g, '-')]. *)
Fixpoint dashFrom (inRun : bool) (s : string) : string :=
  match s with
  | EmptyString => EmptyString
  | String c s' =>
      if isSlugChar c then String c (dashFrom false s')
      else if inRun then dashFrom true s'
      else String "-" (dashFrom true s')
  end.

(** [s.replace(/^-+|-+$/g, '')]. *)
Fixpoint stripDashStart (s : string) : string :=
  match s with
  | EmptyString => EmptyString
  | String c s' => if (c =? "-")%char then stripDashStart s' else s
  end.

Fixpoint stripDashEnd (s : string) : string :=
  match s with
  | EmptyString => EmptyString
  | String c s' =>
      let t := stripDashEnd s' in
      if (c =? "-")%char && (t =? "")%string then EmptyString else String c t
  end.

Definition slugifyToken (value fallback : string) : string :=
  let token :=
    substring 0 32
      (stripDashEnd (stripDashStart (dashFrom false (Js.toLowerCase value)))) in
  Js.orElse token fallback.

Definition vendorIdForSharedDomain (domain : string) : string :=
  let normalized :=
    WebSearchProvider.stripWww (Js.toLowerCase (Js.trim domain)) in
  if negb (Js.truthy normalized) then "shared:unknown"
  else "shared:" ++ slugifyToken normalized "site".

End ServerHelpers.

Module HelperTerms.

(** A token of a vendor id: lower-case letters, digits and dashes, at most
    32 of them, at least one, not starting with a dash. *)
Definition isTokenChar (c : ascii) : bool :=
  ServerHelpers.isSlugChar c || (c =? "-")%char.

Definition wellFormedToken (t : string) : Prop :=
  (1 <= String.length t <= 32)%nat /\
  SerpApiProxy.allChars isTokenChar t = true /\
  String.prefix "-" t = false.

(** A canonical address: trimmed, in lower case, with an [@], at most 254
    characters. *)
Definition canonicalEmail (e : string) : Prop :=
  Js.trim e = e /\ Js.toLowerCase e = e /\
  Js.includes e "@" = true /\ (String.length e <= 254)%nat.

End HelperTerms.

(** ** Vocabulary of the further properties *)

Module RankingTerms.
Import OfferService Vocabulary.

(** The order both readers use: total first, then the ETA. *)
Definition cheaper (a b : NormalizedOffer.t) : Prop :=
  total a < total b \/
  (total a = total b /\ NormalizedOffer.etaDays a < NormalizedOffer.etaDays b).

Definition notDearer (a b : NormalizedOffer.t) : Prop :=
  total a < total b \/
  (total a = total b /\ NormalizedOffer.etaDays a <= NormalizedOffer.etaDays b).

Definition firstCheapest (l pre : list NormalizedOffer.t) (o : NormalizedOffer.t)
    (post : list NormalizedOffer.t) : Prop :=
  l = (pre ++ o :: post)%list /\
  (forall p, In p l -> notDearer o p) /\
  (forall p, In p pre -> cheaper o p).

End RankingTerms.

Module TickTerms.
Import Vocabulary.

(** [((baseline - price) / baseline) * 100], as the alert loop computes
    it for a positive baseline. *)
Definition dropPctBetween (baseline price : Z) : Q :=
  Double.mul
    (Double.div (Double.sub (inject_Z baseline) (inject_Z price))
       (inject_Z baseline))
    100.

(** The rows the drift loop writes for the offers [l], walked from draw [k]. *)
Fixpoint repricedOf (random : nat -> Q) (l : list Offer.t) (k : nat)
  : list Offer.t :=
  match l with
  | [] => []
  | o :: rest =>
      Store.reprice (Offer.id o) (newPriceAt random k o) (newEtaAt random k o) o
      :: repricedOf random rest (nextDraw random k)
  end.

End TickTerms.

Module RefreshTerms.
Import Vocabulary OfferService.

(** What [getRankedOffers] answers from an offer table. *)
Definition rankedOf (productId strategy : string) (offers : list Offer.t)
  : RankedOffers.t :=
  {| RankedOffers.offers := map normalizeOffer (inStockOf productId offers);
     RankedOffers.recommendedOfferId :=
       recommendedOfferIdForStrategy
         (map normalizeOffer (inStockOf productId offers)) strategy;
     RankedOffers.strategy := strategy |}.

(** Live web search is switched off by the configuration. *)
Definition liveSearchOff (cfg : Config.t) : Prop :=
  Config.enableWebSearchOffers cfg && Config.enableSerpApiProxy cfg &&
  Js.truthy (Config.serpApiApiKey cfg) = false.

(** Every search of the world fails. *)
Definition allSearchesFail (w : World.t) : Prop :=
  forall query host engine,
    exists reason, World.searchOffersViaSerpApi w query host engine = Rejected reason.

(** The compound key of the offer table is unique. *)
Definition offerKey (o : Offer.t) : string * string :=
  (Offer.productId o, Offer.vendorId o).

Definition uniqueKeys (st : Store.t) : Prop :=
  NoDup (map offerKey (Store.offers st)).

(** A row after a write of the refresh of product [pid]: same id and key,
    and the same row altogether when it belongs to another product. *)
Definition keptRow (pid : string) (o o' : Offer.t) : Prop :=
  Offer.id o' = Offer.id o /\
  Offer.productId o' = Offer.productId o /\
  Offer.vendorId o' = Offer.vendorId o /\
  (Offer.productId o <> pid -> o' = o).

(** The store after writes that only touch the offers of product [pid]:
    the old rows in place, then rows of [pid]. *)
Definition touchesOnly (pid : string) (st st' : Store.t) : Prop :=
  Store.products st' = Store.products st /\
  Store.watchlist st' = Store.watchlist st /\
  Store.pendingNotifications st' = Store.pendingNotifications st /\
  (exists upd new,
     Store.offers st' = (upd ++ new)%list /\
     Forall2 (keptRow pid) (Store.offers st) upd /\
     Forall (fun o => Offer.productId o = pid) new) /\
  (uniqueKeys st -> uniqueKeys st').

Definition fallbackVendorIds : list string :=
  ["fallback:ebay"; "fallback:walmart"; "fallback:target"; "fallback:bestbuy"].

(** A synthetic offer of product [pid]. *)
Definition syntheticOffer (pid : string) (o : Offer.t) : Prop :=
  Offer.productId o = pid /\
  Offer.inStock o = true /\
  Offer.shippingCents o = 0 /\
  99 <= Offer.priceCents o /\
  In (Offer.vendorId o) fallbackVendorIds /\
  Offer.id o <> "" /\
  NormalizedOffer.listingVerified (normalizeOffer o) = false.

Definition liveOn : Config.t :=
  {| Config.enableWebSearchOffers := true;
     Config.enableSerpApiProxy := true;
     Config.serpApiApiKey := "key" |}.

(** A computation all of whose writes only touch product [pid]. *)
Definition local (pid : string) {A : Type} (m : Store.M A) : Prop :=
  forall st, touchesOnly pid st (snd (m st)).

End RefreshTerms.

Module ProviderTerms.
Import WebSearchProvider.

(** The keys [pickBestOffer] sorts by: a missing or zero price counts as
    10^12, a zero ETA as 99. *)
Definition priceKey (c : Candidate.t) : Z :=
  orDefault (Candidate.priceCents c) (10 ^ 12).

Definition etaKey (c : Candidate.t) : Z :=
  orDefault (Some (Candidate.etaDays c)) 99.

Definition totalKey (c : Candidate.t) : Z :=
  priceKey c + orDefault (Some (Candidate.shippingCents c)) 0.

Definition webVendorIds : list string :=
  ["web:amazon"; "web:ebay"; "web:walmart"; "web:target"; "web:bestbuy";
   "web:newegg"].

(** What every offer the provider hands over satisfies. *)
Definition wellFormedCandidate (c : Candidate.t) : Prop :=
  In (Candidate.vendorId c) webVendorIds /\
  Candidate.inStock c = true /\
  Candidate.shippingCents c = 0 /\
  1 <= Candidate.etaDays c <= 14 /\
  (forall p, Candidate.priceCents c = Some p -> 0 <= p) /\
  (Candidate.vendorId c <> "web:amazon" ->
   exists p, Candidate.priceCents c = Some p /\ 0 < p).

(** The candidates of the shopping search that carry a price. *)
Definition pricedShoppingCandidates (api : Url.Api) (serp : list SerpResult.t)
  : list Candidate.t :=
  filter hasPrice (mapFilterIdx (shoppingCandidate api) 0 serp).

End ProviderTerms.

Module ListingTerms.

Definition ebayItm : string := "https://www.ebay.com/itm/".

(** An offer row with the given listing URL. *)
Definition listedAt (url : string) (o : Offer.t) : Prop :=
  Offer.productUrl o = url.

Definition isLowerAlnum (c : ascii) : bool := Js.isLower c || Js.isDigit c.

(** An eBay item number: digits, at least one. *)
Definition itemId (d : string) : Prop :=
  d <> "" /\ SerpApiProxy.allChars Js.isDigit d = true.

End ListingTerms.

Module LiveTerms.
Import OfferService.

(** Live web search is configured. *)
Definition liveSearchOn (cfg : Config.t) : Prop :=
  Config.enableWebSearchOffers cfg && Config.enableSerpApiProxy cfg &&
  Js.truthy (Config.serpApiApiKey cfg) = true.

(** The query a refresh searches a product by. *)
Definition queryOf (product : Product.t) : string :=
  normalizeWhitespace
    (Js.trim (Product.brand product ++ " " ++ Product.title product)%string).

(** A candidate the refresh does not skip: it has a vendor id, a listing
    URL and a price. *)
Definition storable (c : Candidate.t) : Prop :=
  Candidate.vendorId c <> "" /\
  Candidate.productUrl c <> "" /\
  exists p, Candidate.priceCents c = Some p /\ p <> 0.

(** The offer row the upsert of a candidate leaves. *)
Definition storedAs (pid : string) (product : Product.t) (c : Candidate.t)
    (o : Offer.t) : Prop :=
  Offer.productId o = pid /\
  Offer.vendorId o = Candidate.vendorId c /\
  Offer.vendorName o = Js.orElse (Candidate.vendorName c) (Candidate.vendorId c) /\
  Offer.title o = Js.orElse (Candidate.title c) (Product.title product) /\
  Some (Offer.priceCents o) = Candidate.priceCents c /\
  Offer.shippingCents o = Candidate.shippingCents c /\
  Offer.etaDays o = Candidate.etaDays c /\
  Offer.inStock o = Candidate.inStock c /\
  Offer.productUrl o = Js.trim (Candidate.productUrl c).

Definition holds (pid : string) (product : Product.t) (c : Candidate.t)
    (st : Store.t) : Prop :=
  exists o, In o (Store.offers st) /\ storedAs pid product c o.

Definition hasProduct (pid : string) (st : Store.t) : Prop :=
  existsb (fun p => (Product.id p =? pid)%string) (Store.products st) = true.

(** A computation that keeps a property of the store. *)
Definition keeps (Q : Store.t -> Prop) {A : Type} (m : Store.M A) : Prop :=
  forall st, Q st -> Q (snd (m st)).

End LiveTerms.

(** ** Further sample data *)

Module Fixtures.

(** A [URL] class for links of the form [https://host/path], without query
    or fragment. *)
Fixpoint splitAtSlash (s : string) : string * string :=
  match s with
  | EmptyString => (EmptyString, "/")
  | String c s' =>
      if Ascii.eqb c "/" then (EmptyString, s)
      else let (h, p) := splitAtSlash s' in (String c h, p)
  end.

Fixpoint dropPrefix (p s : string) : option string :=
  match p, s with
  | EmptyString, _ => Some s
  | String a p', String b s' => if Ascii.eqb a b then dropPrefix p' s' else None
  | String _ _, EmptyString => None
  end.

Definition httpsUrlApi : Url.Api :=
  {| Url.U := string * string;
     Url.parse := fun s =>
       match dropPrefix "https://" s with
       | Some rest => Some (splitAtSlash rest)
       | None => None
       end;
     Url.protocol := fun _ => "https:";
     Url.hostname := fun u => fst u;
     Url.pathname := fun u => snd u;
     Url.setProtocolHttps := fun u => u;
     Url.clearHash := fun u => u;
     Url.clearSearch := fun u => u;
     Url.toString := fun u => ("https://" ++ fst u ++ snd u)%string |}.

Definition shoppingResult (title link : string) (price : Q) (delivery : string)
  : SerpResult.t :=
  {| SerpResult.title := title;
     SerpResult.link := link;
     SerpResult.snippet := "";
     SerpResult.price := PriceNull;
     SerpResult.extracted_price := PriceNumber price;
     SerpResult.delivery := delivery |}.

(** A shopping search that finds a Walmart listing at 90.00 and an eBay
    listing at 95.00. *)
Definition shoppingResults : list SerpResult.t :=
  [ shoppingResult "Sony WH-1000XM5" "https://www.walmart.com/ip/55" 90 "";
    shoppingResult "Sony WH-1000XM5 (used)" "https://www.ebay.com/itm/1234" 95 "" ].

Definition shoppingWorld : World.t :=
  {| World.searchOffersViaSerpApi := fun _ _ _ => Fulfilled shoppingResults;
     World.queryAmazonProduct := fun _ => Rejected "SerpAPI HTTP 504" |}.

End Fixtures.

(* ================================================================== *)
(** * Properties *)

Unset Implicit Arguments.
Open Scope list_scope.

(** ** Rounding to the nearest double *)

Module DoubleFacts.
Import Double.

Lemma pow2_pos : forall e, (0 < pow2 e)%Q.
Proof. intros e. unfold pow2. apply Qpower_0_lt. reflexivity. Qed.

Lemma nearestEven_nonneg : forall y, (0 <= y)%Q -> 0 <= nearestEven y.
Proof.
  intros y Hy. unfold nearestEven.
  assert (Hf : 0 <= Qfloor y).
  { change 0 with (Qfloor 0). now apply Qfloor_resp_le. }
  destruct (Qcompare _ _); [destruct (Z.even _) | |]; lia.
Qed.

Lemma nearestEven_le : forall y N, (y <= inject_Z N)%Q -> nearestEven y <= N.
Proof.
  intros y N Hy. unfold nearestEven.
  assert (Hf : Qfloor y <= N).
  { rewrite <- (Qfloor_Z N). now apply Qfloor_resp_le. }
  destruct (Z.eq_dec (Qfloor y) N) as [Heq | Hne].
  - assert (Hlt : Qcompare (y - inject_Z (Qfloor y)) (1 # 2) = Lt).
    { apply -> Qlt_alt. rewrite Heq. generalize dependent (inject_Z N).
      intros z Hz. lra. }
    rewrite Hlt. lia.
  - destruct (Qcompare _ _); [destruct (Z.even _) | |]; lia.
Qed.

Lemma roundPos_nonneg : forall x, (0 < x)%Q -> (0 <= roundPos x)%Q.
Proof.
  intros x Hx. unfold roundPos.
  set (e := Z.max (floorLog2 x - 52) (-1074)).
  pose proof (pow2_pos e) as Hp.
  apply Qmult_le_0_compat; [| now apply Qlt_le_weak].
  change 0%Q with (inject_Z 0). rewrite <- Zle_Qle.
  apply nearestEven_nonneg. apply Qle_shift_div_l; [exact Hp |].
  rewrite Qmult_0_l. now apply Qlt_le_weak.
Qed.

(** Rounding keeps the sign. *)
Lemma round_nonneg : forall x, (0 <= x)%Q -> (0 <= round x)%Q.
Proof.
  intros x Hx. unfold round. destruct (Qcompare x 0) eqn:Hc.
  - apply Qle_refl.
  - apply Qlt_alt in Hc. lra.
  - apply Qgt_alt in Hc. now apply roundPos_nonneg.
Qed.

Lemma round_nonpos : forall x, (x <= 0)%Q -> (round x <= 0)%Q.
Proof.
  intros x Hx. unfold round. destruct (Qcompare x 0) eqn:Hc.
  - apply Qle_refl.
  - apply Qlt_alt in Hc.
    assert (H : (0 <= roundPos (- x))%Q) by (apply roundPos_nonneg; lra).
    lra.
  - apply Qgt_alt in Hc. lra.
Qed.

Lemma floorLog2_le_0 : forall x, (0 < x)%Q -> (x <= 1)%Q -> floorLog2 x <= 0.
Proof.
  intros [n d] Hpos Hle. unfold floorLog2. cbn [Qnum Qden].
  assert (Hn : n <= Zpos d).
  { unfold Qle in Hle. cbn [Qnum Qden] in Hle. lia. }
  pose proof (Z.log2_le_mono _ _ Hn) as Hl.
  destruct (Qle_bool _ _); lia.
Qed.

Lemma pow2_neg : forall k, 0 <= k -> (pow2 (- k) * inject_Z (2 ^ k) == 1)%Q.
Proof.
  intros k Hk. unfold pow2. rewrite Qpower_opp, Zpower_Qpower by exact Hk.
  change (inject_Z 2) with (2%Q). rewrite Qmult_comm. apply Qmult_inv_r.
  pose proof (Qpower_0_lt 2 k) as H. 
  assert (0 < 2 ^ k)%Q by (apply H; reflexivity). lra.
Qed.

(** A number of [0, 1] rounds into [0, 1]. *)
Lemma round_le_1 : forall x, (0 <= x)%Q -> (x <= 1)%Q -> (round x <= 1)%Q.
Proof.
  intros x H0 H1. unfold round. destruct (Qcompare x 0) eqn:Hc.
  - lra.
  - apply Qlt_alt in Hc. lra.
  - apply Qgt_alt in Hc. unfold roundPos.
    pose proof (floorLog2_le_0 x Hc H1) as Hl.
    set (e := Z.max (floorLog2 x - 52) (-1074)).
    assert (He : e <= 0) by (unfold e; lia).
    pose proof (pow2_pos e) as Hp.
    pose proof (pow2_neg (- e) ltac:(lia)) as Hinv.
    rewrite Z.opp_involutive in Hinv.
    assert (Hpow : (0 < inject_Z (2 ^ (- e)))%Q).
    { change 0%Q with (inject_Z 0). rewrite <- Zlt_Qlt.
      apply Z.pow_pos_nonneg; lia. }
    assert (Hm : nearestEven (x / pow2 e) <= 2 ^ (- e)).
    { apply nearestEven_le. apply Qle_shift_div_r; [exact Hp |].
      rewrite Qmult_comm, Hinv. exact H1. }
    rewrite Zle_Qle in Hm.
    apply Qle_trans with (inject_Z (2 ^ (- e)) * pow2 e)%Q.
    + apply Qmult_le_compat_r; [exact Hm | now apply Qlt_le_weak].
    + rewrite Qmult_comm, Hinv. apply Qle_refl.
Qed.


Lemma pow2_nonneg_exp : forall k, 0 <= k -> (pow2 k == inject_Z (2 ^ k))%Q.
Proof.
  intros k Hk. unfold pow2. rewrite Zpower_Qpower by exact Hk. reflexivity.
Qed.

Lemma pow2_add : forall a b, (pow2 (a + b) == pow2 a * pow2 b)%Q.
Proof. intros a b. unfold pow2. apply Qpower_plus. discriminate. Qed.

Lemma pow2_sub : forall a b, (pow2 (a - b) * pow2 b == pow2 a)%Q.
Proof.
  intros a b. rewrite <- pow2_add. replace (a - b + b) with a by lia.
  reflexivity.
Qed.

Lemma pow2_succ : forall a, (pow2 (a + 1) == 2 * pow2 a)%Q.
Proof. intros a. rewrite pow2_add. unfold pow2 at 2. simpl. ring. Qed.

(** [floorLog2 x] is the exponent of the binade of [x]. *)
Lemma floorLog2_spec :
  forall x, (0 < x)%Q ->
    (pow2 (floorLog2 x) <= x)%Q /\ (x < pow2 (floorLog2 x + 1))%Q.
Proof.
  intros [n d] Hpos. unfold floorLog2. cbn [Qnum Qden].
  assert (Hn : 0 < n).
  { unfold Qlt in Hpos. cbn [Qnum Qden] in Hpos. lia. }
  destruct (Z.log2_spec n Hn) as [Ha1 Ha2].
  destruct (Z.log2_spec (Zpos d) (Pos2Z.is_pos d)) as [Hb1 Hb2].
  pose proof (Z.log2_nonneg n) as Ha0.
  pose proof (Z.log2_nonneg (Zpos d)) as Hb0.
  set (a := Z.log2 n) in *. set (b := Z.log2 (Zpos d)) in *.
  pose proof (pow2_pos b) as Hpb.
  pose proof (pow2_pos a) as Hpa.
  pose proof (pow2_nonneg_exp a Ha0) as Ea.
  pose proof (pow2_nonneg_exp b Hb0) as Eb.
  pose proof (pow2_sub a b) as Hab.
  assert (Hx : (n # d == inject_Z n / inject_Z (Zpos d))%Q) by apply Qmake_Qdiv.
  assert (Hd : (0 < inject_Z (Zpos d))%Q) by reflexivity.
  (* the two integer bounds, as rationals *)
  assert (Hn1 : (pow2 a <= inject_Z n)%Q) by (rewrite Ea, <- Zle_Qle; exact Ha1).
  assert (Hn2 : (inject_Z n < 2 * pow2 a)%Q).
  { rewrite Ea. change 2%Q with (inject_Z 2). rewrite <- inject_Z_mult, <- Zlt_Qlt.
    replace (Z.succ a) with (a + 1) in Ha2 by lia.
    rewrite Z.pow_add_r in Ha2 by lia. lia. }
  assert (Hd1 : (pow2 b <= inject_Z (Zpos d))%Q) by (rewrite Eb, <- Zle_Qle; exact Hb1).
  assert (Hd2 : (inject_Z (Zpos d) < 2 * pow2 b)%Q).
  { rewrite Eb. change 2%Q with (inject_Z 2). rewrite <- inject_Z_mult, <- Zlt_Qlt.
    replace (Z.succ b) with (b + 1) in Hb2 by lia.
    rewrite Z.pow_add_r in Hb2 by lia. lia. }
  set (N := inject_Z n) in *. set (D := inject_Z (Zpos d)) in *.
  set (e := a - b) in *.
  pose proof (pow2_pos e) as Hpe.
  assert (Hup : (n # d < 2 * pow2 e)%Q).
  { rewrite Hx. apply Qlt_shift_div_r; [exact Hd |].
    apply Qlt_le_trans with (2 * pow2 a)%Q; [exact Hn2 |].
    rewrite <- Hab. rewrite Qmult_assoc.
    apply Qmult_le_l; [lra | exact Hd1]. }
  assert (Hlo : (pow2 e < 2 * (n # d))%Q).
  { rewrite Hx. unfold Qdiv. rewrite Qmult_assoc.
    apply Qlt_shift_div_l; [exact Hd |].
    apply Qlt_le_trans with (pow2 e * (2 * pow2 b))%Q.
    - apply Qmult_lt_l; [exact Hpe | exact Hd2].
    - assert (H : (pow2 e * (2 * pow2 b) == 2 * pow2 a)%Q).
      { rewrite <- Hab. ring. }
      rewrite H. lra. }
  destruct (Qle_bool (pow2 e) (n # d)) eqn:Hc.
  - apply Qle_bool_iff in Hc. split; [exact Hc |]. rewrite pow2_succ. exact Hup.
  - assert (Hlt : (n # d < pow2 e)%Q).
    { apply Qnot_le_lt. intros H. apply Qle_bool_iff in H. congruence. }
    replace (e - 1 + 1) with e by lia. split; [| exact Hlt].
    assert (H2 : (pow2 e == 2 * pow2 (e - 1))%Q).
    { rewrite <- pow2_succ. replace (e - 1 + 1) with e by lia. reflexivity. }
    rewrite H2 in Hlo. lra.
Qed.

(** The nearest integer is within one half. *)
Lemma nearestEven_near :
  forall y,
    (inject_Z (nearestEven y) - y <= 1 # 2)%Q /\
    (y - inject_Z (nearestEven y) <= 1 # 2)%Q.
Proof.
  intros y. unfold nearestEven.
  pose proof (Qfloor_le y) as Hle. pose proof (Qlt_floor y) as Hlt.
  rewrite inject_Z_plus in Hlt. change (inject_Z 1) with 1%Q in Hlt.
  set (f := Qfloor y) in *.
  destruct (Qcompare_spec (y - inject_Z f) (1 # 2)) as [He | Hl | Hg].
  - destruct (Z.even f);
      [| rewrite inject_Z_plus; change (inject_Z 1) with 1%Q];
      generalize dependent (inject_Z f); intros F; intros; split; lra.
  - generalize dependent (inject_Z f); intros F; intros; split; lra.
  - rewrite inject_Z_plus. change (inject_Z 1) with 1%Q.
    generalize dependent (inject_Z f); intros F; intros; split; lra.
Qed.

(** A positive number is rounded to a multiple [m * 2^e] of the unit of
    its binade, with [m <= 2^53], at most half a unit away. *)
Lemma roundPos_spec :
  forall x, (0 < x)%Q ->
    let e := Z.max (floorLog2 x - 52) (-1074) in
    exists m,
      (roundPos x == inject_Z m * pow2 e)%Q /\
      0 <= m <= 2 ^ 53 /\
      (roundPos x - x <= pow2 e * (1 # 2))%Q /\
      (x - roundPos x <= pow2 e * (1 # 2))%Q.
Proof.
  intros x Hx e. unfold roundPos. fold e.
  pose proof (pow2_pos e) as Hp.
  set (y := (x / pow2 e)%Q).
  assert (Hy : (x == y * pow2 e)%Q).
  { unfold y. field. lra. }
  assert (Hy0 : (0 <= y)%Q).
  { unfold y. apply Qle_shift_div_l; [exact Hp | lra]. }
  exists (nearestEven y). split; [reflexivity |].
  destruct (nearestEven_near y) as [Hn1 Hn2].
  split; [split; [now apply nearestEven_nonneg |] |].
  - apply nearestEven_le. unfold y. apply Qle_shift_div_r; [exact Hp |].
    destruct (floorLog2_spec x Hx) as [_ Hup].
    assert (He : floorLog2 x - 52 <= e) by (unfold e; lia).
    (* x < 2^(fl+1) <= 2^53 * 2^e *)
    assert (Hpow : (pow2 (floorLog2 x + 1) <= inject_Z (2 ^ 53) * pow2 e)%Q).
    { rewrite <- (pow2_nonneg_exp 53) by lia. rewrite <- pow2_add.
      replace (53 + e) with ((floorLog2 x + 1) + (e - (floorLog2 x - 52))) by lia.
      rewrite (pow2_add (floorLog2 x + 1) (e - (floorLog2 x - 52))).
      rewrite <- (Qmult_1_r (pow2 (floorLog2 x + 1))) at 1.
      apply Qmult_le_l; [apply pow2_pos |].
      rewrite pow2_nonneg_exp by lia.
      change 1%Q with (inject_Z 1). rewrite <- Zle_Qle.
      assert (0 < 2 ^ (e - (floorLog2 x - 52))) by (apply Z.pow_pos_nonneg; lia).
      lia. }
    lra.
  - split.
    + rewrite Hy.
      setoid_replace (inject_Z (nearestEven y) * pow2 e - y * pow2 e)%Q
        with ((inject_Z (nearestEven y) - y) * pow2 e)%Q by ring.
      rewrite (Qmult_comm (pow2 e)). apply Qmult_le_compat_r; lra.
    + rewrite Hy.
      setoid_replace (y * pow2 e - inject_Z (nearestEven y) * pow2 e)%Q
        with ((y - inject_Z (nearestEven y)) * pow2 e)%Q by ring.
      rewrite (Qmult_comm (pow2 e)). apply Qmult_le_compat_r; lra.
Qed.

(** A share [a / b] of a whole is a number of [0, 1]. *)
Lemma div_share :
  forall a b : Z, 0 <= a <= b -> 0 < b ->
    (0 <= div (inject_Z a) (inject_Z b) <= 1)%Q.
Proof.
  intros a b Hab Hb. unfold div.
  assert (Hq : (0 < inject_Z b)%Q).
  { change 0%Q with (inject_Z 0). rewrite <- Zlt_Qlt. exact Hb. }
  assert (H0 : (0 <= inject_Z a / inject_Z b)%Q).
  { apply Qle_shift_div_l; [exact Hq |]. rewrite Qmult_0_l.
    change 0%Q with (inject_Z 0). rewrite <- Zle_Qle. lia. }
  assert (H1 : (inject_Z a / inject_Z b <= 1)%Q).
  { apply Qle_shift_div_r; [exact Hq |]. rewrite Qmult_1_l.
    rewrite <- Zle_Qle. lia. }
  split; [now apply round_nonneg | now apply round_le_1].
Qed.

(** [round] is the rounding of binary64: on every share [a / b] with
    [a <= 100] and [1 <= b <= 100] the division agrees with the Standard
    Library's specification of the IEEE division. *)
Example round_agrees_on_shares :
  forallb (fun p => agrees (specDiv (fst p) (snd p))
                      (div (inject_Z (fst p)) (inject_Z (snd p))))
    (lattice 101 0 1 1 1) = true.
Proof. vm_compute. reflexivity. Qed.

(** The same for [((a - b) / a) * 100] on prices between 50 and 500000
    cents, and on the prices of the alert examples. *)
Example round_agrees_on_drops :
  forallb (fun p => agrees (specDropPct (fst p) (snd p))
                      (mul (div (sub (inject_Z (fst p)) (inject_Z (snd p)))
                              (inject_Z (fst p)))
                         100))
    ((10000, 7100) :: (10000, 8499) :: (10000, 8505) :: (10000, 8600)
     :: (10000, 8000) :: lattice 45 50 11113 50 11069) = true.
Proof. vm_compute. reflexivity. Qed.

(** Ties and subnormal numbers: [2^53 + 1] and [2^53 + 3] lie halfway
    between two doubles, [2^-1075] and [3 * 2^-1075] halfway between two
    subnormal ones, and [1 / (3 * 2^1020)] is subnormal. *)
Example round_agrees_on_ties :
  agrees (specOfZ (2 ^ 53 + 1)) (round (inject_Z (2 ^ 53 + 1))) &&
  agrees (specOfZ (2 ^ 53 + 3)) (round (inject_Z (2 ^ 53 + 3))) &&
  agrees (specOfZ (2 ^ 54 - 1)) (round (inject_Z (2 ^ 54 - 1))) &&
  agrees (binary_normalize 53 1024 1 (-1075) false) (round (pow2 (-1075))) &&
  agrees (binary_normalize 53 1024 3 (-1075) false) (round (3 * pow2 (-1075))) &&
  agrees (binary_normalize 53 1024 5 (-1076) false) (round (5 * pow2 (-1076))) &&
  agrees (SFdiv 53 1024 (specOfZ 1) (binary_normalize 53 1024 3 1020 false))
         (div 1 (3 * pow2 1020)) = true.
Proof. vm_compute. reflexivity. Qed.

(** Values the code computes: [0.1 + 0.2] is above [0.3], a drop from
    10000 to 7100 is below 29 percent, a drop to 8499 is above 15.01
    percent, [17 / 40] is below [0.425], and [1.005 * 100] is below
    [100.5]. *)
Example round_values :
  (3 # 10 < add (round (1 # 10)) (round (2 # 10)))%Q /\
  (mul (div (sub 10000 7100) 10000) 100 < 29)%Q /\
  (1501 # 100 < mul (div (sub 10000 8499) 10000) 100)%Q /\
  (div 17 40 < 425 # 1000)%Q /\
  (mul (round (1005 # 1000)) 100 < 1005 # 10)%Q.
Proof. repeat split; vm_compute; reflexivity. Qed.

End DoubleFacts.

(** ** The stable sort *)

Section SortFacts.
Variable A : Type.
Variable cmp : A -> A -> Z.

Hypothesis cmp_trans :
  forall a b c, cmp a b <= 0 -> cmp b c <= 0 -> cmp a c <= 0.
Hypothesis cmp_flip : forall a b, 0 < cmp a b -> cmp b a < 0.

Lemma cmp_refl : forall a, cmp a a <= 0.
Proof.
  intro a. destruct (Z_lt_le_dec 0 (cmp a a)) as [Hpos | Hle]; [| exact Hle].
  pose proof (cmp_flip _ _ Hpos). lia.
Qed.

(** The head of the sorted array is the first element of the input that
    no other element beats. *)
Lemma sort_head_first_min :
  forall l, l <> [] ->
    exists pre o post rest,
      l = pre ++ o :: post /\
      Js.sort cmp l = o :: rest /\
      (forall p, In p l -> cmp o p <= 0) /\
      (forall p, In p pre -> cmp o p < 0).
Proof.
  induction l as [| x xs IH]; intros Hne; [congruence |].
  destruct xs as [| y ys].
  - exists [], x, [], []. repeat split; simpl; auto.
    + intros p [<- | []]. apply cmp_refl.
    + intros p [].
  - destruct IH as (pre & o & post & rest & Hsplit & Hsort & Hmin & Hpre);
      [discriminate |].
    change (Js.sort cmp (x :: y :: ys))
      with (Js.insert cmp x (Js.sort cmp (y :: ys))).
    rewrite Hsort. simpl Js.insert.
    destruct (cmp x o <=? 0) eqn:Hxo.
    + apply Z.leb_le in Hxo.
      exists [], x, (y :: ys), (o :: rest). repeat split; auto.
      * intros p [<- | Hin]; [apply cmp_refl |].
        apply cmp_trans with o; auto.
      * intros p [].
    + apply Z.leb_gt in Hxo.
      exists (x :: pre), o, post, (Js.insert cmp x rest). repeat split.
      * simpl. now rewrite Hsplit.
      * intros p [<- | Hin]; [pose proof (cmp_flip _ _ Hxo); lia | auto].
      * intros p [<- | Hin]; [apply cmp_flip; lia | auto].
Qed.
Lemma insert_perm : forall x l, Permutation (x :: l) (Js.insert cmp x l).
Proof.
  intros x l. induction l as [| y ys IH]; simpl; [reflexivity |].
  destruct (cmp x y <=? 0); [reflexivity |].
  rewrite perm_swap. now constructor.
Qed.

(** The model of [sort] returns a permutation of its input ... *)
Lemma sort_perm : forall l, Permutation l (Js.sort cmp l).
Proof.
  induction l as [| x xs IH]; simpl; [constructor |].
  rewrite <- insert_perm. now constructor.
Qed.

Lemma insert_sorted :
  forall x l,
    StronglySorted (fun a b => cmp a b <= 0) l ->
    StronglySorted (fun a b => cmp a b <= 0) (Js.insert cmp x l).
Proof.
  intros x l Hs. induction Hs as [| y ys Hys IH Hall]; simpl.
  - repeat constructor.
  - destruct (cmp x y <=? 0) eqn:Hxy.
    + apply Z.leb_le in Hxy. constructor; [now constructor |].
      constructor; [exact Hxy |].
      eapply Forall_impl; [| exact Hall]. intros z Hz.
      now apply cmp_trans with y.
    + apply Z.leb_gt in Hxy. constructor; [exact IH |].
      eapply Permutation_Forall; [apply insert_perm |].
      constructor; [| exact Hall]. pose proof (cmp_flip _ _ Hxy). lia.
Qed.

(** ... in which no element is beaten by a later one. *)
Lemma sort_sorted :
  forall l, StronglySorted (fun a b => cmp a b <= 0) (Js.sort cmp l).
Proof.
  induction l as [| x xs IH]; simpl; [constructor | now apply insert_sorted].
Qed.

End SortFacts.

Lemma sort_ext (A : Type) (c1 c2 : A -> A -> Z) :
  (forall a b, c1 a b = c2 a b) ->
  forall l, Js.sort c1 l = Js.sort c2 l.
Proof.
  intros Hext. induction l as [| x xs IH]; simpl; [reflexivity |].
  rewrite IH. generalize (Js.sort c2 xs) as s.
  induction s as [| y ys IHs]; simpl; [reflexivity |].
  rewrite Hext, IHs. reflexivity.
Qed.

Lemma filter_split (A : Type) (f : A -> bool) :
  forall l pre' o post',
    filter f l = pre' ++ o :: post' ->
    exists pre post,
      l = pre ++ o :: post /\ filter f pre = pre' /\ f o = true.
Proof.
  induction l as [| x xs IH]; intros pre' o post' Heq; simpl in Heq.
  - destruct pre'; discriminate.
  - destruct (f x) eqn:Hfx.
    + destruct pre' as [| z zs]; simpl in Heq; injection Heq as -> Hrest.
      * exists [], xs. repeat split; auto.
      * destruct (IH _ _ _ Hrest) as (pre & post & -> & Hf & Ho).
        exists (z :: pre), post. repeat split; auto.
        simpl. now rewrite Hfx, Hf.
    + destruct (IH _ _ _ Heq) as (pre & post & -> & Hf & Ho).
      exists (x :: pre), post. repeat split; auto.
      simpl. now rewrite Hfx.
Qed.

(** ** Ranking policy *)

Module RankingFacts.
Import OfferService Vocabulary.

(** The reading of the comparator for every strategy but
    [FASTEST_SHIPPING]: price plus shipping first, then the ETA. *)
Lemma compareOffers_price_first :
  forall pref a b,
    (pref =? "FASTEST_SHIPPING")%string = false ->
    compareOffers pref a b =
      if total a =? total b
      then NormalizedOffer.etaDays a - NormalizedOffer.etaDays b
      else total a - total b.
Proof.
  intros pref a b Hp. unfold compareOffers, total. rewrite Hp.
  destruct (pref =? "BEST_PRICE")%string;
    destruct (_ =? _); reflexivity.
Qed.

Lemma compareOffers_trans :
  forall pref a b c,
    compareOffers pref a b <= 0 -> compareOffers pref b c <= 0 ->
    compareOffers pref a c <= 0.
Proof.
  intros pref a b c. unfold compareOffers.
  destruct (pref =? "FASTEST_SHIPPING")%string;
    [| destruct (pref =? "BEST_PRICE")%string];
    repeat match goal with
           | |- context [?x =? ?y] => destruct (Z.eqb_spec x y)
           end; simpl; lia.
Qed.

Lemma compareOffers_flip :
  forall pref a b, 0 < compareOffers pref a b -> compareOffers pref b a < 0.
Proof.
  intros pref a b. unfold compareOffers.
  destruct (pref =? "FASTEST_SHIPPING")%string;
    [| destruct (pref =? "BEST_PRICE")%string];
    repeat match goal with
           | |- context [?x =? ?y] => destruct (Z.eqb_spec x y)
           end; simpl; lia.
Qed.

Lemma recommended_none_iff :
  forall offers strategy,
    filter NormalizedOffer.inStock offers = [] ->
    recommendedOfferIdForStrategy offers strategy = None.
Proof.
  intros offers strategy H. unfold recommendedOfferIdForStrategy.
  now rewrite H.
Qed.

(** What [recommendedOfferIdForStrategy] returns under a price-first
    strategy when some offer is in stock. *)
Lemma recommended_price_first :
  forall offers strategy,
    (Js.toUpperCase (Js.orElse strategy "BALANCED") =? "FASTEST_SHIPPING")%string
      = false ->
    filter NormalizedOffer.inStock offers <> [] ->
    exists pre o post,
      offers = pre ++ o :: post /\
      recommendedOfferIdForStrategy offers strategy
        = Js.orNull (NormalizedOffer.id o) /\
      NormalizedOffer.inStock o = true /\
      (forall p, In p offers -> NormalizedOffer.inStock p = true ->
         total o < total p \/
         (total o = total p /\
          NormalizedOffer.etaDays o <= NormalizedOffer.etaDays p)) /\
      (forall p, In p pre -> NormalizedOffer.inStock p = true ->
         total o < total p \/
         (total o = total p /\
          NormalizedOffer.etaDays o < NormalizedOffer.etaDays p)).
Proof.
  intros offers strategy Hpref Hne.
  set (pref := Js.toUpperCase (Js.orElse strategy "BALANCED")) in *.
  destruct (sort_head_first_min _ (compareOffers pref)
              (compareOffers_trans pref) (compareOffers_flip pref)
              _ Hne)
    as (pre' & o & post' & rest & Hsplit & Hsort & Hmin & Hpre).
  destruct (filter_split _ _ _ _ _ _ Hsplit) as (pre & post & -> & Hfpre & Ho).
  exists pre, o, post. repeat split; auto.
  - unfold recommendedOfferIdForStrategy. fold pref.
    rewrite Hsort, Hsplit. rewrite length_app. simpl.
    replace (_ =? 0)%nat with false; [reflexivity |].
    symmetry. apply Nat.eqb_neq. lia.
  - intros p Hin Hp.
    assert (Hc : compareOffers pref o p <= 0).
    { apply Hmin. apply filter_In. auto. }
    rewrite compareOffers_price_first in Hc by exact Hpref.
    fold (total o) (total p).
    destruct (Z.eqb_spec (total o) (total p)); lia.
  - intros p Hin Hp.
    assert (Hc : compareOffers pref o p < 0).
    { apply Hpre. rewrite <- Hfpre. apply filter_In. auto. }
    rewrite compareOffers_price_first in Hc by exact Hpref.
    destruct (Z.eqb_spec (total o) (total p)); lia.
Qed.

(** C1.  Under [BEST_PRICE] the recommended id is the id of an in-stock
    offer whose price+shipping total is minimal, with minimal ETA among the
    offers of that total, and the first such offer in input order; offers
    that are not in stock take no part, and when none is in stock (the empty
    list included) the result is [null].  Ids are the non-empty keys the
    storage layer draws. *)
Theorem best_price_recommends_cheapest :
  forall offers : list NormalizedOffer.t,
    (forall o, In o offers -> NormalizedOffer.inStock o = true ->
               NormalizedOffer.id o <> "") ->
    (filter NormalizedOffer.inStock offers = [] ->
     recommendedOfferIdForStrategy offers "BEST_PRICE" = None) /\
    (filter NormalizedOffer.inStock offers <> [] ->
     exists pre o post,
       offers = pre ++ o :: post /\
       recommendedOfferIdForStrategy offers "BEST_PRICE"
         = Some (NormalizedOffer.id o) /\
       NormalizedOffer.inStock o = true /\
       (forall p, In p offers -> NormalizedOffer.inStock p = true ->
          total o < total p \/
          (total o = total p /\
           NormalizedOffer.etaDays o <= NormalizedOffer.etaDays p)) /\
       (forall p, In p pre -> NormalizedOffer.inStock p = true ->
          total o < total p \/
          (total o = total p /\
           NormalizedOffer.etaDays o < NormalizedOffer.etaDays p))).
Proof.
  intros offers Hids. split.
  - apply recommended_none_iff.
  - intros Hne.
    destruct (recommended_price_first offers "BEST_PRICE" eq_refl Hne)
      as (pre & o & post & Hsplit & Hrec & Ho & Hmin & Hpre).
    exists pre, o, post. repeat split; auto.
    rewrite Hrec. unfold Js.orNull, Js.truthy.
    assert (Hid : NormalizedOffer.id o <> "").
    { apply Hids; [| exact Ho]. rewrite Hsplit. apply in_elt. }
    apply String.eqb_neq in Hid. now rewrite Hid.
Qed.

Lemma best_price_recommends_cheapest_witness :
  (filter NormalizedOffer.inStock Sample.rankedInput = [] ->
   recommendedOfferIdForStrategy Sample.rankedInput "BEST_PRICE" = None) /\
  (filter NormalizedOffer.inStock Sample.rankedInput <> [] ->
   exists pre o post,
     Sample.rankedInput = pre ++ o :: post /\
     recommendedOfferIdForStrategy Sample.rankedInput "BEST_PRICE"
       = Some (NormalizedOffer.id o) /\
     NormalizedOffer.inStock o = true /\
     (forall p, In p Sample.rankedInput -> NormalizedOffer.inStock p = true ->
        total o < total p \/
        (total o = total p /\
         NormalizedOffer.etaDays o <= NormalizedOffer.etaDays p)) /\
     (forall p, In p pre -> NormalizedOffer.inStock p = true ->
        total o < total p \/
        (total o = total p /\
         NormalizedOffer.etaDays o < NormalizedOffer.etaDays p))).
Proof.
  apply (best_price_recommends_cheapest Sample.rankedInput).
  intros o Hin _. simpl in Hin.
  destruct Hin as [<- | [<- | [<- | []]]]; discriminate.
Defined.

(** C6.  [BALANCED] and [BEST_PRICE] recommend the same offer id for every
    list of offers: the two comparators are the same ordering. *)
Theorem balanced_same_as_best_price :
  forall offers : list NormalizedOffer.t,
    recommendedOfferIdForStrategy offers "BALANCED"
    = recommendedOfferIdForStrategy offers "BEST_PRICE".
Proof.
  intros offers. unfold recommendedOfferIdForStrategy.
  destruct (List.length (filter NormalizedOffer.inStock offers) =? 0)%nat;
    [reflexivity |].
  rewrite (sort_ext _
             (compareOffers (Js.toUpperCase (Js.orElse "BALANCED" "BALANCED")))
             (compareOffers (Js.toUpperCase (Js.orElse "BEST_PRICE" "BALANCED")))).
  - reflexivity.
  - intros a b.
    rewrite !compareOffers_price_first by reflexivity. reflexivity.
Qed.

End RankingFacts.

(** ** Substrings under trimming and case mapping *)

Module StringFacts.

Import Vocabulary.

Lemma prefix_cons :
  forall a m b s,
    String.prefix (String a m) (String b s) = true <->
    a = b /\ String.prefix m s = true.
Proof.
  intros a m b s. simpl. destruct (ascii_dec a b) as [-> | Hne].
  - tauto.
  - split; [discriminate | intros [H _]; contradiction].
Qed.

Lemma includes_eq :
  forall u m,
    Js.includes u m =
    if String.prefix m u then true
    else match u with
         | EmptyString => false
         | String _ u' => Js.includes u' m
         end.
Proof. intros [| c u] m; reflexivity. Qed.

Lemma prefix_includes :
  forall m t, String.prefix m t = true -> Js.includes t m = true.
Proof.
  intros m t H. rewrite includes_eq. now rewrite H.
Qed.

Lemma includes_cons :
  forall c t m, Js.includes t m = true -> Js.includes (String c t) m = true.
Proof.
  intros c t m H. rewrite includes_eq. rewrite H.
  now destruct (String.prefix m (String c t)).
Qed.

Lemma includes_inv :
  forall c t m,
    Js.includes (String c t) m = true ->
    String.prefix m (String c t) = true \/ Js.includes t m = true.
Proof.
  intros c t m H. rewrite includes_eq in H.
  destruct (String.prefix m (String c t)); [now left | now right].
Qed.

Lemma includes_empty :
  forall m, Js.truthy m = true -> Js.includes "" m = false.
Proof.
  intros [| a m] H; [discriminate | reflexivity].
Qed.

Lemma plain_cons :
  forall a m,
    plain (String a m) = true ->
    Js.isSpace a = false /\ Js.lowerChar a = a /\
    SerpApiProxy.allChars
      (fun c => negb (Js.isSpace c) && (Js.lowerChar c =? c)%char) m = true.
Proof.
  intros a m H. unfold plain in H. simpl in H.
  apply andb_prop in H as [H1 H2]. apply andb_prop in H1 as [Hs Hl].
  apply negb_true_iff in Hs. apply Ascii.eqb_eq in Hl. auto.
Qed.

Section Needle.
Variable m : string.
Hypothesis m_plain : plain m = true.

Let chars_ok :
  SerpApiProxy.allChars
    (fun c => negb (Js.isSpace c) && (Js.lowerChar c =? c)%char) m = true.
Proof. unfold plain in m_plain. now apply andb_prop in m_plain. Qed.

Let m_truthy : Js.truthy m = true.
Proof. unfold plain in m_plain. now apply andb_prop in m_plain. Qed.

Lemma prefix_trimEnd :
  forall s, String.prefix m s = true -> String.prefix m (Js.trimEnd s) = true.
Proof.
  clear m_truthy m_plain. revert chars_ok.
  induction m as [| a m' IH]; intros Hok s H.
  - now destruct (Js.trimEnd s).
  - destruct s as [| b s']; [discriminate |].
    apply prefix_cons in H as [<- H]. simpl in Hok.
    apply andb_prop in Hok as [Ha Hok'].
    apply andb_prop in Ha as [Hs _]. apply negb_true_iff in Hs.
    simpl Js.trimEnd. rewrite Hs. simpl andb.
    apply prefix_cons. auto.
Qed.

Lemma prefix_lower :
  forall s, String.prefix m s = true ->
            String.prefix m (Js.toLowerCase s) = true.
Proof.
  clear m_truthy m_plain. revert chars_ok.
  induction m as [| a m' IH]; intros Hok s H.
  - now destruct (Js.toLowerCase s).
  - destruct s as [| b s']; [discriminate |].
    apply prefix_cons in H as [<- H]. simpl in Hok.
    apply andb_prop in Hok as [Ha Hok'].
    apply andb_prop in Ha as [_ Hl]. apply Ascii.eqb_eq in Hl.
    simpl. fold (Js.toLowerCase s'). rewrite Hl.
    destruct (ascii_dec a a); [| contradiction]. apply IH; auto.
Qed.

Lemma includes_trimEnd :
  forall s, Js.includes s m = true -> Js.includes (Js.trimEnd s) m = true.
Proof.
  induction s as [| c s' IH]; intros H.
  - now rewrite includes_empty in H.
  - apply includes_inv in H as [H | H].
    + apply prefix_includes. now apply prefix_trimEnd.
    + specialize (IH H). simpl Js.trimEnd.
      destruct (Js.trimEnd s') as [| d t] eqn:Ht.
      * now rewrite includes_empty in IH.
      * rewrite andb_false_r. now apply includes_cons.
Qed.

Lemma includes_trimStart :
  forall s, Js.includes s m = true -> Js.includes (Js.trimStart s) m = true.
Proof.
  induction s as [| c s' IH]; intros H; [exact H |].
  simpl Js.trimStart. destruct (Js.isSpace c) eqn:Hc; [| exact H].
  apply includes_inv in H as [H | H]; [| auto].
  destruct m as [| a m']; [discriminate |].
  apply prefix_cons in H as [<- _].
  apply plain_cons in m_plain as [Hs _]. congruence.
Qed.

Lemma includes_trim :
  forall s, Js.includes s m = true -> Js.includes (Js.trim s) m = true.
Proof.
  intros s H. unfold Js.trim. now apply includes_trimEnd, includes_trimStart.
Qed.

Lemma includes_lower :
  forall s, Js.includes s m = true -> Js.includes (Js.toLowerCase s) m = true.
Proof.
  induction s as [| c s' IH]; intros H.
  - now rewrite includes_empty in H.
  - apply includes_inv in H as [H | H].
    + apply prefix_includes. now apply prefix_lower.
    + change (Js.toLowerCase (String c s'))
        with (String (Js.lowerChar c) (Js.toLowerCase s')).
      apply includes_cons. auto.
Qed.

End Needle.

End StringFacts.

(** ** Listing classification *)

Module ListingFacts.
Import Vocabulary StringFacts.

Lemma marker_survives :
  forall url m,
    plain m = true ->
    Js.includes url m = true ->
    Js.includes (Js.toLowerCase (Js.trim url)) m = true.
Proof.
  intros url m Hm H. apply includes_lower; [exact Hm |].
  apply includes_trim; assumption.
Qed.

Lemma search_marker_is_likely_search :
  forall url,
    hasSearchMarker url = true ->
    OfferService.isLikelySearchUrl (Js.trim url) = true.
Proof.
  intros url H. unfold hasSearchMarker in H. unfold OfferService.isLikelySearchUrl.
  repeat (apply orb_prop in H as [H | H]);
    apply marker_survives in H; try reflexivity; rewrite H;
    repeat rewrite orb_true_r; reflexivity.
Qed.

(** The normalizer never verifies a listing whose stored URL carries a
    search marker. *)
Lemma normalizeOffer_search_url :
  forall dbOffer : Offer.t,
    hasSearchMarker (Offer.productUrl dbOffer) = true ->
    NormalizedOffer.listingVerified (OfferService.normalizeOffer dbOffer) = false.
Proof.
  intros dbOffer H. unfold OfferService.normalizeOffer. simpl.
  rewrite (search_marker_is_likely_search _ H). apply andb_false_r.
Qed.

End ListingFacts.

(** ** The adapters of the web search provider *)

Module ProviderFacts.
Import Vocabulary StringFacts WebSearchProvider.

Lemma In_insert (A : Type) (cmp : A -> A -> Z) :
  forall x y l, In x (Js.insert cmp y l) <-> x = y \/ In x l.
Proof.
  intros x y l. induction l as [| z zs IH]; simpl.
  - intuition.
  - destruct (cmp y z <=? 0); simpl; rewrite ?IH; intuition.
Qed.

Lemma In_sort (A : Type) (cmp : A -> A -> Z) :
  forall x l, In x (Js.sort cmp l) <-> In x l.
Proof.
  intros x l. induction l as [| y ys IH]; simpl; [tauto |].
  rewrite In_insert, IH. intuition.
Qed.

Lemma pickBestOffer_In :
  forall l strategy c, pickBestOffer l strategy = Some c -> In c l.
Proof.
  intros l strategy c H. unfold pickBestOffer in H.
  destruct (Js.sort _ l) as [| h t] eqn:Hs; [discriminate |].
  injection H as ->. eapply In_sort. rewrite Hs. now left.
Qed.

Lemma mapFilterIdx_In (A B : Type) (f : A -> nat -> option B) :
  forall l idx c,
    In c (mapFilterIdx f idx l) -> exists r i, In r l /\ f r i = Some c.
Proof.
  induction l as [| r rest IH]; intros idx c H; simpl in H; [contradiction |].
  destruct (f r idx) as [c' |] eqn:Hf.
  - destruct H as [<- | H].
    + exists r, idx. split; [now left | exact Hf].
    + destruct (IH _ _ H) as (r' & i & Hin & Hr). exists r', i. split; auto.
      now right.
  - destruct (IH _ _ H) as (r' & i & Hin & Hr). exists r', i. split; auto.
    now right.
Qed.

Lemma fillSlots_In :
  forall sorted out seen c,
    In c (fillSlots sorted out seen) -> In c sorted \/ In c out.
Proof.
  induction sorted as [| d rest IH]; intros out seen c H; cbn [fillSlots] in H.
  - now right.
  - destruct (seenHas seen (Candidate.vendorId d)).
    + destruct (IH _ _ _ H); [left; now right | now right].
    + destruct (2 <=? List.length (out ++ [d]))%nat.
      * apply in_app_or in H as [H | [<- | []]]; [now right | left; now left].
      * destruct (IH _ _ _ H) as [H' | H']; [left; now right |].
        apply in_app_or in H' as [H' | [<- | []]]; [now right | left; now left].
Qed.

Lemma uniqueVendors_In :
  forall out seen c, In c (uniqueVendors seen out) -> In c out.
Proof.
  induction out as [| o rest IH]; intros seen c H; simpl in H; [contradiction |].
  destruct (negb (Js.truthy (Candidate.vendorId o))); [right; eauto |].
  destruct (seenHas seen (Candidate.vendorId o)); [right; eauto |].
  destruct H as [<- | H]; [now left | right; eauto].
Qed.

(** *** Character classes *)

Lemma asinChar_facts :
  forall c,
    SerpApiProxy.isAsinChar c = true ->
    Js.isSpace c = false /\ Js.upperChar c = c.
Proof.
  intros c.
  destruct c as [[] [] [] [] [] [] [] []]; vm_compute;
    intros H; try discriminate H; repeat split.
Qed.

Lemma alnum_upper :
  forall c, isAlnum c = true -> SerpApiProxy.isAsinChar (Js.upperChar c) = true.
Proof.
  intros c.
  destruct c as [[] [] [] [] [] [] [] []]; vm_compute;
    intros H; try discriminate H; reflexivity.
Qed.

Lemma allChars_impl (f g : ascii -> bool) :
  (forall c, f c = true -> g c = true) ->
  forall s, SerpApiProxy.allChars f s = true -> SerpApiProxy.allChars g s = true.
Proof.
  intros Hfg. induction s as [| c s IH]; simpl; [reflexivity |].
  intros H. apply andb_prop in H as [Hc Hs]. rewrite (Hfg _ Hc). auto.
Qed.

Lemma allChars_app (f : ascii -> bool) :
  forall s t,
    SerpApiProxy.allChars f (s ++ t)%string =
    SerpApiProxy.allChars f s && SerpApiProxy.allChars f t.
Proof.
  induction s as [| c s IH]; intros t; simpl; [reflexivity |].
  now rewrite IH, andb_assoc.
Qed.

Lemma trimEnd_nospace :
  forall s,
    SerpApiProxy.allChars (fun c => negb (Js.isSpace c)) s = true ->
    Js.trimEnd s = s.
Proof.
  induction s as [| c s IH]; simpl; [reflexivity |].
  intros H. apply andb_prop in H as [Hc Hs]. apply negb_true_iff in Hc.
  now rewrite Hc, IH.
Qed.

Lemma trim_nospace :
  forall s,
    SerpApiProxy.allChars (fun c => negb (Js.isSpace c)) s = true ->
    Js.trim s = s.
Proof.
  intros s H. unfold Js.trim.
  assert (Hstart : Js.trimStart s = s).
  { destruct s as [| c s]; [reflexivity |]. simpl in *.
    apply andb_prop in H as [Hc _]. apply negb_true_iff in Hc. now rewrite Hc. }
  rewrite Hstart. now apply trimEnd_nospace.
Qed.

Lemma upper_asin :
  forall s,
    SerpApiProxy.allChars SerpApiProxy.isAsinChar s = true ->
    Js.toUpperCase s = s.
Proof.
  induction s as [| c s IH]; simpl; [reflexivity |].
  intros H. apply andb_prop in H as [Hc Hs].
  change (Js.toUpperCase (String c s))
    with (String (Js.upperChar c) (Js.toUpperCase s)).
  rewrite (IH Hs).
  destruct (asinChar_facts _ Hc) as (_ & ->). reflexivity.
Qed.

Lemma validAsin_clean :
  forall a,
    SerpApiProxy.isValidAsin a = true -> Js.toUpperCase (Js.trim a) = a.
Proof.
  intros a H. unfold SerpApiProxy.isValidAsin in H.
  apply andb_prop in H as [_ H].
  rewrite trim_nospace.
  - now apply upper_asin.
  - revert H. apply allChars_impl. intros c Hc.
    destruct (asinChar_facts _ Hc) as (-> & _). reflexivity.
Qed.

(** *** The ASIN pattern *)

Lemma takeN_length :
  forall n s h r, takeN n s = Some (h, r) -> String.length h = n.
Proof.
  induction n as [| n IH]; intros s h r H; simpl in H.
  - now injection H as <- _.
  - destruct s as [| c s]; [discriminate |].
    destruct (takeN n s) as [[h' r'] |] eqn:Ht; [| discriminate].
    injection H as <- _. simpl. f_equal. eauto.
Qed.

Lemma asinAt_ok :
  forall s a,
    asinAt s = Some a ->
    String.length a = 10%nat /\ SerpApiProxy.allChars isAlnum a = true.
Proof.
  intros s a H. unfold asinAt in H.
  destruct (takeN 10 s) as [[h r] |] eqn:Ht; [| discriminate].
  destruct (SerpApiProxy.allChars isAlnum h) eqn:Hh; simpl in H; [| discriminate].
  destruct (match r with EmptyString => true | String c _ => negb (isWordChar c) end);
    [| discriminate].
  injection H as <-. split; [eapply takeN_length; eauto | exact Hh].
Qed.

Lemma matchAsin_ok :
  forall u a,
    matchAsin u = Some a ->
    String.length a = 10%nat /\ SerpApiProxy.allChars isAlnum a = true.
Proof.
  induction u as [| c u IH]; intros a H.
  - simpl in H. discriminate.
  - cbn [matchAsin] in H.
    destruct (dropPrefixCI "/dp/" (String c u)) as [r |].
    + destruct (asinAt r) as [a' |] eqn:Ha.
      * injection H as <-. eapply asinAt_ok; eauto.
      * eauto.
    + destruct (dropPrefixCI "/gp/product/" (String c u)) as [r |].
      * destruct (asinAt r) as [a' |] eqn:Ha.
        -- injection H as <-. eapply asinAt_ok; eauto.
        -- eauto.
      * eauto.
Qed.

Lemma length_mapString :
  forall f s, String.length (Js.mapString f s) = String.length s.
Proof.
  intros f. induction s as [| c s IH]; simpl; congruence.
Qed.

Lemma allChars_upper :
  forall s,
    SerpApiProxy.allChars isAlnum s = true ->
    SerpApiProxy.allChars SerpApiProxy.isAsinChar (Js.toUpperCase s) = true.
Proof.
  induction s as [| c s IH]; simpl; [reflexivity |].
  intros H. apply andb_prop in H as [Hc Hs].
  rewrite (alnum_upper _ Hc). now apply IH.
Qed.

(** Whatever [extractAmazonAsinFromUrl] extracts is a well-formed ASIN. *)
Lemma extractAmazonAsin_valid :
  forall url,
    Js.truthy (extractAmazonAsinFromUrl url) = true ->
    SerpApiProxy.isValidAsin (extractAmazonAsinFromUrl url) = true.
Proof.
  intros url H. unfold extractAmazonAsinFromUrl in *.
  destruct (matchAsin url) as [a |] eqn:Hm; [| discriminate].
  destruct (matchAsin_ok _ _ Hm) as [Hlen Hall].
  unfold SerpApiProxy.isValidAsin, Js.toUpperCase.
  rewrite length_mapString, Hlen. simpl.
  now apply allChars_upper.
Qed.

(** *** Markers and the canonical Amazon listing URL *)

Section Disjoint.
Variable f : ascii -> bool.
Variable m : string.
Hypothesis m_truthy : Js.truthy m = true.
Hypothesis m_out : SerpApiProxy.allChars (fun c => negb (f c)) m = true.

Lemma prefix_app_disjoint :
  forall p x,
    SerpApiProxy.allChars f x = true ->
    String.prefix m (p ++ x)%string = String.prefix m p.
Proof.
  clear m_truthy. revert m_out.
  induction m as [| c m' IH]; intros Hout p x Hx.
  - now destruct p, x.
  - simpl in Hout. apply andb_prop in Hout as [Hc Hm'].
    apply negb_true_iff in Hc.
    destruct p as [| a p']; simpl.
    + destruct x as [| d x']; [reflexivity |]. simpl in *.
      apply andb_prop in Hx as [Hd _].
      destruct (ascii_dec c d) as [-> |]; [congruence | reflexivity].
    + destruct (ascii_dec c a); [| reflexivity]. now apply IH.
Qed.

Lemma prefix_empty : String.prefix m "" = false.
Proof. destruct m; [discriminate m_truthy | reflexivity]. Qed.

Lemma includes_disjoint_false :
  forall x, SerpApiProxy.allChars f x = true -> Js.includes x m = false.
Proof.
  induction x as [| d x' IH]; intros Hx; [now apply includes_empty |].
  rewrite includes_eq.
  change (String d x') with ("" ++ String d x')%string at 1.
  rewrite (prefix_app_disjoint "" _ Hx), prefix_empty.
  simpl in Hx. apply andb_prop in Hx as [_ Hx']. auto.
Qed.

Lemma includes_app_disjoint :
  forall p x,
    SerpApiProxy.allChars f x = true ->
    Js.includes (p ++ x)%string m = Js.includes p m.
Proof.
  intros p x Hx. induction p as [| a p' IH].
  - rewrite (includes_empty _ m_truthy). now apply includes_disjoint_false.
  - rewrite (includes_eq (String a p')), <- (prefix_app_disjoint (String a p') x Hx).
    rewrite includes_eq. cbn [append]. now rewrite IH.
Qed.

End Disjoint.

Lemma dp_url_no_marker :
  forall a,
    SerpApiProxy.isValidAsin a = true ->
    hasSearchMarker (amazonDp ++ a)%string = false.
Proof.
  intros a H. unfold SerpApiProxy.isValidAsin in H.
  apply andb_prop in H as [_ H]. unfold hasSearchMarker.
  rewrite !(includes_app_disjoint SerpApiProxy.isAsinChar) by (reflexivity || exact H).
  reflexivity.
Qed.

Lemma dp_url_trim :
  forall a,
    SerpApiProxy.isValidAsin a = true ->
    Js.trim (amazonDp ++ a)%string = (amazonDp ++ a)%string.
Proof.
  intros a H. unfold SerpApiProxy.isValidAsin in H.
  apply andb_prop in H as [_ H].
  apply trim_nospace. rewrite allChars_app. simpl.
  revert H. apply allChars_impl. intros c Hc.
  destruct (asinChar_facts _ Hc) as (-> & _). reflexivity.
Qed.

(** *** Candidates *)

Section AdapterFacts.
Variable api : Url.Api.
Variable cfg : Config.t.
Variable w : World.t.
Hypothesis api_ok : keepsAmazonListing api.

Lemma amazonCandidate_facts :
  forall r idx c,
    amazonCandidate api r idx = Some c ->
    Candidate.listingVerified c = false /\
    SerpApiProxy.isValidAsin (Candidate.asin c) = true.
Proof.
  intros r idx c H. unfold amazonCandidate in H.
  destruct (Js.truthy (extractAmazonAsinFromUrl (SerpResult.link r))) eqn:Ht;
    simpl in H; [| discriminate].
  injection H as <-. simpl. split; [reflexivity |].
  now apply extractAmazonAsin_valid.
Qed.

Lemma shoppingCandidate_unverified :
  forall r idx c,
    shoppingCandidate api r idx = Some c -> Candidate.listingVerified c = false.
Proof.
  intros r idx c H. unfold shoppingCandidate in H.
  repeat match type of H with
         | (if ?b then _ else _) = _ => destruct b; [discriminate |]
         end.
  destruct (retailerOf _ _) as [[v n] |]; [| discriminate].
  injection H as <-. reflexivity.
Qed.

Lemma fetchAmazonProduct_link :
  forall asin detail,
    SerpApiProxy.isValidAsin asin = true ->
    SerpApiProxy.fetchAmazonProductViaSerpApi w asin = Fulfilled detail ->
    exists d, detail = Some d /\ AmazonDetail.link d = (amazonDp ++ asin)%string.
Proof.
  intros asin detail Hv H. unfold SerpApiProxy.fetchAmazonProductViaSerpApi in H.
  rewrite (validAsin_clean _ Hv), Hv in H. simpl in H.
  destruct (World.queryAmazonProduct w asin) as [payload | e]; [| discriminate].
  injection H as <-. eexists. split; [reflexivity |]. simpl.
  unfold SerpApiProxy.canonicalAmazonProductUrl.
  now rewrite (validAsin_clean _ Hv), Hv.
Qed.

Lemma canonical_amazon_no_marker :
  forall a,
    SerpApiProxy.isValidAsin a = true ->
    hasSearchMarker (canonicalizeVendorUrl api "web:amazon" (amazonDp ++ a)) = false.
Proof.
  intros a Hv. unfold canonicalizeVendorUrl. rewrite (api_ok _ Hv).
  change (Js.truthy (amazonDp ++ a)%string) with true. simpl negb.
  change ("web:amazon" =? "web:amazon")%string with true. cbv iota.
  destruct (Js.truthy (extractAmazonAsinFromUrl (amazonDp ++ a)%string)) eqn:Ht.
  - apply dp_url_no_marker. now apply extractAmazonAsin_valid.
  - now apply dp_url_no_marker.
Qed.

Lemma hydrate_no_marker :
  forall seed d a,
    SerpApiProxy.isValidAsin a = true ->
    AmazonDetail.link d = (amazonDp ++ a)%string ->
    hasSearchMarker (Candidate.productUrl (hydrate api seed (Some d))) = false.
Proof.
  intros seed d a Hv Hl. unfold hydrate. cbn [Candidate.productUrl].
  rewrite Hl.
  change (Js.orElse (amazonDp ++ a)%string (Candidate.productUrl seed))
    with (amazonDp ++ a)%string.
  rewrite (dp_url_trim _ Hv).
  change (Js.orElse (amazonDp ++ a)%string (Candidate.productUrl seed))
    with (amazonDp ++ a)%string.
  now apply canonical_amazon_no_marker.
Qed.

Lemma fetchAmazonOffer_listing :
  forall query strategy a,
    fetchAmazonOffer api w query strategy = Fulfilled (Some a) ->
    Candidate.listingVerified a = true ->
    hasSearchMarker (Candidate.productUrl a) = false.
Proof.
  intros query strategy a H Hver. unfold fetchAmazonOffer in H.
  destruct (World.searchOffersViaSerpApi w query "amazon.com" "amazon")
    as [serp | e]; [| discriminate].
  destruct (pickBestOffer _ strategy) as [bestSeed |] eqn:Hpick; [| discriminate].
  apply pickBestOffer_In in Hpick.
  apply mapFilterIdx_In in Hpick as (r & i & _ & Hc).
  apply amazonCandidate_facts in Hc as [Hunv Hasin].
  destruct (SerpApiProxy.fetchAmazonProductViaSerpApi w (Candidate.asin bestSeed))
    as [detail | e] eqn:Hd.
  - destruct (fetchAmazonProduct_link _ _ Hasin Hd) as (d & -> & Hl).
    injection H as <-. eapply hydrate_no_marker; eauto.
  - injection H as <-. congruence.
Qed.

Lemma fetchShoppingVendors_unverified :
  forall query strategy l c,
    fetchShoppingVendors api w query strategy = Fulfilled l ->
    In c l -> Candidate.listingVerified c = false.
Proof.
  intros query strategy l c H Hin. unfold fetchShoppingVendors in H.
  destruct (World.searchOffersViaSerpApi w query "" "google_shopping")
    as [serp | e]; [| discriminate].
  set (candidates := filter hasPrice (mapFilterIdx (shoppingCandidate api) 0 serp)) in *.
  assert (Hcand : forall x, In x candidates -> Candidate.listingVerified x = false).
  { intros x Hx. apply filter_In in Hx as [Hx _].
    apply mapFilterIdx_In in Hx as (r & i & _ & Hr).
    eapply shoppingCandidate_unverified; eauto. }
  destruct (pickBestOffer _ strategy) as [e |] eqn:Hpick;
    injection H as <-; apply fillSlots_In in Hin as [Hin | Hin].
  - apply Hcand. eapply In_sort; eauto.
  - destruct Hin as [<- | []]. apply pickBestOffer_In in Hpick.
    apply filter_In in Hpick as [Hpick _]. auto.
  - apply Hcand. eapply In_sort; eauto.
  - destruct Hin.
Qed.

(** No candidate the adapters hand to the aggregator is marked verified
    while its URL carries a search marker. *)
Lemma fetchTopOffers_listing :
  forall query strategy cs c,
    fetchTopOffers api cfg w query strategy = Fulfilled cs ->
    In c cs ->
    hasSearchMarker (Candidate.productUrl c) = true ->
    Candidate.listingVerified c = false.
Proof.
  intros query strategy cs c H Hin Hmark. unfold fetchTopOffers in H.
  destruct (negb (Config.enableWebSearchOffers cfg));
    [injection H as <-; destruct Hin |].
  destruct (negb (Config.enableSerpApiProxy cfg) || _);
    [injection H as <-; destruct Hin |].
  destruct (negb (Js.truthy (normalizeWhitespace query)));
    [injection H as <-; destruct Hin |].
  injection H as <-. apply uniqueVendors_In in Hin.
  apply in_app_or in Hin as [Hin | Hin].
  - destruct (fetchAmazonOffer api w (normalizeWhitespace query) strategy)
      as [[a |] | e] eqn:Ha; try (destruct Hin; fail).
    destruct Hin as [-> | []].
    destruct (Candidate.listingVerified c) eqn:Hv; [| reflexivity].
    rewrite (fetchAmazonOffer_listing _ _ _ Ha Hv) in Hmark. discriminate.
  - destruct (fetchShoppingVendors api w (normalizeWhitespace query) strategy)
      as [l | e] eqn:Hs; [| destruct Hin].
    eapply fetchShoppingVendors_unverified; eauto.
Qed.

End AdapterFacts.

End ProviderFacts.

(** C7.  A URL that contains one of the search markers [/s?], [/search],
    [?q=], [&q=], [_nkw=] is never classified as a verified listing: not by
    the normalizer applied to a persisted offer, whatever the vendor, and
    not on a candidate the Amazon adapter or the whole adapter fan-out
    produces, whatever the providers answer.  The platform's URL parser is
    asked to give a canonical Amazon listing URL back unchanged. *)
Theorem search_url_never_verified :
  forall api : Url.Api,
    Vocabulary.keepsAmazonListing api ->
    (forall dbOffer : Offer.t,
       Vocabulary.hasSearchMarker (Offer.productUrl dbOffer) = true ->
       NormalizedOffer.listingVerified (OfferService.normalizeOffer dbOffer)
       = false) /\
    (forall (w : World.t) (query strategy : string) (a : Candidate.t),
       WebSearchProvider.fetchAmazonOffer api w query strategy
       = Fulfilled (Some a) ->
       Vocabulary.hasSearchMarker (Candidate.productUrl a) = true ->
       Candidate.listingVerified a = false) /\
    (forall (cfg : Config.t) (w : World.t) (query strategy : string)
            (cs : list Candidate.t) (c : Candidate.t),
       WebSearchProvider.fetchTopOffers api cfg w query strategy = Fulfilled cs ->
       In c cs ->
       Vocabulary.hasSearchMarker (Candidate.productUrl c) = true ->
       Candidate.listingVerified c = false).
Proof.
  intros api Hapi. split; [| split].
  - apply ListingFacts.normalizeOffer_search_url.
  - intros w query strategy a Ha Hmark.
    destruct (Candidate.listingVerified a) eqn:Hv; [| reflexivity].
    rewrite (ProviderFacts.fetchAmazonOffer_listing api w Hapi _ _ _ Ha Hv) in Hmark.
    discriminate.
  - intros cfg w. apply ProviderFacts.fetchTopOffers_listing. exact Hapi.
Qed.

Lemma noUrlApi_keeps : Vocabulary.keepsAmazonListing Vocabulary.noUrlApi.
Proof.
  intros a Hv. unfold WebSearchProvider.canonicalizeUrl.
  rewrite (ProviderFacts.dp_url_trim _ Hv). reflexivity.
Qed.

Lemma search_url_never_verified_witness :
  (forall dbOffer : Offer.t,
     Vocabulary.hasSearchMarker (Offer.productUrl dbOffer) = true ->
     NormalizedOffer.listingVerified (OfferService.normalizeOffer dbOffer)
     = false) /\
  (forall (w : World.t) (query strategy : string) (a : Candidate.t),
     WebSearchProvider.fetchAmazonOffer Vocabulary.noUrlApi w query strategy
     = Fulfilled (Some a) ->
     Vocabulary.hasSearchMarker (Candidate.productUrl a) = true ->
     Candidate.listingVerified a = false) /\
  (forall (cfg : Config.t) (w : World.t) (query strategy : string)
          (cs : list Candidate.t) (c : Candidate.t),
     WebSearchProvider.fetchTopOffers Vocabulary.noUrlApi cfg w query strategy
     = Fulfilled cs ->
     In c cs ->
     Vocabulary.hasSearchMarker (Candidate.productUrl c) = true ->
     Candidate.listingVerified c = false).
Proof.
  apply (search_url_never_verified Vocabulary.noUrlApi noUrlApi_keeps).
Defined.

(** ** The aggregator *)

Module AggregatorFacts.
Import Vocabulary OfferService.

Lemma find_existsb (A : Type) (f : A -> bool) :
  forall l x, find f l = Some x -> existsb f l = true /\ f x = true.
Proof.
  induction l as [| y ys IH]; intros x H; simpl in *; [discriminate |].
  destruct (f y) eqn:Hy.
  - injection H as <-. auto.
  - destruct (IH _ H). auto.
Qed.

Lemma offer_create_ok :
  forall data st,
    existsb (Store.sameKey (Offer.productId data) (Offer.vendorId data))
      (Store.offers st) = false ->
    existsb (fun p => (Product.id p =? Offer.productId data)%string)
      (Store.products st) = true ->
    exists row,
      Store.offer_create data st =
      (Fulfilled row,
       Store.setOffers st (Store.offers st ++ [row]) (S (Store.nextId st))) /\
      row = Store.overwrite data
              (Offer.mk (Store.cuid (Store.nextId st)) (Offer.vendorId data) ""
                 (Offer.productId data) "" 0 0 0 false "").
Proof.
  intros data st Hk Hp. unfold Store.offer_create. rewrite Hk, Hp. simpl.
  eexists. split; reflexivity.
Qed.

Lemma rec_three :
  forall a b c : NormalizedOffer.t,
    NormalizedOffer.inStock a = true ->
    NormalizedOffer.inStock b = true ->
    NormalizedOffer.inStock c = true ->
    total a < total b -> total a < total c ->
    recommendedOfferIdForStrategy [a; b; c] "BEST_PRICE"
    = Js.orNull (NormalizedOffer.id a).
Proof.
  intros a b c Ha Hb Hc Hab Hac.
  unfold recommendedOfferIdForStrategy. simpl filter. rewrite Ha, Hb, Hc.
  cbn [List.length Nat.eqb].
  change (Js.toUpperCase (Js.orElse "BEST_PRICE" "BALANCED")) with "BEST_PRICE".
  cbn [Js.sort Js.insert].
  rewrite !RankingFacts.compareOffers_price_first by reflexivity.
  destruct (Z.eqb_spec (total b) (total c)) as [Hbc | Hbc].
  - destruct (_ <=? 0); cbn [Js.insert];
      rewrite !RankingFacts.compareOffers_price_first by reflexivity.
    + destruct (Z.eqb_spec (total a) (total b)); [lia |].
      destruct (Z.leb_spec (total a - total b) 0); [reflexivity | lia].
    + destruct (Z.eqb_spec (total a) (total c)); [lia |].
      destruct (Z.leb_spec (total a - total c) 0); [reflexivity | lia].
  - destruct (_ <=? 0); cbn [Js.insert];
      rewrite !RankingFacts.compareOffers_price_first by reflexivity.
    + destruct (Z.eqb_spec (total a) (total b)); [lia |].
      destruct (Z.leb_spec (total a - total b) 0); [reflexivity | lia].
    + destruct (Z.eqb_spec (total a) (total c)); [lia |].
      destruct (Z.leb_spec (total a - total c) 0); [reflexivity | lia].
Qed.

Lemma existsb_sameKey_false :
  forall pid v l,
    (forall o, In o l -> Offer.productId o = pid -> Offer.vendorId o <> v) ->
    existsb (Store.sameKey pid v) l = false.
Proof.
  intros pid v l H. induction l as [| o os IH]; simpl; [reflexivity |].
  rewrite IH by (intros; apply H; auto; now right).
  unfold Store.sameKey.
  destruct (String.eqb_spec (Offer.productId o) pid) as [Hp |]; [| reflexivity].
  destruct (String.eqb_spec (Offer.vendorId o) v) as [Hv |]; [| reflexivity].
  exfalso. eapply H; eauto. now left.
Qed.


Lemma createFallbacks_step :
  forall product productId basePrice fb rest ids st,
    Js.setHas ids (Fallback.vendorId fb) = false ->
    existsb (Store.sameKey productId (Fallback.vendorId fb)) (Store.offers st)
      = false ->
    existsb (fun p => (Product.id p =? productId)%string) (Store.products st)
      = true ->
    createFallbacks product productId basePrice (fb :: rest) ids st =
    let row :=
      fallbackRow (Store.nextId st) productId (Product.title product)
        (Fallback.vendorId fb) (Fallback.vendorName fb) (Fallback.url fb)
        (Z.max 99 (Js.round (inject_Z basePrice * Fallback.priceMult fb)%Q))
        (Fallback.etaDays fb) in
    let st1 :=
      Store.setOffers st (Store.offers st ++ [row]) (S (Store.nextId st)) in
    if (3 <=? List.length (Js.setAdd ids (Fallback.vendorId fb)))%nat
    then (Fulfilled tt, st1)
    else createFallbacks product productId basePrice rest
           (Js.setAdd ids (Fallback.vendorId fb)) st1.
Proof.
  intros product productId basePrice fb rest ids st Hids Hkey Hprod.
  cbn [createFallbacks]. rewrite Hids.
  unfold Store.bind at 1. unfold Store.offer_create at 1.
  cbn [Offer.productId Offer.vendorId]. rewrite Hkey, Hprod. cbn [negb].
  cbv zeta. fold (fallbackRow (Store.nextId st) productId (Product.title product)
        (Fallback.vendorId fb) (Fallback.vendorName fb) (Fallback.url fb)
        (Z.max 99 (Js.round (inject_Z basePrice * Fallback.priceMult fb)%Q))
        (Fallback.etaDays fb)).
  destruct (3 <=? _)%nat; reflexivity.
Qed.

Lemma createFallbacks_fresh :
  forall product productId q st,
    existsb (fun p => (Product.id p =? productId)%string) (Store.products st) = true ->
    (forall o, In o (Store.offers st) -> Offer.productId o = productId ->
       ~ In (Offer.vendorId o) ["fallback:ebay"; "fallback:walmart"; "fallback:target"]) ->
    createFallbacks product productId 1999 (fallbacks q) [] st =
    (Fulfilled tt,
     Store.setOffers st
       (Store.offers st
        ++ syntheticRows (Store.nextId st) productId (Product.title product) q)
       (S (S (S (Store.nextId st))))).
Proof.
  intros product productId q st Hex Hfree.
  assert (Hk : forall v rows,
             In v ["fallback:ebay"; "fallback:walmart"; "fallback:target"] ->
             (forall r, In r rows -> Offer.vendorId r <> v) ->
             existsb (Store.sameKey productId v) (Store.offers st ++ rows) = false).
  { intros v rows Hv Hrows. apply existsb_sameKey_false.
    intros o Ho Hp Heq. apply in_app_or in Ho as [Ho | Ho].
    - apply (Hfree o Ho Hp). now rewrite Heq.
    - now apply (Hrows o Ho). }
  unfold fallbacks.
  rewrite createFallbacks_step; cbn [Fallback.vendorId]; try reflexivity;
    [| rewrite <- (app_nil_r (Store.offers st));
       apply Hk; simpl; tauto | exact Hex].
  cbv zeta. change (3 <=? List.length (Js.setAdd [] "fallback:ebay"))%nat with false.
  cbv iota.
  rewrite createFallbacks_step; cbn [Fallback.vendorId]; try reflexivity;
    [| apply Hk; [simpl; tauto | intros r [<- | []]; discriminate] | exact Hex].
  cbv zeta.
  change (3 <=? List.length (Js.setAdd (Js.setAdd [] "fallback:ebay") "fallback:walmart"))%nat
    with false.
  cbv iota.
  rewrite createFallbacks_step; cbn [Fallback.vendorId]; try reflexivity;
    [| cbn [Store.setOffers Store.offers]; rewrite <- app_assoc;
       apply Hk; [simpl; tauto | intros r [<- | [<- | []]]; discriminate] | exact Hex].
  cbv zeta.
  change (3 <=? List.length
            (Js.setAdd (Js.setAdd (Js.setAdd [] "fallback:ebay") "fallback:walmart")
               "fallback:target"))%nat with true.
  cbv iota. unfold syntheticRows, Store.setOffers. cbn [Store.products Store.offers
    Store.watchlist Store.pendingNotifications Store.nextId Fallback.vendorName
    Fallback.url Fallback.priceMult Fallback.etaDays].
  rewrite <- !app_assoc. reflexivity.
Qed.

Lemma syntheticRows_inStock :
  forall n productId title q,
    filter (fun o => (Offer.productId o =? productId)%string && Offer.inStock o)
      (syntheticRows n productId title q)
    = syntheticRows n productId title q.
Proof.
  intros. unfold syntheticRows, fallbackRow. simpl.
  rewrite String.eqb_refl. reflexivity.
Qed.

(** C3.  With live web search switched off and a stored product (with a
    non-blank brand+title) that has no in-stock offer, and no stored row
    already holding one of the three fallback keys, [getRankedOffers] with
    [refreshLive] inserts exactly three fallback offers and returns them:
    eBay at max(99, round(1999 x 0.92)) = 1839 cents with ETA 6, Walmart at
    max(99, round(1999 x 0.98)) = 1959 cents with ETA 4, Target at
    max(99, round(1999 x 1.03)) = 2059 cents with ETA 5, under three distinct
    vendor ids, and a table whose (productId, vendorId) keys were unique
    keeps them unique; [BEST_PRICE] recommends the eBay offer's id. *)
Theorem fallback_synthesis :
  forall (api : Url.Api) (cfg : Config.t) (w : World.t) (st : Store.t)
         (productId userId strategy : string) (product : Product.t),
    Config.enableWebSearchOffers cfg && Config.enableSerpApiProxy cfg &&
      Js.truthy (Config.serpApiApiKey cfg) = false ->
    find (fun p => (Product.id p =? productId)%string) (Store.products st)
      = Some product ->
    Js.truthy (normalizeWhitespace
                 (Js.trim (Product.brand product ++ " " ++ Product.title product)%string))
      = true ->
    filter (fun o => (Offer.productId o =? productId)%string && Offer.inStock o)
      (Store.offers st) = [] ->
    (forall o, In o (Store.offers st) -> Offer.productId o = productId ->
       ~ In (Offer.vendorId o) ["fallback:ebay"; "fallback:walmart"; "fallback:target"]) ->
    exists res st' ebay walmart target,
      getRankedOffers api cfg w productId userId strategy true st
        = (Fulfilled res, st') /\
      Store.offers st' = Store.offers st ++ [ebay; walmart; target] /\
      RankedOffers.offers res = map normalizeOffer [ebay; walmart; target] /\
      (Offer.vendorId ebay = "fallback:ebay" /\
       Offer.priceCents ebay = Z.max 99 (Js.round (1999 * (92 # 100))) /\
       Offer.priceCents ebay = 1839 /\ Offer.etaDays ebay = 6) /\
      (Offer.vendorId walmart = "fallback:walmart" /\
       Offer.priceCents walmart = Z.max 99 (Js.round (1999 * (98 # 100))) /\
       Offer.priceCents walmart = 1959 /\ Offer.etaDays walmart = 4) /\
      (Offer.vendorId target = "fallback:target" /\
       Offer.priceCents target = Z.max 99 (Js.round (1999 * (103 # 100))) /\
       Offer.priceCents target = 2059 /\ Offer.etaDays target = 5) /\
      NoDup (map Offer.vendorId [ebay; walmart; target]) /\
      (NoDup (map (fun o => (Offer.productId o, Offer.vendorId o)) (Store.offers st)) ->
       NoDup (map (fun o => (Offer.productId o, Offer.vendorId o))
                (Store.offers st'))) /\
      recommendedOfferIdForStrategy (RankedOffers.offers res) "BEST_PRICE"
        = Some (Offer.id ebay) /\
      (strategy = "BEST_PRICE" ->
       RankedOffers.recommendedOfferId res = Some (Offer.id ebay)).
Proof.
  intros api cfg w st productId userId strategy product Hlive Hfind Hq Hnone Hfree.
  destruct (find_existsb _ _ _ _ Hfind) as [Hex Hid].
  set (q := Js.encodeURIComponent
              (normalizeWhitespace
                 (Js.trim (Product.brand product ++ " " ++ Product.title product)%string))).
  pose (n := Store.nextId st). pose (title := Product.title product).
  pose (r1 := fallbackRow n productId title "fallback:ebay" "eBay"
                ("https://www.ebay.com/sch/i.html?_nkw=" ++ q) 1839 6).
  pose (r2 := fallbackRow (S n) productId title "fallback:walmart" "Walmart"
                ("https://www.walmart.com/search?q=" ++ q) 1959 4).
  pose (r3 := fallbackRow (S (S n)) productId title "fallback:target" "Target"
                ("https://www.target.com/s?searchTerm=" ++ q) 2059 5).
  assert (Hrows : syntheticRows n productId title q = [r1; r2; r3]) by reflexivity.
  assert (Hrec : recommendedOfferIdForStrategy (map normalizeOffer [r1; r2; r3])
                   "BEST_PRICE" = Some (Offer.id r1)).
  { cbn [map]. rewrite rec_three; reflexivity. }
  exists {| RankedOffers.offers := map normalizeOffer [r1; r2; r3];
            RankedOffers.recommendedOfferId :=
              recommendedOfferIdForStrategy (map normalizeOffer [r1; r2; r3]) strategy;
            RankedOffers.strategy := strategy |}.
  exists (Store.setOffers st (Store.offers st ++ [r1; r2; r3]) (S (S (S n)))).
  exists r1, r2, r3.
  split; [| split; [reflexivity | split; [reflexivity |]]].
  - unfold getRankedOffers, refreshWebOffersForProduct.
    unfold Store.bind at 1. unfold Store.tryCatch.
    unfold Store.bind at 1. unfold Store.product_findUnique at 1. rewrite Hfind.
    rewrite Hq. cbn [negb]. rewrite Hlive.
    unfold Store.bind at 1. unfold Store.ret at 1.
    unfold Store.bind at 1. unfold Store.offer_findMany_inStock at 1. rewrite Hnone.
    cbn [List.length Nat.leb map Js.setOf fold_left].
    change (if 10 ^ 12 <? 10 ^ 12 then 10 ^ 12 else 1999) with 1999.
    fold q. rewrite (createFallbacks_fresh _ _ _ _ Hex Hfree).
    fold n title. rewrite Hrows.
    unfold Store.bind, Store.offer_findMany_inStock, Store.ret.
    cbn [Store.setOffers Store.offers].
    rewrite filter_app, Hnone. rewrite <- Hrows at 1 2.
    rewrite syntheticRows_inStock, Hrows. reflexivity.
  - cbn [RankedOffers.offers RankedOffers.recommendedOfferId Offer.vendorId
         Offer.priceCents Offer.etaDays Offer.id fallbackRow].
    repeat split; try reflexivity; try exact Hrec.
    + repeat constructor; simpl; intuition discriminate.
    + intros Hkeys. cbn [Store.setOffers Store.offers]. rewrite map_app.
      apply NoDup_app; [exact Hkeys | |].
      * unfold r1, r2, r3, fallbackRow. simpl.
        repeat constructor; simpl; intuition congruence.
      * intros key Hin Hnew. apply in_map_iff in Hin as (o & <- & Ho).
        unfold r1, r2, r3, fallbackRow in Hnew. simpl in Hnew.
        apply (Hfree o Ho).
        -- destruct Hnew as [H | [H | [H | []]]]; now injection H.
        -- simpl. destruct Hnew as [H | [H | [H | []]]];
             injection H as _ <-; tauto.
    + intros ->. exact Hrec.
Qed.

Lemma fallback_synthesis_witness :
  exists res st' ebay walmart target,
    getRankedOffers noUrlApi Sample.liveOff Sample.timeouts "p1" "u1" "BEST_PRICE" true Sample.emptyStore
      = (Fulfilled res, st') /\
    Store.offers st' = Store.offers Sample.emptyStore ++ [ebay; walmart; target] /\
    RankedOffers.offers res = map normalizeOffer [ebay; walmart; target] /\
    (Offer.vendorId ebay = "fallback:ebay" /\
     Offer.priceCents ebay = Z.max 99 (Js.round (1999 * (92 # 100))) /\
     Offer.priceCents ebay = 1839 /\ Offer.etaDays ebay = 6) /\
    (Offer.vendorId walmart = "fallback:walmart" /\
     Offer.priceCents walmart = Z.max 99 (Js.round (1999 * (98 # 100))) /\
     Offer.priceCents walmart = 1959 /\ Offer.etaDays walmart = 4) /\
    (Offer.vendorId target = "fallback:target" /\
     Offer.priceCents target = Z.max 99 (Js.round (1999 * (103 # 100))) /\
     Offer.priceCents target = 2059 /\ Offer.etaDays target = 5) /\
    NoDup (map Offer.vendorId [ebay; walmart; target]) /\
    (NoDup (map (fun o => (Offer.productId o, Offer.vendorId o))
              (Store.offers Sample.emptyStore)) ->
     NoDup (map (fun o => (Offer.productId o, Offer.vendorId o))
              (Store.offers st'))) /\
    recommendedOfferIdForStrategy (RankedOffers.offers res) "BEST_PRICE"
      = Some (Offer.id ebay) /\
    ("BEST_PRICE" = "BEST_PRICE" ->
     RankedOffers.recommendedOfferId res = Some (Offer.id ebay)).
Proof.
  apply (fallback_synthesis noUrlApi Sample.liveOff Sample.timeouts
           Sample.emptyStore "p1" "u1" "BEST_PRICE" Sample.product1);
    [reflexivity | reflexivity | reflexivity | reflexivity | intros o []].
Defined.

Lemma tryCatch_total :
  forall (m : Store.M unit) st,
    exists st', Store.tryCatch m (fun _ => Store.ret tt) st = (Fulfilled tt, st').
Proof.
  intros m st. unfold Store.tryCatch.
  destruct (m st) as [[[] | e] st']; eexists; reflexivity.
Qed.

Lemma absent_product_no_offers :
  forall st productId,
    find (fun p => (Product.id p =? productId)%string) (Store.products st) = None ->
    referentialIntegrity st ->
    filter (fun o => (Offer.productId o =? productId)%string && Offer.inStock o)
      (Store.offers st) = [].
Proof.
  intros st productId Hnone Hfk.
  assert (H : forall o, In o (Store.offers st) ->
                        (Offer.productId o =? productId)%string = false).
  { intros o Ho. destruct (Hfk o Ho) as (p & Hp & Hid).
    pose proof (find_none _ _ Hnone p Hp) as Hf. simpl in Hf.
    now rewrite Hid in Hf. }
  induction (Store.offers st) as [| o os IH]; simpl; [reflexivity |].
  rewrite (H o) by now left. simpl. apply IH. intros; apply H; now right.
Qed.

(** C2.  Whatever the providers answer (every outbound call may be
    rejected, and every storage write of the refresh may be refused),
    [getRankedOffers] is fulfilled; and for a [productId] that identifies no
    stored product (in a store with referential integrity) it is fulfilled
    with no offers and a [null] recommendation, leaving the store as it was.
    Storage reads are total in the model. *)
Theorem getRankedOffers_never_rejects :
  forall (api : Url.Api) (cfg : Config.t) (w : World.t) (st : Store.t)
         (productId userId strategy : string) (refreshLive : bool),
    (exists res st',
       getRankedOffers api cfg w productId userId strategy refreshLive st
       = (Fulfilled res, st')) /\
    (find (fun p => (Product.id p =? productId)%string) (Store.products st) = None ->
     referentialIntegrity st ->
     getRankedOffers api cfg w productId userId strategy refreshLive st
     = (Fulfilled {| RankedOffers.offers := [];
                     RankedOffers.recommendedOfferId := None;
                     RankedOffers.strategy := strategy |}, st)).
Proof.
  intros api cfg w st productId userId strategy refreshLive. split.
  - unfold getRankedOffers. destruct refreshLive.
    + unfold Store.bind at 1.
      destruct (tryCatch_total
                  (refreshWebOffersForProduct api cfg w productId strategy) st)
        as [st1 ->].
      eexists. eexists. reflexivity.
    + eexists. eexists. reflexivity.
  - intros Hnone Hfk.
    assert (Hread :
      Store.bind (Store.offer_findMany_inStock productId)
        (fun offers =>
           Store.ret
             {| RankedOffers.offers := map normalizeOffer offers;
                RankedOffers.recommendedOfferId :=
                  recommendedOfferIdForStrategy (map normalizeOffer offers) strategy;
                RankedOffers.strategy := strategy |}) st
      = (Fulfilled {| RankedOffers.offers := [];
                      RankedOffers.recommendedOfferId := None;
                      RankedOffers.strategy := strategy |}, st)).
    { unfold Store.bind, Store.offer_findMany_inStock, Store.ret.
      now rewrite (absent_product_no_offers _ _ Hnone Hfk). }
    unfold getRankedOffers. destruct refreshLive.
    + unfold Store.bind at 1. unfold Store.tryCatch, refreshWebOffersForProduct.
      unfold Store.bind at 1. unfold Store.product_findUnique. rewrite Hnone.
      unfold Store.ret at 1. exact Hread.
    + unfold Store.bind at 1. unfold Store.ret at 1. exact Hread.
Qed.

Lemma getRankedOffers_absent_witness :
  getRankedOffers noUrlApi Sample.liveOff Sample.timeouts "no-such-product" "u1"
    "BALANCED" true Sample.emptyStore
  = (Fulfilled {| RankedOffers.offers := [];
                  RankedOffers.recommendedOfferId := None;
                  RankedOffers.strategy := "BALANCED" |}, Sample.emptyStore).
Proof.
  apply (proj2 (getRankedOffers_never_rejects noUrlApi Sample.liveOff
                  Sample.timeouts Sample.emptyStore "no-such-product" "u1"
                  "BALANCED" true)).
  - reflexivity.
  - intros o [].
Defined.

End AggregatorFacts.

(** ** The price-drift / alert tick *)

Module TickFacts.
Import Vocabulary PriceMonitor.

Lemma getBest_eq :
  forall productId st,
    getBestOfferForProduct productId st
    = (Fulfilled (bestOf (Store.offers st) productId), st).
Proof.
  intros productId st. unfold getBestOfferForProduct, Store.bind,
    Store.offer_findMany_inStock, bestOf, inStockOf.
  destruct (List.length _ =? 0)%nat; reflexivity.
Qed.

Lemma getBest_iff :
  forall productId st b,
    getBestOfferForProduct productId st = (Fulfilled (Some b), st) <->
    bestOf (Store.offers st) productId = Some b.
Proof.
  intros productId st b. rewrite getBest_eq. split.
  - intros H. now injection H.
  - intros ->. reflexivity.
Qed.

Lemma existsb_reprice :
  forall x id p e os,
    existsb (fun o => (Offer.id o =? x)%string) (map (Store.reprice id p e) os)
    = existsb (fun o => (Offer.id o =? x)%string) os.
Proof.
  intros x id p e os. induction os as [| o os IH]; simpl; [reflexivity |].
  rewrite IH. f_equal. unfold Store.reprice.
  destruct (Offer.id o =? id)%string; reflexivity.
Qed.

Section Tick.
Variable random : nat -> Q.
Variable now : Z.

Lemma driftOffers_eq :
  forall l k st,
    (forall o, In o l ->
       existsb (fun r => (Offer.id r =? Offer.id o)%string) (Store.offers st) = true) ->
    driftOffers random l k st
    = (Fulfilled (changedOf random l k,
                  fold_left (fun j _ => nextDraw random j) l k),
       Store.setOffers st (driftFold random l k (Store.offers st)) (Store.nextId st)).
Proof.
  induction l as [| o rest IH]; intros k st Hids.
  - simpl. unfold Store.ret. destruct st; reflexivity.
  - cbn [driftOffers].
    assert (Hshift :
      (if Qlt_le_dec (random (S k)) (2 # 10)
       then ((if Qlt_le_dec (random (S (S k))) (1 # 2) then -1 else 1), S (S (S k)))
       else (0, S (S k))) = (etaShiftAt random k, nextDraw random k)).
    { unfold etaShiftAt, nextDraw. destruct (Qlt_le_dec _ _); reflexivity. }
    rewrite Hshift.
    fold (driftAt random k). fold (newPriceAt random k o). fold (newEtaAt random k o).
    unfold Store.bind at 1. unfold Store.offer_update at 1.
    rewrite (Hids o) by now left.
    unfold Store.bind at 1. rewrite IH.
    + unfold Store.ret. cbn [fst snd changedOf fold_left driftFold
                             Store.setOffers Store.offers Store.products
                             Store.watchlist Store.pendingNotifications Store.nextId].
      reflexivity.
    + intros o' Ho'. cbn [Store.setOffers Store.offers].
      rewrite existsb_reprice. apply Hids. now right.
Qed.

Lemma existsb_mark :
  forall x id t p e ws,
    existsb (fun w => (WatchItem.id w =? x)%string)
      (map (Store.markNotified id t p e) ws)
    = existsb (fun w => (WatchItem.id w =? x)%string) ws.
Proof.
  intros x id t p e ws. induction ws as [| w ws IH]; simpl; [reflexivity |].
  rewrite IH. f_equal. unfold Store.markNotified.
  destruct (WatchItem.id w =? id)%string; reflexivity.
Qed.

Lemma evaluateItems_eq :
  forall items st,
    (forall item prod, In (item, prod) items ->
       prod <> None /\
       existsb (fun w => (WatchItem.id w =? WatchItem.id item)%string)
         (Store.watchlist st) = true) ->
    evaluateItems now items st
    = (Fulfilled (notesOf (Store.offers st) items),
       {| Store.products := Store.products st;
          Store.offers := Store.offers st;
          Store.watchlist :=
            watchAfter now (Store.offers st) items (Store.watchlist st);
          Store.pendingNotifications :=
            Store.pendingNotifications st ++ pendingOf (Store.offers st) items;
          Store.nextId := Store.nextId st |}).
Proof.
  induction items as [| [item prod] rest IH]; intros st Hok.
  - simpl. unfold Store.ret. rewrite app_nil_r. destruct st; reflexivity.
  - assert (Hrest : forall st',
              Store.watchlist st' = Store.watchlist st \/
              (exists id t p e,
                 Store.watchlist st'
                 = map (Store.markNotified id t p e) (Store.watchlist st)) ->
              forall item' prod', In (item', prod') rest ->
                prod' <> None /\
                existsb (fun w => (WatchItem.id w =? WatchItem.id item')%string)
                  (Store.watchlist st') = true).
    { intros st' Hw item' prod' Hin.
      destruct (Hok item' prod') as [Hp He]; [now right |]. split; [exact Hp |].
      destruct Hw as [-> | (id & t & p & e & ->)]; [exact He |].
      now rewrite existsb_mark. }
    cbn [evaluateItems notesOf pendingOf watchAfter].
    unfold Store.bind at 1. rewrite getBest_eq. unfold fires.
    destruct (bestOf (Store.offers st) (WatchItem.productId item)) as [b |].
    + destruct (shouldNotify item b); cbn [negb].
      * destruct (Hok item prod) as [Hp He]; [now left |].
        destruct prod as [p |]; [| contradiction].
        unfold Store.bind at 1. unfold queueNotification,
          Store.pendingNotification_create.
        unfold Store.bind at 1. unfold Store.watchlist_update.
        cbn [Store.watchlist]. rewrite He.
        unfold Store.bind at 1. rewrite IH.
        -- unfold Store.ret, Store.setWatchlist.
           cbn [Store.products Store.offers Store.watchlist
                Store.pendingNotifications Store.nextId titleOf].
           rewrite <- app_assoc. reflexivity.
        -- apply Hrest. right. unfold Store.setWatchlist. cbn [Store.watchlist].
           eauto.
      * apply IH. apply Hrest. now left.
    + apply IH. apply Hrest. now left.
Qed.

Lemma watchRows_ok :
  forall st,
    watchIntegrity st ->
    forall item prod, In (item, prod) (watchRows st) ->
      prod <> None /\
      existsb (fun w => (WatchItem.id w =? WatchItem.id item)%string)
        (Store.watchlist st) = true.
Proof.
  intros st Hint item prod Hin. unfold watchRows in Hin.
  apply in_map_iff in Hin as (w & Heq & Hw). injection Heq as <- <-.
  split; [now apply Hint |].
  apply existsb_exists. exists w. split; [exact Hw | apply String.eqb_refl].
Qed.

(** One tick, as a function of the store, the draws and the clock. *)
Lemma runPriceTick_eq :
  forall st,
    watchIntegrity st ->
    runPriceTick random now st
    = (Fulfilled (resultOfTick random st), storeAfterTick random now st).
Proof.
  intros st Hint. unfold runPriceTick.
  unfold Store.bind at 1. unfold Store.offer_findMany at 1.
  unfold Store.bind at 1. rewrite driftOffers_eq.
  - unfold Store.bind at 1. unfold Store.watchlist_findMany at 1.
    unfold Store.bind at 1.
    cbn [Store.setOffers Store.products Store.watchlist].
    fold (watchRows st). rewrite evaluateItems_eq.
    + reflexivity.
    + intros item prod Hin. cbn [Store.watchlist].
      now apply watchRows_ok.
  - intros o Ho. apply existsb_exists. exists o.
    split; [exact Ho | apply String.eqb_refl].
Qed.

End Tick.

(** *** Pure facts *)

Lemma clamp_bounds :
  forall v lo hi, lo <= hi -> lo <= clamp v lo hi <= hi.
Proof. intros v lo hi H. unfold clamp. lia. Qed.

Lemma driftFold_inRange :
  forall random l k os,
    (forall r, In r os -> In (Offer.id r) (map Offer.id l) \/ inRange r) ->
    forall r, In r (driftFold random l k os) -> inRange r.
Proof.
  intros random. induction l as [| o rest IH]; intros k os Hos r Hr.
  - simpl in Hr. destruct (Hos r Hr) as [[] | H]. exact H.
  - cbn [driftFold] in Hr. eapply IH; [| exact Hr].
    intros r1 Hr1. apply in_map_iff in Hr1 as (r0 & <- & Hr0).
    unfold Store.reprice.
    destruct (String.eqb_spec (Offer.id r0) (Offer.id o)) as [Heq | Hne].
    + right. split; cbn [Offer.priceCents Offer.etaDays];
        apply clamp_bounds; lia.
    + destruct (Hos r0 Hr0) as [[Hid | Hin] | H]; auto. congruence.
Qed.

Lemma offersAfterTick_inRange :
  forall random st r, In r (offersAfterTick random st) -> inRange r.
Proof.
  intros random st r. unfold offersAfterTick. apply driftFold_inRange.
  intros r0 Hr0. left. now apply in_map.
Qed.

Lemma fold_better_In :
  forall l acc b,
    fold_left better l acc = Some b -> acc = Some b \/ In b l.
Proof.
  induction l as [| o os IH]; intros acc b H; simpl in H; [now left |].
  destruct (IH _ _ H) as [Hacc | Hin]; [| right; now right].
  destruct acc as [a |]; simpl in Hacc.
  - destruct (_ <? _); [injection Hacc as <-; right; now left |].
    destruct (_ && _); [injection Hacc as <-; right; now left | now left].
  - injection Hacc as <-. right; now left.
Qed.

Lemma bestOf_In :
  forall offers productId b, bestOf offers productId = Some b -> In b offers.
Proof.
  intros offers productId b H. unfold bestOf in H.
  destruct (List.length _ =? 0)%nat; [discriminate |].
  apply fold_better_In in H as [H | H]; [discriminate |].
  unfold inStockOf in H. now apply filter_In in H.
Qed.

Lemma notesOf_In :
  forall offers items n,
    In n (notesOf offers items) <->
    exists item prod b,
      In (item, prod) items /\ fires offers item = Some b /\
      n = notificationFor item (titleOf prod) b.
Proof.
  intros offers. induction items as [| [item prod] rest IH]; intros n; simpl.
  - split; [contradiction | intros (i & p & b & [] & _)].
  - destruct (fires offers item) as [b |] eqn:Hf; simpl; rewrite IH; split.
    + intros [<- | (i & p & b' & Hin & Hfi & ->)].
      * exists item, prod, b. auto.
      * exists i, p, b'. auto.
    + intros (i & p & b' & [Heq | Hin] & Hfi & ->).
      * injection Heq as <- <-. left. congruence.
      * right. exists i, p, b'. auto.
    + intros (i & p & b' & Hin & Hfi & ->). exists i, p, b'. auto.
    + intros (i & p & b' & [Heq | Hin] & Hfi & ->).
      * injection Heq as <- <-. congruence.
      * exists i, p, b'. auto.
Qed.

Lemma NoDup_map_inj (A B : Type) (f : A -> B) :
  forall l a b, NoDup (map f l) -> In a l -> In b l -> f a = f b -> a = b.
Proof.
  induction l as [| x xs IH]; intros a b Hnd Ha Hb Hf; [contradiction |].
  simpl in Hnd. inversion Hnd as [| ? ? Hnot Hnd']; subst.
  destruct Ha as [-> | Ha], Hb as [-> | Hb]; auto.
  - exfalso. apply Hnot. rewrite Hf. now apply in_map.
  - exfalso. apply Hnot. rewrite <- Hf. now apply in_map.
Qed.

(** An item of the watchlist is notified exactly when [fires] says so. *)
Lemma notified_iff_fires :
  forall offers st item,
    uniqueWatchIds st ->
    In item (Store.watchlist st) ->
    (exists n, In n (notesOf offers (watchRows st)) /\
               TickNotification.watchlistId n = WatchItem.id item) <->
    (exists b, fires offers item = Some b).
Proof.
  intros offers st item Hnd Hin. split.
  - intros (n & Hn & Hid). apply notesOf_In in Hn as (i & p & b & Hi & Hf & ->).
    simpl in Hid. unfold watchRows in Hi.
    apply in_map_iff in Hi as (w & Heq & Hw). injection Heq as <- _.
    rewrite (NoDup_map_inj _ _ _ _ _ _ Hnd Hin Hw (eq_sym Hid)). eauto.
  - intros (b & Hf).
    exists (notificationFor item
              (titleOf (find (fun p => (Product.id p =? WatchItem.productId item)%string)
                          (Store.products st))) b).
    split; [| reflexivity]. apply notesOf_In.
    exists item, (find (fun p => (Product.id p =? WatchItem.productId item)%string)
                    (Store.products st)), b.
    repeat split; auto. unfold watchRows.
    apply in_map_iff. exists item. auto.
Qed.

Lemma targetHit_iff :
  forall item best,
    0 < Offer.priceCents best ->
    targetHit item best = true <->
    exists t, WatchItem.targetPriceCents item = Some t /\ Offer.priceCents best <= t.
Proof.
  intros item best Hpos. unfold targetHit.
  destruct (WatchItem.targetPriceCents item) as [t |]; split.
  - intros H. apply andb_prop in H as [_ H]. apply Z.leb_le in H. eauto.
  - intros (t' & Heq & Hle). injection Heq as <-.
    apply andb_true_intro. split; [| now apply Z.leb_le].
    apply negb_true_iff, Z.eqb_neq. lia.
  - discriminate.
  - intros (t' & Heq & _). discriminate.
Qed.

Lemma shippingImproved_iff :
  forall item best,
    shippingImproved item best = true <->
    WatchItem.shippingImprovementOn item = true /\
    exists e, WatchItem.lastSeenBestEtaDays item = Some e /\ Offer.etaDays best < e.
Proof.
  intros item best. unfold shippingImproved.
  destruct (WatchItem.shippingImprovementOn item); simpl;
    [| split; [discriminate | intros [H _]; discriminate]].
  destruct (WatchItem.lastSeenBestEtaDays item) as [e |]; split.
  - intros H. apply Z.ltb_lt in H. eauto.
  - intros (_ & e' & Heq & Hlt). injection Heq as <-. now apply Z.ltb_lt.
  - discriminate.
  - intros (_ & e' & Heq & _). discriminate.
Qed.

Lemma shouldNotify_iff :
  forall item best,
    0 < Offer.priceCents best ->
    shouldNotify item best = true <->
    (WatchItem.pctDropThreshold item <= dropPctOf item best)%Q \/
    (exists t, WatchItem.targetPriceCents item = Some t /\
               Offer.priceCents best <= t) \/
    (WatchItem.shippingImprovementOn item = true /\
     exists e, WatchItem.lastSeenBestEtaDays item = Some e /\
               Offer.etaDays best < e).
Proof.
  intros item best Hpos. unfold shouldNotify.
  rewrite !orb_true_iff, Qle_bool_iff, (targetHit_iff _ _ Hpos),
    shippingImproved_iff. tauto.
Qed.

Lemma pending_payloads :
  forall offers items,
    map PendingNotification.payload (pendingOf offers items)
    = map TickNotification.payload (notesOf offers items).
Proof.
  intros offers. induction items as [| [item prod] rest IH]; simpl; [reflexivity |].
  destruct (fires offers item); simpl; now rewrite ?IH.
Qed.

Lemma dropPct_example :
  forall item best p,
    WatchItem.lastSeenBestPriceCents item = Some 10000 ->
    Offer.priceCents best = p ->
    dropPctOf item best
    = Double.mul (Double.div (Double.sub 10000 (inject_Z p)) 10000) 100.
Proof.
  intros item best p Hl Hp. unfold dropPctOf, baselineOf. rewrite Hl, Hp.
  reflexivity.
Qed.

Lemma notified_iff :
  forall offers st item,
    uniqueWatchIds st ->
    In item (Store.watchlist st) ->
    ((exists n, In n (notesOf offers (watchRows st)) /\
                TickNotification.watchlistId n = WatchItem.id item) <->
     (exists best,
        bestOf offers (WatchItem.productId item) = Some best /\
        shouldNotify item best = true)).
Proof.
  intros offers st item Hnd Hin. rewrite (notified_iff_fires _ _ _ Hnd Hin).
  unfold fires. destruct (bestOf _ _) as [b |]; split.
  - intros (b' & H). destruct (shouldNotify item b) eqn:Hs; [eauto | discriminate].
  - intros (b' & Heq & Hs). injection Heq as <-. rewrite Hs. eauto.
  - intros (b' & H). discriminate.
  - intros (b' & Heq & _). discriminate.
Qed.

(** C4.  One [runPriceTick] pass (on a store whose watch items have unique
    ids and reference stored products, so that the pass completes) notifies
    a watch item if and only if the product has a best offer after the drift
    and that offer's drop percentage against the last-seen baseline, as the
    code computes it in doubles ([dropPctOf]), is at least
    [pctDropThreshold], or [targetPriceCents] is set and the
    best price meets or beats it, or shipping-improvement tracking is on and
    the best ETA is below [lastSeenBestEtaDays]; every notification returned
    is queued as a pending row.  With a threshold of 15 and a baseline of
    10000 cents a best price of 8499 notifies, and a best price of 8600
    (no target, no shipping tracking) does not. *)
Theorem tick_notifies_iff :
  forall (random : nat -> Q) (now : Z) (st : Store.t),
    watchIntegrity st ->
    uniqueWatchIds st ->
    exists res st' queued,
      runPriceTick random now st = (Fulfilled res, st') /\
      Store.pendingNotifications st' = Store.pendingNotifications st ++ queued /\
      map PendingNotification.payload queued
        = map TickNotification.payload (TickResult.notifications res) /\
      (forall item, In item (Store.watchlist st) ->
         ((exists n, In n (TickResult.notifications res) /\
                     TickNotification.watchlistId n = WatchItem.id item) <->
          (exists best,
             getBestOfferForProduct (WatchItem.productId item) st'
             = (Fulfilled (Some best), st') /\
             ((WatchItem.pctDropThreshold item <= dropPctOf item best)%Q \/
              (exists t, WatchItem.targetPriceCents item = Some t /\
                         Offer.priceCents best <= t) \/
              (WatchItem.shippingImprovementOn item = true /\
               exists e, WatchItem.lastSeenBestEtaDays item = Some e /\
                         Offer.etaDays best < e))))) /\
      (forall item best,
         In item (Store.watchlist st) ->
         getBestOfferForProduct (WatchItem.productId item) st'
             = (Fulfilled (Some best), st') ->
         (WatchItem.pctDropThreshold item == 15)%Q ->
         WatchItem.lastSeenBestPriceCents item = Some 10000 ->
         (Offer.priceCents best = 8499 ->
          exists n, In n (TickResult.notifications res) /\
                    TickNotification.watchlistId n = WatchItem.id item) /\
         (Offer.priceCents best = 8600 ->
          WatchItem.targetPriceCents item = None ->
          WatchItem.shippingImprovementOn item = false ->
          ~ exists n, In n (TickResult.notifications res) /\
                      TickNotification.watchlistId n = WatchItem.id item)).
Proof.
  intros random now st Hint Hnd.
  exists (resultOfTick random st), (storeAfterTick random now st),
    (pendingOf (offersAfterTick random st) (watchRows st)).
  split; [now apply runPriceTick_eq |].
  split; [reflexivity |]. split; [apply pending_payloads |].
  setoid_rewrite getBest_iff.
  cbn [resultOfTick storeAfterTick TickResult.notifications Store.offers].
  pose proof (fun item => notified_iff (offersAfterTick random st) st item Hnd)
    as Hiff.
  split.
  - intros item Hin. rewrite (Hiff item Hin). split.
    + intros (best & Hb & Hs). exists best. split; [exact Hb |].
      apply shouldNotify_iff; [| exact Hs].
      apply bestOf_In, offersAfterTick_inRange in Hb. destruct Hb. lia.
    + intros (best & Hb & Hs). exists best. split; [exact Hb |].
      apply shouldNotify_iff; [| exact Hs].
      apply bestOf_In, offersAfterTick_inRange in Hb. destruct Hb. lia.
  - intros item best Hin Hb Hthr Hlast. split.
    + intros Hp. apply (Hiff item Hin). exists best. split; [exact Hb |].
      unfold shouldNotify. apply orb_true_iff. left. apply orb_true_iff. left.
      apply Qle_bool_iff. rewrite Hthr, (dropPct_example _ _ _ Hlast Hp).
      vm_compute. discriminate.
    + intros Hp Htarget Hship Hn. apply (Hiff item Hin) in Hn as (b' & Hb' & Hs).
      rewrite Hb in Hb'. injection Hb' as <-.
      unfold shouldNotify, targetHit, shippingImproved in Hs.
      rewrite Htarget, Hship in Hs. simpl in Hs. rewrite !orb_false_r in Hs.
      apply Qle_bool_iff in Hs.
      rewrite Hthr, (dropPct_example _ _ _ Hlast Hp) in Hs.
      vm_compute in Hs. contradiction.
Qed.

(** *** Frame of the alert loop *)

Lemma watchAfter_nth :
  forall now offers items ws i w,
    nth_error ws i = Some w ->
    (forall item prod b,
       In (item, prod) items -> fires offers item = Some b ->
       WatchItem.id item <> WatchItem.id w) ->
    nth_error (watchAfter now offers items ws) i = Some w.
Proof.
  intros now offers. induction items as [| [item prod] rest IH];
    intros ws i w Hnth Hno; [exact Hnth |].
  cbn [watchAfter]. destruct (fires offers item) as [b |] eqn:Hf.
  - apply IH.
    + rewrite nth_error_map, Hnth. simpl. f_equal. unfold Store.markNotified.
      destruct (String.eqb_spec (WatchItem.id w) (WatchItem.id item)) as [Heq |];
        [| reflexivity].
      exfalso. apply (Hno item prod b); [now left | exact Hf | congruence].
    + intros item' prod' b' Hin. apply (Hno item' prod' b'). now right.
  - apply IH; [exact Hnth |]. intros item' prod' b' Hin.
    apply (Hno item' prod' b'). now right.
Qed.

Lemma watchAfter_sameRule :
  forall now offers items ws,
    Forall2 sameRule ws (watchAfter now offers items ws).
Proof.
  intros now offers. induction items as [| [item prod] rest IH]; intros ws.
  - simpl. induction ws; constructor; auto. repeat split.
  - cbn [watchAfter]. destruct (fires offers item) as [b |]; [| apply IH].
    specialize (IH (map (Store.markNotified (WatchItem.id item) now
                           (Offer.priceCents b) (Offer.etaDays b)) ws)).
    revert IH. generalize (watchAfter now offers rest
         (map (Store.markNotified (WatchItem.id item) now
                 (Offer.priceCents b) (Offer.etaDays b)) ws)).
    induction ws as [| w ws IHws]; intros l H; inversion H; subst; constructor.
    + unfold Store.markNotified in *.
      destruct (WatchItem.id w =? WatchItem.id item)%string; simpl in *; assumption.
    + apply IHws. assumption.
Qed.

Lemma Forall2_In_l (A B : Type) (R : A -> B -> Prop) :
  forall l l' a, Forall2 R l l' -> In a l -> exists b, In b l' /\ R a b.
Proof.
  intros l l' a H. induction H as [| x y xs ys Hxy Hrest IH]; intros Hin;
    [contradiction |].
  destruct Hin as [<- | Hin].
  - exists y. split; [now left | exact Hxy].
  - destruct (IH Hin) as (b & Hb & Hr). exists b. split; [now right | exact Hr].
Qed.

Lemma sameRule_ids :
  forall ws ws', Forall2 sameRule ws ws' ->
    map WatchItem.id ws' = map WatchItem.id ws.
Proof.
  intros ws ws' H. induction H as [| w w' ws ws' Hr _ IH]; simpl; [reflexivity |].
  destruct Hr as (-> & _). now rewrite IH.
Qed.

Lemma storeAfterTick_invariants :
  forall random now st,
    watchIntegrity st -> uniqueWatchIds st ->
    watchIntegrity (storeAfterTick random now st) /\
    uniqueWatchIds (storeAfterTick random now st).
Proof.
  intros random now st Hint Hnd.
  pose proof (watchAfter_sameRule now (offersAfterTick random st) (watchRows st)
                (Store.watchlist st)) as Hrel.
  split.
  - intros w' Hw'. cbn [storeAfterTick Store.watchlist Store.products] in *.
    destruct (Forall2_In_l _ _ _ _ _ w' (Forall2_flip Hrel) Hw') as (w & Hw & Hr).
    destruct Hr as (_ & _ & -> & _). now apply Hint.
  - unfold uniqueWatchIds. cbn [storeAfterTick Store.watchlist].
    now rewrite (sameRule_ids _ _ Hrel).
Qed.

(** C8.  A watch item that one [runPriceTick] pass does not notify is, after
    the pass, the same row at the same place: its [lastSeenBestPriceCents],
    [lastSeenBestEtaDays] and [lastNotifiedAt] (and every other column) keep
    their values. *)
Theorem nonfiring_item_unchanged :
  forall (random : nat -> Q) (now : Z) (st : Store.t),
    watchIntegrity st ->
    uniqueWatchIds st ->
    exists res st',
      runPriceTick random now st = (Fulfilled res, st') /\
      forall i item,
        nth_error (Store.watchlist st) i = Some item ->
        ~ (exists n, In n (TickResult.notifications res) /\
                     TickNotification.watchlistId n = WatchItem.id item) ->
        exists item',
          nth_error (Store.watchlist st') i = Some item' /\
          item' = item /\
          WatchItem.lastSeenBestPriceCents item'
            = WatchItem.lastSeenBestPriceCents item /\
          WatchItem.lastSeenBestEtaDays item'
            = WatchItem.lastSeenBestEtaDays item /\
          WatchItem.lastNotifiedAt item' = WatchItem.lastNotifiedAt item.
Proof.
  intros random now st Hint Hnd.
  exists (resultOfTick random st), (storeAfterTick random now st).
  split; [now apply runPriceTick_eq |].
  intros i item Hnth Hquiet. exists item.
  split; [| repeat split].
  cbn [storeAfterTick Store.watchlist]. apply watchAfter_nth; [exact Hnth |].
  intros item' prod b Hin Hf Hid.
  pose proof (nth_error_In _ _ Hnth) as Hitem.
  unfold watchRows in Hin. apply in_map_iff in Hin as (w & Heq & Hw).
  injection Heq as -> _.
  rewrite (NoDup_map_inj _ _ _ _ _ _ Hnd Hw Hitem Hid) in Hf.
  apply Hquiet. apply (notified_iff_fires _ _ _ Hnd Hitem). eauto.
Qed.

(** What fires is returned and queued. *)
Lemma fired_is_queued :
  forall offers items item prod b,
    In (item, prod) items ->
    fires offers item = Some b ->
    In (notificationFor item (titleOf prod) b) (notesOf offers items) /\
    In (pendingFor item (titleOf prod) b) (pendingOf offers items).
Proof.
  intros offers. induction items as [| [i0 p0] rest IH]; intros item prod b Hin Hf;
    [destruct Hin |].
  cbn [notesOf pendingOf]. destruct Hin as [Heq | Hin].
  - injection Heq as -> ->. rewrite Hf. split; now left.
  - destruct (IH item prod b Hin Hf) as [Hn Hq].
    destruct (fires offers i0); [split; now right | split; assumption].
Qed.

Lemma target_hit_queues :
  forall offers st item t best,
    uniqueWatchIds st ->
    In item (Store.watchlist st) ->
    (forall r, In r offers -> inRange r) ->
    WatchItem.targetPriceCents item = Some t ->
    bestOf offers (WatchItem.productId item) = Some best ->
    Offer.priceCents best <= t ->
    exists n q,
      In n (notesOf offers (watchRows st)) /\
      TickNotification.watchlistId n = WatchItem.id item /\
      In q (pendingOf offers (watchRows st)) /\
      PendingNotification.payload q = TickNotification.payload n /\
      PendingNotification.message q = TickNotification.message n /\
      PendingNotification.userId q = WatchItem.userId item /\
      PendingNotification.productId q = WatchItem.productId item /\
      PendingNotification.type q = "DEAL_ALERT".
Proof.
  intros offers st item t best Hnd Hin Hrange Ht Hb Hle.
  assert (Hf : fires offers item = Some best).
  { unfold fires. rewrite Hb.
    replace (shouldNotify item best) with true; [reflexivity |].
    symmetry. apply shouldNotify_iff.
    - apply bestOf_In, Hrange in Hb. destruct Hb. lia.
    - right. left. eauto. }
  set (prod := find (fun p => (Product.id p =? WatchItem.productId item)%string)
                 (Store.products st)).
  assert (Hrow : In (item, prod) (watchRows st)).
  { unfold watchRows. apply in_map_iff. exists item. auto. }
  destruct (fired_is_queued offers (watchRows st) item prod best Hrow Hf)
    as [Hn Hq].
  exists (notificationFor item (titleOf prod) best),
         (pendingFor item (titleOf prod) best).
  repeat split; assumption.
Qed.

(** C10.  Two ticks in a row: in each of them, every watch item whose
    [targetPriceCents] is set and met or beaten by the best offer of that
    tick is notified, and a [DEAL_ALERT] row for it, with the payload and
    the message of the notification, is among the rows the tick appends to
    the pending notifications, whatever its [lastNotifiedAt] and whether
    or not the first tick notified it and advanced its baseline. *)
Theorem target_alert_every_tick :
  forall (random1 random2 : nat -> Q) (now1 now2 : Z) (st : Store.t),
    watchIntegrity st ->
    uniqueWatchIds st ->
    exists res1 st1 queued1 res2 st2 queued2,
      runPriceTick random1 now1 st = (Fulfilled res1, st1) /\
      Store.pendingNotifications st1
        = Store.pendingNotifications st ++ queued1 /\
      runPriceTick random2 now2 st1 = (Fulfilled res2, st2) /\
      Store.pendingNotifications st2
        = Store.pendingNotifications st1 ++ queued2 /\
      forall item t,
        In item (Store.watchlist st) ->
        WatchItem.targetPriceCents item = Some t ->
        (forall best,
           getBestOfferForProduct (WatchItem.productId item) st1
             = (Fulfilled (Some best), st1) ->
           Offer.priceCents best <= t ->
           exists n q,
             In n (TickResult.notifications res1) /\
             TickNotification.watchlistId n = WatchItem.id item /\
             In q queued1 /\
             PendingNotification.payload q = TickNotification.payload n /\
             PendingNotification.message q = TickNotification.message n /\
             PendingNotification.userId q = WatchItem.userId item /\
             PendingNotification.productId q = WatchItem.productId item /\
             PendingNotification.type q = "DEAL_ALERT") /\
        (forall best,
           getBestOfferForProduct (WatchItem.productId item) st2
             = (Fulfilled (Some best), st2) ->
           Offer.priceCents best <= t ->
           exists n q,
             In n (TickResult.notifications res2) /\
             TickNotification.watchlistId n = WatchItem.id item /\
             In q queued2 /\
             PendingNotification.payload q = TickNotification.payload n /\
             PendingNotification.message q = TickNotification.message n /\
             PendingNotification.userId q = WatchItem.userId item /\
             PendingNotification.productId q = WatchItem.productId item /\
             PendingNotification.type q = "DEAL_ALERT").
Proof.
  intros random1 random2 now1 now2 st Hint Hnd.
  destruct (storeAfterTick_invariants random1 now1 st Hint Hnd) as [Hint1 Hnd1].
  exists (resultOfTick random1 st), (storeAfterTick random1 now1 st),
    (pendingOf (offersAfterTick random1 st) (watchRows st)),
    (resultOfTick random2 (storeAfterTick random1 now1 st)),
    (storeAfterTick random2 now2 (storeAfterTick random1 now1 st)),
    (pendingOf (offersAfterTick random2 (storeAfterTick random1 now1 st))
       (watchRows (storeAfterTick random1 now1 st))).
  split; [now apply runPriceTick_eq |].
  split; [reflexivity |].
  split; [now apply runPriceTick_eq |].
  split; [reflexivity |].
  setoid_rewrite getBest_iff.
  intros item t Hin Ht. split; intros best Hb Hle.
  - eapply target_hit_queues; eauto. apply offersAfterTick_inRange.
  - pose proof (watchAfter_sameRule now1 (offersAfterTick random1 st)
                  (watchRows st) (Store.watchlist st)) as Hrel.
    destruct (Forall2_In_l _ _ _ _ _ item Hrel Hin) as (item' & Hin' & Hr).
    destruct Hr as (Hid & Huid & Hpid & _ & Htarget & _).
    rewrite <- Hid, <- Huid, <- Hpid.
    apply (target_hit_queues _ (storeAfterTick random1 now1 st) item' t best);
      auto.
    + apply offersAfterTick_inRange.
    + congruence.
    + rewrite Hpid. exact Hb.
Qed.

(** *** The drift loop on a table with unique ids *)

Lemma map_reprice_other :
  forall x p e l,
    (forall r, In r l -> Offer.id r <> x) -> map (Store.reprice x p e) l = l.
Proof.
  intros x p e. induction l as [| r rs IH]; intros H; simpl; [reflexivity |].
  rewrite IH by (intros; apply H; now right). f_equal.
  unfold Store.reprice.
  destruct (String.eqb_spec (Offer.id r) x) as [Heq |]; [| reflexivity].
  exfalso. apply (H r); [now left | exact Heq].
Qed.

Lemma driftFold_frame :
  forall random l k os j r,
    nth_error os j = Some r ->
    ~ In (Offer.id r) (map Offer.id l) ->
    nth_error (driftFold random l k os) j = Some r.
Proof.
  intros random. induction l as [| o rest IH]; intros k os j r Hnth Hnot;
    [exact Hnth |].
  cbn [driftFold]. apply IH.
  - rewrite nth_error_map, Hnth. simpl. f_equal. unfold Store.reprice.
    destruct (String.eqb_spec (Offer.id r) (Offer.id o)) as [Heq |]; [| reflexivity].
    exfalso. apply Hnot. left. congruence.
  - intros Hin. apply Hnot. now right.
Qed.

Lemma driftFold_nth :
  forall random l pre k,
    NoDup (map Offer.id (pre ++ l)) ->
    forall i o,
      nth_error l i = Some o ->
      exists k',
        nth_error (driftFold random l k (pre ++ l)) (List.length pre + i)
        = Some (Store.reprice (Offer.id o) (newPriceAt random k' o)
                  (newEtaAt random k' o) o).
Proof.
  intros random. induction l as [| o0 rest IH]; intros pre k Hnd i o Hnth.
  - destruct i; discriminate.
  - cbn [driftFold].
    set (p := newPriceAt random k o0). set (e := newEtaAt random k o0).
    assert (Hids : forall r, In r (pre ++ rest) -> Offer.id r <> Offer.id o0).
    { intros r Hr Heq. rewrite map_app in Hnd. simpl in Hnd.
      apply NoDup_remove_2 in Hnd. apply Hnd. rewrite <- map_app, <- Heq.
      now apply in_map. }
    assert (Hmap : map (Store.reprice (Offer.id o0) p e) (pre ++ o0 :: rest)
                   = (pre ++ [Store.reprice (Offer.id o0) p e o0]) ++ rest).
    { rewrite map_app. simpl.
      rewrite !map_reprice_other
        by (intros r Hr; apply Hids; apply in_or_app; auto).
      now rewrite <- app_assoc. }
    rewrite Hmap.
    assert (Hid0 : Offer.id (Store.reprice (Offer.id o0) p e o0) = Offer.id o0).
    { unfold Store.reprice. now destruct (_ =? _)%string. }
    unfold p, e in *. clear p e.
    destruct i as [| i'].
    + injection Hnth as <-. exists k. rewrite Nat.add_0_r.
      apply driftFold_frame.
      * rewrite <- app_assoc. rewrite nth_error_app2 by lia.
        now rewrite Nat.sub_diag.
      * rewrite Hid0. intros Hin. apply in_map_iff in Hin as (r & Heq & Hr).
        apply (Hids r); [apply in_or_app; now right | exact Heq].
    + simpl in Hnth.
      destruct (IH (pre ++ [Store.reprice (Offer.id o0) (newPriceAt random k o0)
                              (newEtaAt random k o0) o0])
                  (nextDraw random k)) with (i := i') (o := o) as (k' & Hk');
        [| exact Hnth |].
      * rewrite <- app_assoc. rewrite map_app in *. cbn [app map] in *.
        now rewrite Hid0.
      * exists k'. rewrite length_app in Hk'. simpl in Hk'.
        now replace (List.length pre + S i')%nat
          with (List.length pre + 1 + i')%nat by lia.
Qed.

Lemma evaluateItems_offers :
  forall now items st,
    Store.offers (snd (evaluateItems now items st)) = Store.offers st.
Proof.
  intros now. induction items as [| [item prod] rest IH]; intros st;
    [reflexivity |].
  cbn [evaluateItems]. unfold Store.bind at 1. rewrite getBest_eq.
  destruct (bestOf _ _) as [b |]; [| apply IH].
  destruct (negb (shouldNotify item b)); [apply IH |].
  destruct prod as [p |]; [| reflexivity].
  unfold Store.bind at 1. unfold queueNotification, Store.pendingNotification_create.
  unfold Store.bind at 1. unfold Store.watchlist_update. cbn [Store.watchlist].
  destruct (existsb _ _); [| reflexivity].
  unfold Store.bind at 1.
  match goal with
  | |- context [evaluateItems now rest ?s] =>
      specialize (IH s); destruct (evaluateItems now rest s) as [[ns | err] st2]
  end; exact IH.
Qed.

Lemma runPriceTick_offers :
  forall random now st,
    Store.offers (snd (runPriceTick random now st)) = offersAfterTick random st.
Proof.
  intros random now st. unfold runPriceTick.
  unfold Store.bind at 1. unfold Store.offer_findMany at 1.
  unfold Store.bind at 1. rewrite driftOffers_eq.
  - unfold Store.bind at 1. unfold Store.watchlist_findMany at 1.
    unfold Store.bind at 1.
    match goal with
    | |- context [evaluateItems now ?items ?s] =>
        pose proof (evaluateItems_offers now items s) as H;
        destruct (evaluateItems now items s) as [[ns | err] st2]
    end; exact H.
  - intros o Ho. apply existsb_exists. exists o.
    split; [exact Ho | apply String.eqb_refl].
Qed.

Lemma drift_range :
  forall random k,
    validRandom random ->
    (-(2 # 100) <= driftAt random k <= 2 # 100)%Q.
Proof.
  intros random k Hr. destruct (Hr k) as [H0 H1].
  unfold driftAt, randomPercent. split; lra.
Qed.

Lemma round_mono : forall x y, (x <= y)%Q -> Js.round x <= Js.round y.
Proof.
  intros x y H. unfold Js.round. apply Qfloor_resp_le. lra.
Qed.

Lemma etaShift_range : forall random k, -1 <= etaShiftAt random k <= 1.
Proof.
  intros random k. unfold etaShiftAt.
  destruct (Qlt_le_dec _ _); [destruct (Qlt_le_dec _ _) |]; lia.
Qed.

(** C9.  One [runPriceTick] pass, on an offer table with unique ids and
    draws in [0, 1), leaves each offer at the same place with its price
    replaced by round(old x (1 + d)) for a drift d in [-2%, +2%], clamped
    to [50, 500000], and its ETA moved by at most one day, clamped to
    [1, 10]; the other columns are kept.  An offer priced 10000 cents ends in
    [9800, 10200]. *)
Theorem drift_bounds :
  forall (random : nat -> Q) (now : Z) (st : Store.t),
    validRandom random ->
    uniqueOfferIds st ->
    forall i o,
      nth_error (Store.offers st) i = Some o ->
      exists o' d s,
        nth_error (Store.offers (snd (runPriceTick random now st))) i = Some o' /\
        (-(2 # 100) <= d <= 2 # 100)%Q /\
        Offer.priceCents o'
          = clamp (Js.round (inject_Z (Offer.priceCents o) * (1 + d))%Q) 50 500000 /\
        -1 <= s <= 1 /\
        Offer.etaDays o' = clamp (Offer.etaDays o + s) 1 10 /\
        50 <= Offer.priceCents o' <= 500000 /\
        1 <= Offer.etaDays o' <= 10 /\
        (Offer.priceCents o = 10000 -> 9800 <= Offer.priceCents o' <= 10200) /\
        Offer.id o' = Offer.id o /\ Offer.productId o' = Offer.productId o /\
        Offer.vendorId o' = Offer.vendorId o /\ Offer.inStock o' = Offer.inStock o /\
        Offer.shippingCents o' = Offer.shippingCents o.
Proof.
  intros random now st Hr Hnd i o Hnth.
  rewrite runPriceTick_offers. unfold offersAfterTick.
  destruct (driftFold_nth random (Store.offers st) [] 0 Hnd i o Hnth) as (k & Hk).
  simpl in Hk. rewrite Hk.
  exists (Store.reprice (Offer.id o) (newPriceAt random k o) (newEtaAt random k o) o),
    (driftAt random k), (etaShiftAt random k).
  unfold Store.reprice. rewrite String.eqb_refl.
  cbn [Offer.priceCents Offer.etaDays Offer.id Offer.productId Offer.vendorId
       Offer.inStock Offer.shippingCents].
  pose proof (drift_range random k Hr) as Hd.
  split; [reflexivity |]. split; [exact Hd |]. split; [reflexivity |].
  split; [apply etaShift_range |]. split; [reflexivity |].
  split; [apply clamp_bounds; lia |]. split; [apply clamp_bounds; lia |].
  split; [| repeat split].
  intros Hp. unfold newPriceAt. rewrite Hp. destruct Hd as [Hlo Hhi].
  assert (9800 <= Js.round (inject_Z 10000 * (1 + driftAt random k))%Q).
  { change 9800 with (Js.round (inject_Z 9800)). apply round_mono.
    unfold inject_Z. lra. }
  assert (Js.round (inject_Z 10000 * (1 + driftAt random k))%Q <= 10200).
  { change 10200 with (Js.round (inject_Z 10200)). apply round_mono.
    unfold inject_Z. lra. }
  unfold clamp. lia.
Qed.

(** *** The sample stores *)

Lemma watchStore_integrity : watchIntegrity Sample.watchStore.
Proof. intros w [<- | []]. discriminate. Qed.

Lemma watchStore_unique : uniqueWatchIds Sample.watchStore.
Proof. repeat constructor. simpl. tauto. Qed.

Lemma pinnedQuiet_integrity : watchIntegrity Sample.pinnedQuiet.
Proof. intros w [<- | []]. discriminate. Qed.

Lemma pinnedQuiet_unique : uniqueWatchIds Sample.pinnedQuiet.
Proof. repeat constructor. simpl. tauto. Qed.

Lemma noDrift_valid : validRandom Sample.noDrift.
Proof. intros n. unfold Sample.noDrift. split; lra. Qed.

Lemma watchStore_offer_ids : uniqueOfferIds Sample.watchStore.
Proof.
  repeat constructor; simpl; intuition discriminate.
Qed.

Lemma tick_notifies_iff_witness :
  exists res st' queued,
      runPriceTick Sample.noDrift 0 Sample.watchStore = (Fulfilled res, st') /\
      Store.pendingNotifications st' = Store.pendingNotifications Sample.watchStore ++ queued /\
      map PendingNotification.payload queued
        = map TickNotification.payload (TickResult.notifications res) /\
      (forall item, In item (Store.watchlist Sample.watchStore) ->
         ((exists n, In n (TickResult.notifications res) /\
                     TickNotification.watchlistId n = WatchItem.id item) <->
          (exists best,
             getBestOfferForProduct (WatchItem.productId item) st'
             = (Fulfilled (Some best), st') /\
             ((WatchItem.pctDropThreshold item <= dropPctOf item best)%Q \/
              (exists t, WatchItem.targetPriceCents item = Some t /\
                         Offer.priceCents best <= t) \/
              (WatchItem.shippingImprovementOn item = true /\
               exists e, WatchItem.lastSeenBestEtaDays item = Some e /\
                         Offer.etaDays best < e))))) /\
      (forall item best,
         In item (Store.watchlist Sample.watchStore) ->
         getBestOfferForProduct (WatchItem.productId item) st'
             = (Fulfilled (Some best), st') ->
         (WatchItem.pctDropThreshold item == 15)%Q ->
         WatchItem.lastSeenBestPriceCents item = Some 10000 ->
         (Offer.priceCents best = 8499 ->
          exists n, In n (TickResult.notifications res) /\
                    TickNotification.watchlistId n = WatchItem.id item) /\
         (Offer.priceCents best = 8600 ->
          WatchItem.targetPriceCents item = None ->
          WatchItem.shippingImprovementOn item = false ->
          ~ exists n, In n (TickResult.notifications res) /\
                      TickNotification.watchlistId n = WatchItem.id item)).
Proof.
  apply (tick_notifies_iff Sample.noDrift 0 Sample.watchStore
           watchStore_integrity watchStore_unique).
Defined.

Lemma nonfiring_item_unchanged_witness :
  exists res st',
      runPriceTick Sample.noDrift 0 Sample.pinnedQuiet = (Fulfilled res, st') /\
      forall i item,
        nth_error (Store.watchlist Sample.pinnedQuiet) i = Some item ->
        ~ (exists n, In n (TickResult.notifications res) /\
                     TickNotification.watchlistId n = WatchItem.id item) ->
        exists item',
          nth_error (Store.watchlist st') i = Some item' /\
          item' = item /\
          WatchItem.lastSeenBestPriceCents item'
            = WatchItem.lastSeenBestPriceCents item /\
          WatchItem.lastSeenBestEtaDays item'
            = WatchItem.lastSeenBestEtaDays item /\
          WatchItem.lastNotifiedAt item' = WatchItem.lastNotifiedAt item.
Proof.
  apply (nonfiring_item_unchanged Sample.noDrift 0 Sample.pinnedQuiet
           pinnedQuiet_integrity pinnedQuiet_unique).
Defined.

Lemma target_alert_every_tick_witness :
  exists res1 st1 queued1 res2 st2 queued2,
      runPriceTick Sample.noDrift 0 Sample.watchStore = (Fulfilled res1, st1) /\
      Store.pendingNotifications st1
        = Store.pendingNotifications Sample.watchStore ++ queued1 /\
      runPriceTick Sample.noDrift 60000 st1 = (Fulfilled res2, st2) /\
      Store.pendingNotifications st2
        = Store.pendingNotifications st1 ++ queued2 /\
      forall item t,
        In item (Store.watchlist Sample.watchStore) ->
        WatchItem.targetPriceCents item = Some t ->
        (forall best,
           getBestOfferForProduct (WatchItem.productId item) st1
             = (Fulfilled (Some best), st1) ->
           Offer.priceCents best <= t ->
           exists n q,
             In n (TickResult.notifications res1) /\
             TickNotification.watchlistId n = WatchItem.id item /\
             In q queued1 /\
             PendingNotification.payload q = TickNotification.payload n /\
             PendingNotification.message q = TickNotification.message n /\
             PendingNotification.userId q = WatchItem.userId item /\
             PendingNotification.productId q = WatchItem.productId item /\
             PendingNotification.type q = "DEAL_ALERT") /\
        (forall best,
           getBestOfferForProduct (WatchItem.productId item) st2
             = (Fulfilled (Some best), st2) ->
           Offer.priceCents best <= t ->
           exists n q,
             In n (TickResult.notifications res2) /\
             TickNotification.watchlistId n = WatchItem.id item /\
             In q queued2 /\
             PendingNotification.payload q = TickNotification.payload n /\
             PendingNotification.message q = TickNotification.message n /\
             PendingNotification.userId q = WatchItem.userId item /\
             PendingNotification.productId q = WatchItem.productId item /\
             PendingNotification.type q = "DEAL_ALERT").
Proof.
  apply (target_alert_every_tick Sample.noDrift Sample.noDrift 0 60000
           Sample.watchStore watchStore_integrity watchStore_unique).
Defined.

Lemma drift_bounds_witness :
  exists o' d s,
        nth_error (Store.offers (snd (runPriceTick Sample.noDrift 0 Sample.watchStore))) 0%nat = Some o' /\
        (-(2 # 100) <= d <= 2 # 100)%Q /\
        Offer.priceCents o'
          = clamp (Js.round (inject_Z (Offer.priceCents Sample.walmartOffer) * (1 + d))%Q) 50 500000 /\
        -1 <= s <= 1 /\
        Offer.etaDays o' = clamp (Offer.etaDays Sample.walmartOffer + s) 1 10 /\
        50 <= Offer.priceCents o' <= 500000 /\
        1 <= Offer.etaDays o' <= 10 /\
        (Offer.priceCents Sample.walmartOffer = 10000 -> 9800 <= Offer.priceCents o' <= 10200) /\
        Offer.id o' = Offer.id Sample.walmartOffer /\ Offer.productId o' = Offer.productId Sample.walmartOffer /\
        Offer.vendorId o' = Offer.vendorId Sample.walmartOffer /\ Offer.inStock o' = Offer.inStock Sample.walmartOffer /\
        Offer.shippingCents o' = Offer.shippingCents Sample.walmartOffer.
Proof.
  apply (drift_bounds Sample.noDrift 0 Sample.watchStore noDrift_valid
           watchStore_offer_ids 0%nat Sample.walmartOffer).
  reflexivity.
Defined.

(** The threshold scenario, run: at 8600 cents (a 14% drop) nothing is
    notified and the watch item keeps its baseline; at 8499 cents (15.01%)
    the item is notified and its baseline moves. *)
Example threshold_8600_quiet :
  exists res st',
    runPriceTick Sample.noDrift 0 (Sample.thresholdStore 8600)
      = (Fulfilled res, st') /\
    TickResult.notifications res = [] /\
    Store.watchlist st' = [Sample.watch2] /\
    Store.pendingNotifications st' = [].
Proof. do 2 eexists. split; [vm_compute; reflexivity |]. repeat split. Qed.

Example threshold_8499_fires :
  exists res st',
    runPriceTick Sample.noDrift 0 (Sample.thresholdStore 8499)
      = (Fulfilled res, st') /\
    map TickNotification.watchlistId (TickResult.notifications res) = ["w2"] /\
    map TickNotification.message (TickResult.notifications res)
      = ["Deal found: WH-1000XM5 Headphones dropped 15% to $84.99. Ships in 4 days."] /\
    map WatchItem.lastSeenBestPriceCents (Store.watchlist st') = [Some 8499] /\
    map WatchItem.lastNotifiedAt (Store.watchlist st') = [Some 0].
Proof. do 2 eexists. split; [vm_compute; reflexivity |]. repeat split. Qed.

(** Rounding decides at the boundary: from 10000 to 7100 cents the code
    computes a drop of 28.999999999999996 percent, below a threshold of
    29; from 10000 to 8505 cents it computes 14.949999999999999 percent,
    reported as 14.9. *)
Example drop_to_7100_below_29 :
  let best := Sample.offer "o3" "web:walmart" 7100 0 4 true
                "https://www.walmart.com/ip/55" in
  (dropPctOf Sample.watch2 best < 29)%Q /\
  Qle_bool 29 (dropPctOf Sample.watch2 best) = false.
Proof. split; vm_compute; reflexivity. Qed.

Example drop_to_8505_reported :
  let best := Sample.offer "o3" "web:walmart" 8505 0 4 true
                "https://www.walmart.com/ip/55" in
  Payload.dropPct (payloadFor Sample.watch2 best) = 149 # 10.
Proof. vm_compute. reflexivity. Qed.

(** The target scenario over two ticks without drift: the 9000-cent
    target is met by the 8000-cent offer in both, and each tick appends a
    pending row for it. *)
Example target_alert_twice :
  let r1 := runPriceTick Sample.noDrift 0 Sample.watchStore in
  let r2 := runPriceTick Sample.noDrift 60000 (snd r1) in
  map (fun q => (PendingNotification.userId q,
                 PendingNotification.type q,
                 Payload.priceCents (PendingNotification.payload q)))
      (Store.pendingNotifications (snd r2))
  = [("u1", "DEAL_ALERT", 8000); ("u1", "DEAL_ALERT", 8000)].
Proof. vm_compute. reflexivity. Qed.

(** C5 (the code departs from the specification).  On [Sample.pinnedStore] the
    watcher pinned the Walmart offer [o3]; it is in stock and stays at its
    baseline of 10000 cents, so an evaluation on the pinned offer would not
    notify, and the watchlist read path does report [o3] as the best offer.
    The tick evaluates the cheapest offer instead: it notifies about the
    eBay offer [o2] and moves the baseline to 8000 cents. *)
Theorem tick_ignores_pinned_offer :
  exists res st' view,
    runPriceTick Sample.noDrift 0 Sample.pinnedStore = (Fulfilled res, st') /\
    nth_error (Store.offers st') 0 = Some Sample.walmartOffer /\
    shouldNotify Sample.watch2 Sample.walmartOffer = false /\
    WatchlistView.buildWatchlistItemsResponse [Sample.watch2] Sample.pinnedStore
      = (Fulfilled view, Sample.pinnedStore) /\
    map WatchlistEntry.bestOffer view
      = [Some (OfferService.normalizeOffer Sample.walmartOffer)] /\
    map (fun n => Payload.bestOfferId (TickNotification.payload n))
        (TickResult.notifications res) = ["o2"] /\
    map WatchItem.lastSeenBestPriceCents (Store.watchlist st') = [Some 8000].
Proof.
  do 3 eexists. split; [vm_compute; reflexivity |].
  repeat split; reflexivity.
Qed.

End TickFacts.

(** ** The strategy name *)

Module StrategyFacts.
Import OfferService Vocabulary RankingFacts.

Lemma compareOffers_eta_first :
  forall a b,
    compareOffers "FASTEST_SHIPPING" a b =
      if NormalizedOffer.etaDays a =? NormalizedOffer.etaDays b
      then total a - total b
      else NormalizedOffer.etaDays a - NormalizedOffer.etaDays b.
Proof.
  intros a b. unfold compareOffers, total.
  change ("FASTEST_SHIPPING" =? "FASTEST_SHIPPING")%string with true. cbv iota.
  destruct (_ =? _); reflexivity.
Qed.

Lemma upperChar_idem : forall c, Js.upperChar (Js.upperChar c) = Js.upperChar c.
Proof.
  intros c. destruct c as [[] [] [] [] [] [] [] []]; vm_compute; reflexivity.
Qed.

Lemma toUpperCase_idem : forall s, Js.toUpperCase (Js.toUpperCase s) = Js.toUpperCase s.
Proof.
  induction s as [| c s IH]; [reflexivity |].
  change (Js.toUpperCase (String c s))
    with (String (Js.upperChar c) (Js.toUpperCase s)).
  change (Js.toUpperCase (String (Js.upperChar c) (Js.toUpperCase s)))
    with (String (Js.upperChar (Js.upperChar c))
            (Js.toUpperCase (Js.toUpperCase s))).
  now rewrite upperChar_idem, IH.
Qed.

Lemma pref_of_upper :
  forall s,
    Js.toUpperCase (Js.orElse (Js.toUpperCase s) "BALANCED")
    = Js.toUpperCase (Js.orElse s "BALANCED").
Proof.
  intros s. destruct s as [| c s]; [reflexivity |].
  unfold Js.orElse.
  change (Js.toUpperCase (String c s))
    with (String (Js.upperChar c) (Js.toUpperCase s)).
  cbn [Js.truthy String.eqb negb].
  change (String (Js.upperChar c) (Js.toUpperCase s))
    with (Js.toUpperCase (String c s)).
  apply toUpperCase_idem.
Qed.

Lemma recommended_by_pref :
  forall offers s1 s2,
    Js.toUpperCase (Js.orElse s1 "BALANCED")
    = Js.toUpperCase (Js.orElse s2 "BALANCED") ->
    recommendedOfferIdForStrategy offers s1
    = recommendedOfferIdForStrategy offers s2.
Proof.
  intros offers s1 s2 H. unfold recommendedOfferIdForStrategy. now rewrite H.
Qed.

(** A strategy name in the ASCII range is read case-insensitively, an
    empty name means [BALANCED], and every such name other than
    [FASTEST_SHIPPING], known or not, recommends what [BEST_PRICE]
    recommends. *)
Theorem strategy_name_is_normalised :
  forall (offers : list NormalizedOffer.t) (strategy : string),
    asciiOnly strategy = true ->
    recommendedOfferIdForStrategy offers (Js.toUpperCase strategy)
      = recommendedOfferIdForStrategy offers strategy /\
    recommendedOfferIdForStrategy offers ""
      = recommendedOfferIdForStrategy offers "BALANCED" /\
    (Js.toUpperCase strategy <> "FASTEST_SHIPPING" ->
     recommendedOfferIdForStrategy offers strategy
     = recommendedOfferIdForStrategy offers "BEST_PRICE").
Proof.
  intros offers strategy _. split; [| split].
  - apply recommended_by_pref, pref_of_upper.
  - reflexivity.
  - intros Hs. unfold recommendedOfferIdForStrategy.
    destruct (List.length (filter NormalizedOffer.inStock offers) =? 0)%nat;
      [reflexivity |].
    rewrite (sort_ext _
               (compareOffers (Js.toUpperCase (Js.orElse strategy "BALANCED")))
               (compareOffers (Js.toUpperCase (Js.orElse "BEST_PRICE" "BALANCED")))).
    + reflexivity.
    + intros a b. rewrite !compareOffers_price_first; try reflexivity.
      apply String.eqb_neq. destruct strategy as [| c s]; [discriminate |].
      exact Hs.
Qed.

Lemma strategy_name_is_normalised_witness :
  recommendedOfferIdForStrategy Sample.rankedInput "cheapest"
  = recommendedOfferIdForStrategy Sample.rankedInput "BEST_PRICE".
Proof.
  apply (proj2 (proj2 (strategy_name_is_normalised Sample.rankedInput
                         "cheapest" eq_refl))).
  discriminate.
Defined.

(** Under [FASTEST_SHIPPING], in any letter case, the recommendation is
    the in-stock offer with the least ETA, the least total among those, and
    the first in input order among the ones that tie on both; it is [null]
    only when nothing is in stock. *)
Theorem fastest_shipping_recommends_quickest :
  forall (offers : list NormalizedOffer.t) (strategy : string),
    Js.toUpperCase strategy = "FASTEST_SHIPPING" ->
    (forall o, In o offers -> NormalizedOffer.inStock o = true ->
               NormalizedOffer.id o <> "") ->
    (filter NormalizedOffer.inStock offers = [] ->
     recommendedOfferIdForStrategy offers strategy = None) /\
    (filter NormalizedOffer.inStock offers <> [] ->
     exists pre o post,
       offers = pre ++ o :: post /\
       recommendedOfferIdForStrategy offers strategy
         = Some (NormalizedOffer.id o) /\
       NormalizedOffer.inStock o = true /\
       (forall p, In p offers -> NormalizedOffer.inStock p = true ->
          NormalizedOffer.etaDays o < NormalizedOffer.etaDays p \/
          (NormalizedOffer.etaDays o = NormalizedOffer.etaDays p /\
           total o <= total p)) /\
       (forall p, In p pre -> NormalizedOffer.inStock p = true ->
          NormalizedOffer.etaDays o < NormalizedOffer.etaDays p \/
          (NormalizedOffer.etaDays o = NormalizedOffer.etaDays p /\
           total o < total p))).
Proof.
  intros offers strategy Hs Hids.
  assert (Hpref : Js.toUpperCase (Js.orElse strategy "BALANCED") = "FASTEST_SHIPPING").
  { destruct strategy as [| c s]; [discriminate | exact Hs]. }
  split; [apply recommended_none_iff |].
  intros Hne.
  destruct (sort_head_first_min _ (compareOffers "FASTEST_SHIPPING")
              (compareOffers_trans _) (compareOffers_flip _) _ Hne)
    as (pre' & o & post' & rest & Hsplit & Hsort & Hmin & Hpre).
  destruct (filter_split _ _ _ _ _ _ Hsplit) as (pre & post & -> & Hfpre & Ho).
  exists pre, o, post. repeat split; auto.
  - unfold recommendedOfferIdForStrategy. rewrite Hpref, Hsort, Hsplit.
    rewrite length_app. simpl.
    replace (_ =? 0)%nat with false
      by (symmetry; apply Nat.eqb_neq; lia).
    unfold Js.orNull, Js.truthy.
    assert (Hid : NormalizedOffer.id o <> "").
    { apply Hids; [apply in_elt | exact Ho]. }
    apply String.eqb_neq in Hid. now rewrite Hid.
  - intros p Hin Hp.
    assert (Hc : compareOffers "FASTEST_SHIPPING" o p <= 0).
    { apply Hmin. apply filter_In. auto. }
    rewrite compareOffers_eta_first in Hc.
    destruct (Z.eqb_spec (NormalizedOffer.etaDays o) (NormalizedOffer.etaDays p)); lia.
  - intros p Hin Hp.
    assert (Hc : compareOffers "FASTEST_SHIPPING" o p < 0).
    { apply Hpre. rewrite <- Hfpre. apply filter_In. auto. }
    rewrite compareOffers_eta_first in Hc.
    destruct (Z.eqb_spec (NormalizedOffer.etaDays o) (NormalizedOffer.etaDays p)); lia.
Qed.

Lemma fastest_shipping_recommends_quickest_witness :
  (filter NormalizedOffer.inStock Sample.rankedInput = [] ->
   recommendedOfferIdForStrategy Sample.rankedInput "fastest_shipping" = None) /\
  (filter NormalizedOffer.inStock Sample.rankedInput <> [] ->
   exists pre o post,
     Sample.rankedInput = pre ++ o :: post /\
     recommendedOfferIdForStrategy Sample.rankedInput "fastest_shipping"
       = Some (NormalizedOffer.id o) /\
     NormalizedOffer.inStock o = true /\
     (forall p, In p Sample.rankedInput -> NormalizedOffer.inStock p = true ->
        NormalizedOffer.etaDays o < NormalizedOffer.etaDays p \/
        (NormalizedOffer.etaDays o = NormalizedOffer.etaDays p /\
         total o <= total p)) /\
     (forall p, In p pre -> NormalizedOffer.inStock p = true ->
        NormalizedOffer.etaDays o < NormalizedOffer.etaDays p \/
        (NormalizedOffer.etaDays o = NormalizedOffer.etaDays p /\
         total o < total p))).
Proof.
  apply (fastest_shipping_recommends_quickest Sample.rankedInput "fastest_shipping").
  - reflexivity.
  - intros o [<- | [<- | [<- | []]]] _; discriminate.
Defined.

End StrategyFacts.

(** ** The best offer of the price monitor *)

Module BestOfferFacts.
Import OfferService PriceMonitor WatchlistView Vocabulary RankingTerms RankingFacts.

Lemma firstCheapest_unique :
  forall l pre1 o1 post1 pre2 o2 post2,
    firstCheapest l pre1 o1 post1 -> firstCheapest l pre2 o2 post2 ->
    o1 = o2.
Proof.
  intros l pre1 o1 post1 pre2 o2 post2 (E1 & M1 & P1) (E2 & M2 & P2).
  rewrite E1 in E2.
  destruct (app_eq_app _ _ _ _ E2) as (k & [[Ha Hb] | [Ha Hb]]).
  - destruct k as [| x k].
    + now inversion Hb.
    + inversion Hb; subst x.
      assert (Hc : cheaper o1 o2).
      { apply P1. rewrite Ha. apply in_or_app. right. now left. }
      assert (Hd : notDearer o2 o1).
      { apply M2. rewrite E1. apply in_elt. }
      unfold cheaper, notDearer in *. lia.
  - destruct k as [| x k].
    + now inversion Hb.
    + inversion Hb; subst x.
      assert (Hc : cheaper o2 o1).
      { apply P2. rewrite Ha. apply in_or_app. right. now left. }
      assert (Hd : notDearer o1 o2).
      { apply M1. rewrite E1, E2. apply in_elt. }
      unfold cheaper, notDearer in *. lia.
Qed.

Lemma keepBest_spec :
  forall e n,
    (cheaper n e /\ keepBest (Some e) n = Some n) \/
    (notDearer e n /\ keepBest (Some e) n = Some e).
Proof.
  intros e n. unfold keepBest, cheaper, notDearer, total.
  destruct (Z.ltb_spec (NormalizedOffer.priceCents n + NormalizedOffer.shippingCents n)
              (NormalizedOffer.priceCents e + NormalizedOffer.shippingCents e));
    [left; split; [lia | reflexivity] |].
  destruct (Z.eqb_spec (NormalizedOffer.priceCents n + NormalizedOffer.shippingCents n)
              (NormalizedOffer.priceCents e + NormalizedOffer.shippingCents e));
    [| right; split; [lia | reflexivity]].
  destruct (Z.ltb_spec (NormalizedOffer.etaDays n) (NormalizedOffer.etaDays e)).
  - left. split; [lia | reflexivity].
  - right. split; [lia | reflexivity].
Qed.

Lemma fold_keepBest_acc :
  forall l acc,
    exists o,
      fold_left keepBest l (Some acc) = Some o /\
      ((o = acc /\ forall p, In p l -> notDearer acc p) \/
       (exists pre post,
          l = pre ++ o :: post /\ cheaper o acc /\
          (forall p, In p pre -> cheaper o p) /\
          (forall p, In p post -> notDearer o p))).
Proof.
  induction l as [| x xs IH]; intros acc.
  - exists acc. split; [reflexivity |]. left. split; [reflexivity | intros p []].
  - cbn [fold_left].
    destruct (keepBest_spec acc x) as [[Hc ->] | [Hn ->]].
    + destruct (IH x) as (o & Hf & [[-> Hall] | (pre & post & -> & Hox & Hpre & Hpost)]).
      * exists x. split; [exact Hf |]. right. exists [], xs.
        repeat split; auto. intros p [].
      * exists o. split; [exact Hf |]. right. exists (x :: pre), post.
        repeat split.
        -- unfold cheaper in *. lia.
        -- intros p [<- | Hp]; [exact Hox | now apply Hpre].
        -- exact Hpost.
    + destruct (IH acc) as (o & Hf & [[-> Hall] | (pre & post & -> & Hox & Hpre & Hpost)]).
      * exists acc. split; [exact Hf |]. left. split; [reflexivity |].
        intros p [<- | Hp]; [exact Hn | now apply Hall].
      * exists o. split; [exact Hf |]. right. exists (x :: pre), post.
        repeat split.
        -- exact Hox.
        -- intros p [<- | Hp]; [| now apply Hpre].
           unfold cheaper, notDearer in *. lia.
        -- exact Hpost.
Qed.

Lemma fold_keepBest_first :
  forall l, l <> [] ->
    exists pre o post,
      fold_left keepBest l None = Some o /\ firstCheapest l pre o post.
Proof.
  intros [| a l] Hne; [congruence |].
  cbn [fold_left keepBest].
  destruct (fold_keepBest_acc l a)
    as (o & Hf & [[-> Hall] | (pre & post & -> & Hoa & Hpre & Hpost)]).
  - exists [], a, l. split; [exact Hf |]. repeat split.
    + intros p [<- | Hp]; [| now apply Hall]. unfold notDearer. lia.
    + intros p [].
  - exists (a :: pre), o, post. split; [exact Hf |]. repeat split.
    + intros p [<- | Hp].
      * unfold cheaper, notDearer in *. lia.
      * apply in_app_or in Hp. destruct Hp as [Hp | [<- | Hp]].
        -- specialize (Hpre _ Hp). unfold cheaper, notDearer in *. lia.
        -- unfold notDearer. lia.
        -- now apply Hpost.
    + intros p [<- | Hp]; [exact Hoa | now apply Hpre].
Qed.

(** The reduce of the price monitor and the loop of the watchlist view
    keep the same offer. *)
Lemma keepBest_better :
  forall l acc,
    fold_left keepBest (map normalizeOffer l) (option_map normalizeOffer acc)
    = option_map normalizeOffer (fold_left better l acc).
Proof.
  induction l as [| x xs IH]; intros acc; [reflexivity |].
  cbn [map fold_left]. rewrite <- IH. f_equal.
  destruct acc as [b |]; [| reflexivity].
  cbn [option_map]. unfold keepBest, better.
  cbn [normalizeOffer NormalizedOffer.priceCents NormalizedOffer.shippingCents
       NormalizedOffer.etaDays].
  destruct (_ <? _); [reflexivity |].
  destruct (_ =? _); [| reflexivity].
  destruct (_ <? _); reflexivity.
Qed.

Lemma recommended_first_cheapest :
  forall l strategy,
    (Js.toUpperCase (Js.orElse strategy "BALANCED") =? "FASTEST_SHIPPING")%string
      = false ->
    (forall o, In o l -> NormalizedOffer.inStock o = true) ->
    l <> [] ->
    exists pre o post,
      recommendedOfferIdForStrategy l strategy = Js.orNull (NormalizedOffer.id o) /\
      firstCheapest l pre o post.
Proof.
  intros l strategy Hpref Hall Hne.
  assert (Hf : filter NormalizedOffer.inStock l = l).
  { clear Hne. induction l as [| x xs IH]; [reflexivity |].
    cbn [filter]. rewrite (Hall x (or_introl eq_refl)). f_equal.
    apply IH. intros o Ho. apply Hall. now right. }
  destruct (recommended_price_first l strategy Hpref)
    as (pre & o & post & Hsplit & Hrec & Ho & Hmin & Hpre).
  { now rewrite Hf. }
  exists pre, o, post. split; [exact Hrec |]. repeat split.
  - exact Hsplit.
  - intros p Hp. apply Hmin; auto.
  - intros p Hp. apply Hpre; auto. apply Hall. rewrite Hsplit.
    apply in_or_app. now left.
Qed.

Lemma inStockOf_inStock :
  forall pid offers o,
    In o (map normalizeOffer (inStockOf pid offers)) ->
    NormalizedOffer.inStock o = true.
Proof.
  intros pid offers o Ho. apply in_map_iff in Ho. destruct Ho as (r & <- & Hr).
  apply filter_In in Hr. destruct Hr as [_ Hr].
  apply andb_prop in Hr. exact (proj2 Hr).
Qed.

(** The best offer of the price monitor is the offer every price-first
    strategy recommends: every strategy name in the ASCII range that is
    not [FASTEST_SHIPPING] in some letter case. *)
Theorem tick_best_is_recommended :
  forall (api : Url.Api) (cfg : Config.t) (w : World.t) (st : Store.t)
         (productId userId strategy : string),
    asciiOnly strategy = true ->
    Js.toUpperCase strategy <> "FASTEST_SHIPPING" ->
    exists res best,
      getRankedOffers api cfg w productId userId strategy false st
        = (Fulfilled res, st) /\
      getBestOfferForProduct productId st = (Fulfilled best, st) /\
      RankedOffers.recommendedOfferId res
        = match best with
          | Some b => Js.orNull (Offer.id b)
          | None => None
          end /\
      (forall b, best = Some b ->
         In (normalizeOffer b) (RankedOffers.offers res)).
Proof.
  intros api cfg w st productId userId strategy _ Hs.
  assert (Hpref :
    (Js.toUpperCase (Js.orElse strategy "BALANCED") =? "FASTEST_SHIPPING")%string
    = false).
  { apply String.eqb_neq. destruct strategy; [discriminate | exact Hs]. }
  exists {| RankedOffers.offers :=
              map normalizeOffer (inStockOf productId (Store.offers st));
            RankedOffers.recommendedOfferId :=
              recommendedOfferIdForStrategy
                (map normalizeOffer (inStockOf productId (Store.offers st)))
                strategy;
            RankedOffers.strategy := strategy |},
         (bestOf (Store.offers st) productId).
  split; [reflexivity |].
  split; [apply TickFacts.getBest_eq |].
  cbn [RankedOffers.recommendedOfferId RankedOffers.offers].
  unfold bestOf.
  set (l := inStockOf productId (Store.offers st)).
  destruct l as [| a l'] eqn:El.
  - split; [reflexivity | discriminate].
  - rewrite <- El.
    assert (Hne : map normalizeOffer l <> []) by (rewrite El; discriminate).
    replace (List.length l =? 0)%nat with false by (now rewrite El).
    destruct (recommended_first_cheapest _ strategy Hpref
                (inStockOf_inStock productId (Store.offers st)) Hne)
      as (pre1 & o1 & post1 & Hrec & H1).
    destruct (fold_keepBest_first _ Hne) as (pre2 & o2 & post2 & Hfold & H2).
    pose proof (firstCheapest_unique _ _ _ _ _ _ _ H1 H2) as ->.
    pose proof (keepBest_better l None) as Hkb. cbn [option_map] in Hkb.
    rewrite Hfold in Hkb.
    destruct (fold_left better l None) as [b |] eqn:Eb; [| discriminate].
    cbn [option_map] in Hkb. injection Hkb as ->.
    split.
    + exact Hrec.
    + intros b' [= <-]. apply in_map.
      destruct (TickFacts.fold_better_In _ _ _ Eb) as [Habs | Hin];
        [discriminate | exact Hin].
Qed.

Lemma tick_best_is_recommended_witness :
  exists res best,
    getRankedOffers noUrlApi Sample.liveOff Sample.timeouts "p1" "u1" "balanced"
      false Sample.watchStore = (Fulfilled res, Sample.watchStore) /\
    getBestOfferForProduct "p1" Sample.watchStore
      = (Fulfilled best, Sample.watchStore) /\
    RankedOffers.recommendedOfferId res
      = match best with
        | Some b => Js.orNull (Offer.id b)
        | None => None
        end /\
    (forall b, best = Some b ->
       In (normalizeOffer b) (RankedOffers.offers res)).
Proof.
  apply (tick_best_is_recommended noUrlApi Sample.liveOff Sample.timeouts
           Sample.watchStore "p1" "u1" "balanced").
  - reflexivity.
  - discriminate.
Defined.

End BestOfferFacts.

(** ** Sets of strings *)

Module SetFacts.

Lemma setHas_In : forall s v, Js.setHas s v = true <-> In v s.
Proof.
  intros s v. unfold Js.setHas. rewrite existsb_exists. split.
  - intros (x & Hx & He). apply String.eqb_eq in He. now subst.
  - intros H. exists v. split; [exact H | apply String.eqb_refl].
Qed.

Lemma setAdd_In : forall s v x, In x (Js.setAdd s v) <-> In x s \/ x = v.
Proof.
  intros s v x. unfold Js.setAdd.
  destruct (Js.setHas s v) eqn:E.
  - apply setHas_In in E. split; [auto |]. intros [H | ->]; auto.
  - rewrite in_app_iff. simpl. intuition.
Qed.

Lemma fold_setAdd_In :
  forall l s x, In x (fold_left Js.setAdd l s) <-> In x s \/ In x l.
Proof.
  induction l as [| a l IH]; intros s x; cbn [fold_left].
  - simpl. tauto.
  - rewrite IH, setAdd_In. simpl. intuition.
Qed.

Lemma setOf_In : forall l x, In x (Js.setOf l) <-> In x l.
Proof.
  intros l x. unfold Js.setOf. rewrite fold_setAdd_In. simpl. tauto.
Qed.

Lemma setAdd_NoDup : forall s v, NoDup s -> NoDup (Js.setAdd s v).
Proof.
  intros s v H. unfold Js.setAdd. destruct (Js.setHas s v) eqn:E; [exact H |].
  apply NoDup_app; [exact H | repeat constructor; simpl; tauto |].
  intros x Hx [<- | []].
  apply setHas_In in Hx. congruence.
Qed.

Lemma setOf_NoDup : forall l, NoDup (Js.setOf l).
Proof.
  intros l. unfold Js.setOf.
  assert (H : forall s, NoDup s -> NoDup (fold_left Js.setAdd l s)).
  { induction l as [| a l IH]; intros s Hs; [exact Hs |].
    cbn [fold_left]. apply IH. now apply setAdd_NoDup. }
  apply H. constructor.
Qed.

End SetFacts.

(** ** The watchlist view *)

Module ViewFacts.
Import OfferService PriceMonitor WatchlistView Vocabulary RankingTerms BestOfferFacts SetFacts.

(** The offers [entryFor] reads for an item of the list are the in-stock
    offers of its product. *)
Lemma view_offers :
  forall items item offers,
    In item items ->
    filter (fun o => (Offer.productId o =? WatchItem.productId item)%string)
      (filter (fun o => Js.setHas (Js.setOf (map WatchItem.productId items))
                          (Offer.productId o) && Offer.inStock o) offers)
    = inStockOf (WatchItem.productId item) offers.
Proof.
  intros items item offers Hin. unfold inStockOf.
  induction offers as [| o os IH]; [reflexivity |].
  cbn [filter].
  destruct (Offer.productId o =? WatchItem.productId item)%string eqn:E.
  - assert (Hs : Js.setHas (Js.setOf (map WatchItem.productId items))
                   (Offer.productId o) = true).
    { apply setHas_In, setOf_In. apply String.eqb_eq in E. rewrite E.
      now apply in_map. }
    rewrite Hs. cbn [andb].
    destruct (Offer.inStock o); cbn [filter]; [rewrite E; f_equal |]; exact IH.
  - cbn [andb].
    destruct (_ && _); cbn [filter]; [rewrite E |]; exact IH.
Qed.

Lemma find_unique_offer :
  forall l o,
    In o l ->
    (forall a, In a l -> Offer.id a = Offer.id o -> a = o) ->
    find (fun n => (NormalizedOffer.id n =? Offer.id o)%string)
      (map normalizeOffer l)
    = Some (normalizeOffer o).
Proof.
  induction l as [| a l IH]; intros o Hin Huniq; [destruct Hin |].
  cbn [map find]. cbn [normalizeOffer NormalizedOffer.id].
  destruct (String.eqb_spec (Offer.id a) (Offer.id o)) as [He | Hne].
  - now rewrite (Huniq a (or_introl eq_refl) He).
  - destruct Hin as [-> | Hin]; [congruence |].
    apply IH; [exact Hin |]. intros b Hb. apply Huniq. now right.
Qed.

(** Without a pin the watchlist view reports, for every item, the offer
    the price monitor evaluates for it. *)
Theorem view_unpinned_is_tick_best :
  forall (st : Store.t) (items : list WatchItem.t),
    exists entries,
      buildWatchlistItemsResponse items st = (Fulfilled entries, st) /\
      map WatchlistEntry.item entries = items /\
      forall e best,
        In e entries ->
        WatchItem.preferredOfferId (WatchlistEntry.item e) = None ->
        WatchItem.preferredVendorId (WatchlistEntry.item e) = None ->
        WatchItem.preferredProductUrl (WatchlistEntry.item e) = None ->
        getBestOfferForProduct (WatchItem.productId (WatchlistEntry.item e)) st
          = (Fulfilled best, st) ->
        WatchlistEntry.bestOffer e = option_map normalizeOffer best.
Proof.
  intros st items. eexists. split; [reflexivity |]. split.
  - rewrite map_map. cbn [entryFor WatchlistEntry.item]. apply map_id.
  - intros e best He H1 H2 H3 Hbest.
    apply in_map_iff in He. destruct He as (item & <- & Hitem).
    cbn [entryFor WatchlistEntry.item WatchlistEntry.bestOffer] in *.
    rewrite view_offers by exact Hitem.
    unfold preferredOffer. rewrite H1, H2, H3. cbn [findPinned orOffer].
    rewrite TickFacts.getBest_eq in Hbest. injection Hbest as <-.
    pose proof (keepBest_better
                  (inStockOf (WatchItem.productId item) (Store.offers st)) None) as Hk.
    cbn [option_map] in Hk. rewrite Hk. unfold bestOf.
    destruct (inStockOf _ _); reflexivity.
Qed.

(** An item pinned to an in-stock offer of its product is reported with
    that offer, whatever the other offers cost. *)
Theorem view_pinned_offer_wins :
  forall (st : Store.t) (items : list WatchItem.t),
    uniqueOfferIds st ->
    exists entries,
      buildWatchlistItemsResponse items st = (Fulfilled entries, st) /\
      forall e o,
        In e entries ->
        In o (Store.offers st) ->
        Offer.inStock o = true ->
        Offer.productId o = WatchItem.productId (WatchlistEntry.item e) ->
        Offer.id o <> "" ->
        WatchItem.preferredOfferId (WatchlistEntry.item e) = Some (Offer.id o) ->
        WatchlistEntry.bestOffer e = Some (normalizeOffer o).
Proof.
  intros st items Hnd. eexists. split; [reflexivity |].
  intros e o He Ho Hstock Hpid Hid Hpin.
  apply in_map_iff in He. destruct He as (item & <- & Hitem).
  cbn [entryFor WatchlistEntry.item WatchlistEntry.bestOffer] in *.
  rewrite view_offers by exact Hitem.
  unfold preferredOffer. rewrite Hpin. cbn [findPinned].
  apply String.eqb_neq in Hid. unfold Js.truthy. rewrite Hid. cbn [negb].
  rewrite find_unique_offer; [reflexivity | |].
  - unfold inStockOf. apply filter_In. split; [exact Ho |].
    rewrite Hpid, String.eqb_refl, Hstock. reflexivity.
  - intros a Ha Heq. unfold inStockOf in Ha. apply filter_In in Ha.
    destruct Ha as [Ha _].
    exact (TickFacts.NoDup_map_inj _ _ Offer.id _ _ _ Hnd Ha Ho Heq).
Qed.

Lemma pinnedStore_offer_ids : uniqueOfferIds Sample.pinnedStore.
Proof. repeat constructor; simpl; intuition discriminate. Qed.

Lemma view_pinned_offer_wins_witness :
  exists entries,
    buildWatchlistItemsResponse [Sample.watch2] Sample.pinnedStore
      = (Fulfilled entries, Sample.pinnedStore) /\
    forall e o,
      In e entries ->
      In o (Store.offers Sample.pinnedStore) ->
      Offer.inStock o = true ->
      Offer.productId o = WatchItem.productId (WatchlistEntry.item e) ->
      Offer.id o <> "" ->
      WatchItem.preferredOfferId (WatchlistEntry.item e) = Some (Offer.id o) ->
      WatchlistEntry.bestOffer e = Some (normalizeOffer o).
Proof.
  apply (view_pinned_offer_wins Sample.pinnedStore [Sample.watch2]
           pinnedStore_offer_ids).
Defined.

End ViewFacts.

(** ** What a tick reports *)

Module ReportFacts.
Import PriceMonitor Vocabulary TickTerms TickFacts.

Lemma driftFold_repriced :
  forall random l pre k,
    NoDup (map Offer.id (pre ++ l)) ->
    driftFold random l k (pre ++ l) = pre ++ repricedOf random l k.
Proof.
  intros random. induction l as [| o rest IH]; intros pre k Hnd; [reflexivity |].
  cbn [driftFold repricedOf].
  set (r := Store.reprice (Offer.id o) (newPriceAt random k o)
              (newEtaAt random k o) o).
  assert (Hids : forall x, In x (pre ++ rest) -> Offer.id x <> Offer.id o).
  { intros x Hx Heq. rewrite map_app in Hnd. cbn [map] in Hnd.
    apply NoDup_remove_2 in Hnd. apply Hnd. rewrite <- map_app, <- Heq.
    now apply in_map. }
  assert (Hid : Offer.id r = Offer.id o).
  { unfold r, Store.reprice. now destruct (_ =? _)%string. }
  rewrite map_app. cbn [map]. fold r.
  rewrite !map_reprice_other
    by (intros x Hx; apply Hids; apply in_or_app; auto).
  change (pre ++ r :: rest) with (pre ++ [r] ++ rest).
  rewrite app_assoc, IH.
  - now rewrite <- app_assoc.
  - rewrite <- app_assoc. cbn [app]. rewrite map_app in *. cbn [map] in *.
    now rewrite Hid.
Qed.

Lemma repriced_columns :
  forall random l k,
    map Offer.id (repricedOf random l k) = map Offer.id l /\
    map Offer.priceCents (repricedOf random l k)
      = map ChangedItem.newPriceCents (changedOf random l k) /\
    map Offer.etaDays (repricedOf random l k)
      = map ChangedItem.newEtaDays (changedOf random l k) /\
    map ChangedItem.offerId (changedOf random l k) = map Offer.id l /\
    map ChangedItem.productId (changedOf random l k) = map Offer.productId l /\
    map ChangedItem.oldPriceCents (changedOf random l k) = map Offer.priceCents l /\
    map ChangedItem.oldEtaDays (changedOf random l k) = map Offer.etaDays l.
Proof.
  intros random. induction l as [| o rest IH]; intros k.
  - repeat split.
  - destruct (IH (nextDraw random k)) as (H1 & H2 & H3 & H4 & H5 & H6 & H7).
    cbn [repricedOf changedOf map].
    rewrite H1, H2, H3, H4, H5, H6, H7.
    unfold Store.reprice. rewrite String.eqb_refl.
    cbn [Offer.id Offer.priceCents Offer.etaDays ChangedItem.newPriceCents
         ChangedItem.newEtaDays ChangedItem.offerId ChangedItem.productId
         ChangedItem.oldPriceCents ChangedItem.oldEtaDays].
    repeat split.
Qed.

(** The [changedItems] a tick returns list every stored offer once, in
    storage order, with the price and ETA it had and the price and ETA the
    offer table holds afterwards. *)
Theorem changed_items_match_store :
  forall (random : nat -> Q) (now : Z) (st : Store.t),
    watchIntegrity st ->
    uniqueOfferIds st ->
    exists res st',
      runPriceTick random now st = (Fulfilled res, st') /\
      map ChangedItem.offerId (TickResult.changedItems res)
        = map Offer.id (Store.offers st) /\
      map ChangedItem.productId (TickResult.changedItems res)
        = map Offer.productId (Store.offers st) /\
      map ChangedItem.oldPriceCents (TickResult.changedItems res)
        = map Offer.priceCents (Store.offers st) /\
      map ChangedItem.oldEtaDays (TickResult.changedItems res)
        = map Offer.etaDays (Store.offers st) /\
      map Offer.id (Store.offers st') = map Offer.id (Store.offers st) /\
      map ChangedItem.newPriceCents (TickResult.changedItems res)
        = map Offer.priceCents (Store.offers st') /\
      map ChangedItem.newEtaDays (TickResult.changedItems res)
        = map Offer.etaDays (Store.offers st').
Proof.
  intros random now st Hint Hnd.
  exists (resultOfTick random st), (storeAfterTick random now st).
  split; [now apply runPriceTick_eq |].
  cbn [resultOfTick storeAfterTick TickResult.changedItems Store.offers].
  unfold offersAfterTick.
  pose proof (driftFold_repriced random (Store.offers st) [] 0 Hnd) as Hd.
  cbn [app] in Hd. rewrite Hd.
  destruct (repriced_columns random (Store.offers st) 0)
    as (H1 & H2 & H3 & H4 & H5 & H6 & H7).
  repeat split; congruence.
Qed.

Lemma changed_items_match_store_witness :
  exists res st',
    runPriceTick Sample.noDrift 0 Sample.watchStore = (Fulfilled res, st') /\
    map ChangedItem.offerId (TickResult.changedItems res)
      = map Offer.id (Store.offers Sample.watchStore) /\
    map ChangedItem.productId (TickResult.changedItems res)
      = map Offer.productId (Store.offers Sample.watchStore) /\
    map ChangedItem.oldPriceCents (TickResult.changedItems res)
      = map Offer.priceCents (Store.offers Sample.watchStore) /\
    map ChangedItem.oldEtaDays (TickResult.changedItems res)
      = map Offer.etaDays (Store.offers Sample.watchStore) /\
    map Offer.id (Store.offers st') = map Offer.id (Store.offers Sample.watchStore) /\
    map ChangedItem.newPriceCents (TickResult.changedItems res)
      = map Offer.priceCents (Store.offers st') /\
    map ChangedItem.newEtaDays (TickResult.changedItems res)
      = map Offer.etaDays (Store.offers st').
Proof.
  apply (changed_items_match_store Sample.noDrift 0 Sample.watchStore
           TickFacts.watchStore_integrity TickFacts.watchStore_offer_ids).
Defined.

Lemma nth_mark :
  forall id now p e ws i w,
    nth_error ws i = Some w ->
    nth_error (map (Store.markNotified id now p e) ws) i
    = Some (Store.markNotified id now p e w).
Proof.
  intros. rewrite nth_error_map. now rewrite H.
Qed.

Lemma mark_other :
  forall id now p e w,
    WatchItem.id w <> id -> Store.markNotified id now p e w = w.
Proof.
  intros id now p e w H. unfold Store.markNotified.
  apply String.eqb_neq in H. now rewrite H.
Qed.

Lemma mark_id :
  forall id now p e w,
    WatchItem.id (Store.markNotified id now p e w) = WatchItem.id w.
Proof.
  intros. unfold Store.markNotified. now destruct (_ =? _)%string.
Qed.

Lemma watchAfter_nth_fired :
  forall now offers items ws i w item prod b,
    nth_error ws i = Some w ->
    NoDup (map (fun p => WatchItem.id (fst p)) items) ->
    In (item, prod) items ->
    WatchItem.id item = WatchItem.id w ->
    fires offers item = Some b ->
    nth_error (watchAfter now offers items ws) i
    = Some (Store.markNotified (WatchItem.id w) now (Offer.priceCents b)
              (Offer.etaDays b) w).
Proof.
  intros now offers. induction items as [| [it pr] rest IH];
    intros ws i w item prod b Hnth Hnd Hin Hid Hf; [destruct Hin |].
  cbn [map fst] in Hnd. inversion Hnd as [| x xs Hnot Hnd' ]; subst.
  cbn [watchAfter].
  destruct Hin as [Heq | Hin].
  - injection Heq as -> ->. rewrite Hf, Hid.
    apply watchAfter_nth.
    + now apply nth_mark.
    + intros item' prod' b' Hin' _ Heq. rewrite mark_id in Heq.
      apply Hnot. rewrite Hid, <- Heq.
      change (WatchItem.id item') with ((fun p => WatchItem.id (fst p)) (item', prod')).
      now apply in_map.
  - assert (Hne : WatchItem.id w <> WatchItem.id it).
    { intros Heq. apply Hnot. rewrite <- Heq, <- Hid.
      change (WatchItem.id item) with ((fun p => WatchItem.id (fst p)) (item, prod)).
      now apply in_map. }
    destruct (fires offers it) as [b0 |].
    + apply IH with (item := item) (prod := prod); auto.
      rewrite (nth_mark _ _ _ _ _ _ _ Hnth). now rewrite mark_other.
    + eapply IH; eauto.
Qed.

(** After a tick, the row of every notified watch item holds the price
    and ETA the notification reports as its new baseline and the time of
    the tick; its alert rule and its pin are as before. *)
Theorem notified_item_rebased :
  forall (random : nat -> Q) (now : Z) (st : Store.t),
    watchIntegrity st ->
    uniqueWatchIds st ->
    exists res st',
      runPriceTick random now st = (Fulfilled res, st') /\
      forall i item n,
        nth_error (Store.watchlist st) i = Some item ->
        In n (TickResult.notifications res) ->
        TickNotification.watchlistId n = WatchItem.id item ->
        exists item',
          nth_error (Store.watchlist st') i = Some item' /\
          WatchItem.lastSeenBestPriceCents item'
            = Some (Payload.priceCents (TickNotification.payload n)) /\
          WatchItem.lastSeenBestEtaDays item'
            = Some (Payload.etaDays (TickNotification.payload n)) /\
          WatchItem.lastNotifiedAt item' = Some now /\
          sameRule item item' /\
          WatchItem.preferredOfferId item' = WatchItem.preferredOfferId item /\
          WatchItem.preferredVendorId item' = WatchItem.preferredVendorId item /\
          WatchItem.preferredProductUrl item' = WatchItem.preferredProductUrl item.
Proof.
  intros random now st Hint Hnd.
  exists (resultOfTick random st), (storeAfterTick random now st).
  split; [now apply runPriceTick_eq |].
  intros i item n Hnth Hn Hid.
  cbn [resultOfTick TickResult.notifications] in Hn.
  apply notesOf_In in Hn. destruct Hn as (item0 & prod & b & Hin & Hf & ->).
  cbn [notificationFor TickNotification.watchlistId TickNotification.payload
       payloadFor Payload.priceCents Payload.etaDays] in *.
  assert (Hnd' : NoDup (map (fun p => WatchItem.id (fst p)) (watchRows st))).
  { unfold watchRows. rewrite map_map. cbn [fst]. exact Hnd. }
  exists (Store.markNotified (WatchItem.id item) now (Offer.priceCents b)
            (Offer.etaDays b) item).
  split.
  - cbn [storeAfterTick Store.watchlist].
    eapply watchAfter_nth_fired; eauto.
  - unfold Store.markNotified. rewrite String.eqb_refl.
    cbn [WatchItem.lastSeenBestPriceCents WatchItem.lastSeenBestEtaDays
         WatchItem.lastNotifiedAt WatchItem.preferredOfferId
         WatchItem.preferredVendorId WatchItem.preferredProductUrl].
    unfold sameRule.
    cbn [WatchItem.id WatchItem.userId WatchItem.productId
         WatchItem.pctDropThreshold WatchItem.targetPriceCents
         WatchItem.shippingImprovementOn].
    repeat split.
Qed.

Lemma notified_item_rebased_witness :
  exists res st',
    runPriceTick Sample.noDrift 0 Sample.watchStore = (Fulfilled res, st') /\
    forall i item n,
      nth_error (Store.watchlist Sample.watchStore) i = Some item ->
      In n (TickResult.notifications res) ->
      TickNotification.watchlistId n = WatchItem.id item ->
      exists item',
        nth_error (Store.watchlist st') i = Some item' /\
        WatchItem.lastSeenBestPriceCents item'
          = Some (Payload.priceCents (TickNotification.payload n)) /\
        WatchItem.lastSeenBestEtaDays item'
          = Some (Payload.etaDays (TickNotification.payload n)) /\
        WatchItem.lastNotifiedAt item' = Some 0 /\
        sameRule item item' /\
        WatchItem.preferredOfferId item' = WatchItem.preferredOfferId item /\
        WatchItem.preferredVendorId item' = WatchItem.preferredVendorId item /\
        WatchItem.preferredProductUrl item' = WatchItem.preferredProductUrl item.
Proof.
  apply (notified_item_rebased Sample.noDrift 0 Sample.watchStore
           TickFacts.watchStore_integrity TickFacts.watchStore_unique).
Defined.

End ReportFacts.

(** ** Alerts over two ticks *)

Module RepeatFacts.
Import PriceMonitor Vocabulary TickTerms TickFacts ReportFacts.

(** A price that did not fall gives no positive drop percentage. *)
Lemma dropPctBetween_nonpos :
  forall baseline price,
    0 < baseline -> baseline <= price ->
    (dropPctBetween baseline price <= 0)%Q.
Proof.
  intros baseline price Hb Hle. unfold dropPctBetween, Double.mul.
  apply DoubleFacts.round_nonpos.
  assert (Hs : (Double.sub (inject_Z baseline) (inject_Z price) <= 0)%Q).
  { unfold Double.sub. apply DoubleFacts.round_nonpos.
    unfold Qminus. rewrite <- inject_Z_opp, <- inject_Z_plus.
    change 0%Q with (inject_Z 0). rewrite <- Zle_Qle. lia. }
  assert (Hd : (Double.div (Double.sub (inject_Z baseline) (inject_Z price))
                  (inject_Z baseline) <= 0)%Q).
  { unfold Double.div. apply DoubleFacts.round_nonpos.
    apply Qle_shift_div_r.
    - change 0%Q with (inject_Z 0). rewrite <- Zlt_Qlt. exact Hb.
    - rewrite Qmult_0_l. exact Hs. }
  lra.
Qed.

(** The notification of an item is the one its row fires. *)
Lemma note_of_item :
  forall offers st item n,
    uniqueWatchIds st ->
    In item (Store.watchlist st) ->
    In n (notesOf offers (watchRows st)) ->
    TickNotification.watchlistId n = WatchItem.id item ->
    exists prod b,
      In (item, prod) (watchRows st) /\
      fires offers item = Some b /\
      TickNotification.payload n = payloadFor item b.
Proof.
  intros offers st item n Hnd Hin Hn Hid.
  apply notesOf_In in Hn. destruct Hn as (item0 & prod & b & Hrow & Hf & ->).
  cbn [notificationFor TickNotification.watchlistId TickNotification.payload] in *.
  assert (Hin0 : In item0 (Store.watchlist st)).
  { unfold watchRows in Hrow. apply in_map_iff in Hrow.
    destruct Hrow as (w & Heq & Hw). now injection Heq as <- _. }
  assert (item0 = item)
    by exact (NoDup_map_inj _ _ WatchItem.id _ _ _ Hnd Hin0 Hin Hid).
  subst item0. eauto.
Qed.

Lemma fires_spec :
  forall offers item b,
    fires offers item = Some b ->
    bestOf offers (WatchItem.productId item) = Some b /\
    shouldNotify item b = true.
Proof.
  intros offers item b H. unfold fires in H.
  destruct (bestOf offers (WatchItem.productId item)) as [b0 |]; [| discriminate].
  destruct (shouldNotify item b0) eqn:Hs; [| discriminate].
  injection H as <-. auto.
Qed.

(** A watch item that was notified is notified again by the next tick
    only for a change against what it was notified of: the best price is
    below the notified price by at least the threshold percentage, or its
    target is met, or (with the shipping rule on) the best ETA is below the
    notified ETA.  An item with a positive threshold, no target and the
    shipping rule off is therefore notified again only when the best price
    has fallen below the last notified price. *)
Theorem repeat_alert_needs_change :
  forall (random1 random2 : nat -> Q) (now1 now2 : Z) (st : Store.t),
    watchIntegrity st ->
    uniqueWatchIds st ->
    exists res1 st1 res2 st2,
      runPriceTick random1 now1 st = (Fulfilled res1, st1) /\
      runPriceTick random2 now2 st1 = (Fulfilled res2, st2) /\
      forall item n1 n2,
        In item (Store.watchlist st) ->
        In n1 (TickResult.notifications res1) ->
        TickNotification.watchlistId n1 = WatchItem.id item ->
        In n2 (TickResult.notifications res2) ->
        TickNotification.watchlistId n2 = WatchItem.id item ->
        let p1 := Payload.priceCents (TickNotification.payload n1) in
        let p2 := Payload.priceCents (TickNotification.payload n2) in
        0 < p1 /\
        ((WatchItem.pctDropThreshold item <= dropPctBetween p1 p2)%Q \/
         (exists t, WatchItem.targetPriceCents item = Some t /\ p2 <= t) \/
         (WatchItem.shippingImprovementOn item = true /\
          Payload.etaDays (TickNotification.payload n2)
          < Payload.etaDays (TickNotification.payload n1))) /\
        ((0 < WatchItem.pctDropThreshold item)%Q ->
         WatchItem.targetPriceCents item = None ->
         WatchItem.shippingImprovementOn item = false ->
         p2 < p1).
Proof.
  intros random1 random2 now1 now2 st Hint Hnd.
  destruct (storeAfterTick_invariants random1 now1 st Hint Hnd) as [Hint1 Hnd1].
  exists (resultOfTick random1 st), (storeAfterTick random1 now1 st),
         (resultOfTick random2 (storeAfterTick random1 now1 st)),
         (storeAfterTick random2 now2 (storeAfterTick random1 now1 st)).
  split; [now apply runPriceTick_eq |].
  split; [now apply runPriceTick_eq |].
  intros item n1 n2 Hin Hn1 Hid1 Hn2 Hid2 p1 p2.
  cbn [resultOfTick TickResult.notifications] in Hn1, Hn2.
  set (st1 := storeAfterTick random1 now1 st) in *.
  (* the first tick *)
  destruct (note_of_item _ _ _ _ Hnd Hin Hn1 Hid1) as (prod & b1 & Hrow & Hf1 & Hp1).
  destruct (fires_spec _ _ _ Hf1) as [Hb1 _].
  assert (Hr1 : inRange b1).
  { apply (offersAfterTick_inRange random1 st). now apply bestOf_In in Hb1. }
  destruct (In_nth_error _ _ Hin) as (i & Hnth).
  assert (Hnd' : NoDup (map (fun p => WatchItem.id (fst p)) (watchRows st))).
  { unfold watchRows. rewrite map_map. cbn [fst]. exact Hnd. }
  pose proof (watchAfter_nth_fired now1 (offersAfterTick random1 st) (watchRows st)
                (Store.watchlist st) i item item prod b1 Hnth Hnd' Hrow eq_refl Hf1)
    as Hnth1.
  set (item1 := Store.markNotified (WatchItem.id item) now1 (Offer.priceCents b1)
                  (Offer.etaDays b1) item) in *.
  assert (Hin1 : In item1 (Store.watchlist st1)).
  { eapply nth_error_In. exact Hnth1. }
  assert (Hfields :
    WatchItem.id item1 = WatchItem.id item /\
    WatchItem.pctDropThreshold item1 = WatchItem.pctDropThreshold item /\
    WatchItem.targetPriceCents item1 = WatchItem.targetPriceCents item /\
    WatchItem.shippingImprovementOn item1 = WatchItem.shippingImprovementOn item /\
    WatchItem.lastSeenBestPriceCents item1 = Some (Offer.priceCents b1) /\
    WatchItem.lastSeenBestEtaDays item1 = Some (Offer.etaDays b1)).
  { unfold item1, Store.markNotified. rewrite String.eqb_refl. cbn. repeat split. }
  destruct Hfields as (Hi & Ht & Hg & Hs & Hlp & Hle).
  (* the second tick *)
  rewrite <- Hi in Hid2.
  destruct (note_of_item _ _ _ _ Hnd1 Hin1 Hn2 Hid2) as (prod2 & b2 & _ & Hf2 & Hp2).
  destruct (fires_spec _ _ _ Hf2) as [Hb2 Hs2].
  assert (Hr2 : inRange b2).
  { apply (offersAfterTick_inRange random2 st1). now apply bestOf_In in Hb2. }
  assert (Hp1' : p1 = Offer.priceCents b1) by (unfold p1; now rewrite Hp1).
  assert (Hp2' : p2 = Offer.priceCents b2) by (unfold p2; now rewrite Hp2).
  assert (He1 : Payload.etaDays (TickNotification.payload n1) = Offer.etaDays b1)
    by (now rewrite Hp1).
  assert (He2 : Payload.etaDays (TickNotification.payload n2) = Offer.etaDays b2)
    by (now rewrite Hp2).
  destruct Hr1 as [[Hlo1 _] _]. destruct Hr2 as [[Hlo2 _] _].
  assert (Hdrop : dropPctOf item1 b2 = dropPctBetween p1 p2).
  { unfold dropPctOf, baselineOf. rewrite Hlp. cbn [WebSearchProvider.orDefault].
    replace (Offer.priceCents b1 =? 0) with false by (symmetry; apply Z.eqb_neq; lia).
    replace (0 <? Offer.priceCents b1) with true by (symmetry; apply Z.ltb_lt; lia).
    rewrite Hp1', Hp2'. reflexivity. }
  assert (Hcases :
    (WatchItem.pctDropThreshold item <= dropPctBetween p1 p2)%Q \/
    (exists t, WatchItem.targetPriceCents item = Some t /\ p2 <= t) \/
    (WatchItem.shippingImprovementOn item = true /\
     Payload.etaDays (TickNotification.payload n2)
     < Payload.etaDays (TickNotification.payload n1))).
  { apply shouldNotify_iff in Hs2; [| lia].
    rewrite Ht, Hg, Hs, Hle in Hs2.
    destruct Hs2 as [H | [(t & Htg & Hle2) | (Hon & e & He & Hlt)]].
    - left. now rewrite <- Hdrop.
    - right. left. exists t. split; [exact Htg | lia].
    - right. right. split; [exact Hon |]. injection He as <-. lia. }
  split; [lia |]. split; [exact Hcases |].
  intros Hthr Hnone Hoff.
  destruct Hcases as [H | [(t & Htg & _) | (Hon & _)]]; [| congruence | congruence].
  destruct (Z_lt_le_dec p2 p1) as [Hlt | Hge]; [exact Hlt |].
  exfalso.
  pose proof (dropPctBetween_nonpos p1 p2 ltac:(lia) Hge) as Hneg.
  lra.
Qed.

Lemma repeat_alert_needs_change_witness :
  exists res1 st1 res2 st2,
    runPriceTick Sample.noDrift 0 Sample.watchStore = (Fulfilled res1, st1) /\
    runPriceTick Sample.noDrift 60000 st1 = (Fulfilled res2, st2) /\
    forall item n1 n2,
      In item (Store.watchlist Sample.watchStore) ->
      In n1 (TickResult.notifications res1) ->
      TickNotification.watchlistId n1 = WatchItem.id item ->
      In n2 (TickResult.notifications res2) ->
      TickNotification.watchlistId n2 = WatchItem.id item ->
      let p1 := Payload.priceCents (TickNotification.payload n1) in
      let p2 := Payload.priceCents (TickNotification.payload n2) in
      0 < p1 /\
      ((WatchItem.pctDropThreshold item <= dropPctBetween p1 p2)%Q \/
       (exists t, WatchItem.targetPriceCents item = Some t /\ p2 <= t) \/
       (WatchItem.shippingImprovementOn item = true /\
        Payload.etaDays (TickNotification.payload n2)
        < Payload.etaDays (TickNotification.payload n1))) /\
      ((0 < WatchItem.pctDropThreshold item)%Q ->
       WatchItem.targetPriceCents item = None ->
       WatchItem.shippingImprovementOn item = false ->
       p2 < p1).
Proof.
  apply (repeat_alert_needs_change Sample.noDrift Sample.noDrift 0 60000
           Sample.watchStore watchStore_integrity watchStore_unique).
Defined.

(** The pinned-store scenario over two ticks without drift: the 20% drop
    is notified once; the second tick, at the same prices, notifies
    nothing. *)
Example drop_alert_once :
  let r1 := runPriceTick Sample.noDrift 0 Sample.pinnedStore in
  let r2 := runPriceTick Sample.noDrift 60000 (snd r1) in
  match fst r1, fst r2 with
  | Fulfilled res1, Fulfilled res2 =>
      (List.length (TickResult.notifications res1),
       List.length (TickResult.notifications res2)) = (1%nat, 0%nat)
  | _, _ => False
  end.
Proof. vm_compute. reflexivity. Qed.

End RepeatFacts.

(** ** What a refresh writes *)

Module RefreshFacts.
Import Vocabulary OfferService RefreshTerms SetFacts.

Lemma getRankedOffers_eq :
  forall api cfg w productId userId strategy refreshLive st,
    getRankedOffers api cfg w productId userId strategy refreshLive st
    = let st1 := if refreshLive
                 then snd (refreshWebOffersForProduct api cfg w productId strategy st)
                 else st in
      (Fulfilled (rankedOf productId strategy (Store.offers st1)), st1).
Proof.
  intros api cfg w productId userId strategy refreshLive st.
  unfold getRankedOffers. destruct refreshLive.
  - unfold Store.bind at 1. unfold Store.tryCatch.
    destruct (refreshWebOffersForProduct api cfg w productId strategy st)
      as [[[] | e] st1]; reflexivity.
  - reflexivity.
Qed.

(** *** Writes that only touch one product *)

Lemma Forall2_nth_l (A B : Type) (R : A -> B -> Prop) :
  forall l l' i a,
    Forall2 R l l' -> nth_error l i = Some a ->
    exists b, nth_error l' i = Some b /\ R a b.
Proof.
  intros l l' i a H. revert i.
  induction H as [| x y l l' Hxy H IH]; intros i Hn.
  - destruct i; discriminate.
  - destruct i as [| i]; cbn [nth_error] in *.
    + injection Hn as <-. eauto.
    + now apply IH.
Qed.

Lemma Forall2_nth_r (A B : Type) (R : A -> B -> Prop) :
  forall l l' i b,
    Forall2 R l l' -> nth_error l' i = Some b ->
    exists a, nth_error l i = Some a /\ R a b.
Proof.
  intros l l' i b H. revert i.
  induction H as [| x y l l' Hxy H IH]; intros i Hn.
  - destruct i; discriminate.
  - destruct i as [| i]; cbn [nth_error] in *.
    + injection Hn as <-. eauto.
    + now apply IH.
Qed.

Lemma keptRow_refl : forall pid o, keptRow pid o o.
Proof. intros. unfold keptRow. auto. Qed.

Lemma keptRow_trans :
  forall pid a b c, keptRow pid a b -> keptRow pid b c -> keptRow pid a c.
Proof.
  intros pid a b c (H1 & H2 & H3 & H4) (K1 & K2 & K3 & K4).
  unfold keptRow. repeat split; try congruence.
  intros Hne. rewrite K4, H4; auto. now rewrite H2.
Qed.

Lemma Forall2_keptRow_refl : forall pid l, Forall2 (keptRow pid) l l.
Proof.
  intros pid l. induction l; constructor; auto using keptRow_refl.
Qed.

Lemma Forall2_keptRow_trans :
  forall pid l1 l2 l3,
    Forall2 (keptRow pid) l1 l2 -> Forall2 (keptRow pid) l2 l3 ->
    Forall2 (keptRow pid) l1 l3.
Proof.
  intros pid l1 l2 l3 H. revert l3.
  induction H as [| a b l1 l2 Hab H IH]; intros l3 H3; inversion H3; subst.
  - constructor.
  - constructor; [eapply keptRow_trans; eauto | now apply IH].
Qed.

Lemma touchesOnly_refl : forall pid st, touchesOnly pid st st.
Proof.
  intros pid st. unfold touchesOnly. repeat split; auto.
  exists (Store.offers st), []. rewrite app_nil_r.
  repeat split; auto using Forall2_keptRow_refl.
Qed.

Lemma touchesOnly_trans :
  forall pid st1 st2 st3,
    touchesOnly pid st1 st2 -> touchesOnly pid st2 st3 -> touchesOnly pid st1 st3.
Proof.
  intros pid st1 st2 st3 (P1 & W1 & N1 & (u1 & n1 & E1 & F1 & A1) & K1)
                         (P2 & W2 & N2 & (u2 & n2 & E2 & F2 & A2) & K2).
  unfold touchesOnly. repeat split; try congruence; [| auto].
  rewrite E1 in F2. apply Forall2_app_inv_l in F2.
  destruct F2 as (u2a & u2b & Fa & Fb & ->).
  exists u2a, (u2b ++ n2). repeat split.
  - now rewrite E2, app_assoc.
  - eapply Forall2_keptRow_trans; eauto.
  - apply Forall_app. split; [| exact A2].
    clear - Fb A1. induction Fb as [| a b l l' Hab Fb IH]; [constructor |].
    inversion A1; subst. constructor; [| now apply IH].
    destruct Hab as (_ & Hp & _). congruence.
Qed.

Lemma local_ret : forall pid (A : Type) (a : A), local pid (Store.ret a).
Proof. intros pid A a st. apply touchesOnly_refl. Qed.

Lemma local_await :
  forall pid (A : Type) (r : outcome A), local pid (Store.await r).
Proof. intros pid A r st. apply touchesOnly_refl. Qed.

Lemma local_bind :
  forall pid (A B : Type) (m : Store.M A) (k : A -> Store.M B),
    local pid m -> (forall a, local pid (k a)) -> local pid (Store.bind m k).
Proof.
  intros pid A B m k Hm Hk st. unfold Store.bind.
  specialize (Hm st). destruct (m st) as [[a | e] st1]; cbn [snd] in *.
  - eapply touchesOnly_trans; [exact Hm | apply Hk].
  - exact Hm.
Qed.

Lemma local_tryCatch :
  forall pid (A : Type) (m : Store.M A) (h : string -> Store.M A),
    local pid m -> (forall e, local pid (h e)) -> local pid (Store.tryCatch m h).
Proof.
  intros pid A m h Hm Hh st. unfold Store.tryCatch.
  specialize (Hm st). destruct (m st) as [[a | e] st1]; cbn [snd] in *.
  - exact Hm.
  - eapply touchesOnly_trans; [exact Hm | apply Hh].
Qed.

Lemma local_settle :
  forall pid (A : Type) (m : Store.M A), local pid m -> local pid (Store.settle m).
Proof.
  intros pid A m Hm st. unfold Store.settle.
  specialize (Hm st). destruct (m st) as [r st1]. exact Hm.
Qed.

Lemma local_allSettled :
  forall pid (A : Type) (ms : list (Store.M A)),
    (forall m, In m ms -> local pid m) -> local pid (Store.allSettled ms).
Proof.
  intros pid A ms. induction ms as [| m rest IH]; intros H.
  - apply local_ret.
  - cbn [Store.allSettled]. apply local_bind.
    + apply local_settle. apply H. now left.
    + intros r. apply local_bind.
      * apply IH. intros m' Hm'. apply H. now right.
      * intros rs. apply local_ret.
Qed.

Lemma local_findUnique : forall pid id, local pid (Store.product_findUnique id).
Proof. intros pid id st. apply touchesOnly_refl. Qed.

Lemma local_findMany :
  forall pid productId, local pid (Store.offer_findMany_inStock productId).
Proof. intros pid productId st. apply touchesOnly_refl. Qed.

Lemma sameKey_offerKey :
  forall pid v o,
    Store.sameKey pid v o = true <-> offerKey o = (pid, v).
Proof.
  intros pid v o. unfold Store.sameKey, offerKey.
  rewrite andb_true_iff, !String.eqb_eq. split.
  - intros [-> ->]. reflexivity.
  - intros [= -> ->]. auto.
Qed.

Lemma local_create :
  forall data, local (Offer.productId data) (Store.offer_create data).
Proof.
  intros data st. unfold Store.offer_create.
  destruct (existsb _ (Store.offers st)) eqn:Hk; [apply touchesOnly_refl |].
  destruct (negb _); [apply touchesOnly_refl |].
  cbn [snd]. unfold touchesOnly.
  cbn [Store.setOffers Store.products Store.watchlist Store.pendingNotifications
       Store.offers].
  repeat split; auto.
  - eexists (Store.offers st), [_]. repeat split.
    + apply Forall2_keptRow_refl.
    + repeat constructor.
  - unfold uniqueKeys. cbn [Store.setOffers Store.offers]. intros Hnd.
    rewrite map_app. apply NoDup_app; [exact Hnd | repeat constructor; simpl; tauto |].
    intros key Hin [<- | []].
    apply in_map_iff in Hin. destruct Hin as (o & Ho & Hin).
    assert (Hex : existsb (Store.sameKey (Offer.productId data) (Offer.vendorId data))
                    (Store.offers st) = true).
    { apply existsb_exists. exists o. split; [exact Hin |].
      apply sameKey_offerKey. exact Ho. }
    congruence.
Qed.

Lemma overwrite_kept :
  forall pid data o,
    Offer.productId o = pid -> keptRow pid o (Store.overwrite data o).
Proof.
  intros pid data o Hp. unfold keptRow, Store.overwrite.
  cbn [Offer.id Offer.productId Offer.vendorId]. repeat split. congruence.
Qed.

Lemma local_upsert :
  forall data, local (Offer.productId data) (Store.offer_upsert data).
Proof.
  intros data st. unfold Store.offer_upsert.
  destruct (existsb _ (Store.offers st)) eqn:Hk.
  - cbn [snd]. unfold touchesOnly.
    cbn [Store.setOffers Store.products Store.watchlist Store.pendingNotifications
         Store.offers].
    assert (HF : Forall2 (keptRow (Offer.productId data)) (Store.offers st)
                   (map (fun o => if Store.sameKey (Offer.productId data)
                                       (Offer.vendorId data) o
                                  then Store.overwrite data o else o)
                        (Store.offers st))).
    { clear Hk. induction (Store.offers st) as [| o os IH]; cbn [map]; constructor;
        [| exact IH].
      destruct (Store.sameKey _ _ o) eqn:Hs; [| apply keptRow_refl].
      apply overwrite_kept. unfold Store.sameKey in Hs.
      apply andb_prop in Hs. destruct Hs as [Hs _]. now apply String.eqb_eq in Hs. }
    repeat split; auto.
    + eexists _, []. rewrite app_nil_r. repeat split; [exact HF | constructor].
    + unfold uniqueKeys. cbn [Store.setOffers Store.offers]. intros Hnd.
      replace (map offerKey (map _ (Store.offers st)))
        with (map offerKey (Store.offers st)); [exact Hnd |].
      clear - HF. induction HF as [| a b l l' Hab HF IH]; [reflexivity |].
      cbn [map]. rewrite IH. f_equal. unfold offerKey.
      destruct Hab as (_ & Hp & Hv & _). congruence.
  - pose proof (local_create data st) as Hc.
    destruct (Store.offer_create data st) as [[row | e] st1]; exact Hc.
Qed.

Lemma local_upsertWebOffer :
  forall product pid c, local pid (upsertWebOffer product pid c).
Proof.
  intros product pid c. unfold upsertWebOffer.
  destruct (_ || _); [apply local_ret |].
  match goal with
  | |- local pid (Store.offer_upsert ?d) =>
      change pid with (Offer.productId d) at 1
  end.
  apply local_upsert.
Qed.

Lemma local_createFallbacks :
  forall product pid base fbs ids,
    local pid (createFallbacks product pid base fbs ids).
Proof.
  intros product pid base. induction fbs as [| fb rest IH]; intros ids.
  - apply local_ret.
  - cbn [createFallbacks]. destruct (Js.setHas ids _); [apply IH |].
    apply local_bind.
    + match goal with
      | |- local pid (Store.offer_create ?d) =>
          change pid with (Offer.productId d) at 1
      end.
      apply local_create.
    + intros _. destruct (3 <=? _)%nat; [apply local_ret | apply IH].
Qed.

Lemma local_refresh :
  forall api cfg w pid strategy,
    local pid (refreshWebOffersForProduct api cfg w pid strategy).
Proof.
  intros api cfg w pid strategy. unfold refreshWebOffersForProduct.
  apply local_bind; [apply local_findUnique |].
  intros [product |]; [| apply local_ret].
  destruct (negb _); [apply local_ret |].
  apply local_bind.
  - destruct (_ && _); [| apply local_ret].
    apply local_tryCatch; [| intros; apply local_ret].
    apply local_bind; [apply local_await |]. intros webOffers.
    apply local_bind; [| intros; apply local_ret].
    apply local_allSettled. intros m Hm.
    apply in_map_iff in Hm. destruct Hm as (c & <- & _).
    apply local_upsertWebOffer.
  - intros _. apply local_bind; [apply local_findMany |].
    intros existing. destruct (3 <=? _)%nat; [apply local_ret |].
    apply local_createFallbacks.
Qed.

(** Refreshing and reading the offers of one product never fails, and its
    writes stay within that product: the other tables are as before, no
    offer row is removed or moves, every row keeps its id and its
    (productId, vendorId) key, rows of other products are unchanged, rows
    added belong to the product, and a unique compound key stays unique. *)
Theorem refresh_touches_only_product :
  forall (api : Url.Api) (cfg : Config.t) (w : World.t) (st : Store.t)
         (productId userId strategy : string) (refreshLive : bool),
    exists res st',
      getRankedOffers api cfg w productId userId strategy refreshLive st
        = (Fulfilled res, st') /\
      Store.products st' = Store.products st /\
      Store.watchlist st' = Store.watchlist st /\
      Store.pendingNotifications st' = Store.pendingNotifications st /\
      (forall i o,
         nth_error (Store.offers st) i = Some o ->
         exists o',
           nth_error (Store.offers st') i = Some o' /\
           Offer.id o' = Offer.id o /\
           Offer.productId o' = Offer.productId o /\
           Offer.vendorId o' = Offer.vendorId o /\
           (Offer.productId o <> productId -> o' = o)) /\
      (forall o',
         In o' (Store.offers st') -> Offer.productId o' <> productId ->
         In o' (Store.offers st)) /\
      (uniqueKeys st -> uniqueKeys st').
Proof.
  intros api cfg w st productId userId strategy refreshLive.
  rewrite getRankedOffers_eq. cbv zeta.
  eexists. eexists. split; [reflexivity |].
  assert (H : touchesOnly productId st
                (if refreshLive
                 then snd (refreshWebOffersForProduct api cfg w productId strategy st)
                 else st)).
  { destruct refreshLive; [apply local_refresh | apply touchesOnly_refl]. }
  destruct H as (P & W & N & (upd & new & E & F & A) & K).
  repeat split; auto.
  - intros i o Hnth. rewrite E.
    destruct (Forall2_nth_l _ _ _ _ _ _ _ F Hnth) as (o' & Hn' & Hk).
    exists o'. split.
    + rewrite nth_error_app1; [exact Hn' |].
      apply nth_error_Some. congruence.
    + exact Hk.
  - intros o' Hin Hne. rewrite E in Hin. apply in_app_or in Hin.
    destruct Hin as [Hin | Hin].
    + apply In_nth_error in Hin. destruct Hin as (i & Hi).
      destruct (Forall2_nth_r _ _ _ _ _ _ _ F Hi) as (o & Ho & (_ & Hp & _ & Hsame)).
      rewrite Hsame in Hi by congruence.
      rewrite Hsame by congruence. eapply nth_error_In; eauto.
    + rewrite Forall_forall in A. specialize (A _ Hin). contradiction.
Qed.

End RefreshFacts.

(** ** What an aggregation answers *)

Module AnswerFacts.
Import Vocabulary OfferService RefreshTerms SetFacts RefreshFacts.

Lemma recommended_In :
  forall offers strategy id,
    recommendedOfferIdForStrategy offers strategy = Some id ->
    exists o, In o offers /\ NormalizedOffer.inStock o = true /\
              NormalizedOffer.id o = id.
Proof.
  intros offers strategy id. unfold recommendedOfferIdForStrategy.
  destruct (_ =? 0)%nat; [discriminate |].
  destruct (Js.sort _ _) as [| first rest] eqn:Hs; [discriminate |].
  unfold Js.orNull. destruct (Js.truthy _); [| discriminate].
  intros [= <-]. exists first.
  assert (Hin : In first (filter NormalizedOffer.inStock offers)).
  { eapply ProviderFacts.In_sort. rewrite Hs. now left. }
  apply filter_In in Hin. tauto.
Qed.

(** The answer of [getRankedOffers] lists the in-stock offers of the
    product as stored after the refresh, in storage order, and a
    recommendation always names one of the offers listed. *)
Theorem recommendation_is_listed :
  forall (api : Url.Api) (cfg : Config.t) (w : World.t) (st : Store.t)
         (productId userId strategy : string) (refreshLive : bool),
    exists res st',
      getRankedOffers api cfg w productId userId strategy refreshLive st
        = (Fulfilled res, st') /\
      RankedOffers.strategy res = strategy /\
      RankedOffers.offers res
        = map normalizeOffer (inStockOf productId (Store.offers st')) /\
      (forall o, In o (RankedOffers.offers res) ->
         NormalizedOffer.inStock o = true /\
         NormalizedOffer.productId o = productId) /\
      (forall id, RankedOffers.recommendedOfferId res = Some id ->
         exists o, In o (RankedOffers.offers res) /\ NormalizedOffer.id o = id) /\
      (RankedOffers.offers res = [] -> RankedOffers.recommendedOfferId res = None).
Proof.
  intros api cfg w st productId userId strategy refreshLive.
  rewrite getRankedOffers_eq. cbv zeta.
  eexists. eexists. split; [reflexivity |].
  cbn [rankedOf RankedOffers.strategy RankedOffers.offers
       RankedOffers.recommendedOfferId].
  split; [reflexivity |]. split; [reflexivity |]. split; [| split].
  - intros o Ho. apply in_map_iff in Ho. destruct Ho as (r & <- & Hr).
    unfold inStockOf in Hr. apply filter_In in Hr. destruct Hr as [_ Hr].
    apply andb_prop in Hr. destruct Hr as [Hp Hs].
    apply String.eqb_eq in Hp. cbn [normalizeOffer NormalizedOffer.inStock
      NormalizedOffer.productId]. auto.
  - intros id Hid. destruct (recommended_In _ _ _ Hid) as (o & Ho & _ & Hoid).
    eauto.
  - intros ->. reflexivity.
Qed.

Lemma fetchTopOffers_all_rejected :
  forall api cfg w query strategy,
    allSearchesFail w ->
    WebSearchProvider.fetchTopOffers api cfg w query strategy = Fulfilled [].
Proof.
  intros api cfg w query strategy Hw. unfold WebSearchProvider.fetchTopOffers.
  destruct (negb _); [reflexivity |].
  destruct (_ || _); [reflexivity |].
  destruct (negb _); [reflexivity |].
  unfold WebSearchProvider.fetchAmazonOffer, WebSearchProvider.fetchShoppingVendors.
  destruct (Hw (WebSearchProvider.normalizeWhitespace query) "amazon.com" "amazon")
    as (e1 & ->).
  destruct (Hw (WebSearchProvider.normalizeWhitespace query) "" "google_shopping")
    as (e2 & ->).
  reflexivity.
Qed.

Lemma bind_congr_k (A B : Type) (m : Store.M A) (k k' : A -> Store.M B) :
  forall st,
    (forall a st1, k a st1 = k' a st1) ->
    Store.bind m k st = Store.bind m k' st.
Proof.
  intros st H. unfold Store.bind. destruct (m st) as [[a | e] st1]; auto.
Qed.

Lemma bind_congr_m (A B : Type) (m m' : Store.M A) (k : A -> Store.M B) :
  forall st, m st = m' st -> Store.bind m k st = Store.bind m' k st.
Proof.
  intros st H. unfold Store.bind. now rewrite H.
Qed.

Lemma refresh_all_rejected :
  forall api cfg cfg' w productId strategy st,
    allSearchesFail w ->
    liveSearchOff cfg' ->
    refreshWebOffersForProduct api cfg w productId strategy st
    = refreshWebOffersForProduct api cfg' w productId strategy st.
Proof.
  intros api cfg cfg' w productId strategy st Hw Hoff.
  unfold refreshWebOffersForProduct.
  apply bind_congr_k. intros [product |] st1; [| reflexivity].
  destruct (negb _); [reflexivity |].
  apply bind_congr_m.
  unfold liveSearchOff in Hoff. rewrite Hoff.
  destruct (Config.enableWebSearchOffers cfg && Config.enableSerpApiProxy cfg &&
            Js.truthy (Config.serpApiApiKey cfg)); [| reflexivity].
  unfold Store.tryCatch, Store.bind, Store.await.
  rewrite fetchTopOffers_all_rejected by exact Hw.
  reflexivity.
Qed.

(** When every search fails, an aggregation with live search configured
    does what it does with live search switched off: same answer, same
    store. *)
Theorem failed_search_is_search_off :
  forall (api : Url.Api) (cfg cfg' : Config.t) (w : World.t) (st : Store.t)
         (productId userId strategy : string) (refreshLive : bool),
    allSearchesFail w ->
    liveSearchOff cfg' ->
    getRankedOffers api cfg w productId userId strategy refreshLive st
    = getRankedOffers api cfg' w productId userId strategy refreshLive st.
Proof.
  intros api cfg cfg' w st productId userId strategy refreshLive Hw Hoff.
  rewrite !getRankedOffers_eq. cbv zeta.
  destruct refreshLive; [| reflexivity].
  now rewrite (refresh_all_rejected api cfg cfg' w productId strategy st Hw Hoff).
Qed.

Lemma timeouts_fail : allSearchesFail Sample.timeouts.
Proof. intros q h e. eexists. reflexivity. Qed.

Lemma failed_search_is_search_off_witness :
  getRankedOffers noUrlApi liveOn Sample.timeouts "p1" "u1" "BEST_PRICE" true
    Sample.emptyStore
  = getRankedOffers noUrlApi Sample.liveOff Sample.timeouts "p1" "u1" "BEST_PRICE"
      true Sample.emptyStore.
Proof.
  apply (failed_search_is_search_off noUrlApi liveOn Sample.liveOff Sample.timeouts
           Sample.emptyStore "p1" "u1" "BEST_PRICE" true timeouts_fail).
  reflexivity.
Defined.

End AnswerFacts.

(** ** Fallback synthesis *)

Module SynthesisFacts.
Import Vocabulary OfferService RefreshTerms SetFacts RefreshFacts.

Lemma cuid_nonempty : forall n, Store.cuid n <> "".
Proof. intros n. unfold Store.cuid. discriminate. Qed.

Lemma setAdd_length :
  forall s v, Js.setHas s v = false ->
    List.length (Js.setAdd s v) = S (List.length s).
Proof.
  intros s v H. unfold Js.setAdd. rewrite H. rewrite length_app. simpl. lia.
Qed.

Lemma fold_setAdd_length :
  forall l s, (List.length (fold_left Js.setAdd l s) <= List.length s + List.length l)%nat.
Proof.
  induction l as [| a l IH]; intros s; cbn [fold_left List.length]; [lia |].
  specialize (IH (Js.setAdd s a)).
  assert (List.length (Js.setAdd s a) <= S (List.length s))%nat.
  { unfold Js.setAdd. destruct (Js.setHas s a); [lia |].
    rewrite length_app. simpl. lia. }
  lia.
Qed.

Lemma setOf_length : forall l, (List.length (Js.setOf l) <= List.length l)%nat.
Proof. intros l. unfold Js.setOf. apply (fold_setAdd_length l []). Qed.

Lemma prefix_self_app :
  forall m t, String.prefix m (m ++ t)%string = true.
Proof.
  induction m as [| c m IH]; intros t; [now destruct t |].
  cbn [append String.prefix]. rewrite IH.
  destruct (ascii_dec c c); [reflexivity | congruence].
Qed.

Lemma includes_inside :
  forall p m t, Js.includes (p ++ (m ++ t))%string m = true.
Proof.
  induction p as [| c p IH]; intros m t; cbn [append].
  - apply StringFacts.prefix_includes, prefix_self_app.
  - apply StringFacts.includes_cons, IH.
Qed.

(** The rows of the fixed table: fallback vendors, search links. *)
Lemma fallbacks_table :
  forall q fb,
    In fb (fallbacks q) ->
    In (Fallback.vendorId fb) fallbackVendorIds /\
    hasSearchMarker (Fallback.url fb) = true.
Proof.
  intros q fb Hin. unfold fallbacks in Hin.
  destruct Hin as [<- | [<- | [<- | [<- | []]]]];
    cbn [Fallback.vendorId Fallback.url]; (split; [simpl; tauto |]);
    unfold hasSearchMarker.
  - change ("https://www.ebay.com/sch/i.html?_nkw=" ++ q)%string
      with ("https://www.ebay.com/sch/i.html?" ++ ("_nkw=" ++ q))%string.
    rewrite (includes_inside _ "_nkw=" q). now rewrite !orb_true_r.
  - change ("https://www.walmart.com/search?q=" ++ q)%string
      with ("https://www.walmart.com" ++ ("/search" ++ ("?q=" ++ q)))%string.
    rewrite (includes_inside _ "/search"). now rewrite !orb_true_r.
  - change ("https://www.target.com/s?searchTerm=" ++ q)%string
      with ("https://www.target.com" ++ ("/s?" ++ ("searchTerm=" ++ q)))%string.
    rewrite (includes_inside _ "/s?"). reflexivity.
  - change ("https://www.bestbuy.com/site/searchpage.jsp?st=" ++ q)%string
      with ("https://www.bestbuy.com/site"
            ++ ("/search" ++ ("page.jsp?st=" ++ q)))%string.
    rewrite (includes_inside _ "/search"). now rewrite !orb_true_r.
Qed.

Lemma createFallbacks_rows :
  forall product pid base fbs ids st,
    (forall fb, In fb fbs ->
       In (Fallback.vendorId fb) fallbackVendorIds /\
       hasSearchMarker (Fallback.url fb) = true) ->
    exists new,
      Store.offers (snd (createFallbacks product pid base fbs ids st))
        = Store.offers st ++ new /\
      Forall (syntheticOffer pid) new /\
      (forall o, In o new -> ~ In (Offer.vendorId o) ids) /\
      NoDup (map Offer.vendorId new) /\
      ((List.length ids <= 2)%nat ->
       (List.length new + List.length ids <= 3)%nat).
Proof.
  intros product pid base. induction fbs as [| fb rest IH]; intros ids st Hfbs.
  - exists []. rewrite app_nil_r.
    repeat split; auto; try constructor; try (intros ? []); try (simpl; lia).
  - cbn [createFallbacks].
    destruct (Js.setHas ids (Fallback.vendorId fb)) eqn:Hhas.
    + apply IH. intros fb' Hfb'. apply Hfbs. now right.
    + unfold Store.bind at 1. unfold Store.offer_create at 1.
      cbn [Offer.productId Offer.vendorId].
      destruct (existsb _ (Store.offers st)).
      { exists []. rewrite app_nil_r.
        repeat split; auto; try constructor; try (intros ? []); try (simpl; lia). }
      destruct (negb _).
      { exists []. rewrite app_nil_r.
        repeat split; auto; try constructor; try (intros ? []); try (simpl; lia). }
      cbv zeta.
      cbn [Offer.vendorName Offer.title Offer.priceCents Offer.shippingCents
           Offer.etaDays Offer.inStock Offer.productUrl].
      set (row := Offer.mk _ _ _ _ _ _ _ _ _ _).
      set (st1 := Store.setOffers st _ _).
      assert (Hrow : syntheticOffer pid row).
      { destruct (Hfbs fb (or_introl eq_refl)) as [Hv Hu].
        unfold syntheticOffer, row.
        cbn [Offer.productId Offer.inStock Offer.shippingCents Offer.priceCents
             Offer.vendorId Offer.id].
        repeat split; auto.
        - lia.
        - apply cuid_nonempty.
        - apply ListingFacts.normalizeOffer_search_url. exact Hu. }
      assert (Hv : Offer.vendorId row = Fallback.vendorId fb) by reflexivity.
      assert (Hnot : ~ In (Fallback.vendorId fb) ids).
      { intros Hin. apply setHas_In in Hin. congruence. }
      assert (Hlen : List.length (Js.setAdd ids (Fallback.vendorId fb))
                     = S (List.length ids)) by now apply setAdd_length.
      destruct (3 <=? _)%nat eqn:H3.
      * exists [row]. cbn [snd Store.ret]. unfold st1.
        cbn [Store.setOffers Store.offers].
        repeat split; auto.
        -- intros o [<- | []]. now rewrite Hv.
        -- repeat constructor. simpl. tauto.
        -- simpl. lia.
      * destruct (IH (Js.setAdd ids (Fallback.vendorId fb)) st1)
          as (new & E & F & Hids & Hnd & Hcount).
        { intros fb' Hfb'. apply Hfbs. now right. }
        exists (row :: new). split; [| split; [| split; [| split]]].
        -- rewrite E. unfold st1. cbn [Store.setOffers Store.offers].
           now rewrite <- app_assoc.
        -- constructor; auto.
        -- intros o [<- | Ho].
           ++ now rewrite Hv.
           ++ intros Hin. apply (Hids o Ho). apply setAdd_In. now left.
        -- cbn [map]. constructor; [| exact Hnd].
           intros Hin. apply in_map_iff in Hin. destruct Hin as (o & Ho & Hin).
           apply (Hids o Hin). apply setAdd_In. right. now rewrite Ho, Hv.
        -- intros Hle. apply Nat.leb_gt in H3. cbn [List.length].
           specialize (Hcount ltac:(lia)). lia.
Qed.

Lemma createFallbacks_tables :
  forall product pid base fbs ids st,
    Store.products (snd (createFallbacks product pid base fbs ids st))
      = Store.products st /\
    Store.watchlist (snd (createFallbacks product pid base fbs ids st))
      = Store.watchlist st /\
    Store.pendingNotifications (snd (createFallbacks product pid base fbs ids st))
      = Store.pendingNotifications st.
Proof.
  intros. destruct (local_createFallbacks product pid base fbs ids st)
    as (P & W & N & _). auto.
Qed.

Lemma inStockOf_app :
  forall pid l new,
    Forall (syntheticOffer pid) new ->
    inStockOf pid (l ++ new) = inStockOf pid l ++ new.
Proof.
  intros pid l new H. unfold inStockOf. rewrite filter_app. f_equal.
  induction H as [| o new Ho H IH]; [reflexivity |].
  cbn [filter]. destruct Ho as (Hp & Hs & _).
  rewrite Hp, String.eqb_refl, Hs. cbn [andb]. now rewrite IH.
Qed.

(** With live search switched off, an aggregation only appends synthetic
    offers: at most three, none when three offers are in stock already,
    each for the product, in stock, free shipping, priced at least 99
    cents, under a fallback vendor id that no in-stock offer of the product
    holds and no other new row repeats, and classified as an estimated
    (not verified) listing.  The answer lists the offers that were in stock
    followed by the new ones. *)
Theorem fallbacks_only_append :
  forall (api : Url.Api) (cfg : Config.t) (w : World.t) (st : Store.t)
         (productId userId strategy : string),
    liveSearchOff cfg ->
    exists res st' new,
      getRankedOffers api cfg w productId userId strategy true st
        = (Fulfilled res, st') /\
      Store.offers st' = Store.offers st ++ new /\
      Store.products st' = Store.products st /\
      Store.watchlist st' = Store.watchlist st /\
      Store.pendingNotifications st' = Store.pendingNotifications st /\
      (List.length new <= 3)%nat /\
      ((3 <= List.length (inStockOf productId (Store.offers st)))%nat -> new = []) /\
      Forall (syntheticOffer productId) new /\
      NoDup (map Offer.vendorId new) /\
      (forall o e, In o new -> In e (inStockOf productId (Store.offers st)) ->
         Offer.vendorId o <> Offer.vendorId e) /\
      RankedOffers.offers res
        = map normalizeOffer (inStockOf productId (Store.offers st) ++ new).
Proof.
  intros api cfg w st productId userId strategy Hoff.
  rewrite getRankedOffers_eq. cbv zeta.
  assert (Hshape :
    exists new,
      Store.offers (snd (refreshWebOffersForProduct api cfg w productId strategy st))
        = Store.offers st ++ new /\
      (List.length new <= 3)%nat /\
      ((3 <= List.length (inStockOf productId (Store.offers st)))%nat -> new = []) /\
      Forall (syntheticOffer productId) new /\
      NoDup (map Offer.vendorId new) /\
      (forall o e, In o new -> In e (inStockOf productId (Store.offers st)) ->
         Offer.vendorId o <> Offer.vendorId e)).
  { unfold refreshWebOffersForProduct.
    unfold Store.bind at 1. unfold Store.product_findUnique.
    destruct (find _ _) as [product |].
    2:{ exists []. rewrite app_nil_r. cbn [snd Store.ret].
        repeat split; auto; try constructor; try (intros ? ? []). }
    destruct (negb _).
    { exists []. rewrite app_nil_r. cbn [snd Store.ret].
      repeat split; auto; try constructor; try (intros ? ? []). }
    unfold liveSearchOff in Hoff. rewrite Hoff.
    unfold Store.bind at 1. unfold Store.ret at 1.
    unfold Store.bind at 1. unfold Store.offer_findMany_inStock at 1.
    fold (inStockOf productId (Store.offers st)).
    set (existing := inStockOf productId (Store.offers st)).
    destruct (3 <=? List.length existing)%nat eqn:H3.
    { exists []. rewrite app_nil_r. cbn [snd Store.ret].
      repeat split; auto; try constructor; try (intros ? ? []). }
    apply Nat.leb_gt in H3.
    match goal with
    | |- context [createFallbacks ?p ?pid ?b ?fbs ?ids ?s] =>
        destruct (createFallbacks_rows p pid b fbs ids s)
          as (new & E & F & Hids & Hnd & Hcount)
    end.
    { intros fb Hfb. eapply fallbacks_table; eauto. }
    exists new.
    pose proof (setOf_length (map Offer.vendorId existing)) as Hl.
    rewrite length_map in Hl.
    split; [exact E |]. split; [specialize (Hcount ltac:(lia)); lia |].
    split; [intros; lia |]. split; [exact F |]. split; [exact Hnd |].
    intros o e Ho He Heq. apply (Hids o Ho). apply setOf_In.
    rewrite Heq. now apply in_map. }
  destruct Hshape as (new & E & Hlen & H3 & F & Hnd & Hfresh).
  destruct (local_refresh api cfg w productId strategy st) as (P & W & N & _).
  eexists. eexists. exists new.
  split; [reflexivity |].
  repeat split; auto.
  cbn [rankedOf RankedOffers.offers]. rewrite E.
  now rewrite inStockOf_app by exact F.
Qed.

Lemma fallbacks_only_append_witness :
  exists res st' new,
    getRankedOffers noUrlApi Sample.liveOff Sample.timeouts "p1" "u1" "BALANCED" true
      Sample.watchStore
      = (Fulfilled res, st') /\
    Store.offers st' = Store.offers Sample.watchStore ++ new /\
    Store.products st' = Store.products Sample.watchStore /\
    Store.watchlist st' = Store.watchlist Sample.watchStore /\
    Store.pendingNotifications st' = Store.pendingNotifications Sample.watchStore /\
    (List.length new <= 3)%nat /\
    ((3 <= List.length (inStockOf "p1" (Store.offers Sample.watchStore)))%nat ->
     new = []) /\
    Forall (syntheticOffer "p1") new /\
    NoDup (map Offer.vendorId new) /\
    (forall o e, In o new -> In e (inStockOf "p1" (Store.offers Sample.watchStore)) ->
       Offer.vendorId o <> Offer.vendorId e) /\
    RankedOffers.offers res
      = map normalizeOffer (inStockOf "p1" (Store.offers Sample.watchStore) ++ new).
Proof.
  apply (fallbacks_only_append noUrlApi Sample.liveOff Sample.timeouts
           Sample.watchStore "p1" "u1" "BALANCED").
  reflexivity.
Defined.

End SynthesisFacts.

(** ** The pick of the provider *)

Module PickFacts.
Import WebSearchProvider ProviderTerms.

Lemma compareCandidates_trans :
  forall pref a b c,
    compareCandidates pref a b <= 0 -> compareCandidates pref b c <= 0 ->
    compareCandidates pref a c <= 0.
Proof.
  intros pref a b c. unfold compareCandidates.
  destruct (pref =? "FASTEST_SHIPPING")%string;
    [| destruct (pref =? "BEST_PRICE")%string];
    repeat match goal with
           | |- context [negb (?x =? ?y)] => destruct (Z.eqb_spec x y)
           end; cbn [negb]; lia.
Qed.

Lemma compareCandidates_flip :
  forall pref a b, 0 < compareCandidates pref a b -> compareCandidates pref b a < 0.
Proof.
  intros pref a b. unfold compareCandidates.
  destruct (pref =? "FASTEST_SHIPPING")%string;
    [| destruct (pref =? "BEST_PRICE")%string];
    repeat match goal with
           | |- context [negb (?x =? ?y)] => destruct (Z.eqb_spec x y)
           end; cbn [negb]; lia.
Qed.

(** [pickBestOffer] returns nothing only for an empty list; otherwise the
    first candidate, in input order, with the least key of the strategy:
    the ETA under [FASTEST_SHIPPING], the price alone under [BEST_PRICE],
    and price plus shipping, then the ETA, under any other strategy name
    in the ASCII range. *)
Theorem pickBestOffer_least_key :
  forall (offers : list Candidate.t) (strategy : string),
    (offers = [] -> pickBestOffer offers strategy = None) /\
    (offers <> [] ->
     exists pre c post,
       offers = pre ++ c :: post /\
       pickBestOffer offers strategy = Some c /\
       (Js.toUpperCase (Js.orElse strategy "BALANCED") = "FASTEST_SHIPPING" ->
        (forall d, In d offers -> etaKey c <= etaKey d) /\
        (forall d, In d pre -> etaKey c < etaKey d)) /\
       (Js.toUpperCase (Js.orElse strategy "BALANCED") = "BEST_PRICE" ->
        (forall d, In d offers -> priceKey c <= priceKey d) /\
        (forall d, In d pre -> priceKey c < priceKey d)) /\
       (Vocabulary.asciiOnly strategy = true ->
        Js.toUpperCase (Js.orElse strategy "BALANCED") <> "FASTEST_SHIPPING" ->
        Js.toUpperCase (Js.orElse strategy "BALANCED") <> "BEST_PRICE" ->
        (forall d, In d offers ->
           totalKey c < totalKey d \/
           (totalKey c = totalKey d /\ etaKey c <= etaKey d)) /\
        (forall d, In d pre ->
           totalKey c < totalKey d \/
           (totalKey c = totalKey d /\ etaKey c < etaKey d)))).
Proof.
  intros offers strategy. split; [intros ->; reflexivity |].
  intros Hne. unfold pickBestOffer.
  set (pref := Js.toUpperCase (Js.orElse strategy "BALANCED")).
  destruct (sort_head_first_min _ (compareCandidates pref)
              (compareCandidates_trans pref) (compareCandidates_flip pref)
              _ Hne)
    as (pre & c & post & rest & Hsplit & Hsort & Hmin & Hpre).
  exists pre, c, post. split; [exact Hsplit |].
  split; [now rewrite Hsort |].
  split; [| split].
  - intros Hp. split; intros d Hd.
    + specialize (Hmin d Hd). unfold compareCandidates in Hmin.
      rewrite Hp in Hmin. cbn [String.eqb Ascii.eqb Bool.eqb] in Hmin.
      unfold etaKey. lia.
    + specialize (Hpre d Hd). unfold compareCandidates in Hpre.
      rewrite Hp in Hpre. cbn [String.eqb Ascii.eqb Bool.eqb] in Hpre.
      unfold etaKey. lia.
  - intros Hp. split; intros d Hd.
    + specialize (Hmin d Hd). unfold compareCandidates in Hmin.
      rewrite Hp in Hmin. cbn [String.eqb Ascii.eqb Bool.eqb] in Hmin.
      unfold priceKey. lia.
    + specialize (Hpre d Hd). unfold compareCandidates in Hpre.
      rewrite Hp in Hpre. cbn [String.eqb Ascii.eqb Bool.eqb] in Hpre.
      unfold priceKey. lia.
  - intros _ Hf Hb. apply String.eqb_neq in Hf, Hb. split; intros d Hd.
    + specialize (Hmin d Hd). unfold compareCandidates in Hmin.
      rewrite Hf, Hb in Hmin. unfold totalKey, priceKey, etaKey.
      destruct (Z.eqb_spec
                  (orDefault (Candidate.priceCents c) (10 ^ 12)
                   + orDefault (Some (Candidate.shippingCents c)) 0)
                  (orDefault (Candidate.priceCents d) (10 ^ 12)
                   + orDefault (Some (Candidate.shippingCents d)) 0));
        cbn [negb] in Hmin; lia.
    + specialize (Hpre d Hd). unfold compareCandidates in Hpre.
      rewrite Hf, Hb in Hpre. unfold totalKey, priceKey, etaKey.
      destruct (Z.eqb_spec
                  (orDefault (Candidate.priceCents c) (10 ^ 12)
                   + orDefault (Some (Candidate.shippingCents c)) 0)
                  (orDefault (Candidate.priceCents d) (10 ^ 12)
                   + orDefault (Some (Candidate.shippingCents d)) 0));
        cbn [negb] in Hpre; lia.
Qed.

End PickFacts.

(** ** Amazon product identifiers *)

Module AsinFacts.
Import WebSearchProvider Vocabulary ProviderFacts.

Lemma takeN_all : forall s, takeN (String.length s) s = Some (s, "").
Proof.
  induction s as [| c s IH]; [reflexivity |].
  cbn [String.length takeN]. now rewrite IH.
Qed.

Lemma asinChar_alnum :
  forall c, SerpApiProxy.isAsinChar c = true -> isAlnum c = true.
Proof.
  intros c. unfold SerpApiProxy.isAsinChar, isAlnum.
  destruct (Js.isUpper c), (Js.isDigit c), (Js.isLower c); auto.
Qed.

Lemma asinAt_valid :
  forall a, SerpApiProxy.isValidAsin a = true -> asinAt a = Some a.
Proof.
  intros a Hv. unfold SerpApiProxy.isValidAsin in Hv.
  apply andb_prop in Hv. destruct Hv as [Hlen Hall].
  apply Nat.eqb_eq in Hlen. unfold asinAt.
  rewrite <- Hlen, takeN_all.
  rewrite (allChars_impl _ _ asinChar_alnum _ Hall). reflexivity.
Qed.

Lemma matchAsin_eq :
  forall u,
    matchAsin u =
    match
      match dropPrefixCI "/dp/" u with
      | Some r => asinAt r
      | None =>
          match dropPrefixCI "/gp/product/" u with
          | Some r => asinAt r
          | None => None
          end
      end
    with
    | Some a => Some a
    | None =>
        match u with
        | EmptyString => None
        | String _ u' => matchAsin u'
        end
    end.
Proof. destruct u; reflexivity. Qed.

Lemma matchAsin_skip :
  forall c u,
    dropPrefixCI "/dp/" (String c u) = None ->
    dropPrefixCI "/gp/product/" (String c u) = None ->
    matchAsin (String c u) = matchAsin u.
Proof.
  intros c u H1 H2. rewrite matchAsin_eq. now rewrite H1, H2.
Qed.

Lemma matchAsin_dp :
  forall a,
    SerpApiProxy.isValidAsin a = true -> matchAsin (amazonDp ++ a)%string = Some a.
Proof.
  intros a Hv. unfold amazonDp. cbn [append].
  repeat (rewrite matchAsin_skip by reflexivity).
  rewrite matchAsin_eq.
  change (dropPrefixCI "/dp/" (String "/" (String "d" (String "p" (String "/" a)))))
    with (Some a).
  cbv beta iota. now rewrite (asinAt_valid a Hv).
Qed.

(** The ASIN read from a URL is empty or a valid ASIN (ten upper-case
    letters or digits), and the canonical Amazon listing URL of an ASIN,
    whatever the raw link that came with it, reads back as that ASIN. *)
Theorem amazon_asin_round_trip :
  (forall url,
     extractAmazonAsinFromUrl url = "" \/
     SerpApiProxy.isValidAsin (extractAmazonAsinFromUrl url) = true) /\
  (forall asin rawLink,
     SerpApiProxy.isValidAsin (Js.toUpperCase (Js.trim asin)) = true ->
     SerpApiProxy.canonicalAmazonProductUrl asin rawLink
       = ("https://www.amazon.com/dp/" ++ Js.toUpperCase (Js.trim asin))%string /\
     extractAmazonAsinFromUrl (SerpApiProxy.canonicalAmazonProductUrl asin rawLink)
       = Js.toUpperCase (Js.trim asin)).
Proof.
  split.
  - intros url.
    destruct (Js.truthy (extractAmazonAsinFromUrl url)) eqn:Ht.
    + right. now apply extractAmazonAsin_valid.
    + left. unfold Js.truthy in Ht. apply negb_false_iff in Ht.
      now apply String.eqb_eq in Ht.
  - intros asin rawLink Hv.
    assert (Hc : SerpApiProxy.canonicalAmazonProductUrl asin rawLink
                 = (amazonDp ++ Js.toUpperCase (Js.trim asin))%string).
    { unfold SerpApiProxy.canonicalAmazonProductUrl. now rewrite Hv. }
    split; [exact Hc |].
    rewrite Hc. unfold extractAmazonAsinFromUrl.
    rewrite (matchAsin_dp _ Hv).
    apply upper_asin. unfold SerpApiProxy.isValidAsin in Hv.
    apply andb_prop in Hv. tauto.
Qed.

Lemma amazon_asin_round_trip_witness :
  SerpApiProxy.canonicalAmazonProductUrl " b09xs7jwhh " "ftp://example.test"
    = "https://www.amazon.com/dp/B09XS7JWHH" /\
  extractAmazonAsinFromUrl
    (SerpApiProxy.canonicalAmazonProductUrl " b09xs7jwhh " "ftp://example.test")
    = "B09XS7JWHH".
Proof.
  apply (proj2 amazon_asin_round_trip " b09xs7jwhh " "ftp://example.test").
  reflexivity.
Defined.

End AsinFacts.

(** ** The offers of the provider *)

Module CandidateFacts.
Import WebSearchProvider Vocabulary ProviderFacts ProviderTerms.

Lemma seenHas_In : forall seen v, seenHas seen v = true <-> In v seen.
Proof.
  intros seen v. unfold seenHas. rewrite existsb_exists. split.
  - intros (x & Hx & He). apply String.eqb_eq in He. now subst.
  - intros H. exists v. split; [exact H | apply String.eqb_refl].
Qed.

Lemma estimateEta_range :
  forall text d, estimateEtaDaysFromText text = Some d -> 1 <= d <= 14.
Proof.
  intros text d H. unfold estimateEtaDaysFromText in H.
  destruct (matchDays _); [| discriminate]. injection H as <-. lia.
Qed.

Lemma orDefault_eta :
  forall text dflt,
    1 <= dflt <= 14 ->
    1 <= orDefault (estimateEtaDaysFromText text) dflt <= 14.
Proof.
  intros text dflt Hd. destruct (estimateEtaDaysFromText text) as [d |] eqn:E;
    cbn [orDefault]; [| exact Hd].
  pose proof (estimateEta_range _ _ E). destruct (d =? 0); lia.
Qed.

Lemma toCents_nonneg : forall q c, toCents q = Some c -> 0 <= c.
Proof.
  intros q c H. unfold toCents in H. cbv zeta in H.
  destruct (Qle_bool (Double.round q) 0) eqn:E; [discriminate |].
  injection H as <-.
  assert (Hq : (0 < Double.round q)%Q).
  { apply Qnot_le_lt. intros Hle. apply Qle_bool_iff in Hle. congruence. }
  assert (Hm : (0 <= Double.mul (Double.round q) 100)%Q).
  { unfold Double.mul. apply DoubleFacts.round_nonneg. lra. }
  unfold Js.round. change 0 with (Qfloor 0). apply Qfloor_resp_le. lra.
Qed.

(** A price of 1.005 is 100 cents: the double [1.005 * 100] lies below
    100.5. *)
Example toCents_of_1005 : toCents (1005 # 1000) = Some 100.
Proof. vm_compute. reflexivity. Qed.

Lemma parsePriceCents_nonneg :
  forall v c, parsePriceCents v = Some c -> 0 <= c.
Proof.
  intros v c H. destruct v as [| n | s]; cbn [parsePriceCents] in H.
  - discriminate.
  - eapply toCents_nonneg; eauto.
  - destruct (firstDecimal _); [| discriminate]. eapply toCents_nonneg; eauto.
Qed.

Lemma amazonCandidate_wf :
  forall api r idx c,
    amazonCandidate api r idx = Some c ->
    Candidate.vendorId c = "web:amazon" /\
    Candidate.inStock c = true /\
    Candidate.shippingCents c = 0 /\
    1 <= Candidate.etaDays c <= 14 /\
    (forall p, Candidate.priceCents c = Some p -> 0 <= p).
Proof.
  intros api r idx c H. unfold amazonCandidate in H.
  destruct (negb _); [discriminate |]. injection H as <-.
  unfold normalizeOfferBase.
  cbn [Candidate.vendorId Candidate.inStock Candidate.shippingCents
       Candidate.etaDays Candidate.priceCents].
  repeat split; try (apply orDefault_eta; lia).
  intros p Hp. eapply parsePriceCents_nonneg; eauto.
Qed.

Lemma retailerOf_ids :
  forall host link v n,
    retailerOf host link = Some (v, n) ->
    In v ["web:ebay"; "web:walmart"; "web:target"; "web:bestbuy"; "web:newegg"].
Proof.
  intros host link v n H. unfold retailerOf in H.
  repeat match type of H with
         | (if ?b then _ else _) = _ => destruct b
         end; try discriminate; injection H as <- <-; simpl; tauto.
Qed.

Lemma shoppingCandidate_wf :
  forall api r idx c,
    shoppingCandidate api r idx = Some c ->
    In (Candidate.vendorId c)
       ["web:ebay"; "web:walmart"; "web:target"; "web:bestbuy"; "web:newegg"] /\
    Candidate.inStock c = true /\
    Candidate.shippingCents c = 0 /\
    1 <= Candidate.etaDays c <= 14 /\
    (forall p, Candidate.priceCents c = Some p -> 0 <= p).
Proof.
  intros api r idx c H. unfold shoppingCandidate in H.
  repeat match type of H with
         | (if ?b then _ else _) = _ => destruct b; [discriminate |]
         end.
  destruct (retailerOf _ _) as [[v n] |] eqn:Hr; [| discriminate].
  injection H as <-. unfold normalizeOfferBase.
  cbn [Candidate.vendorId Candidate.inStock Candidate.shippingCents
       Candidate.etaDays Candidate.priceCents].
  split; [eapply retailerOf_ids; eauto |].
  repeat split; try (apply orDefault_eta; lia).
  intros p Hp. eapply parsePriceCents_nonneg; eauto.
Qed.

Lemma priced_wf :
  forall api serp c,
    In c (pricedShoppingCandidates api serp) ->
    wellFormedCandidate c /\ Candidate.vendorId c <> "web:amazon".
Proof.
  intros api serp c Hc. unfold pricedShoppingCandidates in Hc.
  apply filter_In in Hc. destruct Hc as [Hc Hp].
  apply mapFilterIdx_In in Hc. destruct Hc as (r & i & _ & Hr).
  destruct (shoppingCandidate_wf _ _ _ _ Hr) as (Hv & Hs & Hsh & He & Hn).
  assert (Hne : Candidate.vendorId c <> "web:amazon").
  { intros Heq. rewrite Heq in Hv. simpl in Hv. intuition discriminate. }
  split; [| exact Hne].
  unfold wellFormedCandidate. repeat split; auto; try lia.
  - unfold webVendorIds. simpl in *. tauto.
  - intros _. unfold hasPrice in Hp.
    destruct (Candidate.priceCents c) as [p |]; [| discriminate].
    exists p. split; [reflexivity |]. now apply Z.ltb_lt.
Qed.

Lemma orZ_nonneg :
  forall a b,
    (forall p, a = Some p -> 0 <= p) -> (forall p, b = Some p -> 0 <= p) ->
    forall p, orZ a b = Some p -> 0 <= p.
Proof.
  intros a b Ha Hb p. unfold orZ. destruct (truthyZ a); auto.
Qed.

Lemma hydrate_wf :
  forall api seed detail,
    Candidate.vendorId seed = "web:amazon" ->
    Candidate.inStock seed = true ->
    Candidate.shippingCents seed = 0 ->
    1 <= Candidate.etaDays seed <= 14 ->
    (forall p, Candidate.priceCents seed = Some p -> 0 <= p) ->
    wellFormedCandidate (hydrate api seed detail).
Proof.
  intros api seed detail Hv Hs Hsh He Hp. unfold wellFormedCandidate, hydrate.
  cbn [Candidate.vendorId Candidate.inStock Candidate.shippingCents
       Candidate.etaDays Candidate.priceCents].
  rewrite Hv. split; [simpl; tauto |]. split; [exact Hs |].
  split; [exact Hsh |]. split; [| split; [| congruence]].
  - unfold orZ, orDefault.
    destruct detail as [d |].
    + destruct (estimateEtaDaysFromText (AmazonDetail.delivery d)) as [x |] eqn:E.
      * pose proof (estimateEta_range _ _ E).
        cbn [truthyZ]. destruct (Z.eqb_spec x 0); cbn [negb]; [lia |].
        destruct (Z.eqb_spec x 0); lia.
      * cbn [truthyZ]. destruct (Z.eqb_spec (Candidate.etaDays seed) 0); lia.
    + cbn [truthyZ]. destruct (Z.eqb_spec (Candidate.etaDays seed) 0); lia.
  - apply orZ_nonneg; [| exact Hp]. apply orZ_nonneg.
    + intros p. destruct detail as [d |]; [| discriminate].
      destruct (AmazonDetail.extractedPrice d) as [q |]; [| discriminate].
      destruct (Qle_bool q 0); [discriminate |]. apply toCents_nonneg.
    + intros p. destruct detail as [d |]; [| discriminate].
      apply parsePriceCents_nonneg.
Qed.

Lemma fetchAmazonOffer_wf :
  forall api w query strategy a,
    fetchAmazonOffer api w query strategy = Fulfilled (Some a) ->
    wellFormedCandidate a /\ Candidate.vendorId a = "web:amazon".
Proof.
  intros api w query strategy a H. unfold fetchAmazonOffer in H.
  destruct (World.searchOffersViaSerpApi w query "amazon.com" "amazon")
    as [serp | e]; [| discriminate].
  destruct (pickBestOffer _ strategy) as [seed |] eqn:Hpick; [| discriminate].
  apply pickBestOffer_In in Hpick.
  apply mapFilterIdx_In in Hpick. destruct Hpick as (r & i & _ & Hc).
  destruct (amazonCandidate_wf _ _ _ _ Hc) as (Hv & Hs & Hsh & He & Hp).
  destruct (SerpApiProxy.fetchAmazonProductViaSerpApi w (Candidate.asin seed))
    as [detail | e]; injection H as <-.
  - split; [now apply hydrate_wf |]. unfold hydrate. cbn [Candidate.vendorId].
    exact Hv.
  - split; [| exact Hv]. unfold wellFormedCandidate. rewrite Hv.
    repeat split; auto; try lia; [simpl; tauto | congruence].
Qed.

(** *** The slots of the shopping adapter *)

Lemma fillSlots_length :
  forall sorted out seen,
    (List.length out <= 1)%nat ->
    (List.length (fillSlots sorted out seen) <= 2)%nat.
Proof.
  induction sorted as [| c rest IH]; intros out seen Hout; cbn [fillSlots]; [lia |].
  destruct (seenHas seen (Candidate.vendorId c)); [now apply IH |].
  destruct (2 <=? List.length (out ++ [c]))%nat eqn:E.
  - rewrite length_app. simpl. lia.
  - apply IH. apply Nat.leb_gt in E. lia.
Qed.

Lemma fillSlots_NoDup :
  forall sorted out seen,
    NoDup (map Candidate.vendorId out) ->
    (forall c, In c out -> In (Candidate.vendorId c) seen) ->
    NoDup (map Candidate.vendorId (fillSlots sorted out seen)).
Proof.
  induction sorted as [| c rest IH]; intros out seen Hnd Hseen; cbn [fillSlots];
    [exact Hnd |].
  destruct (seenHas seen (Candidate.vendorId c)) eqn:Hs; [now apply IH |].
  assert (Hnd' : NoDup (map Candidate.vendorId (out ++ [c]))).
  { rewrite map_app. apply NoDup_app; [exact Hnd | repeat constructor; simpl; tauto |].
    intros v Hv [<- | []].
    apply in_map_iff in Hv. destruct Hv as (x & Hx & Hin).
    assert (In (Candidate.vendorId c) seen) by (rewrite <- Hx; auto).
    apply seenHas_In in H. congruence. }
  destruct (2 <=? _)%nat; [exact Hnd' |].
  apply IH; [exact Hnd' |].
  intros x Hx. apply in_app_or in Hx. destruct Hx as [Hx | [<- | []]].
  - right. auto.
  - now left.
Qed.

Lemma fillSlots_head :
  forall sorted e seen,
    exists rest, fillSlots sorted [e] seen = e :: rest.
Proof.
  induction sorted as [| c rest IH]; intros e seen; cbn [fillSlots].
  - now exists [].
  - destruct (seenHas seen (Candidate.vendorId c)); [apply IH |].
    cbn [app List.length Nat.leb]. now exists [c].
Qed.

Lemma fillSlots_skips_seen :
  forall sorted out seen c,
    In c (fillSlots sorted out seen) ->
    In c out \/ ~ In (Candidate.vendorId c) seen.
Proof.
  induction sorted as [| d rest IH]; intros out seen c H; cbn [fillSlots] in H;
    [now left |].
  destruct (seenHas seen (Candidate.vendorId d)) eqn:Hs; [now apply IH |].
  assert (Hd : ~ In (Candidate.vendorId d) seen).
  { intros Hin. apply seenHas_In in Hin. congruence. }
  destruct (2 <=? _)%nat.
  - apply in_app_or in H. destruct H as [H | [<- | []]]; auto.
  - destruct (IH _ _ _ H) as [H' | H'].
    + apply in_app_or in H'. destruct H' as [H' | [<- | []]]; auto.
    + right. intros Hin. apply H'. now right.
Qed.

(** The shopping adapter returns at most two offers, of distinct
    retailers, each a priced candidate of the search (never an Amazon one);
    and when the search has a priced eBay candidate, the first offer
    returned is an eBay offer and no other one is. *)
Theorem shopping_prefers_ebay :
  forall (api : Url.Api) (w : World.t) (query strategy : string)
         (serp : list SerpResult.t),
    World.searchOffersViaSerpApi w query "" "google_shopping" = Fulfilled serp ->
    exists l,
      fetchShoppingVendors api w query strategy = Fulfilled l /\
      (List.length l <= 2)%nat /\
      NoDup (map Candidate.vendorId l) /\
      (forall c, In c l ->
         In c (pricedShoppingCandidates api serp) /\
         wellFormedCandidate c /\ Candidate.vendorId c <> "web:amazon") /\
      ((exists c, In c (pricedShoppingCandidates api serp) /\
                  Candidate.vendorId c = "web:ebay") ->
       exists e rest,
         l = e :: rest /\ Candidate.vendorId e = "web:ebay" /\
         forall c, In c rest -> Candidate.vendorId c <> "web:ebay") /\
      ((forall c, In c (pricedShoppingCandidates api serp) ->
                  Candidate.vendorId c <> "web:ebay") ->
       forall c, In c l -> Candidate.vendorId c <> "web:ebay").
Proof.
  intros api w query strategy serp Hserp.
  unfold fetchShoppingVendors. rewrite Hserp.
  fold (pricedShoppingCandidates api serp).
  set (cands := pricedShoppingCandidates api serp).
  set (ebays := filter (fun c => (Candidate.vendorId c =? "web:ebay")%string) cands).
  set (sorted := Js.sort _ cands).
  assert (Hsorted : forall c, In c sorted -> In c cands).
  { intros c Hc. unfold sorted in Hc. eapply In_sort; eauto. }
  destruct (pickBestOffer ebays strategy) as [e |] eqn:Hpick.
  - assert (He : In e cands /\ Candidate.vendorId e = "web:ebay").
    { apply pickBestOffer_In in Hpick. unfold ebays in Hpick.
      apply filter_In in Hpick. destruct Hpick as [H1 H2].
      now apply String.eqb_eq in H2. }
    destruct He as [Hin Hv].
    eexists. split; [reflexivity |].
    assert (Hmem : forall c, In c (fillSlots sorted [e] [Candidate.vendorId e]) ->
                             In c cands).
    { intros c Hc. apply fillSlots_In in Hc.
      destruct Hc as [Hc | [<- | []]]; auto. }
    assert (Hnd : NoDup (map Candidate.vendorId
                           (fillSlots sorted [e] [Candidate.vendorId e]))).
    { apply fillSlots_NoDup.
      - repeat constructor. simpl. tauto.
      - intros c [<- | []]. now left. }
    split; [apply fillSlots_length; simpl; lia |].
    split; [exact Hnd |].
    split; [| split].
    + intros c Hc. split; [auto |]. apply (priced_wf api serp). auto.
    + intros _. destruct (fillSlots_head sorted e [Candidate.vendorId e])
        as (rest & Hr).
      exists e, rest. split; [exact Hr |]. split; [exact Hv |].
      intros c Hc Hcv. rewrite Hr in Hnd. cbn [map] in Hnd.
      inversion Hnd as [| x xs Hnot _]; subst. apply Hnot.
      rewrite Hv, <- Hcv. now apply in_map.
    + intros Hno. exfalso. exact (Hno e Hin Hv).
  - assert (Hnone : forall c, In c cands -> Candidate.vendorId c <> "web:ebay").
    { intros c Hc Hv.
      assert (Hin : In c ebays).
      { unfold ebays. apply filter_In. split; [exact Hc |].
        now apply String.eqb_eq. }
      unfold pickBestOffer in Hpick.
      destruct (Js.sort _ ebays) as [| h t] eqn:Hs; [| discriminate].
      assert (In c (Js.sort
                      (compareCandidates (Js.toUpperCase (Js.orElse strategy "BALANCED")))
                      ebays)) by (apply In_sort; exact Hin).
      rewrite Hs in H. destruct H. }
    eexists. split; [reflexivity |].
    assert (Hmem : forall c, In c (fillSlots sorted [] []) -> In c cands).
    { intros c Hc. apply fillSlots_In in Hc. destruct Hc as [Hc | []]. auto. }
    split; [apply fillSlots_length; simpl; lia |].
    split; [apply fillSlots_NoDup; [constructor | intros c []] |].
    split; [| split].
    + intros c Hc. split; [auto |]. apply (priced_wf api serp). auto.
    + intros (c & Hc & Hv). exfalso. exact (Hnone c Hc Hv).
    + intros _ c Hc. apply Hnone. auto.
Qed.

(** The shopping scenario, run: the eBay listing comes first although the
    Walmart one is cheaper. *)
Example shopping_scenario :
  option_map (map Candidate.vendorId)
    (match fetchShoppingVendors Fixtures.httpsUrlApi Fixtures.shoppingWorld
             "sony wh-1000xm5" "BEST_PRICE" with
     | Fulfilled l => Some l
     | Rejected _ => None
     end)
  = Some ["web:ebay"; "web:walmart"].
Proof. vm_compute. reflexivity. Qed.

Lemma shopping_prefers_ebay_witness :
  exists l,
    fetchShoppingVendors Fixtures.httpsUrlApi Fixtures.shoppingWorld
      "sony wh-1000xm5" "BEST_PRICE" = Fulfilled l /\
    (List.length l <= 2)%nat /\
    NoDup (map Candidate.vendorId l) /\
    (forall c, In c l ->
       In c (pricedShoppingCandidates Fixtures.httpsUrlApi Fixtures.shoppingResults) /\
       wellFormedCandidate c /\ Candidate.vendorId c <> "web:amazon") /\
    ((exists c, In c (pricedShoppingCandidates Fixtures.httpsUrlApi
                        Fixtures.shoppingResults) /\
                Candidate.vendorId c = "web:ebay") ->
     exists e rest,
       l = e :: rest /\ Candidate.vendorId e = "web:ebay" /\
       forall c, In c rest -> Candidate.vendorId c <> "web:ebay") /\
    ((forall c, In c (pricedShoppingCandidates Fixtures.httpsUrlApi
                        Fixtures.shoppingResults) ->
                Candidate.vendorId c <> "web:ebay") ->
     forall c, In c l -> Candidate.vendorId c <> "web:ebay").
Proof.
  apply (shopping_prefers_ebay Fixtures.httpsUrlApi Fixtures.shoppingWorld
           "sony wh-1000xm5" "BEST_PRICE" Fixtures.shoppingResults).
  reflexivity.
Defined.

Lemma fetchShoppingVendors_wf :
  forall api w query strategy l,
    fetchShoppingVendors api w query strategy = Fulfilled l ->
    (List.length l <= 2)%nat /\
    forall c, In c l ->
      wellFormedCandidate c /\ Candidate.vendorId c <> "web:amazon".
Proof.
  intros api w query strategy l H. unfold fetchShoppingVendors in H.
  destruct (World.searchOffersViaSerpApi w query "" "google_shopping")
    as [serp | e]; [| discriminate].
  fold (pricedShoppingCandidates api serp) in H.
  destruct (pickBestOffer _ strategy) as [e |] eqn:Hpick; injection H as <-.
  - split; [apply fillSlots_length; simpl; lia |].
    intros c Hc. apply (priced_wf api serp).
    apply fillSlots_In in Hc. destruct Hc as [Hc | [<- | []]].
    + eapply In_sort; eauto.
    + apply pickBestOffer_In in Hpick. apply filter_In in Hpick. tauto.
  - split; [apply fillSlots_length; simpl; lia |].
    intros c Hc. apply (priced_wf api serp).
    apply fillSlots_In in Hc. destruct Hc as [Hc | []].
    eapply In_sort; eauto.
Qed.

Lemma uniqueVendors_NoDup :
  forall out seen,
    NoDup (map Candidate.vendorId (uniqueVendors seen out)) /\
    forall c, In c (uniqueVendors seen out) ->
      ~ In (Candidate.vendorId c) seen /\ Candidate.vendorId c <> "".
Proof.
  induction out as [| o rest IH]; intros seen; cbn [uniqueVendors].
  - split; [constructor | intros c []].
  - destruct (negb (Js.truthy (Candidate.vendorId o))) eqn:Ht; [apply IH |].
    destruct (seenHas seen (Candidate.vendorId o)) eqn:Hs; [apply IH |].
    destruct (IH (Candidate.vendorId o :: seen)) as [Hnd Hall].
    assert (Ho : ~ In (Candidate.vendorId o) seen).
    { intros Hin. apply seenHas_In in Hin. congruence. }
    assert (Hne : Candidate.vendorId o <> "").
    { intros Heq. rewrite Heq in Ht. discriminate. }
    split.
    + cbn [map]. constructor; [| exact Hnd].
      intros Hin. apply in_map_iff in Hin. destruct Hin as (x & Hx & Hin).
      destruct (Hall x Hin) as [Hnot _]. apply Hnot. left. now rewrite Hx.
    + intros c [<- | Hc]; [auto |].
      destruct (Hall c Hc) as [Hnot Hc']. split; [| exact Hc'].
      intros Hin. apply Hnot. now right.
Qed.

Lemma uniqueVendors_length :
  forall out seen,
    (List.length (uniqueVendors seen out) <= List.length out)%nat.
Proof.
  induction out as [| o rest IH]; intros seen; cbn [uniqueVendors List.length];
    [lia |].
  destruct (negb _); [specialize (IH seen); lia |].
  destruct (seenHas _ _); [specialize (IH seen); lia |].
  cbn [List.length]. specialize (IH (Candidate.vendorId o :: seen)). lia.
Qed.

(** Whatever the searches answer, the provider hands the aggregator at
    most three offers, under pairwise distinct, non-empty vendor ids, each
    in stock, with free shipping, an ETA between 1 and 14 days, a vendor id
    of the six known retailers, no negative price, and, for every retailer
    but Amazon, a price above zero. *)
Theorem provider_offers_are_well_formed :
  forall (api : Url.Api) (cfg : Config.t) (w : World.t) (query strategy : string),
    exists cs,
      fetchTopOffers api cfg w query strategy = Fulfilled cs /\
      (List.length cs <= 3)%nat /\
      NoDup (map Candidate.vendorId cs) /\
      (forall c, In c cs ->
         Candidate.vendorId c <> "" /\ wellFormedCandidate c).
Proof.
  intros api cfg w query strategy. unfold fetchTopOffers.
  destruct (negb (Config.enableWebSearchOffers cfg)).
  { exists []. split; [reflexivity |]. split; [simpl; lia |].
    split; [constructor | intros c []]. }
  destruct (negb (Config.enableSerpApiProxy cfg) || _).
  { exists []. split; [reflexivity |]. split; [simpl; lia |].
    split; [constructor | intros c []]. }
  destruct (negb (Js.truthy (normalizeWhitespace query))).
  { exists []. split; [reflexivity |]. split; [simpl; lia |].
    split; [constructor | intros c []]. }
  set (q := normalizeWhitespace query).
  set (out1 := match fetchAmazonOffer api w q strategy with
               | Fulfilled (Some a) => [a]
               | _ => []
               end).
  set (out2 := match fetchShoppingVendors api w q strategy with
               | Fulfilled l => l
               | Rejected _ => []
               end).
  assert (H1 : (List.length out1 <= 1)%nat /\
               forall c, In c out1 -> wellFormedCandidate c).
  { unfold out1.
    destruct (fetchAmazonOffer api w q strategy) as [[a |] | e] eqn:Ha;
      (split; [simpl; lia |]).
    - intros c [<- | []]. eapply fetchAmazonOffer_wf; eauto.
    - intros c Hc. destruct Hc.
    - intros c Hc. destruct Hc. }
  assert (H2 : (List.length out2 <= 2)%nat /\
               forall c, In c out2 -> wellFormedCandidate c).
  { unfold out2.
    destruct (fetchShoppingVendors api w q strategy) as [l | e] eqn:Hl.
    - destruct (fetchShoppingVendors_wf _ _ _ _ _ Hl) as [Hlen Hwf].
      split; [exact Hlen |]. intros c Hc. now apply Hwf.
    - split; [simpl; lia | intros c []]. }
  destruct H1 as [L1 W1]. destruct H2 as [L2 W2].
  eexists. split; [reflexivity |].
  destruct (uniqueVendors_NoDup (out1 ++ out2) []) as [Hnd Hall].
  split; [| split; [exact Hnd |]].
  - pose proof (uniqueVendors_length (out1 ++ out2) []) as Hl.
    rewrite length_app in Hl. lia.
  - intros c Hc. split; [apply (Hall c Hc) |].
    apply uniqueVendors_In in Hc. apply in_app_or in Hc.
    destruct Hc as [Hc | Hc]; auto.
Qed.

End CandidateFacts.

(** ** The response cache *)

Module CacheFacts.
Import SerpCache CacheTerms.

Section Facts.
Variable P : Type.
Variable truthyP : P -> bool.
Variable ttl : option Z.

Lemma mapHas_In :
  forall k (m : SerpCache.t P), mapHas k m = true <-> In k (map fst m).
Proof.
  intros k m. unfold mapHas. rewrite existsb_exists, in_map_iff. split.
  - intros (kv & Hin & He). apply String.eqb_eq in He. eauto.
  - intros (kv & He & Hin). exists kv. split; [exact Hin |].
    now apply String.eqb_eq.
Qed.

Lemma mapGet_set :
  forall k v (m : SerpCache.t P), mapGet k (mapSet k v m) = Some v.
Proof.
  intros k v m. unfold mapSet. destruct (mapHas k m) eqn:Hh.
  - unfold mapGet. unfold mapHas in Hh.
    induction m as [| kv m IH]; [discriminate |].
    cbn [map find existsb] in *.
    destruct (fst kv =? k)%string eqn:E.
    + cbn [fst]. now rewrite String.eqb_refl.
    + rewrite E. apply IH. cbn [orb] in Hh. exact Hh.
  - unfold mapGet. unfold mapHas in Hh.
    induction m as [| kv m IH]; cbn [app find].
    + cbn [fst]. now rewrite String.eqb_refl.
    + cbn [existsb] in Hh. apply orb_false_iff in Hh. destruct Hh as [H1 H2].
      rewrite H1. now apply IH.
Qed.

Lemma mapGet_delete_other :
  forall k k0 (m : SerpCache.t P),
    k0 <> k -> mapGet k (mapDelete k0 m) = mapGet k m.
Proof.
  intros k k0 m Hne. unfold mapGet, mapDelete.
  induction m as [| kv m IH]; [reflexivity |].
  cbn [filter find].
  destruct (String.eqb_spec (fst kv) k0) as [He | Hn]; cbn [negb].
  - destruct (String.eqb_spec (fst kv) k) as [He' | _]; [congruence | exact IH].
  - cbn [find]. destruct (fst kv =? k)%string; [reflexivity | exact IH].
Qed.

Lemma mapGet_delete_same :
  forall k (m : SerpCache.t P), mapGet k (mapDelete k m) = None.
Proof.
  intros k m. unfold mapGet, mapDelete.
  induction m as [| kv m IH]; [reflexivity |].
  cbn [filter]. destruct (fst kv =? k)%string eqn:E; cbn [negb]; [exact IH |].
  cbn [find]. now rewrite E.
Qed.

Lemma mapSet_length :
  forall k v (m : SerpCache.t P),
    List.length (mapSet k v m)
    = if mapHas k m then List.length m else S (List.length m).
Proof.
  intros k v m. unfold mapSet. destruct (mapHas k m).
  - apply length_map.
  - rewrite length_app. simpl. lia.
Qed.

Lemma mapSet_keys :
  forall k v (m : SerpCache.t P),
    map fst (mapSet k v m)
    = if mapHas k m then map fst m else map fst m ++ [k].
Proof.
  intros k v m. unfold mapSet. destruct (mapHas k m).
  - rewrite map_map. apply map_ext. intros kv.
    destruct (String.eqb_spec (fst kv) k); [now subst | reflexivity].
  - now rewrite map_app.
Qed.

(** The entry a write stores is there after the write. *)
Lemma stored_after_set :
  forall now k p (m : SerpCache.t P),
    k <> "" -> truthyP p = true -> (List.length m <= 500)%nat ->
    mapGet k (setCachedSerpResponse truthyP now k p m)
    = Some {| payload := p; ts := now |}.
Proof.
  intros now k p m Hk Hp Hlen. unfold setCachedSerpResponse.
  apply String.eqb_neq in Hk. unfold Js.truthy. rewrite Hk, Hp. cbn [negb orb].
  cbv zeta. rewrite mapSet_length.
  destruct (mapHas k m) eqn:Hh.
  - replace (500 <? List.length m)%nat with false
      by (symmetry; apply Nat.ltb_ge; lia).
    apply mapGet_set.
  - destruct (500 <? S (List.length m))%nat eqn:Hbig; [| apply mapGet_set].
    destruct (mapSet k _ m) as [| [oldest e0] rest] eqn:Hm; [now rewrite <- Hm, mapGet_set |].
    destruct (negb (oldest =? "")%string); [| now rewrite <- Hm, mapGet_set].
    rewrite mapGet_delete_other; [now rewrite <- Hm, mapGet_set |].
    intros ->. unfold mapSet in Hm. rewrite Hh in Hm.
    destruct m as [| kv m']; [discriminate Hbig |].
    cbn [app] in Hm. injection Hm as Hkv _.
    unfold mapHas in Hh. cbn [existsb] in Hh. rewrite Hkv in Hh. cbn [fst] in Hh.
    now rewrite String.eqb_refl in Hh.
Qed.

End Facts.

(** A fresh entry is read back, and the read leaves the cache alone. *)
Lemma cache_read_hit :
  forall (P : Type) (truthyP : P -> bool) (limit : Z) (m : SerpCache.t P)
         (now later : Z) (key : string) (p : P),
    key <> "" ->
    truthyP p = true ->
    (List.length m <= 500)%nat ->
    later - now <= limit ->
    getCachedSerpResponse truthyP (Some limit) later key
      (setCachedSerpResponse truthyP now key p m)
    = (Some p, setCachedSerpResponse truthyP now key p m).
Proof.
  intros P truthyP limit m now later key p Hk Hp Hlen Hage.
  pose proof (stored_after_set P truthyP now key p m Hk Hp Hlen) as Hget.
  unfold getCachedSerpResponse. rewrite Hget.
  apply String.eqb_neq in Hk. unfold Js.truthy. rewrite Hk. cbn [negb].
  unfold expired. cbn [ts payload].
  replace (limit <? later - now) with false by (symmetry; apply Z.ltb_ge; lia).
  now rewrite Hp.
Qed.

(** A payload written to the cache is read back under its key as long as
    its age does not exceed the time to live, at whatever size below the
    cap the cache was; once it is older, the read answers [null] and drops
    the entry, so later reads answer [null] too, whatever the clock shows. *)
Theorem cache_read_after_write :
  forall (P : Type) (truthyP : P -> bool) (limit : Z) (m : SerpCache.t P)
         (now later : Z) (key : string) (p : P),
    key <> "" ->
    truthyP p = true ->
    (List.length m <= 500)%nat ->
    let m1 := setCachedSerpResponse truthyP now key p m in
    (later - now <= limit ->
     getCachedSerpResponse truthyP (Some limit) later key m1 = (Some p, m1)) /\
    (limit < later - now ->
     exists m2,
       getCachedSerpResponse truthyP (Some limit) later key m1 = (None, m2) /\
       forall again, getCachedSerpResponse truthyP (Some limit) again key m2
                     = (None, m2)).
Proof.
  intros P truthyP limit m now later key p Hk Hp Hlen m1.
  pose proof (stored_after_set P truthyP now key p m Hk Hp Hlen) as Hget.
  fold m1 in Hget.
  assert (Ht : negb (Js.truthy key) = false).
  { unfold Js.truthy. apply String.eqb_neq in Hk. now rewrite Hk. }
  split.
  - intros Hage. now apply cache_read_hit.
  - intros Hage. exists (mapDelete key m1). split.
    + unfold getCachedSerpResponse. rewrite Ht, Hget.
      unfold expired. cbn [ts].
      replace (limit <? later - now) with true by (symmetry; apply Z.ltb_lt; lia).
      reflexivity.
    + intros again. unfold getCachedSerpResponse. rewrite Ht.
      now rewrite mapGet_delete_same.
Qed.

Lemma cache_read_after_write_witness :
  let m1 := setCachedSerpResponse Js.truthy 2000 "k1" "{}" sampleCache in
  (301000 - 2000 <= 300000 ->
   getCachedSerpResponse Js.truthy (Some 300000) 301000 "k1" m1 = (Some "{}", m1)) /\
  (300000 < 301000 - 2000 ->
   exists m2,
     getCachedSerpResponse Js.truthy (Some 300000) 301000 "k1" m1 = (None, m2) /\
     forall again, getCachedSerpResponse Js.truthy (Some 300000) again "k1" m2
                   = (None, m2)).
Proof.
  apply (cache_read_after_write string Js.truthy 300000 sampleCache 2000 301000
           "k1" "{}").
  - discriminate.
  - reflexivity.
  - simpl. lia.
Defined.

Section Bound.
Variable P : Type.
Variable truthyP : P -> bool.
Variable ttl : option Z.

Lemma filter_length_le (A : Type) (f : A -> bool) :
  forall l, (List.length (filter f l) <= List.length l)%nat.
Proof.
  induction l as [| a l IH]; cbn [filter List.length]; [lia |].
  destruct (f a); cbn [List.length]; lia.
Qed.

Lemma delete_bounded_parts :
  forall k (m : SerpCache.t P),
    NoDup (map fst m) -> Forall (fun kv => fst kv <> "") m ->
    NoDup (map fst (mapDelete k m)) /\
    Forall (fun kv => fst kv <> "") (mapDelete k m).
Proof.
  intros k m Hnd Hall. unfold mapDelete. split.
  - induction m as [| kv m IH]; [constructor |].
    cbn [map] in Hnd. inversion Hnd as [| x xs Hnot Hnd']; subst.
    inversion Hall; subst.
    cbn [filter]. destruct (negb _); [| now apply IH].
    cbn [map]. constructor; [| now apply IH].
    intros Hin. apply Hnot. apply in_map_iff in Hin.
    destruct Hin as (y & Hy & Hin). apply filter_In in Hin.
    rewrite <- Hy. apply in_map. tauto.
  - apply Forall_forall. intros kv Hin. apply filter_In in Hin.
    rewrite Forall_forall in Hall. apply Hall. tauto.
Qed.

Lemma delete_head :
  forall k e (m : SerpCache.t P),
    NoDup (map fst ((k, e) :: m)) -> mapDelete k ((k, e) :: m) = m.
Proof.
  intros k e m Hnd. unfold mapDelete. cbn [filter fst].
  rewrite String.eqb_refl. cbn [negb].
  cbn [map fst] in Hnd. inversion Hnd as [| x xs Hnot _]; subst. clear Hnd.
  induction m as [| kv m IH]; [reflexivity |].
  cbn [filter]. destruct (String.eqb_spec (fst kv) k) as [He | Hne].
  - exfalso. apply Hnot. left. exact He.
  - cbn [negb]. f_equal. apply IH. intros Hin. apply Hnot. now right.
Qed.

End Bound.

(** The cache never holds more than 500 entries, and its keys stay
    distinct and non-empty: the empty cache is so, and every read and
    write keeps it so.  A write of a new key into a full cache drops the
    entry that was inserted first and appends the new one; a write under a
    key that is present replaces the entry where it stands. *)
Theorem cache_stays_bounded :
  forall (P : Type) (truthyP : P -> bool) (ttl : option Z),
    @bounded P [] /\
    (forall (m : SerpCache.t P) now key p,
       bounded m ->
       bounded (setCachedSerpResponse truthyP now key p m) /\
       bounded (snd (getCachedSerpResponse truthyP ttl now key m))) /\
    (forall (m : SerpCache.t P) now key p first,
       bounded m ->
       key <> "" -> truthyP p = true ->
       ~ In key (map fst m) ->
       List.length m = 500%nat ->
       hd_error m = Some first ->
       setCachedSerpResponse truthyP now key p m
       = tl m ++ [(key, {| payload := p; ts := now |})]) /\
    (forall (m : SerpCache.t P) now key p,
       bounded m ->
       key <> "" -> truthyP p = true ->
       In key (map fst m) ->
       map fst (setCachedSerpResponse truthyP now key p m) = map fst m).
Proof.
  intros P truthyP ttl. split; [| split; [| split]].
  - unfold bounded. simpl. repeat split; try lia; constructor.
  - intros m now key p (Hlen & Hnd & Hall). split.
    + unfold setCachedSerpResponse.
      destruct (negb (Js.truthy key) || negb (truthyP p)) eqn:Hg;
        [unfold bounded; auto |].
      apply orb_false_iff in Hg. destruct Hg as [Hk _].
      apply negb_false_iff in Hk.
      assert (Hkey : key <> "").
      { intros ->. discriminate. }
      cbv zeta.
      set (e := {| payload := p; ts := now |}).
      assert (Hb1 : NoDup (map fst (mapSet key e m)) /\
                    Forall (fun kv => fst kv <> "") (mapSet key e m)).
      { split.
        - rewrite mapSet_keys. destruct (mapHas key m) eqn:Hh; [exact Hnd |].
          apply NoDup_app; [exact Hnd | repeat constructor; simpl; tauto |].
          intros k Hk' [<- | []].
          apply mapHas_In in Hk'. congruence.
        - unfold mapSet. destruct (mapHas key m).
          + apply Forall_forall. intros kv Hin. apply in_map_iff in Hin.
            destruct Hin as (kv0 & <- & Hin0).
            destruct (fst kv0 =? key)%string eqn:E; [exact Hkey |].
            rewrite Forall_forall in Hall. now apply Hall.
          + apply Forall_app. split; [exact Hall |]. repeat constructor. exact Hkey. }
      destruct Hb1 as [Hnd1 Hall1].
      pose proof (mapSet_length P key e m) as Hl1.
      destruct (500 <? List.length (mapSet key e m))%nat eqn:Hbig.
      * apply Nat.ltb_lt in Hbig.
        destruct (mapSet key e m) as [| [oldest e0] rest] eqn:Hm;
          [cbn in Hbig; lia |].
        inversion Hall1 as [| x xs Hx _]; subst. cbn [fst] in Hx.
        apply String.eqb_neq in Hx. unfold Js.truthy. rewrite Hx. cbn [negb].
        rewrite (delete_head P oldest e0 rest Hnd1).
        unfold bounded. cbn [map] in Hnd1.
        inversion Hnd1; subst. inversion Hall1; subst.
        repeat split; auto.
        cbn [List.length] in Hl1. destruct (mapHas key m); lia.
      * apply Nat.ltb_ge in Hbig. unfold bounded. auto.
    + unfold getCachedSerpResponse.
      destruct (negb (Js.truthy key)); [unfold bounded; auto |].
      destruct (mapGet key m) as [e |]; [| unfold bounded; auto].
      destruct (expired ttl now e); [| unfold bounded; cbn [snd]; auto].
      cbn [snd]. destruct (delete_bounded_parts P key m Hnd Hall) as [H1 H2].
      unfold bounded. repeat split; auto.
      pose proof (filter_length_le _ (fun kv : string * entry P =>
                     negb (fst kv =? key)%string) m).
      unfold mapDelete. lia.
  - intros m now key p first (Hlen & Hnd & Hall) Hk Hp Hnew Hfull Hfirst.
    unfold setCachedSerpResponse.
    apply String.eqb_neq in Hk. unfold Js.truthy at 1. rewrite Hk, Hp.
    cbn [negb orb]. cbv zeta.
    assert (Hh : mapHas key m = false).
    { destruct (mapHas key m) eqn:E; [| reflexivity].
      apply mapHas_In in E. contradiction. }
    unfold mapSet. rewrite Hh. rewrite length_app, Hfull. cbn [List.length Nat.add].
    change (500 <? 500 + 1)%nat with true. cbv iota.
    destruct m as [| [k0 e0] m']; [discriminate |].
    cbn [app].
    inversion Hall as [| x xs Hx _]; subst. cbn [fst] in Hx.
    apply String.eqb_neq in Hx. unfold Js.truthy. rewrite Hx. cbn [negb tl].
    apply delete_head.
    cbn [map fst]. rewrite map_app. cbn [map fst].
    cbn [map fst] in Hnd, Hnew. inversion Hnd as [| y ys Hnot Hnd']; subst.
    constructor.
    + intros Hin. apply in_app_or in Hin. destruct Hin as [Hin | [<- | []]];
        [contradiction |]. apply Hnew. now left.
    + apply NoDup_app; [exact Hnd' | repeat constructor; simpl; tauto |].
      intros k Hk' [<- | []]. apply Hnew. now right.
  - intros m now key p (Hlen & Hnd & Hall) Hk Hp Hin.
    unfold setCachedSerpResponse.
    apply String.eqb_neq in Hk. unfold Js.truthy at 1. rewrite Hk, Hp.
    cbn [negb orb]. cbv zeta.
    apply mapHas_In in Hin.
    rewrite mapSet_length, Hin.
    replace (500 <? List.length m)%nat with false
      by (symmetry; apply Nat.ltb_ge; lia).
    rewrite mapSet_keys, Hin. reflexivity.
Qed.

End CacheFacts.

(** ** Queries of the proxy *)

Module QueryFacts.
Import SerpCache SerpQuery QueryTerms CacheFacts.

Section Facts.
Variable P : Type.
Variable truthyP : P -> bool.
Variable emptyObject : P.
Variable blankResult : P.
Variable ttl : option Z.
Variable searchParams : list (string * string) -> string.
Variable cfg : ProxyConfig.t.

Lemma cacheKey_truthy :
  forall args, QueryArgs.noCache args = false ->
               cacheKeyOf cfg args <> "".
Proof.
  intros args H. unfold cacheKeyOf. rewrite H. discriminate.
Qed.

(** A request leaves the cache alone unless it is fulfilled. *)
Lemma request_rejected :
  forall fetch now settledAt cacheable key params st e st',
    request truthyP emptyObject searchParams fetch cfg now settledAt cacheable key
      params st = (Rejected e, st') ->
    cache st' = cache st /\
    ProxyMetrics.attempts (metrics st') = ProxyMetrics.attempts (metrics st) + 1 /\
    ProxyMetrics.failures (metrics st') = ProxyMetrics.failures (metrics st) + 1 /\
    ProxyMetrics.successes (metrics st') = ProxyMetrics.successes (metrics st) /\
    ProxyMetrics.lastError (metrics st') <> None.
Proof.
  intros fetch now settledAt cacheable key params st e st' H.
  unfold request in H. cbv zeta in H.
  destruct (fetch _) as [message text | status body].
  - injection H as _ <-. cbn. repeat split; discriminate.
  - destruct (negb (isOk status)); [| discriminate].
    injection H as _ <-. cbn. repeat split; discriminate.
Qed.

Lemma request_fulfilled :
  forall fetch now settledAt cacheable key params st p st',
    request truthyP emptyObject searchParams fetch cfg now settledAt cacheable key
      params st = (Fulfilled p, st') ->
    cache st' = (if cacheable
                 then setCachedSerpResponse truthyP settledAt key p (cache st)
                 else cache st) /\
    ProxyMetrics.attempts (metrics st') = ProxyMetrics.attempts (metrics st) + 1 /\
    ProxyMetrics.successes (metrics st') = ProxyMetrics.successes (metrics st) + 1 /\
    ProxyMetrics.failures (metrics st') = ProxyMetrics.failures (metrics st).
Proof.
  intros fetch now settledAt cacheable key params st p st' H.
  unfold request in H. cbv zeta in H.
  destruct (fetch _) as [message text | status body]; [discriminate |].
  destruct (negb (isOk status)); [discriminate |].
  injection H as <- <-. cbn. repeat split.
Qed.

Lemma get_miss_cap :
  forall now key (m : SerpCache.t P),
    (List.length (snd (getCachedSerpResponse truthyP ttl now key m))
     <= List.length m)%nat.
Proof.
  intros now key m. unfold getCachedSerpResponse.
  destruct (negb (Js.truthy key)); [cbn; lia |].
  destruct (mapGet key m) as [e |]; [| cbn; lia].
  destruct (expired ttl now e); [| cbn; lia].
  cbn [snd]. unfold mapDelete. apply filter_length_le.
Qed.

Lemma mapGet_set_other :
  forall k k0 v (m : SerpCache.t P),
    k <> k0 -> mapGet k (mapSet k0 v m) = mapGet k m.
Proof.
  intros k k0 v m Hne. unfold mapSet, mapGet.
  destruct (mapHas k0 m).
  - induction m as [| kv m IH]; [reflexivity |].
    cbn [map find].
    destruct (fst kv =? k0)%string eqn:E0.
    + cbn [fst]. apply String.eqb_eq in E0.
      destruct (String.eqb_spec k0 k) as [-> | _]; [congruence |].
      destruct (String.eqb_spec (fst kv) k) as [E | _]; [congruence | exact IH].
    + destruct (fst kv =? k)%string; [reflexivity | exact IH].
  - induction m as [| kv m IH]; cbn [app find].
    + cbn [fst]. destruct (String.eqb_spec k0 k) as [-> | _]; [congruence | reflexivity].
    + destruct (fst kv =? k)%string; [reflexivity | exact IH].
Qed.

Lemma mapGet_delete_inv :
  forall k k0 e (m : SerpCache.t P),
    mapGet k (mapDelete k0 m) = Some e -> mapGet k m = Some e.
Proof.
  intros k k0 e m H. destruct (string_dec k0 k) as [-> | Hne].
  - rewrite mapGet_delete_same in H. discriminate.
  - now rewrite mapGet_delete_other in H.
Qed.

(** A write adds at most the entry of its key. *)
Lemma set_other_inv :
  forall now key p k e (m : SerpCache.t P),
    k <> key ->
    mapGet k (setCachedSerpResponse truthyP now key p m) = Some e ->
    mapGet k m = Some e.
Proof.
  intros now key p k e m Hne H. unfold setCachedSerpResponse in H.
  destruct (negb (Js.truthy key) || negb (truthyP p)); [exact H |].
  cbv zeta in H.
  destruct (500 <? List.length (mapSet key _ m))%nat.
  - destruct (mapSet key _ m) as [| [oldest e0] rest] eqn:Hm.
    + rewrite <- Hm in H. now rewrite mapGet_set_other in H.
    + destruct (Js.truthy oldest).
      * apply mapGet_delete_inv in H. rewrite <- Hm in H.
        now rewrite mapGet_set_other in H.
      * rewrite <- Hm in H. now rewrite mapGet_set_other in H.
  - now rewrite mapGet_set_other in H.
Qed.

(** A read adds nothing. *)
Lemma get_inv :
  forall now key k e (m : SerpCache.t P),
    mapGet k (snd (getCachedSerpResponse truthyP ttl now key m)) = Some e ->
    mapGet k m = Some e.
Proof.
  intros now key k e m H. unfold getCachedSerpResponse in H.
  destruct (negb (Js.truthy key)); [exact H |].
  destruct (mapGet key m) as [e0 |]; [| exact H].
  destruct (expired ttl now e0); [| exact H].
  cbn [snd] in H. now apply mapGet_delete_inv in H.
Qed.

End Facts.

(** A response fetched for a cacheable query is served again from the
    cache: when a query that may use the cache misses it and is fulfilled
    with a truthy payload, the same query asked again at any instant at
    which the payload, read at [settledAt], is not older than the time to
    live is fulfilled with the same payload, whatever the network would
    answer, and leaves the cache and the counters as they are. *)
Theorem repeated_query_hits_cache :
  forall (P : Type) (truthyP : P -> bool) (emptyObject blankResult : P)
         (limitMs : Z) (searchParams : list (string * string) -> string)
         (fetch fetch' : string -> fetched P) (cfg : ProxyConfig.t)
         (now settledAt later settledLater : Z) (args : QueryArgs.t)
         (st st' : state P) (p : P),
    QueryArgs.noCache args = false ->
    withinCap st ->
    fst (getCachedSerpResponse truthyP (Some limitMs) now (cacheKeyOf cfg args)
           (cache st)) = None ->
    querySerpApi truthyP emptyObject blankResult (Some limitMs) searchParams fetch
      cfg now settledAt args st = (Fulfilled p, st') ->
    truthyP p = true ->
    later - settledAt <= limitMs ->
    querySerpApi truthyP emptyObject blankResult (Some limitMs) searchParams fetch'
      cfg later settledLater args st' = (Fulfilled p, st').
Proof.
  intros P truthyP emptyObject blankResult limitMs searchParams fetch fetch' cfg
         now settledAt later settledLater args st st' p Hnc Hcap Hmiss Hq Hp Hage.
  unfold querySerpApi in *.
  destruct (negb (isEnabled cfg)); [discriminate |].
  destruct (plan cfg args) as [message | | params0]; [discriminate | |].
  - injection Hq as <- <-. reflexivity.
  - rewrite Hnc in *. cbn [negb] in *. cbv zeta in *.
    pose proof (cacheKey_truthy cfg args Hnc) as Hkey.
    set (key := cacheKeyOf cfg args) in *.
    pose proof (get_miss_cap P truthyP (Some limitMs) now key (cache st)) as Hcap'.
    destruct (getCachedSerpResponse truthyP (Some limitMs) now key (cache st))
      as [[cached |] c1]; [discriminate Hmiss |].
    cbn [snd] in Hcap'.
    destruct (request_fulfilled P truthyP emptyObject searchParams cfg _ _ _ _ _ _ _ _ _ Hq)
      as (Hc & _).
    cbn [cache] in Hc.
    assert (Hlen : (List.length c1 <= 500)%nat) by (unfold withinCap in Hcap; lia).
    pose proof (cache_read_hit P truthyP limitMs c1 settledAt later key p
                  Hkey Hp Hlen Hage) as Hhit.
    rewrite <- Hc in Hhit. rewrite Hhit.
    destruct st' as [c' m']. reflexivity.
Qed.

Lemma repeated_query_hits_cache_witness :
  querySerpApi Js.truthy "{}" "{}" (Some 300000) (fun _ => "") down sampleConfig
    250000 250400 sampleArgs
    (snd (querySerpApi Js.truthy "{}" "{}" (Some 300000) (fun _ => "") answering
            sampleConfig 1000 1400 sampleArgs freshState))
  = (Fulfilled "{}",
     snd (querySerpApi Js.truthy "{}" "{}" (Some 300000) (fun _ => "") answering
            sampleConfig 1000 1400 sampleArgs freshState)).
Proof.
  apply (repeated_query_hits_cache string Js.truthy "{}" "{}" 300000 (fun _ => "")
           answering down sampleConfig 1000 1400 250000 250400 sampleArgs freshState).
  - reflexivity.
  - unfold withinCap. simpl. lia.
  - reflexivity.
  - vm_compute. reflexivity.
  - reflexivity.
  - lia.
Defined.

(** What a query never does to the cache and the counters.  It adds no
    entry under another key than its own; with [noCache] it leaves the
    cache as it is; a query that is rejected adds no entry at all; and
    every attempt counted is counted once more as a success or as a
    failure, a rejection never as a success. *)
Theorem query_cache_discipline :
  forall (P : Type) (truthyP : P -> bool) (emptyObject blankResult : P)
         (ttl : option Z) (searchParams : list (string * string) -> string)
         (fetch : string -> fetched P) (cfg : ProxyConfig.t)
         (now settledAt : Z) (args : QueryArgs.t) (st : state P),
    let res :=
      querySerpApi truthyP emptyObject blankResult ttl searchParams fetch cfg
        now settledAt args st in
    let st' := snd res in
    let d (f : ProxyMetrics.t -> Z) := f (metrics st') - f (metrics st) in
    (forall k e,
       k <> cacheKeyOf cfg args ->
       mapGet k (cache st') = Some e -> mapGet k (cache st) = Some e) /\
    (QueryArgs.noCache args = true -> cache st' = cache st) /\
    (forall reason,
       fst res = Rejected reason ->
       (forall k e, mapGet k (cache st') = Some e -> mapGet k (cache st) = Some e) /\
       d ProxyMetrics.successes = 0) /\
    0 <= d ProxyMetrics.attempts <= 1 /\
    d ProxyMetrics.attempts = d ProxyMetrics.successes + d ProxyMetrics.failures /\
    0 <= d ProxyMetrics.successes /\ 0 <= d ProxyMetrics.failures.
Proof.
  intros P truthyP emptyObject blankResult ttl searchParams fetch cfg now settledAt
         args st res st' d.
  unfold d, st', res. clear d st' res. unfold querySerpApi.
  destruct (negb (isEnabled cfg)).
  { cbn [snd fst]. repeat split; auto; lia. }
  destruct (plan cfg args) as [message | | params0].
  { cbn [snd fst]. repeat split; auto; lia. }
  { cbn [snd fst]. repeat split; auto; try lia; discriminate. }
  cbv zeta.
  assert (Hreq :
    forall cacheable key params s0,
      (cacheable = true -> key = cacheKeyOf cfg args) ->
      let r := request truthyP emptyObject searchParams fetch cfg now settledAt
                 cacheable key params s0 in
      (forall k e, k <> cacheKeyOf cfg args ->
         mapGet k (cache (snd r)) = Some e -> mapGet k (cache s0) = Some e) /\
      (cacheable = false -> cache (snd r) = cache s0) /\
      (forall reason, fst r = Rejected reason ->
         cache (snd r) = cache s0 /\
         ProxyMetrics.successes (metrics (snd r))
         = ProxyMetrics.successes (metrics s0)) /\
      ProxyMetrics.attempts (metrics (snd r))
        = ProxyMetrics.attempts (metrics s0) + 1 /\
      ProxyMetrics.attempts (metrics (snd r)) - ProxyMetrics.attempts (metrics s0)
        = ProxyMetrics.successes (metrics (snd r))
          - ProxyMetrics.successes (metrics s0)
          + (ProxyMetrics.failures (metrics (snd r))
             - ProxyMetrics.failures (metrics s0)) /\
      0 <= ProxyMetrics.successes (metrics (snd r))
           - ProxyMetrics.successes (metrics s0) /\
      0 <= ProxyMetrics.failures (metrics (snd r))
           - ProxyMetrics.failures (metrics s0)).
  { intros cacheable key params s0 Hkey r.
    destruct (fst r) as [p | e] eqn:Hf.
    - assert (Hr : r = (Fulfilled p, snd r)) by (destruct r; cbn in *; congruence).
      destruct (request_fulfilled P truthyP emptyObject searchParams cfg _ _ _ _ _ _ _ _ _ Hr)
        as (Hc & Ha & Hs & Hfl).
      split; [| split; [| split]].
      + intros k e Hk Hget. rewrite Hc in Hget.
        destruct cacheable; [| exact Hget].
        rewrite (Hkey eq_refl) in Hget. eapply set_other_inv; eauto.
      + intros ->. exact Hc.
      + intros reason Hrej. discriminate.
      + lia.
    - assert (Hr : r = (Rejected e, snd r)) by (destruct r; cbn in *; congruence).
      destruct (request_rejected P truthyP emptyObject searchParams cfg _ _ _ _ _ _ _ _ _ Hr)
        as (Hc & Ha & Hfl & Hs & _).
      split; [| split; [| split]].
      + intros k e0 Hk Hget. now rewrite Hc in Hget.
      + intros _. exact Hc.
      + intros reason _. split; [exact Hc | exact Hs].
      + lia. }
  destruct (QueryArgs.noCache args) eqn:Hnc; cbn [negb].
  - destruct (Hreq false (cacheKeyOf cfg args)
                (paramSet "no_cache" "true" params0) st (fun H => eq_refl))
      as (H1 & H2 & H3 & H4 & H5 & H6 & H7).
    cbv zeta in *.
    split; [exact H1 |]. split; [intros _; now apply H2 |].
    split.
    + intros reason Hr. destruct (H3 reason Hr) as [Hc Hs].
      split; [intros k e; now rewrite Hc | lia].
    + repeat split; lia.
  - destruct (getCachedSerpResponse truthyP ttl now (cacheKeyOf cfg args) (cache st))
      as [[cached |] c1] eqn:Hget.
    + cbn [snd fst cache metrics].
      assert (Hinv : forall k e, mapGet k c1 = Some e -> mapGet k (cache st) = Some e).
      { intros k e Hk.
        apply (get_inv P truthyP ttl now (cacheKeyOf cfg args)). now rewrite Hget. }
      split; [intros k e _; apply Hinv |].
      split; [discriminate |].
      split; [intros reason Hr; discriminate |].
      repeat split; lia.
    + assert (Hinv : forall k e, mapGet k c1 = Some e -> mapGet k (cache st) = Some e).
      { intros k e Hk.
        apply (get_inv P truthyP ttl now (cacheKeyOf cfg args)). now rewrite Hget. }
      destruct (Hreq true (cacheKeyOf cfg args) params0
                  (mkState c1 (metrics st)) (fun _ => eq_refl))
        as (H1 & H2 & H3 & H4 & H5 & H6 & H7).
      cbv zeta in *. cbn [cache metrics] in *.
      split; [intros k e Hk Hg; apply Hinv; eapply H1; eauto |].
      split; [discriminate |].
      split.
      * intros reason Hr. destruct (H3 reason Hr) as [Hc Hs].
        split; [intros k e Hg; apply Hinv; now rewrite <- Hc | lia].
      * repeat split; lia.
Qed.

(** The sample query against a network that is down: rejected, counted as
    one attempt and one failure, nothing cached. *)
Example down_query_counts_failure :
  let res :=
    querySerpApi Js.truthy "{}" "{}" (Some 300000) (fun _ => "") down sampleConfig
      1000 1400 sampleArgs freshState in
  fst res = Rejected "fetch failed" /\
  cache (snd res) = [] /\
  ProxyMetrics.attempts (metrics (snd res)) = 1 /\
  ProxyMetrics.failures (metrics (snd res)) = 1 /\
  ProxyMetrics.lastError (metrics (snd res)) = Some "fetch failed".
Proof. vm_compute. repeat split. Qed.

End QueryFacts.

(** ** The results of a search *)

Module SerpFacts.
Import SerpResults SetFacts.

Section Facts.
Variable urlHost : string -> option string.



End Facts.


(** The sample payload, normalized with a limit of 12: the repeated eBay
    link is listed once and the [ftp] link is dropped. *)
Example sample_payload_normalized :
  map SerpResult.link
    (normalizeSerpOfferResults (fun _ => None) SerpFixtures.samplePayload "" 12)
  = ["https://www.ebay.com/itm/1234"; "https://www.walmart.com/ip/55"].
Proof. vm_compute. reflexivity. Qed.

End SerpFacts.

(** ** Canonical listing URLs *)

Module CanonicalFacts.
Import WebSearchProvider OfferService Vocabulary ListingTerms.
Import StringFacts ProviderFacts.

Lemma lower_app :
  forall s t,
    Js.toLowerCase (s ++ t)%string
    = (Js.toLowerCase s ++ Js.toLowerCase t)%string.
Proof.
  induction s as [| c s IH]; intros t; [reflexivity |].
  cbn [append]. unfold Js.toLowerCase in *. cbn [Js.mapString append].
  now rewrite IH.
Qed.

Lemma asinChar_lower :
  forall c, SerpApiProxy.isAsinChar c = true ->
            isLowerAlnum (Js.lowerChar c) = true /\ Js.isSpace c = false.
Proof.
  intros c. destruct c as [[] [] [] [] [] [] [] []]; vm_compute;
    intros H; try discriminate H; split; reflexivity.
Qed.

Lemma lower_asin :
  forall a, SerpApiProxy.allChars SerpApiProxy.isAsinChar a = true ->
            SerpApiProxy.allChars isLowerAlnum (Js.toLowerCase a) = true.
Proof.
  induction a as [| c a IH]; intros H; [reflexivity |].
  cbn [SerpApiProxy.allChars] in H. apply andb_prop in H. destruct H as [Hc Ha].
  unfold Js.toLowerCase in *. cbn [Js.mapString SerpApiProxy.allChars].
  rewrite (proj1 (asinChar_lower c Hc)). now apply IH.
Qed.

(** A needle that starts with a character outside of a text's alphabet is
    not in the text. *)
Lemma includes_first_out (f : ascii -> bool) :
  forall c m x,
    f c = false -> SerpApiProxy.allChars f x = true ->
    Js.includes x (String c m) = false.
Proof.
  intros c m x Hc. induction x as [| d x IH]; intros Hx; [reflexivity |].
  cbn [SerpApiProxy.allChars] in Hx. apply andb_prop in Hx. destruct Hx as [Hd Hx].
  rewrite includes_eq. cbn [String.prefix].
  destruct (ascii_dec c d) as [-> | _]; [congruence |]. now apply IH.
Qed.

Lemma prefix_first_out (f : ascii -> bool) :
  forall c m x,
    f c = false -> SerpApiProxy.allChars f x = true ->
    String.prefix (String c m) x = false.
Proof.
  intros c m [| d x] Hc Hx; [reflexivity |].
  cbn [SerpApiProxy.allChars] in Hx. apply andb_prop in Hx. destruct Hx as [Hd _].
  cbn [String.prefix]. destruct (ascii_dec c d) as [-> | _]; [congruence | reflexivity].
Qed.

Ltac walk_dp :=
  unfold amazonDp; cbn [append];
  do 26 (rewrite includes_eq; cbn [String.prefix]; simpl ascii_dec; cbv iota).

(** The markers in the lower-cased canonical Amazon URL: only [/search]
    can be there, when the identifier itself starts with it. *)
Lemma dp_lower_markers :
  forall x,
    SerpApiProxy.allChars isLowerAlnum x = true ->
    Js.includes (amazonDp ++ x)%string "/s?" = false /\
    Js.includes (amazonDp ++ x)%string "/search" = String.prefix "search" x /\
    Js.includes (amazonDp ++ x)%string "?q=" = false /\
    Js.includes (amazonDp ++ x)%string "&q=" = false /\
    Js.includes (amazonDp ++ x)%string "_nkw=" = false /\
    Js.includes (amazonDp ++ x)%string "/dp/" = true.
Proof.
  intros x Hx.
  assert (Hs : forall m, Js.includes x (String "/" m) = false).
  { intros m. now apply (includes_first_out isLowerAlnum). }
  assert (Hq : forall m, Js.includes x (String "?" m) = false).
  { intros m. now apply (includes_first_out isLowerAlnum). }
  assert (Ha : forall m, Js.includes x (String "&" m) = false).
  { intros m. now apply (includes_first_out isLowerAlnum). }
  assert (Hu : forall m, Js.includes x (String "_" m) = false).
  { intros m. now apply (includes_first_out isLowerAlnum). }
  assert (Hp : forall m, String.prefix (String "?" m) x = false).
  { intros m. now apply (prefix_first_out isLowerAlnum). }
  repeat split.
  - walk_dp. destruct x as [| c x']; [reflexivity |].
    cbn [String.prefix].
    destruct (ascii_dec "s" c) as [<- |]; [| apply Hs].
    cbn [SerpApiProxy.allChars] in Hx. apply andb_prop in Hx.
    rewrite (prefix_first_out isLowerAlnum "?" "" x') by tauto. apply Hs.
  - walk_dp. rewrite Hs. now destruct (String.prefix "search" x).
  - walk_dp. apply Hq.
  - walk_dp. apply Ha.
  - walk_dp. apply Hu.
  - unfold amazonDp.
    change ("https://www.amazon.com/dp/" ++ x)%string
      with ("https://www.amazon.com" ++ ("/dp/" ++ x))%string.
    apply SynthesisFacts.includes_inside.
Qed.

Lemma asinChar_upper_lower :
  forall c, SerpApiProxy.isAsinChar c = true -> Js.upperChar (Js.lowerChar c) = c.
Proof.
  intros c. destruct c as [[] [] [] [] [] [] [] []]; vm_compute;
    intros H; try discriminate H; reflexivity.
Qed.

(** Lower-casing does not change which identifiers a prefix in capitals
    and digits matches. *)
Lemma prefix_lower_asin :
  forall m a,
    SerpApiProxy.allChars SerpApiProxy.isAsinChar m = true ->
    SerpApiProxy.allChars SerpApiProxy.isAsinChar a = true ->
    String.prefix (Js.toLowerCase m) (Js.toLowerCase a) = String.prefix m a.
Proof.
  induction m as [| c m IH]; intros a Hm Ha; [now destruct a |].
  destruct a as [| d a]; [reflexivity |].
  cbn [SerpApiProxy.allChars] in Hm, Ha.
  apply andb_prop in Hm. destruct Hm as [Hc Hm].
  apply andb_prop in Ha. destruct Ha as [Hd Ha].
  unfold Js.toLowerCase in *. cbn [Js.mapString String.prefix].
  destruct (ascii_dec (Js.lowerChar c) (Js.lowerChar d)) as [El | Nl];
    destruct (ascii_dec c d) as [E | N].
  - now apply IH.
  - exfalso. apply N.
    rewrite <- (asinChar_upper_lower c Hc), <- (asinChar_upper_lower d Hd).
    now rewrite El.
  - exfalso. apply Nl. now rewrite E.
  - reflexivity.
Qed.

Lemma takeDigits_digits :
  forall s, SerpApiProxy.allChars Js.isDigit (fst (takeDigits s)) = true.
Proof.
  induction s as [| c s IH]; [reflexivity |].
  cbn [takeDigits]. destruct (Js.isDigit c) eqn:E; [| reflexivity].
  destruct (takeDigits s) as [d r]. cbn [fst SerpApiProxy.allChars] in *.
  now rewrite E.
Qed.

Lemma ebayItemAfterHost_id :
  forall x d, ebayItemAfterHost x = Some d -> itemId d.
Proof.
  intros x d H. unfold ebayItemAfterHost in H.
  destruct (dropPrefixCI "ebay.com/itm/" x) as [y |]; [| discriminate].
  cbv zeta in H. destruct (Js.truthy (fst (takeDigits y))) eqn:Ht; [| discriminate].
  injection H as <-. split.
  - intros He. rewrite He in Ht. discriminate.
  - apply takeDigits_digits.
Qed.

Lemma ebayAfterScheme_id :
  forall r d, ebayAfterScheme r = Some d -> itemId d.
Proof.
  intros r d H. unfold ebayAfterScheme in H.
  destruct (dropPrefixCI "www." r) as [x |].
  - destruct (ebayItemAfterHost x) as [d' |] eqn:E.
    + injection H as <-. eapply ebayItemAfterHost_id; eauto.
    + eapply ebayItemAfterHost_id; eauto.
  - eapply ebayItemAfterHost_id; eauto.
Qed.

Lemma ebayAfterHttp_id :
  forall r d, ebayAfterHttp r = Some d -> itemId d.
Proof.
  intros r d H. unfold ebayAfterHttp in H. cbv zeta in H.
  assert (Hk : forall x d0,
             match dropPrefixCI "://" x with
             | Some y => ebayAfterScheme y
             | None => None
             end = Some d0 -> itemId d0).
  { intros x d0 Hx. destruct (dropPrefixCI "://" x); [| discriminate].
    eapply ebayAfterScheme_id; eauto. }
  destruct (dropPrefixCI "s" r) as [x |].
  - destruct (match dropPrefixCI "://" x with
              | Some y => ebayAfterScheme y
              | None => None
              end) as [d' |] eqn:E.
    + injection H as <-. eapply Hk; eauto.
    + eapply Hk; eauto.
  - eapply Hk; eauto.
Qed.

Lemma matchEbayItem_id :
  forall u d, matchEbayItem u = Some d -> itemId d.
Proof.
  induction u as [| c u IH]; intros d H.
  - cbn in H. discriminate.
  - cbn [matchEbayItem] in H.
    destruct (match dropPrefixCI "http" (String c u) with
              | Some r1 => ebayAfterHttp r1
              | None => None
              end) as [d' |] eqn:E.
    + injection H as <-.
      destruct (dropPrefixCI "http" (String c u)); [| discriminate].
      eapply ebayAfterHttp_id; eauto.
    + now apply IH.
Qed.

Lemma digit_lower :
  forall d, SerpApiProxy.allChars Js.isDigit d = true -> Js.toLowerCase d = d.
Proof.
  induction d as [| c d IH]; intros H; [reflexivity |].
  cbn [SerpApiProxy.allChars] in H. apply andb_prop in H. destruct H as [Hc Hd].
  unfold Js.toLowerCase in *. cbn [Js.mapString]. rewrite (IH Hd). f_equal.
  revert Hc. destruct c as [[] [] [] [] [] [] [] []]; vm_compute;
    intros H; try discriminate H; reflexivity.
Qed.

Lemma digit_nospace :
  forall d, SerpApiProxy.allChars Js.isDigit d = true ->
            SerpApiProxy.allChars (fun c => negb (Js.isSpace c)) d = true.
Proof.
  apply allChars_impl. intros c.
  destruct c as [[] [] [] [] [] [] [] []]; vm_compute;
    intros H; try discriminate H; reflexivity.
Qed.

Lemma verified_of :
  forall o url,
    Offer.productUrl o = url -> Js.trim url = url ->
    NormalizedOffer.listingVerified (normalizeOffer o)
    = isExactListingUrl url && negb (isLikelySearchUrl url).
Proof.
  intros o url Hu Ht. unfold normalizeOffer. cbv zeta.
  cbn [NormalizedOffer.listingVerified]. now rewrite Hu, Ht.
Qed.

Lemma type_of_verified :
  forall o,
    NormalizedOffer.listingType (normalizeOffer o)
    = if NormalizedOffer.listingVerified (normalizeOffer o) then EXACT else ESTIMATED.
Proof.
  intros o. unfold normalizeOffer. cbv zeta.
  cbn [NormalizedOffer.listingType NormalizedOffer.listingVerified].
  destruct (_ && _); [reflexivity |]. now destruct (Js.truthy _).
Qed.

(** The listing URLs the provider makes canonical, as the offer service
    classifies them.  An eBay link in which an item number is found is
    stored as [https://www.ebay.com/itm/<number>] and shown as a verified,
    exact listing.  An Amazon link in which an ASIN is found is stored as
    [https://www.amazon.com/dp/<ASIN>] and shown as verified unless the
    ASIN starts with [SEARCH]: the lower-cased URL then holds the marker
    [/search], and the offer is shown as an estimate. *)
Theorem canonical_listings_classified :
  forall (api : Url.Api) (url : string),
    (forall d,
       matchEbayItem (canonicalizeUrl api url) = Some d ->
       canonicalizeVendorUrl api "web:ebay" url = (ebayItm ++ d)%string /\
       forall o, listedAt (ebayItm ++ d) o ->
         NormalizedOffer.listingVerified (normalizeOffer o) = true /\
         NormalizedOffer.listingType (normalizeOffer o) = EXACT) /\
    (forall a,
       extractAmazonAsinFromUrl (canonicalizeUrl api url) = a -> a <> "" ->
       canonicalizeVendorUrl api "web:amazon" url = (amazonDp ++ a)%string /\
       forall o, listedAt (amazonDp ++ a) o ->
         NormalizedOffer.listingVerified (normalizeOffer o)
           = negb (String.prefix "SEARCH" a) /\
         NormalizedOffer.listingType (normalizeOffer o)
           = if String.prefix "SEARCH" a then ESTIMATED else EXACT).
Proof.
  intros api url. split.
  - intros d Hd. destruct (matchEbayItem_id _ _ Hd) as [Hne Hdig].
    split.
    + unfold canonicalizeVendorUrl. cbv zeta.
      destruct (Js.truthy (canonicalizeUrl api url)) eqn:Ht.
      * cbn [negb].
        change ("web:ebay" =? "web:amazon")%string with false.
        change ("web:ebay" =? "web:ebay")%string with true. cbv iota.
        now rewrite Hd.
      * unfold Js.truthy in Ht. apply negb_false_iff, String.eqb_eq in Ht.
        rewrite Ht in Hd. discriminate Hd.
    + intros o Ho.
      assert (Htrim : Js.trim (ebayItm ++ d)%string = (ebayItm ++ d)%string).
      { apply trim_nospace. rewrite allChars_app.
        rewrite (digit_nospace d Hdig). reflexivity. }
      assert (Hv : NormalizedOffer.listingVerified (normalizeOffer o) = true).
      { rewrite (verified_of o _ Ho Htrim).
        unfold isExactListingUrl, isLikelySearchUrl. cbv zeta.
        rewrite lower_app, (digit_lower d Hdig).
        rewrite !(includes_app_disjoint Js.isDigit) by (reflexivity || exact Hdig).
        reflexivity. }
      split; [exact Hv |]. now rewrite type_of_verified, Hv.
  - intros a Ha Hne.
    assert (Hval : SerpApiProxy.isValidAsin a = true).
    { rewrite <- Ha. apply extractAmazonAsin_valid.
      unfold Js.truthy. rewrite Ha. apply negb_true_iff.
      now apply String.eqb_neq. }
    split.
    + unfold canonicalizeVendorUrl. cbv zeta.
      destruct (Js.truthy (canonicalizeUrl api url)) eqn:Ht.
      * cbn [negb].
        change ("web:amazon" =? "web:amazon")%string with true. cbv iota.
        rewrite Ha. unfold Js.truthy.
        apply String.eqb_neq in Hne. now rewrite Hne.
      * unfold Js.truthy in Ht. apply negb_false_iff, String.eqb_eq in Ht.
        rewrite Ht in Ha. cbn in Ha. congruence.
    + intros o Ho.
      assert (Hall : SerpApiProxy.allChars SerpApiProxy.isAsinChar a = true).
      { unfold SerpApiProxy.isValidAsin in Hval. apply andb_prop in Hval. tauto. }
      assert (Hv : NormalizedOffer.listingVerified (normalizeOffer o)
                   = negb (String.prefix "SEARCH" a)).
      { rewrite (verified_of o _ Ho (dp_url_trim a Hval)).
        unfold isExactListingUrl, isLikelySearchUrl. cbv zeta.
        rewrite lower_app. change (Js.toLowerCase amazonDp) with amazonDp.
        destruct (dp_lower_markers _ (lower_asin a Hall))
          as (H1 & H2 & H3 & H4 & H5 & H6).
        rewrite H1, H2, H3, H4, H5, H6. cbn [orb andb].
        f_equal. rewrite !orb_false_r.
        change "search" with (Js.toLowerCase "SEARCH").
        apply prefix_lower_asin; [reflexivity | exact Hall]. }
      split; [exact Hv |]. rewrite type_of_verified, Hv.
      now destruct (String.prefix "SEARCH" a).
Qed.

(** Two links, canonicalized on a platform whose [URL] class rejects them
    (the raw link is then kept as it is): an eBay link with a query, and an
    Amazon link whose ASIN starts with [SEARCH]. *)
Example canonical_listing_examples :
  canonicalizeVendorUrl noUrlApi "web:ebay" "http://ebay.com/itm/1234?hash=item1"
    = "https://www.ebay.com/itm/1234" /\
  NormalizedOffer.listingVerified
    (normalizeOffer
       (Sample.offer "o1" "web:ebay" 9500 0 6 true "https://www.ebay.com/itm/1234"))
    = true /\
  canonicalizeVendorUrl noUrlApi "web:amazon"
    "https://www.amazon.com/Sony/dp/search1234?tag=x"
    = "https://www.amazon.com/dp/SEARCH1234" /\
  NormalizedOffer.listingVerified
    (normalizeOffer
       (Sample.offer "o2" "web:amazon" 9500 0 2 true
          "https://www.amazon.com/dp/SEARCH1234"))
    = false.
Proof. repeat split; vm_compute; reflexivity. Qed.

End CanonicalFacts.

(** ** Recognition by text hints *)

Module RecognitionFacts.
Import JsNumber Recognition RecognitionTerms SetFacts.

Lemma gtQ_true : forall a b, gtQ a b = true <-> (b < a)%Q.
Proof.
  intros a b. unfold gtQ. rewrite negb_true_iff. split.
  - intros H. apply Qnot_le_lt. intros Hle. apply Qle_bool_iff in Hle. congruence.
  - intros H. destruct (Qle_bool a b) eqn:E; [| reflexivity].
    apply Qle_bool_iff in E. lra.
Qed.

Lemma gtQ_false : forall a b, gtQ a b = false <-> (a <= b)%Q.
Proof.
  intros a b. unfold gtQ. rewrite negb_false_iff. apply Qle_bool_iff.
Qed.

Lemma filter_length_bound (A : Type) (f : A -> bool) :
  forall l, (List.length (filter f l) <= List.length l)%nat.
Proof.
  induction l as [| a l IH]; cbn [filter List.length]; [lia |].
  destruct (f a); cbn [List.length]; lia.
Qed.

(** A score is a share: between 0 and 1. *)
Lemma overlapScore_range :
  forall a b, (0 <= overlapScore a b <= 1)%Q.
Proof.
  intros a b. unfold overlapScore.
  destruct (_ || _) eqn:E; [lra |].
  apply orb_false_iff in E. destruct E as [Ea _]. apply Nat.eqb_neq in Ea.
  cbv zeta. unfold hitsOf.
  pose proof (filter_length_bound _ (Js.setHas (Js.setOf b)) a) as Hle.
  set (h := List.length (filter _ a)) in *.
  set (n := List.length a) in *.
  apply DoubleFacts.div_share; lia.
Qed.

Lemma scan_spec :
  forall q l best bs,
    let r := scan q l best bs in
    (bs <= snd r)%Q /\
    (forall p, In p l -> (scoreWith q p <= snd r)%Q) /\
    ((r = (best, bs)) \/
     exists pre p post,
       l = pre ++ p :: post /\
       r = (Some p, scoreWith q p) /\
       (bs < scoreWith q p)%Q /\
       (forall x, In x pre -> (scoreWith q x < scoreWith q p)%Q) /\
       (forall x, In x post -> (scoreWith q x <= scoreWith q p)%Q)).
Proof.
  intros q l. induction l as [| x rest IH]; intros best bs.
  - cbn [scan snd]. split; [lra |]. split; [intros p [] | now left].
  - cbn [scan]. cbv zeta.
    change (overlapScore q (tokenize (productText x))) with (scoreWith q x).
    destruct (gtQ (scoreWith q x) bs) eqn:Hg.
    + apply gtQ_true in Hg.
      destruct (IH (Some x) (scoreWith q x)) as (Hle & Hall & Hcase).
      cbv zeta in *.
      split; [lra |]. split.
      * intros p [<- | Hp]; [exact Hle | now apply Hall].
      * right. destruct Hcase as [Heq | (pre & p & post & -> & Hr & Hlt & Hpre & Hpost)].
        -- exists [], x, rest. split; [reflexivity |]. split; [exact Heq |].
           split; [exact Hg |]. split; [intros y [] |].
           intros y Hy. specialize (Hall y Hy). rewrite Heq in Hall. exact Hall.
        -- exists (x :: pre), p, post. split; [reflexivity |]. split; [exact Hr |].
           split; [lra |]. split; [| exact Hpost].
           intros y [<- | Hy]; [exact Hlt | now apply Hpre].
    + apply gtQ_false in Hg.
      destruct (IH best bs) as (Hle & Hall & Hcase).
      cbv zeta in *.
      split; [exact Hle |]. split.
      * intros p [<- | Hp]; [lra | now apply Hall].
      * destruct Hcase as [Heq | (pre & p & post & -> & Hr & Hlt & Hpre & Hpost)].
        -- now left.
        -- right. exists (x :: pre), p, post. split; [reflexivity |].
           split; [exact Hr |]. split; [exact Hlt |]. split; [| exact Hpost].
           intros y [<- | Hy]; [lra | now apply Hpre].
Qed.

(** The double [0.35] lies just below 35/100. *)
Lemma minScore_value :
  (3499 # 10000 < minScore)%Q /\ (minScore < 35 # 100)%Q.
Proof. split; vm_compute; reflexivity. Qed.

Lemma roundTo2_range :
  forall x, (minScore <= x)%Q -> (x <= 1)%Q ->
            (35 # 100 <= roundTo2 x)%Q /\ (roundTo2 x <= 1)%Q.
Proof.
  intros x Hlo Hhi. unfold roundTo2.
  pose proof (proj1 minScore_value) as Hmin.
  assert (Hpos : Qle_bool 0 x = true) by (apply Qle_bool_iff; lra).
  rewrite Hpos. cbn [negb]. cbv zeta.
  assert (H1 : 35 <= Qfloor (x * 100 + (1 # 2))).
  { apply Z.le_trans with (Qfloor (inject_Z 35)); [now rewrite Qfloor_Z |].
    apply Qfloor_resp_le. unfold inject_Z. lra. }
  assert (H2 : Qfloor (x * 100 + (1 # 2)) <= 100).
  { apply Z.le_trans with (Qfloor (201 # 2)); [| vm_compute; discriminate].
    apply Qfloor_resp_le. lra. }
  split; unfold Qle; cbn [Qnum Qden]; lia.
Qed.

(** Hints from which no token can be read score nothing. *)
Lemma no_tokens_no_score :
  forall hints p, queryTokensOf hints = [] -> (scoreOf hints p == 0)%Q.
Proof.
  intros hints p H. unfold scoreOf. rewrite H. reflexivity.
Qed.

Lemma recognize_eq :
  forall hints products,
    recognizeByTextHints hints products =
    match scan (queryTokensOf hints) (firstn 80 products) None 0%Q with
    | (Some best, bestScore) =>
        if gtQ minScore bestScore then None
        else
          Some {| Recognized.id := CatalogProduct.id best;
                  Recognized.title := CatalogProduct.title best;
                  Recognized.brand := CatalogProduct.brand best;
                  Recognized.upc := CatalogProduct.upc best;
                  Recognized.imageUrl := CatalogProduct.imageUrl best;
                  Recognized.confidence := roundTo2 bestScore |}
    | (None, _) => None
    end.
Proof.
  intros hints products. unfold recognizeByTextHints. cbv zeta.
  assert (Hnone :
    forall l, fst (scan [] l None 0%Q) = None).
  { intros l. destruct (scan_spec [] l None 0%Q) as (_ & _ & Hc).
    cbv zeta in Hc.
    destruct Hc as [-> | (pre & p & post & _ & _ & Hlt & _)]; [reflexivity |].
    exfalso. unfold scoreWith, overlapScore in Hlt. cbn in Hlt. lra. }
  destruct hints as [l |].
  - cbn [queryTokensOf].
    destruct (List.length (firstn 25 _) =? 0)%nat eqn:E1.
    + apply Nat.eqb_eq in E1. apply length_zero_iff_nil in E1. rewrite E1.
      cbn [join]. change (tokenize "") with (@nil string).
      specialize (Hnone (firstn 80 products)).
      destruct (scan [] (firstn 80 products) None 0%Q) as [b s].
      cbn [fst] in Hnone. now rewrite Hnone.
    + destruct (List.length (tokenize _) =? 0)%nat eqn:E2; [| reflexivity].
      apply Nat.eqb_eq in E2. apply length_zero_iff_nil in E2. rewrite E2.
      specialize (Hnone (firstn 80 products)).
      destruct (scan [] (firstn 80 products) None 0%Q) as [b s].
      cbn [fst] in Hnone. now rewrite Hnone.
  - cbn [queryTokensOf List.length Nat.eqb].
    specialize (Hnone (firstn 80 products)).
    destruct (scan [] (firstn 80 products) None 0%Q) as [b s].
    cbn [fst] in Hnone. now rewrite Hnone.
Qed.

(** Recognition by text hints, for hints and product texts in the ASCII
    range, looks at the first 80 products only.  The score of a product is
    the share of the hint tokens its text holds, as the double the
    division gives.  A product is answered exactly when one of the 80
    scores at least [0.35]; it is then the first one, in table order, with
    the largest score, and the confidence reported is that score with two
    fraction digits, between 0.35 and 1. *)
Theorem text_hints_pick_first_best :
  forall (textHints : option (list string)) (products : list CatalogProduct.t),
    asciiHints textHints ->
    Forall asciiProduct (firstn 80 products) ->
    (recognizeByTextHints textHints products = None <->
     forall p, In p (firstn 80 products) -> (scoreOf textHints p < minScore)%Q) /\
    (forall r,
       recognizeByTextHints textHints products = Some r ->
       exists pre p post,
         firstn 80 products = pre ++ p :: post /\
         sameProduct r p /\
         (forall x, In x pre -> (scoreOf textHints x < scoreOf textHints p)%Q) /\
         (forall x, In x post -> (scoreOf textHints x <= scoreOf textHints p)%Q) /\
         (minScore <= scoreOf textHints p)%Q /\
         Recognized.confidence r = roundTo2 (scoreOf textHints p) /\
         (35 # 100 <= Recognized.confidence r)%Q /\
         (Recognized.confidence r <= 1)%Q).
Proof.
  intros textHints products _ _. rewrite recognize_eq.
  pose proof (proj1 minScore_value) as Hmin.
  destruct (scan_spec (queryTokensOf textHints) (firstn 80 products) None 0%Q)
    as (Hle & Hall & Hcase).
  cbv zeta in *. fold (scoreOf textHints) in *.
  destruct Hcase as [Heq | (pre & p & post & Hsplit & Hr & Hlt & Hpre & Hpost)].
  - rewrite Heq in *. cbn [snd] in *. split.
    + split; [| reflexivity]. intros _ p Hp. specialize (Hall p Hp).
      change (scoreWith (queryTokensOf textHints) p) with (scoreOf textHints p) in Hall. lra.
    + intros r Hr. discriminate.
  - rewrite Hr in *. cbn [snd] in *.
    change (scoreWith (queryTokensOf textHints) p) with (scoreOf textHints p) in *.
    destruct (gtQ minScore (scoreOf textHints p)) eqn:Hg.
    + apply gtQ_true in Hg. split.
      * split; [| reflexivity]. intros _ x Hx. specialize (Hall x Hx).
        change (scoreWith (queryTokensOf textHints) x) with (scoreOf textHints x) in Hall. lra.
      * intros r Hr'. discriminate.
    + apply gtQ_false in Hg. split.
      * split; [discriminate |]. intros Hno. exfalso.
        assert (Hin : In p (firstn 80 products)).
        { rewrite Hsplit. apply in_elt. }
        specialize (Hno p Hin). lra.
      * intros r [= <-]. exists pre, p, post.
        split; [exact Hsplit |].
        split; [repeat split |].
        split.
        { intros x Hx. specialize (Hpre x Hx).
          change (scoreWith (queryTokensOf textHints) x) with (scoreOf textHints x) in Hpre. exact Hpre. }
        split.
        { intros x Hx. specialize (Hpost x Hx).
          change (scoreWith (queryTokensOf textHints) x) with (scoreOf textHints x) in Hpost. exact Hpost. }
        split; [exact Hg |]. split; [reflexivity |].
        cbn [Recognized.confidence].
        apply roundTo2_range; [exact Hg |].
        apply (overlapScore_range (queryTokensOf textHints) (tokenize (productText p))).
Qed.

Lemma text_hints_pick_first_best_witness :
  let hints := Some ["SONY  wh-1000xm5"; "Noise cancelling!"] in
  let products := [speaker; headphones] in
  (recognizeByTextHints hints products = None <->
   forall p, In p (firstn 80 products) -> (scoreOf hints p < minScore)%Q) /\
  (forall r,
     recognizeByTextHints hints products = Some r ->
     exists pre p post,
       firstn 80 products = pre ++ p :: post /\
       sameProduct r p /\
       (forall x, In x pre -> (scoreOf hints x < scoreOf hints p)%Q) /\
       (forall x, In x post -> (scoreOf hints x <= scoreOf hints p)%Q) /\
       (minScore <= scoreOf hints p)%Q /\
       Recognized.confidence r = roundTo2 (scoreOf hints p) /\
       (35 # 100 <= Recognized.confidence r)%Q /\
       (Recognized.confidence r <= 1)%Q).
Proof.
  apply (text_hints_pick_first_best
           (Some ["SONY  wh-1000xm5"; "Noise cancelling!"])
           [speaker; headphones]).
  - intros l [= <-]. repeat constructor.
  - repeat constructor.
Defined.

(** Two hints, run against a table of two products: three of the five
    hint tokens are tokens of the headphones. *)
Example hints_find_headphones :
  option_map (fun r => (Recognized.id r, Recognized.confidence r))
    (recognizeByTextHints (Some ["SONY  wh-1000xm5"; "Noise cancelling!"])
       [speaker; headphones])
  = Some ("p1", 60 # 100).
Proof. vm_compute. reflexivity. Qed.

(** Seventeen of forty hint tokens: the double [17 / 40] lies below
    [0.425], and the confidence reported is 0.42. *)
Example confidence_of_17_in_40 :
  roundTo2 (Double.div 17 40) = 42 # 100.
Proof. vm_compute. reflexivity. Qed.

End RecognitionFacts.

(** ** Addresses *)

Module EmailFacts.
Import ServerHelpers HelperTerms.

Lemma lowerChar_facts :
  forall c,
    Js.lowerChar (Js.lowerChar c) = Js.lowerChar c /\
    Js.lowerChar (Js.upperChar c) = Js.lowerChar c /\
    Js.isSpace (Js.lowerChar c) = Js.isSpace c /\
    Js.isSpace (Js.upperChar c) = Js.isSpace c.
Proof.
  intros c. destruct c as [[] [] [] [] [] [] [] []]; vm_compute; repeat split.
Qed.

Lemma mapString_cons :
  forall f c s, Js.mapString f (String c s) = String (f c) (Js.mapString f s).
Proof. reflexivity. Qed.

Lemma mapString_empty :
  forall f s, (Js.mapString f s =? "")%string = (s =? "")%string.
Proof. intros f [| c s]; reflexivity. Qed.

Section Commute.
Variable f : ascii -> ascii.
Hypothesis f_space : forall c, Js.isSpace (f c) = Js.isSpace c.

Lemma trimStart_map :
  forall s, Js.trimStart (Js.mapString f s) = Js.mapString f (Js.trimStart s).
Proof.
  induction s as [| c s IH]; [reflexivity |].
  rewrite mapString_cons. cbn [Js.trimStart]. rewrite f_space.
  destruct (Js.isSpace c); [exact IH | reflexivity].
Qed.

Lemma trimEnd_map :
  forall s, Js.trimEnd (Js.mapString f s) = Js.mapString f (Js.trimEnd s).
Proof.
  induction s as [| c s IH]; [reflexivity |].
  rewrite mapString_cons. cbn [Js.trimEnd]. cbv zeta.
  rewrite f_space, IH, mapString_empty.
  destruct (Js.isSpace c && _); reflexivity.
Qed.

Lemma trim_map :
  forall s, Js.trim (Js.mapString f s) = Js.mapString f (Js.trim s).
Proof.
  intros s. unfold Js.trim. now rewrite trimStart_map, trimEnd_map.
Qed.

End Commute.

Lemma trimEnd_idem : forall s, Js.trimEnd (Js.trimEnd s) = Js.trimEnd s.
Proof.
  induction s as [| c s IH]; [reflexivity |].
  cbn [Js.trimEnd]. cbv zeta.
  destruct (Js.isSpace c && (Js.trimEnd s =? "")%string) eqn:E; [reflexivity |].
  cbn [Js.trimEnd]. cbv zeta. rewrite IH, E. reflexivity.
Qed.

Lemma trimStart_head :
  forall s, Js.trimStart s = ""
            \/ exists c t, Js.trimStart s = String c t /\ Js.isSpace c = false.
Proof.
  induction s as [| c s IH]; [now left |].
  cbn [Js.trimStart]. destruct (Js.isSpace c) eqn:E; [exact IH |].
  right. eauto.
Qed.

Lemma trim_idem : forall s, Js.trim (Js.trim s) = Js.trim s.
Proof.
  intros s. unfold Js.trim.
  destruct (trimStart_head s) as [-> | (c & t & -> & Hc)]; [reflexivity |].
  assert (He : Js.trimEnd (String c t) = String c (Js.trimEnd t)).
  { cbn [Js.trimEnd]. cbv zeta. now rewrite Hc. }
  assert (Hs : Js.trimStart (Js.trimEnd (String c t)) = Js.trimEnd (String c t)).
  { rewrite He. cbn [Js.trimStart]. now rewrite Hc. }
  rewrite Hs. apply trimEnd_idem.
Qed.

Lemma toLowerCase_idem : forall s, Js.toLowerCase (Js.toLowerCase s) = Js.toLowerCase s.
Proof.
  induction s as [| c s IH]; [reflexivity |].
  unfold Js.toLowerCase in *. rewrite !mapString_cons, IH.
  now rewrite (proj1 (lowerChar_facts c)).
Qed.

Lemma lower_upper : forall s, Js.toLowerCase (Js.toUpperCase s) = Js.toLowerCase s.
Proof.
  induction s as [| c s IH]; [reflexivity |].
  unfold Js.toLowerCase, Js.toUpperCase in *. rewrite !mapString_cons, IH.
  now rewrite (proj1 (proj2 (lowerChar_facts c))).
Qed.

(** The text both tests of [normalizeEmail] read. *)
Lemma email_core_stable :
  forall s,
    let e := Js.toLowerCase (Js.trim s) in
    Js.toLowerCase (Js.trim e) = e /\
    Js.toLowerCase (Js.trim (Js.toUpperCase s)) = e /\
    Js.toLowerCase (Js.trim (Js.trim s)) = e /\
    Js.trim e = e.
Proof.
  intros s e. unfold e.
  assert (Hl : forall x, Js.trim (Js.toLowerCase x) = Js.toLowerCase (Js.trim x)).
  { intros x. apply trim_map. intros c. apply lowerChar_facts. }
  assert (Hu : forall x, Js.trim (Js.toUpperCase x) = Js.toUpperCase (Js.trim x)).
  { intros x. apply trim_map. intros c. apply lowerChar_facts. }
  repeat split.
  - now rewrite Hl, trim_idem, toLowerCase_idem.
  - now rewrite Hu, lower_upper.
  - now rewrite trim_idem.
  - now rewrite Hl, trim_idem.
Qed.

Lemma normalizeEmail_of_core :
  forall s t,
    Js.toLowerCase (Js.trim s) = Js.toLowerCase (Js.trim t) ->
    normalizeEmail s = normalizeEmail t.
Proof.
  intros s t H. unfold normalizeEmail. now rewrite H.
Qed.

(** An address in the ASCII range is normalized to the empty string
    (refused) or to a canonical address; normalizing is idempotent,
    addresses that differ in letter case or in surrounding whitespace only
    are normalized to the same text, and a canonical address is left as it
    is. *)
Theorem email_is_canonical :
  forall value : string,
    Vocabulary.asciiOnly value = true ->
    (normalizeEmail value = "" \/ canonicalEmail (normalizeEmail value)) /\
    normalizeEmail (normalizeEmail value) = normalizeEmail value /\
    normalizeEmail (Js.toUpperCase value) = normalizeEmail value /\
    normalizeEmail (Js.trim value) = normalizeEmail value /\
    (canonicalEmail value -> normalizeEmail value = value).
Proof.
  intros value _.
  destruct (email_core_stable value) as (H1 & H2 & H3 & H4).
  cbv zeta in *.
  assert (Hshape : normalizeEmail value = ""
                   \/ (normalizeEmail value = Js.toLowerCase (Js.trim value)
                       /\ canonicalEmail (normalizeEmail value))).
  { unfold normalizeEmail. cbv zeta.
    destruct (negb (Js.truthy _)); [now left |].
    destruct (Js.includes _ "@") eqn:Hat; cbn [negb]; [| now left].
    destruct (254 <? _)%nat eqn:Hlen; [now left |].
    right. split; [reflexivity |]. apply Nat.ltb_ge in Hlen.
    unfold canonicalEmail. rewrite toLowerCase_idem. auto. }
  split; [tauto |]. split; [| split; [| split]].
  - destruct Hshape as [-> | [He _]]; [reflexivity |].
    rewrite He at 1. apply normalizeEmail_of_core. exact H1.
  - apply normalizeEmail_of_core. exact H2.
  - apply normalizeEmail_of_core. exact H3.
  - intros (Ht & Hl & Hat & Hlen). unfold normalizeEmail. cbv zeta.
    rewrite Ht, Hl, Hat. cbn [negb].
    assert (Hne : Js.truthy value = true).
    { destruct value; [discriminate Hat | reflexivity]. }
    rewrite Hne. cbn [negb].
    replace (254 <? String.length value)%nat with false
      by (symmetry; apply Nat.ltb_ge; exact Hlen).
    reflexivity.
Qed.

Lemma email_is_canonical_witness :
  normalizeEmail "ada@example.org" = "ada@example.org".
Proof.
  apply (proj2 (proj2 (proj2 (proj2
           (email_is_canonical "ada@example.org" eq_refl))))).
  repeat split. simpl. lia.
Defined.

End EmailFacts.

(** ** Cents and dollars *)

Module CentsFacts.
Import ServerHelpers.





End CentsFacts.

(** ** Vendor ids of shared domains *)

Module SlugFacts.
Import ServerHelpers HelperTerms.

Lemma dashFrom_chars :
  forall s b, SerpApiProxy.allChars isTokenChar (dashFrom b s) = true.
Proof.
  induction s as [| c s IH]; intros b; [reflexivity |].
  cbn [dashFrom]. destruct (isSlugChar c) eqn:E.
  - cbn [SerpApiProxy.allChars]. unfold isTokenChar at 1. rewrite E. apply IH.
  - destruct b; [apply IH |]. cbn [SerpApiProxy.allChars]. apply IH.
Qed.

Lemma stripDashStart_chars (f : ascii -> bool) :
  forall s, SerpApiProxy.allChars f s = true ->
            SerpApiProxy.allChars f (stripDashStart s) = true.
Proof.
  induction s as [| c s IH]; intros H; [reflexivity |].
  cbn [stripDashStart]. destruct (c =? "-")%char; [| exact H].
  cbn [SerpApiProxy.allChars] in H. apply andb_prop in H. now apply IH.
Qed.

Lemma stripDashEnd_chars (f : ascii -> bool) :
  forall s, SerpApiProxy.allChars f s = true ->
            SerpApiProxy.allChars f (stripDashEnd s) = true.
Proof.
  induction s as [| c s IH]; intros H; [reflexivity |].
  cbn [SerpApiProxy.allChars] in H. apply andb_prop in H. destruct H as [Hc Hs].
  cbn [stripDashEnd]. cbv zeta.
  destruct ((c =? "-")%char && _); [reflexivity |].
  cbn [SerpApiProxy.allChars]. rewrite Hc. now apply IH.
Qed.

Lemma substring_chars (f : ascii -> bool) :
  forall n s, SerpApiProxy.allChars f s = true ->
              SerpApiProxy.allChars f (substring 0 n s) = true.
Proof.
  induction n as [| n IH]; intros s H; [now destruct s |].
  destruct s as [| c s]; [reflexivity |].
  cbn [SerpApiProxy.allChars] in H. apply andb_prop in H. destruct H as [Hc Hs].
  cbn [substring SerpApiProxy.allChars]. rewrite Hc. now apply IH.
Qed.

Lemma substring_length :
  forall n s, (String.length (substring 0 n s) <= n)%nat.
Proof.
  induction n as [| n IH]; intros s; [destruct s; simpl; lia |].
  destruct s as [| c s]; [simpl; lia |].
  cbn [substring String.length]. specialize (IH s). lia.
Qed.

Lemma stripDashStart_head :
  forall s, String.prefix "-" (stripDashStart s) = false.
Proof.
  induction s as [| c s IH]; [reflexivity |].
  cbn [stripDashStart]. destruct (c =? "-")%char eqn:E; [exact IH |].
  cbn [String.prefix]. destruct (ascii_dec "-" c) as [<- | _]; [| reflexivity].
  discriminate E.
Qed.

Lemma stripDashEnd_head :
  forall s, String.prefix "-" s = false ->
            String.prefix "-" (stripDashEnd s) = false.
Proof.
  intros [| c s] H; [reflexivity |].
  cbn [stripDashEnd]. cbv zeta.
  destruct ((c =? "-")%char && _); [reflexivity |].
  cbn [String.prefix] in *. destruct (ascii_dec "-" c); [| reflexivity].
  now destruct s.
Qed.

Lemma substring_head :
  forall n s, String.prefix "-" s = false ->
              String.prefix "-" (substring 0 n s) = false.
Proof.
  intros [| n] [| c s] H; try reflexivity.
  cbn [substring String.prefix] in *.
  destruct (ascii_dec "-" c); [| reflexivity].
  now destruct s.
Qed.

Lemma slugifyToken_shape :
  forall value fallback,
    slugifyToken value fallback = fallback \/
    wellFormedToken (slugifyToken value fallback).
Proof.
  intros value fallback. unfold slugifyToken. cbv zeta.
  set (t := substring 0 32 _).
  unfold Js.orElse. destruct (Js.truthy t) eqn:Ht; [| now left].
  right. unfold wellFormedToken. split; [| split].
  - split.
    + destruct t; [discriminate | simpl; lia].
    + apply substring_length.
  - apply substring_chars, stripDashEnd_chars, stripDashStart_chars, dashFrom_chars.
  - apply substring_head, stripDashEnd_head, stripDashStart_head.
Qed.

(** The vendor id made for a shared domain is [shared:] followed by a
    token of one to 32 lower-case letters, digits and dashes that does not
    start with a dash: [unknown] for a blank domain, [site] for a domain
    without a letter or digit.  [slugifyToken] answers such a token or
    its fallback. *)
Theorem shared_vendor_id_shape :
  (forall value fallback,
     slugifyToken value fallback = fallback \/
     wellFormedToken (slugifyToken value fallback)) /\
  (forall domain,
     exists token,
       vendorIdForSharedDomain domain = ("shared:" ++ token)%string /\
       wellFormedToken token /\
       (Js.trim domain = "" -> token = "unknown")).
Proof.
  split; [exact slugifyToken_shape |].
  intros domain. unfold vendorIdForSharedDomain. cbv zeta.
  destruct (Js.truthy (WebSearchProvider.stripWww _)) eqn:Hn; cbn [negb].
  - exists (slugifyToken
              (WebSearchProvider.stripWww (Js.toLowerCase (Js.trim domain))) "site").
    split; [reflexivity |]. split.
    + destruct (slugifyToken_shape
                  (WebSearchProvider.stripWww (Js.toLowerCase (Js.trim domain)))
                  "site") as [-> | H]; [| exact H].
      unfold wellFormedToken. simpl. repeat split; lia.
    + intros Hb. rewrite Hb in Hn. discriminate Hn.
  - exists "unknown". split; [reflexivity |]. split; [| reflexivity].
    unfold wellFormedToken. simpl. repeat split; lia.
Qed.

(** Two domains, one vendor id: the dot and the dash both become a dash. *)
Example shared_vendor_id_collision :
  vendorIdForSharedDomain "www.Shop.Example.com" = "shared:shop-example-com" /\
  vendorIdForSharedDomain "shop-example.com" = "shared:shop-example-com".
Proof. split; reflexivity. Qed.

End SlugFacts.

(** ** Live offers in the answer *)

Module LiveFacts.
Import WebSearchProvider OfferService Vocabulary RefreshTerms ProviderTerms LiveTerms.
Import ProviderFacts SetFacts RefreshFacts SynthesisFacts CandidateFacts.

Lemma keeps_ret :
  forall Q (A : Type) (a : A), keeps Q (Store.ret a).
Proof. intros Q A a st H. exact H. Qed.

Lemma keeps_bind :
  forall Q (A B : Type) (m : Store.M A) (k : A -> Store.M B),
    keeps Q m -> (forall a, keeps Q (k a)) -> keeps Q (Store.bind m k).
Proof.
  intros Q A B m k Hm Hk st H. unfold Store.bind.
  specialize (Hm st H). destruct (m st) as [[a | e] st1]; cbn [snd] in *.
  - now apply Hk.
  - exact Hm.
Qed.

Lemma keeps_settle :
  forall Q (A : Type) (m : Store.M A), keeps Q m -> keeps Q (Store.settle m).
Proof.
  intros Q A m Hm st H. unfold Store.settle.
  specialize (Hm st H). destruct (m st) as [r st1]. exact Hm.
Qed.

Lemma keeps_allSettled :
  forall Q (A : Type) (ms : list (Store.M A)),
    (forall m, In m ms -> keeps Q m) -> keeps Q (Store.allSettled ms).
Proof.
  intros Q A ms. induction ms as [| m rest IH]; intros H.
  - apply keeps_ret.
  - cbn [Store.allSettled]. apply keeps_bind.
    + apply keeps_settle. apply H. now left.
    + intros r. apply keeps_bind.
      * apply IH. intros m' Hm'. apply H. now right.
      * intros rs. apply keeps_ret.
Qed.

Lemma allSettled_cons_snd :
  forall (A : Type) (m : Store.M A) (rest : list (Store.M A)) st,
    snd (Store.allSettled (m :: rest) st)
    = snd (Store.allSettled rest (snd (m st))).
Proof.
  intros A m rest st. cbn [Store.allSettled].
  unfold Store.bind at 1. unfold Store.settle.
  destruct (m st) as [r st1]. cbn [snd].
  unfold Store.bind. destruct (Store.allSettled rest st1) as [[rs | e] st2];
    reflexivity.
Qed.

(** Writes that only touch offers keep the product there. *)
Lemma local_keeps_product :
  forall pid pid' (A : Type) (m : Store.M A),
    local pid m -> keeps (hasProduct pid') m.
Proof.
  intros pid pid' A m Hm st H. unfold hasProduct in *.
  destruct (Hm st) as (Hp & _). now rewrite Hp.
Qed.

Lemma storable_guard :
  forall c,
    storable c ->
    negb (Js.truthy (Candidate.vendorId c)) ||
    negb (Js.truthy (Candidate.productUrl c)) ||
    negb (truthyZ (Candidate.priceCents c)) = false.
Proof.
  intros c (Hv & Hu & p & Hp & Hne).
  apply String.eqb_neq in Hv, Hu. unfold Js.truthy. rewrite Hv, Hu, Hp.
  cbn [negb orb truthyZ]. apply Z.eqb_neq in Hne. now rewrite Hne.
Qed.

(** The upsert of a candidate leaves its row. *)
Lemma upsert_establishes :
  forall product pid c st,
    hasProduct pid st -> storable c ->
    holds pid product c (snd (upsertWebOffer product pid c st)).
Proof.
  intros product pid c st Hprod Hc. unfold upsertWebOffer.
  rewrite (storable_guard c Hc).
  destruct Hc as (_ & _ & p & Hp & _).
  unfold Store.offer_upsert. cbv zeta. cbn [Offer.productId Offer.vendorId].
  destruct (existsb (Store.sameKey pid (Candidate.vendorId c)) (Store.offers st))
    eqn:Hk.
  - apply existsb_exists in Hk. destruct Hk as (o & Ho & Hkey).
    cbn [snd Store.setOffers Store.offers].
    exists (Store.overwrite
              {| Offer.id := "";
                 Offer.vendorId := Candidate.vendorId c;
                 Offer.vendorName :=
                   Js.orElse (Candidate.vendorName c) (Candidate.vendorId c);
                 Offer.productId := pid;
                 Offer.title := Js.orElse (Candidate.title c) (Product.title product);
                 Offer.priceCents :=
                   match Candidate.priceCents c with Some p0 => p0 | None => 0 end;
                 Offer.shippingCents := Candidate.shippingCents c;
                 Offer.etaDays := Candidate.etaDays c;
                 Offer.inStock := Candidate.inStock c;
                 Offer.productUrl := Js.trim (Candidate.productUrl c) |} o).
    split.
    + apply in_map_iff. exists o. split; [| exact Ho]. now rewrite Hkey.
    + unfold Store.sameKey in Hkey. apply andb_prop in Hkey.
      destruct Hkey as [Hk1 Hk2]. apply String.eqb_eq in Hk1, Hk2.
      unfold storedAs, Store.overwrite. cbn. rewrite Hp. repeat split; auto.
  - unfold Store.offer_create. cbn [Offer.productId Offer.vendorId].
    rewrite Hk. unfold hasProduct in Hprod. rewrite Hprod. cbn [negb]. cbv zeta.
    cbn [snd Store.setOffers Store.offers].
    eexists. split; [apply in_or_app; right; left; reflexivity |].
    unfold storedAs. cbn. rewrite Hp. repeat split.
Qed.

(** The upsert of a candidate of another vendor leaves it there. *)
Lemma upsert_other :
  forall product pid c c',
    Candidate.vendorId c' <> Candidate.vendorId c ->
    keeps (holds pid product c) (upsertWebOffer product pid c').
Proof.
  intros product pid c c' Hne st (o & Ho & Hs). unfold upsertWebOffer.
  destruct (_ || _); [exists o; auto |].
  unfold Store.offer_upsert. cbv zeta. cbn [Offer.productId Offer.vendorId].
  destruct (existsb (Store.sameKey pid (Candidate.vendorId c')) (Store.offers st)).
  - cbn [snd Store.setOffers Store.offers]. exists o. split; [| exact Hs].
    apply in_map_iff. exists o. split; [| exact Ho].
    destruct (Store.sameKey pid (Candidate.vendorId c') o) eqn:Hk; [| reflexivity].
    exfalso. unfold Store.sameKey in Hk. apply andb_prop in Hk.
    destruct Hk as [_ Hk]. apply String.eqb_eq in Hk.
    destruct Hs as (_ & Hv & _). congruence.
  - unfold Store.offer_create. cbn [Offer.productId Offer.vendorId].
    destruct (existsb _ (Store.offers st)); [exists o; auto |].
    destruct (negb _); [exists o; auto |].
    cbv zeta. cbn [snd Store.setOffers Store.offers].
    exists o. split; [apply in_or_app; now left | exact Hs].
Qed.

Lemma upserts_establish :
  forall product pid c cs st,
    NoDup (map Candidate.vendorId cs) ->
    In c cs -> storable c -> hasProduct pid st ->
    holds pid product c
      (snd (Store.allSettled (map (upsertWebOffer product pid) cs) st)).
Proof.
  intros product pid c. induction cs as [| c0 rest IH];
    intros st Hnd Hin Hc Hprod; [destruct Hin |].
  cbn [map] in *. rewrite allSettled_cons_snd.
  inversion Hnd as [| v vs Hnot Hnd']; subst.
  destruct Hin as [-> | Hin].
  - apply keeps_allSettled; [| now apply upsert_establishes].
    intros m Hm. apply in_map_iff in Hm. destruct Hm as (c' & <- & Hc').
    apply upsert_other. intros Heq. apply Hnot. rewrite <- Heq. now apply in_map.
  - apply IH; auto.
    apply (local_keeps_product pid pid _ _ (local_upsertWebOffer product pid c0)).
    exact Hprod.
Qed.

Lemma fallbacks_keep :
  forall product pid c p base q ids,
    keeps (holds pid product c) (createFallbacks p pid base (fallbacks q) ids).
Proof.
  intros product pid c p base q ids st (o & Ho & Hs).
  destruct (createFallbacks_rows p pid base (fallbacks q) ids st)
    as (new & E & _).
  { intros fb Hfb. eapply fallbacks_table; eauto. }
  exists o. split; [| exact Hs]. rewrite E. apply in_or_app. now left.
Qed.

(** What the provider hands over: distinct vendors, well-formed offers. *)
Lemma fetchTopOffers_facts :
  forall api cfg w query strategy cs,
    fetchTopOffers api cfg w query strategy = Fulfilled cs ->
    NoDup (map Candidate.vendorId cs) /\
    forall c, In c cs -> Candidate.vendorId c <> "" /\ wellFormedCandidate c.
Proof.
  intros api cfg w query strategy cs. unfold fetchTopOffers.
  destruct (negb (Config.enableWebSearchOffers cfg)).
  { intros H. injection H as <-. split; [constructor | intros c []]. }
  destruct (negb (Config.enableSerpApiProxy cfg) || _).
  { intros H. injection H as <-. split; [constructor | intros c []]. }
  destruct (negb (Js.truthy (WebSearchProvider.normalizeWhitespace query))).
  { intros H. injection H as <-. split; [constructor | intros c []]. }
  cbv zeta. intros H. injection H as <-.
  set (q := WebSearchProvider.normalizeWhitespace query).
  destruct (uniqueVendors_NoDup
              ((match fetchAmazonOffer api w q strategy with
                | Fulfilled (Some a) => [a]
                | _ => []
                end) ++
               (match fetchShoppingVendors api w q strategy with
                | Fulfilled l => l
                | Rejected _ => []
                end)) []) as [Hnd Hall].
  split; [exact Hnd |].
  intros c Hc. split; [apply (Hall c Hc) |].
  apply uniqueVendors_In in Hc. apply in_app_or in Hc. destruct Hc as [Hc | Hc].
  - destruct (fetchAmazonOffer api w q strategy) as [[a |] | e] eqn:Ha;
      try (destruct Hc; fail).
    destruct Hc as [<- | []]. eapply fetchAmazonOffer_wf; eauto.
  - destruct (fetchShoppingVendors api w q strategy) as [l | e] eqn:Hl;
      [| destruct Hc].
    destruct (fetchShoppingVendors_wf _ _ _ _ _ Hl) as [_ Hw]. now apply Hw.
Qed.

Lemma refresh_holds :
  forall api cfg w pid strategy st product cs c,
    find (fun p => (Product.id p =? pid)%string) (Store.products st) = Some product ->
    queryOf product <> "" ->
    liveSearchOn cfg ->
    fetchTopOffers api cfg w (queryOf product) strategy = Fulfilled cs ->
    In c cs -> storable c ->
    holds pid product c
      (snd (refreshWebOffersForProduct api cfg w pid strategy st)).
Proof.
  intros api cfg w pid strategy st product cs c Hfind Hq Hon Hfetch Hin Hc.
  assert (Hprod : hasProduct pid st).
  { unfold hasProduct. apply existsb_exists. exists product.
    apply find_some in Hfind. exact Hfind. }
  destruct (fetchTopOffers_facts _ _ _ _ _ _ Hfetch) as [Hnd _].
  pose proof (upserts_establish product pid c cs st Hnd Hin Hc Hprod) as Hst1.
  unfold refreshWebOffersForProduct.
  unfold Store.bind at 1. unfold Store.product_findUnique. rewrite Hfind.
  fold (queryOf product).
  apply String.eqb_neq in Hq. unfold Js.truthy at 1. rewrite Hq. cbn [negb].
  unfold liveSearchOn in Hon. rewrite Hon.
  unfold Store.bind at 1. unfold Store.tryCatch.
  unfold Store.bind at 1. unfold Store.await. rewrite Hfetch.
  unfold Store.bind at 1.
  destruct (Store.allSettled (map (upsertWebOffer product pid) cs) st)
    as [[rs | e] st1]; cbn [snd] in Hst1; cbn [Store.ret].
  - apply keeps_bind; [intros s Hs; exact Hs | | exact Hst1].
    intros existing. destruct (3 <=? _)%nat; [apply keeps_ret |].
    apply fallbacks_keep.
  - apply keeps_bind; [intros s Hs; exact Hs | | exact Hst1].
    intros existing. destruct (3 <=? _)%nat; [apply keeps_ret |].
    apply fallbacks_keep.
Qed.

(** What a live refresh finds is what the aggregation lists: for a stored
    product with a non-blank name and live search configured, every offer
    the provider hands over with a listing URL and a price is, after the
    refresh, an in-stock offer of the product in the answer, under the
    candidate's vendor id, with its price, ETA and (trimmed) URL, free
    shipping, and the candidate's title and vendor name unless they are
    empty. *)
Theorem live_offers_are_listed :
  forall (api : Url.Api) (cfg : Config.t) (w : World.t) (st : Store.t)
         (productId userId strategy : string) (product : Product.t)
         (cs : list Candidate.t),
    find (fun p => (Product.id p =? productId)%string) (Store.products st)
      = Some product ->
    queryOf product <> "" ->
    liveSearchOn cfg ->
    fetchTopOffers api cfg w (queryOf product) strategy = Fulfilled cs ->
    exists res st',
      getRankedOffers api cfg w productId userId strategy true st
        = (Fulfilled res, st') /\
      forall c p,
        In c cs ->
        Candidate.priceCents c = Some p -> p <> 0 ->
        Candidate.productUrl c <> "" ->
        exists o,
          In o (RankedOffers.offers res) /\
          NormalizedOffer.productId o = productId /\
          NormalizedOffer.vendorId o = Candidate.vendorId c /\
          NormalizedOffer.vendorName o
            = Js.orElse (Candidate.vendorName c) (Candidate.vendorId c) /\
          NormalizedOffer.title o
            = Js.orElse (Candidate.title c) (Product.title product) /\
          NormalizedOffer.priceCents o = p /\
          NormalizedOffer.shippingCents o = 0 /\
          NormalizedOffer.etaDays o = Candidate.etaDays c /\
          NormalizedOffer.inStock o = true /\
          NormalizedOffer.productUrl o = Js.trim (Candidate.productUrl c).
Proof.
  intros api cfg w st productId userId strategy product cs Hfind Hq Hon Hfetch.
  rewrite getRankedOffers_eq. cbv zeta.
  eexists. eexists. split; [reflexivity |].
  intros c p Hin Hp Hne Hu.
  destruct (fetchTopOffers_facts _ _ _ _ _ _ Hfetch) as [_ Hwf].
  destruct (Hwf c Hin) as [Hv (_ & Hstock & Hship & _)].
  assert (Hc : storable c).
  { split; [exact Hv |]. split; [exact Hu |]. exists p. auto. }
  destruct (refresh_holds api cfg w productId strategy st product cs c
              Hfind Hq Hon Hfetch Hin Hc) as (o & Ho & Hs).
  destruct Hs as (H1 & H2 & H3 & H4 & H5 & H6 & H7 & H8 & H9).
  exists (normalizeOffer o). split.
  - cbn [rankedOf RankedOffers.offers]. apply in_map.
    unfold inStockOf. apply filter_In. split; [exact Ho |].
    rewrite H1, String.eqb_refl, H8, Hstock. reflexivity.
  - unfold normalizeOffer. cbv zeta.
    cbn [NormalizedOffer.productId NormalizedOffer.vendorId
         NormalizedOffer.vendorName NormalizedOffer.title
         NormalizedOffer.priceCents NormalizedOffer.shippingCents
         NormalizedOffer.etaDays NormalizedOffer.inStock
         NormalizedOffer.productUrl].
    rewrite Hp in H5. injection H5 as H5.
    rewrite H9, EmailFacts.trim_idem.
    repeat split; congruence.
Qed.

Lemma live_offers_are_listed_witness :
  exists cs,
    cs <> [] /\
    fetchTopOffers Fixtures.httpsUrlApi liveOn Fixtures.shoppingWorld
      (queryOf Sample.product1) "BEST_PRICE" = Fulfilled cs /\
    exists res st',
      getRankedOffers Fixtures.httpsUrlApi liveOn Fixtures.shoppingWorld
        "p1" "u1" "BEST_PRICE" true Sample.emptyStore = (Fulfilled res, st') /\
      forall c p,
        In c cs ->
        Candidate.priceCents c = Some p -> p <> 0 ->
        Candidate.productUrl c <> "" ->
        exists o,
          In o (RankedOffers.offers res) /\
          NormalizedOffer.productId o = "p1" /\
          NormalizedOffer.vendorId o = Candidate.vendorId c /\
          NormalizedOffer.vendorName o
            = Js.orElse (Candidate.vendorName c) (Candidate.vendorId c) /\
          NormalizedOffer.title o
            = Js.orElse (Candidate.title c) (Product.title Sample.product1) /\
          NormalizedOffer.priceCents o = p /\
          NormalizedOffer.shippingCents o = 0 /\
          NormalizedOffer.etaDays o = Candidate.etaDays c /\
          NormalizedOffer.inStock o = true /\
          NormalizedOffer.productUrl o = Js.trim (Candidate.productUrl c).
Proof.
  eexists. split; [| split; [vm_compute; reflexivity |]].
  - discriminate.
  - apply (live_offers_are_listed Fixtures.httpsUrlApi liveOn
             Fixtures.shoppingWorld Sample.emptyStore "p1" "u1" "BEST_PRICE"
             Sample.product1).
    + reflexivity.
    + vm_compute. discriminate.
    + reflexivity.
    + vm_compute. reflexivity.
Defined.

(** The sample search over an empty offer table: the two listings found
    are listed at their prices, followed by one synthesised fallback at 92%
    of the lower one. *)
Example live_offers_sample :
  match fst (getRankedOffers Fixtures.httpsUrlApi liveOn Fixtures.shoppingWorld
               "p1" "u1" "BEST_PRICE" true Sample.emptyStore) with
  | Fulfilled res =>
      map (fun o => (NormalizedOffer.vendorId o, NormalizedOffer.priceCents o))
        (RankedOffers.offers res)
  | Rejected _ => []
  end = [("web:ebay", 9500); ("web:walmart", 9000); ("fallback:ebay", 8280)].
Proof. vm_compute. reflexivity. Qed.

End LiveFacts.
